(** * get_subnets: prefix-set normalization

    A shallow embedding of [get_subnets.go] (package main) together with the
    parts of its two address libraries that the program calls:
    [net/netip] (parsing and printing of prefixes) and [go4.org/netipx]
    (the [IPSetBuilder] that merges ranges and splits them into prefixes).

    Conventions.
    - A Go [string] is a Rocq [string]: a sequence of 8-bit bytes.
    - An unsigned machine integer is a [Z]; the width is stated where the
      value is built, and wrap-around is written out where Go wraps.
    - [log.Printf] is modelled by the list of messages written so far.
    - The program only ever hands IPv4 prefixes to the set builder
      ([prefix.Addr().Is4()] guards every [AddPrefix]), so ranges hold
      32-bit addresses.  Parsing and printing of IPv6 text is kept as a
      parameter of the development: its result never reaches the set. *)

From Stdlib Require Import ZArith List String Ascii Bool Lia.
From Stdlib Require Import Permutation Sorted.
Import ListNotations.
Open Scope Z_scope.

(* ================================================================= *)
(** ** 128-bit words ([netip.uint128]) *)

Module uint128.

Definition max : Z := 2 ^ 128 - 1.

(** [mask6(n)]: the word whose top [n] bits are set. *)
Definition mask6 (n : Z) : Z := Z.shiftl (Z.ones n) (128 - n).

Definition not (u : Z) : Z := Z.lxor u max.

(** [bits.LeadingZeros] of the 128-bit exclusive-or. *)
Definition commonPrefixLen (u v : Z) : Z :=
  let x := Z.lxor u v in
  if x =? 0 then 128 else 127 - Z.log2 x.

(** [bitsSetFrom(bit)]: a copy of [u] with bits [bit..127] set
    (bit 0 is the most significant one). *)
Definition bitsSetFrom (u bit : Z) : Z := Z.lor u (not (mask6 bit)).

(** [bitsClearedFrom(bit)]: a copy of [u] with bits [bit..127] cleared. *)
Definition bitsClearedFrom (u bit : Z) : Z := Z.land u (mask6 bit).

End uint128.

(* ================================================================= *)
(** ** net/netip: addresses and prefixes *)

Module netip.

(** [netip.Addr]: an IPv4 address (32 bits) or an IPv6 address
    (128 bits, with a zone). *)
Inductive Addr : Type :=
| Addr4 (a : Z)
| Addr6 (a : Z) (zone : string).

Definition Is4 (ip : Addr) : bool :=
  match ip with Addr4 _ => true | Addr6 _ _ => false end.

Definition Is6 (ip : Addr) : bool :=
  match ip with Addr4 _ => false | Addr6 _ _ => true end.

Definition BitLen (ip : Addr) : Z :=
  match ip with Addr4 _ => 32 | Addr6 _ _ => 128 end.

Definition withoutZone (ip : Addr) : Addr :=
  match ip with Addr4 a => Addr4 a | Addr6 a _ => Addr6 a EmptyString end.

(** [netip.Prefix]; [bits = -1] is the invalid prefix. *)
Record Prefix : Type := mkPrefix { ip : Addr; bits : Z }.

Definition PrefixFrom (a : Addr) (b : Z) : Prefix :=
  if (0 <=? b) && (b <=? BitLen a)
  then mkPrefix (withoutZone a) b
  else mkPrefix (withoutZone a) (-1).

Definition IsValid (p : Prefix) : bool := 0 <=? bits p.

(** [Addr.As16] of an IPv4 address: the IPv4-mapped IPv6 form
    [::ffff:a.b.c.d], as a 128-bit word. *)
Definition As16_v4 (a : Z) : Z := Z.lor (Z.shiftl 65535 32) a.

(** [Addr.Next] on IPv4: [None] is the zero [Addr] returned when the
    32-bit increment wraps. *)
Definition Next4 (a : Z) : option Z :=
  let n := (a + 1) mod 2 ^ 32 in
  if n =? 0 then None else Some n.

(** [Addr.Prefix(b)] on IPv4 keeps the top [b] bits ([mask6(b + 96)] on
    the mapped form). *)
Definition Masked4 (a b : Z) : Z :=
  Z.land (Z.land (As16_v4 a) (uint128.mask6 (b + 96))) (Z.ones 32).

End netip.

(* ================================================================= *)
(** ** go4.org/netipx: ranges and the set builder *)

Module netipx.

(** [netipx.IPRange] over IPv4: the closed interval [from .. to]. *)
Record IPRange : Type := mkRange { from : Z; to : Z }.

Definition IsValid (r : IPRange) : bool := from r <=? to r.

(** [PrefixLastIP]: set the host bits one at a time, bit [b] counted
    from the most significant one. *)
Definition PrefixLastIP (a b : Z) : Z :=
  fold_left (fun acc i => Z.lor acc (Z.shiftl 1 (31 - (b + Z.of_nat i))))
            (seq 0 (Z.to_nat (32 - b))) a.

(** [RangeOfPrefix] of the IPv4 prefix [a/b]: masks first. *)
Definition RangeOfPrefix (a b : Z) : IPRange :=
  let m := netip.Masked4 a b in
  mkRange m (PrefixLastIP m b).

(** [IPRange.less]: by [from]; on equal [from] the larger range first. *)
Definition less (r other : IPRange) : bool :=
  if from r =? from other then to other <? to r
  else from r <? from other.

(** [sort.Slice(rr, less)]: [less] is a strict total order, so the
    sorted slice is the same whichever sorting method is used; here by
    insertion. *)
Fixpoint insert (r : IPRange) (rr : list IPRange) : list IPRange :=
  match rr with
  | [] => [r]
  | x :: rest => if less x r then x :: insert r rest else r :: x :: rest
  end.

Definition sortRanges (rr : list IPRange) : list IPRange :=
  fold_right insert [] rr.

(** The loop of [mergeIPRanges]: [prev] is the last range of [out]. *)
Fixpoint mergeLoop (prev : IPRange) (rr : list IPRange)
  : option (list IPRange) :=
  match rr with
  | [] => Some [prev]
  | r :: rest =>
      if negb (IsValid r) then None
      else if match netip.Next4 (to prev) with
              | Some n => n =? from r
              | None => false
              end
      then mergeLoop (mkRange (from prev) (to r)) rest
      else if to prev <? from r
      then option_map (cons prev) (mergeLoop r rest)
      else if to prev <? to r
      then mergeLoop (mkRange (from prev) (to r)) rest
      else mergeLoop prev rest
  end.

(** [mergeIPRanges]: the minimum and sorted set of ranges covering [rr];
    [None] is the [valid = false] result. *)
Definition mergeIPRanges (rr : list IPRange) : option (list IPRange) :=
  match rr with
  | [] => Some []
  | [r] => Some [r]
  | _ =>
      match sortRanges rr with
      | [] => Some []
      | r0 :: rest => mergeLoop r0 rest
      end
  end.

(** [IPSetBuilder]: the program never removes, so only [in] and [errs]
    are live. *)
Record IPSetBuilder : Type :=
  mkBuilder { in_ : list IPRange; errs : list string }.

Definition empty : IPSetBuilder := mkBuilder [] [].

Definition AddRange (s : IPSetBuilder) (r : IPRange) : IPSetBuilder :=
  if IsValid r
  then mkBuilder (in_ s ++ [r]) (errs s)
  else mkBuilder (in_ s) (errs s ++ ["AddRange"%string]).

(** [AddPrefix] of the IPv4 prefix [a/b]. *)
Definition AddPrefix (s : IPSetBuilder) (a b : Z) : IPSetBuilder :=
  let r := RangeOfPrefix a b in
  if IsValid r then AddRange s r
  else mkBuilder (in_ s) (errs s ++ ["AddPrefix"%string]).

Definition normalize (s : IPSetBuilder) : IPSetBuilder :=
  match mergeIPRanges (in_ s) with
  | Some merged => mkBuilder merged (errs s)
  | None => s
  end.

(** [IPSet]: the sorted, merged ranges. *)
Record IPSet : Type := mkIPSet { rr : list IPRange }.

(** [IPSetBuilder.IPSet]: the set and the accumulated errors. *)
Definition IPSet_of (s : IPSetBuilder) : IPSet * list string :=
  let s' := normalize s in
  (mkIPSet (in_ s'), errs s').

(** [comparePrefixes]: the common prefix length of [a] and [b], and
    whether after it [a] is all zero bits and [b] all one bits. *)
Definition comparePrefixes (a b : Z) : Z * bool :=
  let common := uint128.commonPrefixLen a b in
  if common =? 128 then (common, true)
  else
    let m := uint128.mask6 common in
    (common,
     (Z.lxor a (Z.land a m) =? 0) && (Z.lor b m =? uint128.max)).

(** [IPRange.prefixFrom128AndBits] for an IPv4 range: [bits] is a
    [uint8], the address is the low 32 bits. *)
Definition prefixFrom128AndBits (a bits : Z) : netip.Prefix :=
  netip.PrefixFrom (netip.Addr4 (Z.land a (Z.ones 32)))
                   ((bits - 96) mod 2 ^ 8).

(** [appendRangePrefixes]; the recursion is at most 129 deep, [fuel]
    bounds it and [None] means the bound was hit. *)
Fixpoint appendRangePrefixes (fuel : nat) (dst : list netip.Prefix)
         (a b : Z) : option (list netip.Prefix) :=
  match fuel with
  | O => None
  | S fuel' =>
      let '(common, ok) := comparePrefixes a b in
      if ok then Some (dst ++ [prefixFrom128AndBits a common])
      else
        match appendRangePrefixes fuel' dst a
                (uint128.bitsSetFrom a (common + 1)) with
        | None => None
        | Some dst' =>
            appendRangePrefixes fuel' dst'
              (uint128.bitsClearedFrom b (common + 1)) b
        end
  end.

Definition maxDepth : nat := 129.

(** [IPRange.AppendPrefixes]. *)
Definition AppendPrefixes (r : IPRange) (dst : list netip.Prefix)
  : option (list netip.Prefix) :=
  if negb (IsValid r) then Some []
  else appendRangePrefixes maxDepth dst
         (netip.As16_v4 (from r)) (netip.As16_v4 (to r)).

(** [IPSet.Prefixes]: the prefixes of each range, in order. *)
Fixpoint PrefixesLoop (rs : list IPRange) (out : list netip.Prefix)
  : option (list netip.Prefix) :=
  match rs with
  | [] => Some out
  | r :: rest =>
      match AppendPrefixes r [] with
      | None => None
      | Some ps => PrefixesLoop rest (out ++ ps)
      end
  end.

Definition Prefixes (s : IPSet) : option (list netip.Prefix) :=
  PrefixesLoop (rr s) [].

End netipx.

(** Go's [(T, error)] results. *)
Inductive result (T : Type) : Type :=
| Ok (v : T)
| Err (msg : string).
Arguments Ok {T} v.
Arguments Err {T} msg.

(** Byte strings: indexing and slicing as Go writes them. *)
Module gostring.

Definition byte (c : ascii) : Z := Z.of_N (N_of_ascii c).

Definition len (s : string) : Z := Z.of_nat (String.length s).

(** [s[i:j]] *)
Definition slice (s : string) (i j : Z) : string :=
  substring (Z.to_nat i) (Z.to_nat (j - i)) s.

(** [s[i:]] *)
Definition sliceFrom (s : string) (i : Z) : string := slice s i (len s).

Fixpoint rev_onto (s acc : string) : string :=
  match s with
  | EmptyString => acc
  | String c rest => rev_onto rest (String c acc)
  end.

Definition rev (s : string) : string := rev_onto s EmptyString.

(** [bytealg.LastIndexByteString]: [-1] when [c] does not occur. *)
Fixpoint LastIndexByte (s : string) (c : ascii) : Z :=
  match s with
  | EmptyString => -1
  | String x rest =>
      let r := LastIndexByte rest c in
      if 0 <=? r then r + 1
      else if Ascii.eqb x c then 0 else -1
  end.

Fixpoint IndexByte (s : string) (c : ascii) : Z :=
  match s with
  | EmptyString => -1
  | String x rest =>
      if Ascii.eqb x c then 0
      else let r := IndexByte rest c in
           if 0 <=? r then r + 1 else -1
  end.

Definition isDigit (c : ascii) : bool := (48 <=? byte c) && (byte c <=? 57).

End gostring.

(* ================================================================= *)
(** ** strconv *)

Module strconv.

(** The value of a string of decimal digits; [None] at the first byte
    that is not a digit. *)
Fixpoint digits (s : string) (n : Z) : option Z :=
  match s with
  | EmptyString => Some n
  | String c rest =>
      if gostring.isDigit c then digits rest (n * 10 + (gostring.byte c - 48))
      else None
  end.

(** [strconv.Atoi] for a 64-bit [int]: an optional sign, then one or
    more decimal digits; a value outside the [int] range is an error. *)
Definition Atoi (s : string) : result Z :=
  match s with
  | EmptyString => Err "invalid syntax"
  | String c rest =>
      let neg := Ascii.eqb c "-" in
      let body := if neg || Ascii.eqb c "+" then rest else s in
      match body with
      | EmptyString => Err "invalid syntax"
      | _ =>
          match digits body 0 with
          | None => Err "invalid syntax"
          | Some n =>
              let v := if neg then - n else n in
              if (- 2 ^ 63 <=? v) && (v <=? 2 ^ 63 - 1) then Ok v
              else Err "value out of range"
          end
      end
  end.

(** [itoa.Uitoa]: at most twenty digits, least significant first. *)
Fixpoint Uitoa_loop (fuel : nat) (val : Z) (buf : string) : string :=
  match fuel with
  | O => buf
  | S fuel' =>
      if 10 <=? val then
        let q := val / 10 in
        Uitoa_loop fuel'
          q (String (ascii_of_N (Z.to_N (48 + val - q * 10))) buf)
      else String (ascii_of_N (Z.to_N (48 + val))) buf
  end.

Definition Uitoa (val : Z) : string :=
  if val =? 0 then "0" else Uitoa_loop 20 val EmptyString.

Definition Itoa (val : Z) : string :=
  if val <? 0 then String "-" (Uitoa (- val)) else Uitoa val.

End strconv.

(* ================================================================= *)
(** ** unicode/utf8 and unicode *)

Module utf8.

Definition RuneError : Z := 65533.
Definition RuneSelf : Z := 128.
Definition UTFMax : Z := 4.

Definition RuneStart (b : Z) : bool := negb (Z.land b 192 =? 128).

Definition nth_byte (s : string) (i : nat) : Z :=
  match String.get i s with
  | Some c => gostring.byte c
  | None => 0
  end.

Definition cont (b : Z) : bool := (128 <=? b) && (b <=? 191).

(** [utf8.DecodeRuneInString]: the first rune of [s] and its width in
    bytes; an invalid encoding is [(RuneError, 1)]. *)
Definition DecodeRuneInString (s : string) : Z * Z :=
  let n := gostring.len s in
  if n <? 1 then (RuneError, 0)
  else
    let s0 := nth_byte s 0 in
    if s0 <? 128 then (s0, 1)
    else if (s0 <? 194) || (244 <? s0) then (RuneError, 1)
    else
      let sz := if s0 <? 224 then 2 else if s0 <? 240 then 3 else 4 in
      let lo := if s0 =? 224 then 160 else if s0 =? 240 then 144 else 128 in
      let hi := if s0 =? 237 then 159 else if s0 =? 244 then 143 else 191 in
      if n <? sz then (RuneError, 1)
      else
        let s1 := nth_byte s 1 in
        if (s1 <? lo) || (hi <? s1) then (RuneError, 1)
        else if sz <=? 2 then
          (Z.lor (Z.shiftl (Z.land s0 31) 6) (Z.land s1 63), 2)
        else
          let s2 := nth_byte s 2 in
          if negb (cont s2) then (RuneError, 1)
          else if sz <=? 3 then
            (Z.lor (Z.lor (Z.shiftl (Z.land s0 15) 12)
                          (Z.shiftl (Z.land s1 63) 6))
                   (Z.land s2 63), 3)
          else
            let s3 := nth_byte s 3 in
            if negb (cont s3) then (RuneError, 1)
            else
              (Z.lor (Z.lor (Z.lor (Z.shiftl (Z.land s0 7) 18)
                                   (Z.shiftl (Z.land s1 63) 12))
                            (Z.shiftl (Z.land s2 63) 6))
                     (Z.land s3 63), 4).

(** The backwards scan of [DecodeLastRuneInString] for a rune start. *)
Fixpoint findStart (s : string) (steps : nat) (start lim : Z) : Z :=
  match steps with
  | O => start
  | S steps' =>
      if start <? lim then start
      else if RuneStart (nth_byte s (Z.to_nat start)) then start
      else findStart s steps' (start - 1) lim
  end.

(** [utf8.DecodeLastRuneInString]. *)
Definition DecodeLastRuneInString (s : string) : Z * Z :=
  let end_ := gostring.len s in
  if end_ =? 0 then (RuneError, 0)
  else
    let start := end_ - 1 in
    let r := nth_byte s (Z.to_nat start) in
    if r <? RuneSelf then (r, 1)
    else
      let lim := Z.max 0 (end_ - UTFMax) in
      let start := findStart s 4 (start - 1) lim in
      let start := Z.max 0 start in
      let '(r, size) := DecodeRuneInString (gostring.slice s start end_) in
      if start + size =? end_ then (r, size) else (RuneError, 1).

Definition MaxRune : Z := 1114111.

Definition byteOf (b : Z) : string :=
  String (ascii_of_N (Z.to_N (b mod 256))) EmptyString.

(** [utf8.AppendRune] onto an empty buffer: the encoding of [r].  A
    rune out of range or a surrogate is written as [RuneError]. *)
Definition AppendRune (r : Z) : string :=
  let i := r mod 2 ^ 32 in
  if i <=? 127 then byteOf r
  else if i <=? 2047 then
    (byteOf (Z.lor 192 (Z.shiftr r 6))
     ++ byteOf (Z.lor 128 (Z.land r 63)))%string
  else
    let bad := (MaxRune <? i) || ((55296 <=? i) && (i <=? 57343)) in
    let r3 := if bad then RuneError else r in
    if bad || (i <=? 65535) then
      (byteOf (Z.lor 224 (Z.shiftr r3 12))
       ++ byteOf (Z.lor 128 (Z.land (Z.shiftr r3 6) 63))
       ++ byteOf (Z.lor 128 (Z.land r3 63)))%string
    else
      (byteOf (Z.lor 240 (Z.shiftr r 18))
       ++ byteOf (Z.lor 128 (Z.land (Z.shiftr r 12) 63))
       ++ byteOf (Z.lor 128 (Z.land (Z.shiftr r 6) 63))
       ++ byteOf (Z.lor 128 (Z.land r 63)))%string.

End utf8.

Module unicode.

(** [unicode.IsSpace]: the Latin-1 spaces, then the [White_Space]
    table above Latin-1. *)
Definition IsSpace (r : Z) : bool :=
  if r <=? 255 then
    ((9 <=? r) && (r <=? 13)) || (r =? 32) || (r =? 133) || (r =? 160)
  else
    (r =? 5760) || ((8192 <=? r) && (r <=? 8202)) || (r =? 8232)
    || (r =? 8233) || (r =? 8239) || (r =? 8287) || (r =? 12288).

Definition MaxASCII : Z := 127.

Section Tables.

(** [To(TitleCase, r)], the case tables above ASCII. *)
Variable toTitleCase : Z -> Z.

(** [unicode.ToTitle] *)
Definition ToTitle (r : Z) : Z :=
  if r <=? MaxASCII then
    if (97 <=? r) && (r <=? 122) then r - 32 else r
  else toTitleCase r.

End Tables.

End unicode.

(* ================================================================= *)
(** ** strings *)

Module strings.

(** [asciiSpace]: tab, newline, vertical tab, form feed, carriage
    return and space. *)
Definition asciiSpace (c : Z) : bool :=
  ((9 <=? c) && (c <=? 13)) || (c =? 32).

(** [indexFunc(s, unicode.IsSpace, false)] over the runes of [s];
    [skip] counts the bytes still belonging to the current rune. *)
Fixpoint indexNotSpace (s : string) (skip : nat) (i : Z) : Z :=
  match s with
  | EmptyString => -1
  | String _ rest =>
      match skip with
      | S k => indexNotSpace rest k (i + 1)
      | O =>
          let '(r, size) := utf8.DecodeRuneInString s in
          if unicode.IsSpace r
          then indexNotSpace rest (Z.to_nat (size - 1)) (i + 1)
          else i
      end
  end.

Definition TrimLeftSpace (s : string) : string :=
  let i := indexNotSpace s 0 0 in
  if i =? -1 then EmptyString else gostring.sliceFrom s i.

(** [lastIndexFunc(s, unicode.IsSpace, false)]. *)
Fixpoint lastIndexNotSpace (fuel : nat) (s : string) (i : Z) : Z :=
  match fuel with
  | O => -1
  | S fuel' =>
      if 0 <? i then
        let '(r, size) := utf8.DecodeLastRuneInString (gostring.slice s 0 i) in
        let i := i - size in
        if unicode.IsSpace r then lastIndexNotSpace fuel' s i else i
      else -1
  end.

Definition TrimRightSpace (s : string) : string :=
  let i := lastIndexNotSpace (String.length s) s (gostring.len s) in
  let i :=
    if (0 <=? i) && (utf8.RuneSelf <=? utf8.nth_byte s (Z.to_nat i))
    then i + snd (utf8.DecodeRuneInString (gostring.sliceFrom s i))
    else i + 1 in
  gostring.slice s 0 i.

(** The scan of [TrimSpace] from the end, over the reversed bytes. *)
Fixpoint trimTail (r : string) : string :=
  match r with
  | EmptyString => EmptyString
  | String c rest =>
      if utf8.RuneSelf <=? gostring.byte c
      then TrimRightSpace (gostring.rev r)
      else if asciiSpace (gostring.byte c) then trimTail rest
      else gostring.rev r
  end.

(** [strings.TrimSpace]: the ASCII fast path from both ends, falling
    back to the rune-wise trims at the first byte outside ASCII. *)
Fixpoint TrimSpace (s : string) : string :=
  match s with
  | EmptyString => EmptyString
  | String c rest =>
      if utf8.RuneSelf <=? gostring.byte c
      then TrimRightSpace (TrimLeftSpace s)
      else if asciiSpace (gostring.byte c) then TrimSpace rest
      else trimTail (gostring.rev s)
  end.

(** The counting pass of [Fields] also ors all bytes together; that
    [setBits] decides which of the two loops splits the string. *)
Fixpoint setBits (s : string) (acc : Z) : Z :=
  match s with
  | EmptyString => acc
  | String c rest => setBits rest (Z.lor acc (gostring.byte c))
  end.

(** The ASCII loop of [Fields]: [cur] holds, reversed, the bytes
    [s[fieldStart:i]] of the field being read; it is empty while spaces
    are skipped. *)
Fixpoint fieldsASCII (s cur : string) : list string :=
  match s with
  | EmptyString =>
      match cur with
      | EmptyString => []
      | _ => [gostring.rev cur]
      end
  | String c rest =>
      if asciiSpace (gostring.byte c) then
        match cur with
        | EmptyString => fieldsASCII rest EmptyString
        | _ => gostring.rev cur :: fieldsASCII rest EmptyString
        end
      else fieldsASCII rest (String c cur)
  end.

(** [FieldsFunc(s, unicode.IsSpace)]: the loop over the runes of [s].
    [cur] is [Some] of the reversed bytes of the field being read
    ([start >= 0]) or [None]; [skip] counts the bytes still belonging
    to the current rune. *)
Fixpoint FieldsFuncSpace (s : string) (skip : nat) (cur : option string)
  : list string :=
  match s with
  | EmptyString =>
      match cur with
      | Some f => [gostring.rev f]
      | None => []
      end
  | String c rest =>
      match skip with
      | S k => FieldsFuncSpace rest k (option_map (String c) cur)
      | O =>
          let '(r, size) := utf8.DecodeRuneInString s in
          if unicode.IsSpace r then
            match cur with
            | Some f =>
                gostring.rev f
                  :: FieldsFuncSpace rest (Z.to_nat (size - 1)) None
            | None => FieldsFuncSpace rest (Z.to_nat (size - 1)) None
            end
          else
            FieldsFuncSpace rest (Z.to_nat (size - 1))
              (Some (String c match cur with
                              | Some f => f
                              | None => EmptyString
                              end))
      end
  end.

(** [strings.Fields]: the ASCII loop when every byte is ASCII,
    [FieldsFunc] with [unicode.IsSpace] otherwise. *)
Definition Fields (s : string) : list string :=
  if utf8.RuneSelf <=? setBits s 0
  then FieldsFuncSpace s 0 None
  else fieldsASCII s EmptyString.

(** [strings.Map] for a mapping that keeps state between its calls
    (the closure of [Title]).  As long as every rune maps to itself the
    bytes of [s] are kept ([changed = false], the first loop); from the
    first rune that does not, each rune is written in its encoding (the
    second loop) and a negative one is dropped.  [skip] counts the
    bytes still belonging to the current rune and [keep] tells whether
    they are copied. *)
Fixpoint Map_loop {St : Type} (mapping : St -> Z -> Z * St) (s : string)
         (skip : nat) (keep changed : bool) (st : St) : string :=
  match s with
  | EmptyString => EmptyString
  | String c0 rest =>
      match skip with
      | S k =>
          if keep then String c0 (Map_loop mapping rest k keep changed st)
          else Map_loop mapping rest k keep changed st
      | O =>
          let '(c, width) := utf8.DecodeRuneInString s in
          let '(r, st') := mapping st c in
          if negb changed && (r =? c)
             && (negb (c =? utf8.RuneError) || negb (width =? 1))
          then
            String c0
              (Map_loop mapping rest (Z.to_nat (width - 1)) true false st')
          else
            String.append
              (if 0 <=? r then utf8.AppendRune r else EmptyString)
              (Map_loop mapping rest (Z.to_nat (width - 1)) false true st')
      end
  end.

Definition Map {St : Type} (mapping : St -> Z -> Z * St) (st : St)
           (s : string) : string :=
  Map_loop mapping s 0 true false st.

Section Title.

(** [unicode.IsLetter], [unicode.IsDigit] and the title case tables,
    which [Title] consults above ASCII only. *)
Variable IsLetter : Z -> bool.
Variable IsDigit : Z -> bool.
Variable toTitleCase : Z -> Z.

(** [isSeparator]: ASCII letters, digits and the underscore are no
    separators, every other ASCII rune is one. *)
Definition isSeparator (r : Z) : bool :=
  if r <=? 127 then
    if (48 <=? r) && (r <=? 57) then false
    else if (97 <=? r) && (r <=? 122) then false
    else if (65 <=? r) && (r <=? 90) then false
    else if r =? 95 then false
    else true
  else if IsLetter r || IsDigit r then false
  else unicode.IsSpace r.

(** The closure of [Title]; its state is [prev]. *)
Definition titleMapping (prev r : Z) : Z * Z :=
  if isSeparator prev then (unicode.ToTitle toTitleCase r, r)
  else (r, r).

(** [strings.Title] *)
Definition Title (s : string) : string := Map titleMapping 32 s.

End Title.

End strings.

(* ================================================================= *)
(** ** net/netip: parsing and printing *)

Module netip_text.

Import netip.

(** The four octets being filled in by [parseIPv4]. *)
Definition fields4 : Type := (Z * Z * Z * Z)%type.

Definition setField (f : fields4) (pos v : Z) : fields4 :=
  let '(f0, f1, f2, f3) := f in
  if pos =? 0 then (v, f1, f2, f3)
  else if pos =? 1 then (f0, v, f2, f3)
  else if pos =? 2 then (f0, f1, v, f3)
  else (f0, f1, f2, v).

Definition AddrFrom4 (f : fields4) : Addr :=
  let '(f0, f1, f2, f3) := f in
  Addr4 (Z.lor (Z.lor (Z.lor (Z.shiftl f0 24) (Z.shiftl f1 16))
                      (Z.shiftl f2 8)) f3).

(** The loop of [parseIPv4]: [i] is the index of the first byte of [s]
    in the whole text and [prev] the byte before it. *)
Fixpoint parseIPv4_loop (s : string) (i : Z) (prev : ascii)
         (val pos digLen : Z) (fields : fields4) : result Addr :=
  match s with
  | EmptyString =>
      if pos <? 3 then Err "IPv4 address too short"
      else Ok (AddrFrom4 (setField fields 3 val))
  | String c rest =>
      if gostring.isDigit c then
        if (digLen =? 1) && (val =? 0)
        then Err "IPv4 field has octet with leading zero"
        else
          let val := val * 10 + (gostring.byte c - 48) in
          if 255 <? val then Err "IPv4 field has value >255"
          else parseIPv4_loop rest (i + 1) c val pos (digLen + 1) fields
      else if Ascii.eqb c "." then
        if (i =? 0)
           || match rest with EmptyString => true | _ => false end
           || Ascii.eqb prev "."
        then Err "IPv4 field must have at least one digit"
        else if pos =? 3 then Err "IPv4 address too long"
        else parseIPv4_loop rest (i + 1) c 0 (pos + 1) 0
                            (setField fields pos val)
      else Err "unexpected character"
  end.

Definition parseIPv4 (s : string) : result Addr :=
  parseIPv4_loop s 0 "000"%char 0 0 0 (0, 0, 0, 0).

(** [appendDecimal] *)
Definition digit (d : Z) : ascii := ascii_of_N (Z.to_N (48 + d)).

Definition appendDecimal (b : string) (x : Z) : string :=
  let b :=
    if 100 <=? x
    then (b ++ String (digit (x / 100)) EmptyString)%string else b in
  let b :=
    if 10 <=? x
    then (b ++ String (digit (x / 10 mod 10)) EmptyString)%string else b in
  (b ++ String (digit (x mod 10)) EmptyString)%string.

(** [Addr.string4]: the four octets in decimal, separated by dots. *)
Definition string4 (a : Z) : string :=
  let b := appendDecimal EmptyString (Z.shiftr a 24 mod 256) in
  let b := appendDecimal (b ++ ".")%string (Z.shiftr a 16 mod 256) in
  let b := appendDecimal (b ++ ".")%string (Z.shiftr a 8 mod 256) in
  appendDecimal (b ++ ".")%string (a mod 256).

Section IPv6.

(** The IPv6 text parser and printer of [net/netip]: the parser
    yields the 128-bit address and its zone. *)
Variable parseIPv6 : string -> result (Z * string).
Variable string6 : Z -> string -> string.

Inductive addrKind : Type := kind4 | kind6 | kindZone | kindNone.

(** The scan of [ParseAddr] for the first ['.'], [':'] or ['%']. *)
Fixpoint addrKindOf (s : string) : addrKind :=
  match s with
  | EmptyString => kindNone
  | String c rest =>
      if Ascii.eqb c "." then kind4
      else if Ascii.eqb c ":" then kind6
      else if Ascii.eqb c "%" then kindZone
      else addrKindOf rest
  end.

Definition ParseAddr (s : string) : result Addr :=
  match addrKindOf s with
  | kind4 => parseIPv4 s
  | kind6 =>
      match parseIPv6 s with
      | Ok (a, zone) => Ok (Addr6 a zone)
      | Err msg => Err msg
      end
  | kindZone => Err "missing IPv6 address"
  | kindNone => Err "unable to parse IP"
  end.

Definition hasZone (ip : Addr) : bool :=
  match ip with
  | Addr4 _ => false
  | Addr6 _ zone => negb (String.eqb zone EmptyString)
  end.

(** [netip.ParsePrefix] *)
Definition ParsePrefix (s : string) : result Prefix :=
  let i := gostring.LastIndexByte s "/" in
  if i <? 0 then Err "no '/'"
  else
    match ParseAddr (gostring.slice s 0 i) with
    | Err msg => Err msg
    | Ok ip =>
        if Is6 ip && hasZone ip
        then Err "IPv6 zones cannot be present in a prefix"
        else
          let bitsStr := gostring.sliceFrom s (i + 1) in
          if (1 <? gostring.len bitsStr)
             && ((utf8.nth_byte bitsStr 0 <? 49)
                 || (57 <? utf8.nth_byte bitsStr 0))
          then Err "bad bits after slash"
          else
            match strconv.Atoi bitsStr with
            | Err _ => Err "bad bits after slash"
            | Ok bits =>
                let maxBits := if Is6 ip then 128 else 32 in
                if (bits <? 0) || (maxBits <? bits)
                then Err "prefix length out of range"
                else Ok (PrefixFrom ip bits)
            end
    end.

Definition Addr_String (ip : Addr) : string :=
  match ip with
  | Addr4 a => string4 a
  | Addr6 a zone => string6 a zone
  end.

(** [Prefix.String] *)
Definition Prefix_String (p : Prefix) : string :=
  if negb (IsValid p) then "invalid Prefix"
  else (Addr_String (ip p) ++ "/" ++ strconv.Itoa (bits p))%string.

End IPv6.

(** [Prefix.Contains] for an IPv4 prefix and a 32-bit address. *)
Definition Contains4 (a bits x : Z) : bool :=
  Z.shiftr (Z.lxor x a) (Z.land (32 - bits) 63) mod 2 ^ 32 =? 0.

Definition Contains (p : Prefix) (x : Z) : bool :=
  match ip p with
  | Addr4 a => IsValid p && Contains4 a (bits p) x
  | Addr6 _ _ => false
  end.

End netip_text.

(* ================================================================= *)
(** ** bufio.Scanner with [ScanLines] *)

Module bufio.

Definition MaxScanTokenSize : Z := 64 * 1024.

(** [dropCR] drops one trailing carriage return. *)
Definition dropCR (data : string) : string :=
  match gostring.rev data with
  | String c rest => if Ascii.eqb c "013" then gostring.rev rest else data
  | EmptyString => data
  end.

(** The tokens of a scan over [data]: [cur] holds, reversed, the bytes
    of the line being read.  A line that does not fit the buffer with
    its newline stops the scan ([ErrTooLong]); the flag tells whether
    the scan ended without error. *)
Fixpoint scan (data cur : string) : list string * bool :=
  match data with
  | EmptyString =>
      match cur with
      | EmptyString => ([], true)
      | _ =>
          if MaxScanTokenSize <=? gostring.len cur then ([], false)
          else ([dropCR (gostring.rev cur)], true)
      end
  | String c rest =>
      if MaxScanTokenSize <=? gostring.len cur then ([], false)
      else if Ascii.eqb c "010" then
        let '(toks, ok) := scan rest EmptyString in
        (dropCR (gostring.rev cur) :: toks, ok)
      else scan rest (String c cur)
  end.

Definition Scan (data : string) : list string * bool :=
  scan data EmptyString.

End bufio.

(* ================================================================= *)
(** ** package main *)

Section Main.

Variable parseIPv6 : string -> result (Z * string).
Variable string6 : Z -> string -> string.

Let ParsePrefix := netip_text.ParsePrefix parseIPv6.
Let Prefix_String := netip_text.Prefix_String string6.

Record subnetAS : Type := mkSubnetAS { subnet : string; as_ : string }.

(** What [log.Printf] has written so far. *)
Definition Log : Type := list string.

(** [if prefix.Addr().Is4() { v4Set.AddPrefix(prefix) }] *)
Definition addIfIs4 (v4Set : netipx.IPSetBuilder) (prefix : netip.Prefix)
  : netipx.IPSetBuilder :=
  match netip.ip prefix with
  | netip.Addr4 a => netipx.AddPrefix v4Set a (netip.bits prefix)
  | netip.Addr6 _ _ => v4Set
  end.

(** One iteration of the loop of [processSubnets]. *)
Definition processSubnets_body (targetAS : string)
           (st : netipx.IPSetBuilder * Log) (item : subnetAS)
  : netipx.IPSetBuilder * Log :=
  let '(v4Set, log) := st in
  if String.eqb (as_ item) targetAS then
    match ParsePrefix (subnet item) with
    | Err _ => (v4Set, log ++ [("Invalid subnet: " ++ subnet item)%string])
    | Ok prefix => (addIfIs4 v4Set prefix, log)
    end
  else (v4Set, log).

(** [processSubnets]: the returned prefixes ([None] only if the
    recursion bound of [appendRangePrefixes] were hit), the returned
    [error] ([None] is [nil]), and what it logged. *)
Definition processSubnets (subnets : list subnetAS) (targetAS : string)
  : option (list netip.Prefix) * option string * Log :=
  let '(v4Set, log) :=
    fold_left (processSubnets_body targetAS) subnets (netipx.empty, []) in
  let '(v4IPSet, _) := netipx.IPSet_of v4Set in
  (netipx.Prefixes v4IPSet, None, log).

(** One iteration of the line loop of the ready-list readers. *)
Definition readLine_body (st : netipx.IPSetBuilder * Log) (text : string)
  : netipx.IPSetBuilder * Log :=
  let '(v4Set, log) := st in
  let line := strings.TrimSpace text in
  if String.eqb line EmptyString then (v4Set, log)
  else
    match ParsePrefix line with
    | Err _ => (v4Set, log ++ [("Invalid subnet: " ++ line)%string])
    | Ok prefix => (addIfIs4 v4Set prefix, log)
    end.

(** [downloadReadySubnets], given what [downloadURL] returned. *)
Definition downloadReadySubnets (resp : result string)
  : option (list netip.Prefix) * option string * Log :=
  match resp with
  | Err err => (Some [], Some err, [])
  | Ok data =>
      let '(lines, _) := bufio.Scan data in
      let '(v4Set, log) := fold_left readLine_body lines (netipx.empty, []) in
      let '(v4IPSet, _) := netipx.IPSet_of v4Set in
      (netipx.Prefixes v4IPSet, None, log)
  end.

(** [downloadReadySplitSubnets]: also reports the scanner's error. *)
Definition downloadReadySplitSubnets (resp : result string)
  : option (list netip.Prefix) * option string * Log :=
  match resp with
  | Err err => (Some [], Some err, [])
  | Ok data =>
      let '(lines, ok) := bufio.Scan data in
      let '(v4Set, log) := fold_left readLine_body lines (netipx.empty, []) in
      if negb ok
      then (Some [], Some "bufio.Scanner: token too long"%string, log)
      else
        let '(v4IPSet, _) := netipx.IPSet_of v4Set in
        (netipx.Prefixes v4IPSet, None, log)
  end.

(** One iteration of the line loop of [downloadBGPTable]. *)
Definition tableLine_body (subnets : list subnetAS) (text : string)
  : list subnetAS :=
  let line := strings.TrimSpace text in
  let parts := strings.Fields line in
  match parts with
  | part0 :: part1 :: _ => subnets ++ [mkSubnetAS part0 part1]
  | _ => subnets
  end.

(** [downloadBGPTable], given what [downloadURL] returned. *)
Definition downloadBGPTable (resp : result string)
  : result (list subnetAS) :=
  match resp with
  | Err err => Err err
  | Ok data =>
      let '(lines, ok) := bufio.Scan data in
      let subnets := fold_left tableLine_body lines [] in
      if negb ok then Err "bufio.Scanner: token too long"
      else Ok subnets
  end.

(** [writeSubnetsToFile]: the bytes written to the file. *)
Definition writeSubnetsToFile (prefixes : list netip.Prefix) : string :=
  fold_left
    (fun file prefix =>
       (file ++ Prefix_String prefix ++ String "010" EmptyString)%string)
    prefixes EmptyString.

End Main.

(* ================================================================= *)
(** ** path/filepath (Unix: the separator is ['/'], no volume names) *)

Module filepath.

Definition IsPathSeparator (c : ascii) : bool := Ascii.eqb c "/".

(** Whether an element ends here: [r == n || IsPathSeparator(path[r])]. *)
Definition atEnd (path : string) : bool :=
  match path with
  | EmptyString => true
  | String c _ => IsPathSeparator c
  end.

(** The scan of a [..] element back over the buffer, [out.w--] until
    the byte at [out.w] is a separator or [out.w] is [dotdot].  [out]
    holds, reversed, the bytes up to index [w]. *)
Fixpoint backtrack (out : string) (w dotdot : Z) : string :=
  match out with
  | EmptyString => EmptyString
  | String c out' =>
      if (dotdot <? w) && negb (IsPathSeparator c)
      then backtrack out' (w - 1) dotdot
      else out'
  end.

(** [out.append(Separator)] before an element, where one is needed:
    not after the leading separator and not at the start. *)
Definition withSeparator (out : string) (rooted : bool) : string :=
  let w := gostring.len out in
  if (rooted && negb (w =? 1)) || (negb rooted && negb (w =? 0))
  then String "/" out else out.

(** The loop of [Clean] over what is left of the path.  [out] is the
    buffer, reversed; [dotdot] the index where [..] must stop;
    [copying] tells that the bytes of an element are being copied.
    The result is the buffer and [dotdot] at the end. *)
Fixpoint cleanLoop (path out : string) (dotdot : Z)
         (rooted copying : bool) : string * Z :=
  match path with
  | EmptyString => (out, dotdot)
  | String c rest =>
      if IsPathSeparator c then cleanLoop rest out dotdot rooted false
      else if copying
      then cleanLoop rest (String c out) dotdot rooted true
      else if Ascii.eqb c "." && atEnd rest
      then cleanLoop rest out dotdot rooted false
      else
        let element :=
          cleanLoop rest (String c (withSeparator out rooted)) dotdot
                    rooted true in
        match rest with
        | String c1 rest1 =>
            if Ascii.eqb c "." && Ascii.eqb c1 "." && atEnd rest1 then
              let w := gostring.len out in
              if dotdot <? w then
                cleanLoop rest1 (backtrack out (w - 1) dotdot) dotdot
                          rooted false
              else if negb rooted then
                let out1 := if 0 <? w then String "/" out else out in
                let out2 := String "." (String "." out1) in
                cleanLoop rest1 out2 (gostring.len out2) rooted false
              else cleanLoop rest1 out dotdot rooted false
            else element
        | EmptyString => element
        end
  end.

(** [Clean] up to the end of its loop. *)
Definition cleanStart (path : string) : string * Z :=
  match path with
  | EmptyString => (EmptyString, 0)
  | String c rest =>
      if IsPathSeparator c then cleanLoop rest "/" 1 true false
      else cleanLoop path EmptyString 0 false false
  end.

(** [filepath.Clean]: an empty path and an empty buffer give ["."]. *)
Definition Clean (path : string) : string :=
  match fst (cleanStart path) with
  | EmptyString => "."
  | out => gostring.rev out
  end.

(** Dropping the trailing bytes that satisfy [f], over the reversed
    string. *)
Fixpoint dropWhile (f : ascii -> bool) (r : string) : string :=
  match r with
  | EmptyString => EmptyString
  | String c r' => if f c then dropWhile f r' else r
  end.

Fixpoint takeWhile (f : ascii -> bool) (r : string) : string :=
  match r with
  | EmptyString => EmptyString
  | String c r' => if f c then String c (takeWhile f r') else EmptyString
  end.

(** [filepath.Base]: the last element, trailing separators dropped. *)
Definition Base (path : string) : string :=
  match path with
  | EmptyString => "."
  | _ =>
      let stripped := dropWhile IsPathSeparator (gostring.rev path) in
      let last :=
        takeWhile (fun c => negb (IsPathSeparator c)) stripped in
      match last with
      | EmptyString => "/"
      | _ => gostring.rev last
      end
  end.

(** [filepath.Dir]: the path up to its last separator, cleaned. *)
Definition Dir (path : string) : string :=
  Clean (gostring.rev
           (dropWhile (fun c => negb (IsPathSeparator c))
                      (gostring.rev path))).

(** [strings.Join(elem, "/")] *)
Fixpoint joinSeparator (elem : list string) : string :=
  match elem with
  | [] => EmptyString
  | [e] => e
  | e :: rest => (e ++ "/" ++ joinSeparator rest)%string
  end.

(** [filepath.Join]: leading empty elements are ignored. *)
Fixpoint Join (elem : list string) : string :=
  match elem with
  | [] => EmptyString
  | e :: rest =>
      match e with
      | EmptyString => Join rest
      | _ => Clean (joinSeparator elem)
      end
  end.

End filepath.

(* ================================================================= *)
(** ** package main: the files of the RouterOS scripts *)

(** [generateRouterOSConfig]: the directories of the two versions,
    [v6Dir] and [v7Dir]; [createDirs] makes the same two. *)
Definition v6Dir (outputDir : string) : string :=
  filepath.Join [outputDir; "v6"%string].

Definition v7Dir (outputDir : string) : string :=
  filepath.Join [outputDir; "v7"%string].

(** [generateRouterOSVersionedConfig]: the file it creates, [filename]. *)
Definition scriptFilename (outputDir listName : string) : string :=
  filepath.Join [outputDir; (listName ++ ".rsc")%string].

Definition newline : string := String "010" EmptyString.

Definition quote : string := String "034" EmptyString.

Section Scripts.

Variable string6 : Z -> string -> string.

(** The command of one prefix, [cmd]. *)
Definition addressCommand (path listName comment : string)
           (prefix : netip.Prefix) : string :=
  String.concat EmptyString
    ["do {"; path; " add address=";
     netip_text.Prefix_String string6 prefix;
     " comment="; comment; " list="; listName; " } on-error={}";
     newline]%string.

(** The mangle rule and the route, [script]. *)
Definition routingScript (manglePath listName routePath gateway : string)
  : string :=
  String.concat EmptyString
    [
     newline;
     "{"; newline;
     "   :local rrule [ "; manglePath; " find dst-address-list="; quote; listName; quote; " ]"; newline;
     "   :if ([:len $rrule ] = 0 ) do={"; newline;
     "          :do {"; newline;
     "           "; manglePath; " add action=mark-routing chain=prerouting connection-mark=no-mark dst-address-list="; listName; " new-routing-mark="; quote; "R_"; listName; quote; "                                                            passthrough=no"; newline;
     "            } on-error={};"; newline;
     "   :local rroute ["; routePath; " find routing-table="; quote; "R_"; listName; quote; " gateway="; gateway; " ]"; newline;
     "   :if ([:len $rroute ] = 0) do={"; newline;
     "    do {"; routePath; " add comment="; listName; " distance=1 gateway="; gateway; " routing-mark="; quote; "R_"; listName; quote; "} on-error={}"; newline;
     " }"; newline
    ]%string.

(** [generateRouterOSVersionedConfig]: the bytes written to the file;
    [gateway] is [config.Gateway]. *)
Definition generateRouterOSVersionedConfig (listName comment : string)
           (prefixes : list netip.Prefix) (version gateway : string)
  : string :=
  let path :=
    if String.eqb version "v6" then "/ip firewall address-list"%string
    else "/ip/firewall/address-list"%string in
  let commands :=
    fold_left
      (fun file prefix =>
         (file ++ addressCommand path listName comment prefix)%string)
      prefixes EmptyString in
  let manglePath :=
    if String.eqb version "v7" then "/ip/firewall/mangle"%string
    else "/ip firewall mangle"%string in
  let routePath :=
    if String.eqb version "v7" then "/ip/route"%string
    else "/ip route"%string in
  (commands ++ routingScript manglePath listName routePath gateway)%string.

End Scripts.

(* ================================================================= *)
(** ** package main: the legacy copy *)

Section Legacy.

Variable IsLetter : Z -> bool.
Variable IsDigit : Z -> bool.
Variable toTitleCase : Z -> Z.

(** [copyFileLegacy]: the file it creates, [destFilename]. *)
Definition destFilename (srcFilename : string) : string :=
  let base := filepath.Base srcFilename in
  filepath.Join
    [filepath.Dir srcFilename;
     strings.Title IsLetter IsDigit toTitleCase base].

End Legacy.

(** The spec's [rangeToPrefixes] (section 4.2), in its own words. *)
Module Spec.

(** A block of size [2^k] may be emitted at [start]: it is aligned and
    does not run past [end_]. *)
Definition fits (start end_ k : Z) : Prop :=
  0 <= k /\ start mod 2 ^ k = 0 /\ start + 2 ^ k - 1 <= end_.

Definition largest_block (start end_ k : Z) : Prop :=
  fits start end_ k /\ forall k', fits start end_ k' -> k' <= k.

(** "repeatedly: find the largest block size, emit the prefix
    [(start, 32 - k)], advance [start] by [2^k], until [start > end]". *)
Inductive Greedy : Z -> Z -> list netip.Prefix -> Prop :=
| Greedy_done start end_ :
    end_ < start -> Greedy start end_ []
| Greedy_emit start end_ k p rest :
    start <= end_ ->
    largest_block start end_ k ->
    p = netip.mkPrefix (netip.Addr4 start) (32 - k) ->
    Greedy (start + 2 ^ k) end_ rest ->
    Greedy start end_ (p :: rest).

(** The same loop as a program.  [blockSize n] tries the exponents
    [n], [n - 1], ..., [1] in turn and falls back to [0]; [fuel] bounds
    the number of prefixes emitted. *)
Fixpoint blockSize (n : nat) (start end_ : Z) : Z :=
  match n with
  | O => 0
  | S n' =>
      let k := Z.of_nat n in
      if (start mod 2 ^ k =? 0) && (start + 2 ^ k - 1 <=? end_) then k
      else blockSize n' start end_
  end.

Fixpoint rangeToPrefixes (fuel : nat) (start end_ : Z)
  : option (list netip.Prefix) :=
  match fuel with
  | O => None
  | S fuel' =>
      if end_ <? start then Some []
      else
        let k := blockSize 32 start end_ in
        match rangeToPrefixes fuel' (start + 2 ^ k) end_ with
        | Some rest =>
            Some (netip.mkPrefix (netip.Addr4 start) (32 - k) :: rest)
        | None => None
        end
  end.

End Spec.

(** ** Vocabulary of the properties *)

(** A range of 32-bit addresses, low end first. *)
Definition wfRange (r : netipx.IPRange) : Prop :=
  0 <= netipx.from r /\ netipx.from r <= netipx.to r /\ netipx.to r < 2 ^ 32.

Definition InRange (r : netipx.IPRange) (x : Z) : Prop :=
  netipx.from r <= x <= netipx.to r.

Definition Covered (rs : list netipx.IPRange) (x : Z) : Prop :=
  exists r, In r rs /\ InRange r x.

(** Ascending ranges with at least one address missing between any two
    neighbours. *)
Inductive Separated : list netipx.IPRange -> Prop :=
| Separated_nil : Separated []
| Separated_one r : wfRange r -> Separated [r]
| Separated_cons r r' rest :
    wfRange r -> netipx.to r + 1 < netipx.from r' ->
    Separated (r' :: rest) -> Separated (r :: r' :: rest).

Definition fromLe (x y : netipx.IPRange) : Prop :=
  netipx.from x <= netipx.from y.

(** The order that [IPRange.less] is the strict part of. *)
Definition rangeLe (x y : netipx.IPRange) : Prop := netipx.less y x = false.

(** The spec's [toRange]: the interval of an IPv4 prefix, as the set
    builder computes it; an IPv6 prefix holds no 32-bit address. *)
Definition toRange (p : netip.Prefix) : netipx.IPRange :=
  match netip.ip p with
  | netip.Addr4 a => netipx.RangeOfPrefix a (netip.bits p)
  | netip.Addr6 _ _ => netipx.mkRange 1 0
  end.

Definition start_ (p : netip.Prefix) : Z := netipx.from (toRange p).
Definition end_ (p : netip.Prefix) : Z := netipx.to (toRange p).

(** A canonical IPv4 prefix: no host bit set. *)
Definition canonical (p : netip.Prefix) : Prop :=
  exists a,
    netip.ip p = netip.Addr4 a /\ 0 <= a < 2 ^ 32
    /\ 0 <= netip.bits p <= 32 /\ a mod 2 ^ (32 - netip.bits p) = 0.

(** [p] and [q] are the two halves of one shorter prefix. *)
Definition siblings (p q : netip.Prefix) : Prop :=
  exists a n,
    1 <= n <= 32 /\ a mod 2 ^ (33 - n) = 0
    /\ p = netip.mkPrefix (netip.Addr4 a) n
    /\ q = netip.mkPrefix (netip.Addr4 (a + 2 ^ (32 - n))) n.

(** [ps] lists, range after range, the greedy decomposition of [rs]. *)
Definition Decomposes (rs : list netipx.IPRange) (ps : list netip.Prefix)
  : Prop :=
  exists ls,
    Forall2 (fun r l => Spec.Greedy (netipx.from r) (netipx.to r) l) rs ls
    /\ ps = List.concat ls.

(** Neighbours in the output: disjoint, ascending, and not mergeable into
    one prefix. *)
Definition apart (p q : netip.Prefix) : Prop :=
  end_ p < start_ q /\ ~ siblings p q.

Section Normalize.

Variable parseIPv6 : string -> result (Z * string).

(** What both loops of the program do with one candidate text: parse
    it, log it if that fails, add it to the set if it is IPv4. *)
Definition addText (st : netipx.IPSetBuilder * Log) (text : string)
  : netipx.IPSetBuilder * Log :=
  let '(v4Set, log) := st in
  match netip_text.ParsePrefix parseIPv6 text with
  | Err _ => (v4Set, log ++ [("Invalid subnet: " ++ text)%string])
  | Ok prefix => (addIfIs4 v4Set prefix, log)
  end.

(** [normalize]: what [processSubnets] and the ready-list readers do
    with the candidate texts they have selected (the operation the spec
    calls [normalize]). *)
Definition normalize (texts : list string)
  : option (list netip.Prefix) * option string * Log :=
  let '(v4Set, log) := fold_left addText texts (netipx.empty, []) in
  let '(v4IPSet, _) := netipx.IPSet_of v4Set in
  (netipx.Prefixes v4IPSet, None, log).

(** The texts [processSubnets] hands on for [targetAS]. *)
Definition textsOfAS (subnets : list subnetAS) (targetAS : string)
  : list string :=
  map subnet (filter (fun item => String.eqb (as_ item) targetAS) subnets).

(** The texts a reader hands on: trimmed, blank lines left out. *)
Definition textsOfLines (lines : list string) : list string :=
  filter (fun line => negb (String.eqb line EmptyString))
         (map strings.TrimSpace lines).

(** The IPv4 prefix a text stands for, if it is one. *)
Definition v4PrefixOf (text : string) : option netip.Prefix :=
  match netip_text.ParsePrefix parseIPv6 text with
  | Ok p => if netip.Is4 (netip.ip p) then Some p else None
  | Err _ => None
  end.

(** A 32-bit address is in the input when some text is an IPv4 prefix
    that contains it. *)
Definition InInput (texts : list string) (x : Z) : Prop :=
  0 <= x < 2 ^ 32
  /\ exists text p,
       In text texts /\ v4PrefixOf text = Some p
       /\ netip_text.Contains p x = true.

Definition InOutput (out : list netip.Prefix) (x : Z) : Prop :=
  0 <= x < 2 ^ 32
  /\ exists p, In p out /\ netip_text.Contains p x = true.

(** The ranges a text adds to the set builder. *)
Definition rangesOf (text : string) : list netipx.IPRange :=
  match v4PrefixOf text with
  | Some p => [toRange p]
  | None => []
  end.

(** What the program logs for a text it cannot parse. *)
Definition invalidMsg (text : string) : string :=
  ("Invalid subnet: " ++ text)%string.

(** The log lines a text causes. *)
Definition diagOf (text : string) : list string :=
  match netip_text.ParsePrefix parseIPv6 text with
  | Err _ => [invalidMsg text]
  | Ok _ => []
  end.

Definition rejected (text : string) : bool :=
  match netip_text.ParsePrefix parseIPv6 text with
  | Err _ => true
  | Ok _ => false
  end.

Definition accepted (text : string) : bool := negb (rejected text).

End Normalize.

(** Neighbours in a normalized output: ascending by start, disjoint, and
    not the two halves of one prefix. *)
Definition neighbours (p q : netip.Prefix) : Prop :=
  start_ p < start_ q /\ end_ p < start_ q /\ ~ siblings p q.

(** The spec's stricter reading: at least one address lies between. *)
Definition gapBetween (p q : netip.Prefix) : Prop := end_ p + 1 < start_ q.

(** A stand-in for the IPv6 parser in examples that hold IPv4 text only:
    it is never consulted there. *)
Definition rejectIPv6 : string -> result (Z * string) :=
  fun _ => Err "not modelled".

Definition ip4 (a b c d : Z) : Z := ((a * 256 + b) * 256 + c) * 256 + d.

Definition prefix4 (a b c d n : Z) : netip.Prefix :=
  netip.mkPrefix (netip.Addr4 (ip4 a b c d)) n.

(** ** Auxiliary notions of the proofs *)

(** The upper 96 bits of an IPv4-mapped address: [As16_v4 a = K + a]. *)
Definition K : Z := 65535 * 2 ^ 32.

(** The number of low bits in which two IPv4 addresses may differ, as
    [appendRangePrefixes] measures it on their mapped forms. *)
Definition kOf (a b : Z) : Z :=
  128 - uint128.commonPrefixLen (K + a) (K + b).

Definition octet (v : Z) : Prop := 0 <= v < 256.

Definition fieldsOK (f : netip_text.fields4) : Prop :=
  let '(f0, f1, f2, f3) := f in octet f0 /\ octet f1 /\ octet f2 /\ octet f3.

(** Every byte of [s] satisfies [P]. *)
Fixpoint allBytes (P : ascii -> bool) (s : string) : bool :=
  match s with
  | EmptyString => true
  | String c rest => P c && allBytes P rest
  end.

Definition notByte (b : ascii) (c : ascii) : bool := negb (Ascii.eqb c b).

(** The bytes of a printed prefix: digits, dots and one slash. *)
Definition plain (c : ascii) : bool :=
  gostring.isDigit c || Ascii.eqb c "." || Ascii.eqb c "/".

(** [dec x]: what [appendDecimal] adds for the octet [x]. *)
Definition dec (x : Z) : string := netip_text.appendDecimal EmptyString x.

(** The [i]-th octet of a 32-bit address, the first one the highest. *)
Definition octetOf (a : Z) (i : Z) : Z := Z.shiftr a (8 * (3 - i)) mod 256.

(** The text of a prefix length passes the checks of [ParsePrefix] and
    reads back as the same number. *)
Definition bitsTextOK (b : Z) : bool :=
  let s := strconv.Itoa b in
  negb ((1 <? gostring.len s)
        && ((utf8.nth_byte s 0 <? 49) || (57 <? utf8.nth_byte s 0)))
  && match strconv.Atoi s with Ok v => v =? b | Err _ => false end
  && allBytes gostring.isDigit s
  && (1 <=? gostring.len s) && (gostring.len s <=? 2).

(** The lines of a file, each closed by a newline. *)
Fixpoint joinLines (lines : list string) : string :=
  match lines with
  | [] => EmptyString
  | l :: rest => (l ++ String "010" (joinLines rest))%string
  end.

(** A line that the scanner hands back as written. *)
Definition scannable (l : string) : Prop :=
  allBytes (notByte "010") l = true
  /\ gostring.len l < bufio.MaxScanTokenSize
  /\ bufio.dropCR l = l.

(** ** Vocabulary of the further properties *)

(** A valid IPv4 prefix; host bits may be set. *)
Definition validV4 (p : netip.Prefix) : Prop :=
  exists a,
    netip.ip p = netip.Addr4 a /\ 0 <= a < 2 ^ 32 /\ 0 <= netip.bits p <= 32.

(** The addresses of [p] all lie in those of [q]. *)
Definition within (p q : netip.Prefix) : Prop :=
  start_ q <= start_ p /\ end_ p <= end_ q.

(** The IPv4 prefixes among the texts, one per text that is one. *)
Definition v4Prefixes (parseIPv6 : string -> result (Z * string))
           (texts : list string) : list netip.Prefix :=
  flat_map (fun text =>
              match v4PrefixOf parseIPv6 text with
              | Some p => [p]
              | None => []
              end) texts.

(** [l] tiles the addresses [s .. e] with aligned blocks, in ascending
    order and without a gap; the blocks need not be the largest ones. *)
Inductive Tiling : Z -> Z -> list netip.Prefix -> Prop :=
| Tiling_done s e : e + 1 = s -> Tiling s e []
| Tiling_emit s e k p rest :
    0 <= k -> s mod 2 ^ k = 0 -> s + 2 ^ k - 1 <= e ->
    p = netip.mkPrefix (netip.Addr4 s) (32 - k) ->
    Tiling (s + 2 ^ k) e rest ->
    Tiling s e (p :: rest).

(** The text that [parseIPv4] has read when it is at field [pos] with
    [digLen] digits of value [val] in hand. *)
Definition renderFields (fields : netip_text.fields4) (pos : Z) : string :=
  let '(f0, f1, f2, f3) := fields in
  if pos =? 0 then EmptyString
  else if pos =? 1 then (dec f0 ++ ".")%string
  else if pos =? 2 then (dec f0 ++ "." ++ dec f1 ++ ".")%string
  else (dec f0 ++ "." ++ dec f1 ++ "." ++ dec f2 ++ ".")%string.

Definition renderCur (val digLen : Z) : string :=
  if digLen =? 0 then EmptyString else dec val.

(** One or two decimal digits, as [Itoa] prints a prefix length. *)
Definition itoa2 (n : Z) : string :=
  if n <? 10 then String (netip_text.digit n) EmptyString
  else String (netip_text.digit (n / 10))
              (String (netip_text.digit (n mod 10)) EmptyString).

(** ** Layout of the text inputs *)

Definition spaceByte (c : ascii) : bool :=
  strings.asciiSpace (gostring.byte c).

(** Blank space inside a line: any ASCII space but the newline. *)
Definition blankByte (c : ascii) : bool := spaceByte c && notByte "010" c.

Definition asciiByte (c : ascii) : bool := gostring.byte c <? utf8.RuneSelf.

(** An ASCII byte that is not a space. *)
Definition wordByte (c : ascii) : bool := asciiByte c && negb (spaceByte c).

Definition isEmpty (s : string) : bool :=
  match s with EmptyString => true | _ => false end.

(** A text whose first and last bytes are ASCII and not spaces. *)
Definition tight (t : string) : bool :=
  match t, gostring.rev t with
  | String c0 _, String c1 _ => wordByte c0 && wordByte c1
  | _, _ => false
  end.

(** A line of a ready list: a text, or nothing, with blank space around
    it; a carriage return before the newline counts as blank space. *)
Definition lineOf (row : string * string * string) : string :=
  let '(pad, t, pad') := row in (pad ++ t ++ pad')%string.

Definition textOf (row : string * string * string) : string :=
  let '(_, t, _) := row in t.

Definition okRow (row : string * string * string) : bool :=
  let '(pad, t, pad') := row in
  allBytes blankByte pad && allBytes blankByte pad'
  && (isEmpty t || tight t) && allBytes (notByte "010") t
  && (gostring.len (lineOf row) <? bufio.MaxScanTokenSize).

(** A line of the BGP table: words of ASCII bytes, each after its
    separator, then trailing blank space. *)
Definition isWord (w : string) : bool :=
  negb (isEmpty w) && allBytes wordByte w.

Fixpoint itemsText (items : list (string * string)) : string :=
  match items with
  | [] => EmptyString
  | (sep, w) :: rest => (sep ++ w ++ itemsText rest)%string
  end.

Definition tableLine (row : list (string * string) * string) : string :=
  (itemsText (fst row) ++ snd row)%string.

(** Separators are blank and, after the first word, not empty. *)
Fixpoint okItems (first : bool) (items : list (string * string)) : bool :=
  match items with
  | [] => true
  | (sep, w) :: rest =>
      allBytes blankByte sep && (first || negb (isEmpty sep)) && isWord w
      && okItems false rest
  end.

Definition okTableRow (row : list (string * string) * string) : bool :=
  okItems true (fst row) && allBytes blankByte (snd row)
  && (gostring.len (tableLine row) <? bufio.MaxScanTokenSize).

(** The entry that a table line stands for: its first two words. *)
Definition entryOf (row : list (string * string) * string) : list subnetAS :=
  match map snd (fst row) with
  | w0 :: w1 :: _ => [mkSubnetAS w0 w1]
  | _ => []
  end.

(** A line that the scanner can hold. *)
Definition fitsScanner (l : string) : bool :=
  allBytes (notByte "010") l && (gostring.len l <? bufio.MaxScanTokenSize).

(** A line of [n] copies of one byte. *)
Fixpoint fill (n : nat) (c : ascii) : string :=
  match n with
  | O => EmptyString
  | S n' => String c (fill n' c)
  end.

(** The text of a ready list without its layout: one text per line. *)
Definition plainLines (rows : list (string * string * string)) : list string :=
  filter (fun t => negb (isEmpty t)) (map textOf rows).

(** A field: not empty, and without any ASCII space. *)
Definition isField (f : string) : bool :=
  negb (isEmpty f) && allBytes (fun c => negb (spaceByte c)) f.

(** The first [n] bytes of [s] exist and are not ASCII. *)
Fixpoint highPrefix (n : nat) (s : string) : bool :=
  match n, s with
  | O, _ => true
  | S n', String c rest => (utf8.RuneSelf <=? gostring.byte c) && highPrefix n' rest
  | S _, EmptyString => false
  end.

(** The text that a reader takes from a line of the scanner: the line
    without its carriage return, trimmed. *)
Definition lineText (line : string) : string :=
  strings.TrimSpace (bufio.dropCR line).

(** A text that a reader logs as invalid: not blank, and rejected by
    [netip.ParsePrefix]. *)
Definition malformed (parseIPv6 : string -> result (Z * string))
           (text : string) : bool :=
  negb (isEmpty text) && rejected parseIPv6 text.

(** ** Vocabulary of the file names *)

(** A file name: not empty, without a separator, and neither [.] nor
    [..]. *)
Definition isName (e : string) : bool :=
  negb (isEmpty e) && allBytes (notByte "/") e
  && negb (String.eqb e ".") && negb (String.eqb e "..").

Definition rootedPath (path : string) : bool :=
  match path with
  | String c _ => filepath.IsPathSeparator c
  | EmptyString => false
  end.

(** What the loop of [Clean] does with one element of the path. *)
Definition cleanElement (e : string) (rooted : bool) (st : string * Z)
  : string * Z :=
  let '(out, dotdot) := st in
  if isEmpty e || String.eqb e "." then st
  else if String.eqb e ".." then
    let w := gostring.len out in
    if dotdot <? w then (filepath.backtrack out (w - 1) dotdot, dotdot)
    else if negb rooted then
      let out1 := if 0 <? w then String "/" out else out in
      let out2 := String "." (String "." out1) in
      (out2, gostring.len out2)
    else st
  else ((gostring.rev e ++ filepath.withSeparator out rooted)%string, dotdot).

(** The loop of [Clean] from a state. *)
Definition cleanFrom (path : string) (rooted : bool) (st : string * Z)
  : string * Z :=
  filepath.cleanLoop path (fst st) (snd st) rooted false.

(** The buffers of [Clean] between two elements, with their [dotdot]:
    the leading separator of a rooted path or leading [..] elements of
    another, then names. *)
Inductive Cleaned (rooted : bool) : string -> Z -> Prop :=
| Cleaned_root : rooted = true -> Cleaned rooted "/" 1
| Cleaned_empty : rooted = false -> Cleaned rooted EmptyString 0
| Cleaned_up out out2 :
    rooted = false ->
    Cleaned rooted out (gostring.len out) ->
    out2 = String "." (String "."
             (if 0 <? gostring.len out then String "/" out else out)) ->
    Cleaned rooted out2 (gostring.len out2)
| Cleaned_name out dotdot e :
    Cleaned rooted out dotdot ->
    isName e = true ->
    Cleaned rooted
            (gostring.rev e ++ filepath.withSeparator out rooted)%string
            dotdot.

(** The directory part that [Join] puts before a name: the cleaned
    directory with its separator, or nothing for the current
    directory. *)
Definition dirPrefix (dir : string) : string :=
  gostring.rev
    (filepath.withSeparator (fst (filepath.cleanStart dir)) (rootedPath dir)).

(** ASCII letters, digits and the underscore. *)
Definition identByte (c : ascii) : bool :=
  let b := gostring.byte c in
  ((48 <=? b) && (b <=? 57)) || ((97 <=? b) && (b <=? 122))
  || ((65 <=? b) && (b <=? 90)) || (b =? 95).

Definition upperByte (c : ascii) : ascii :=
  let b := gostring.byte c in
  if (97 <=? b) && (b <=? 122) then ascii_of_N (Z.to_N (b - 32)) else c.

(** [Title] on ASCII bytes: a byte after one that is no letter, digit
    or underscore is put in upper case. *)
Fixpoint titleASCII (s : string) (prev : ascii) : string :=
  match s with
  | EmptyString => EmptyString
  | String c rest =>
      String (if identByte prev then c else upperByte c) (titleASCII rest c)
  end.

Definition capitalized (w : string) : string :=
  match w with
  | EmptyString => EmptyString
  | String c rest => String (upperByte c) rest
  end.

(** A word of letters, digits and underscores. *)
Definition isIdent (w : string) : bool :=
  negb (isEmpty w) && allBytes identByte w.

(** ** Vocabulary of the scripts *)

(** How often the byte [b] occurs in [s]. *)
Fixpoint countByte (b : ascii) (s : string) : Z :=
  match s with
  | EmptyString => 0
  | String c rest => (if Ascii.eqb c b then 1 else 0) + countByte b rest
  end.

(** A text without braces. *)
Definition braceFree (s : string) : bool :=
  allBytes (fun c => notByte "{" c && notByte "}" c) s.

(** ** Concrete tables *)

(** Case tables that know no letter or digit above ASCII and change no
    rune there; ASCII names do not consult them. *)
Definition asciiOnly (r : Z) : bool := false.

Definition sameRune (r : Z) : Z := r.

(** A stand-in for the IPv6 printer in examples that hold IPv4 prefixes
    only: it is never consulted there. *)
Definition printNoIPv6 : Z -> string -> string := fun _ _ => EmptyString.

(* ================================================================= *)
(** * Properties *)

(** ** 128-bit words *)

Lemma pow2_pos (k : Z) : 0 <= k -> 0 < 2 ^ k.
Proof. intros; apply Z.pow_pos_nonneg; lia. Qed.

Lemma testbit_above (u n i : Z) :
  0 <= u < 2 ^ n -> n <= i -> Z.testbit u i = false.
Proof.
  intros [H0 H1] Hi.
  destruct (Z.eq_dec u 0) as [->|Hne]; [apply Z.bits_0|].
  apply Z.bits_above_log2; [lia|].
  assert (Z.log2 u < n); [|lia].
  apply Z.log2_lt_pow2; lia.
Qed.

Ltac cmp_cases :=
  repeat match goal with
         | |- context [Z.leb ?a ?b] => destruct (Z.leb_spec a b)
         | |- context [Z.ltb ?a ?b] => destruct (Z.ltb_spec a b)
         end;
  cbn [andb orb xorb negb]; try lia.

Ltac bits_cases u :=
  cmp_cases;
  try rewrite (testbit_above u 128) by lia;
  try (destruct (Z.testbit u _)); reflexivity.

Lemma mask6_bits (n i : Z) :
  0 <= n <= 128 -> 0 <= i ->
  Z.testbit (uint128.mask6 n) i = (128 - n <=? i) && (i <? 128).
Proof.
  intros Hn Hi. unfold uint128.mask6.
  rewrite Z.shiftl_spec by lia.
  destruct (Z.leb_spec (128 - n) i).
  - rewrite Z.testbit_ones_nonneg by lia.
    destruct (Z.ltb_spec (i - (128 - n)) n), (Z.ltb_spec i 128); cbn [andb];
      lia || reflexivity.
  - rewrite Z.testbit_neg_r by lia. reflexivity.
Qed.

Lemma mask6_eq (n : Z) :
  0 <= n <= 128 -> uint128.mask6 n = 2 ^ 128 - 2 ^ (128 - n).
Proof.
  intros Hn. unfold uint128.mask6.
  rewrite Z.shiftl_mul_pow2 by lia. rewrite Z.ones_equiv.
  replace (2 ^ 128) with (2 ^ n * 2 ^ (128 - n)).
  - pose proof (pow2_pos n). lia.
  - rewrite <- Z.pow_add_r by lia. f_equal. lia.
Qed.

Lemma max_ones : uint128.max = Z.ones 128.
Proof. reflexivity. Qed.

Lemma not_mask6 (n : Z) :
  0 <= n <= 128 -> uint128.not (uint128.mask6 n) = Z.ones (128 - n).
Proof.
  intros Hn. apply Z.bits_inj'. intros i Hi.
  unfold uint128.not. rewrite Z.lxor_spec, mask6_bits, max_ones by lia.
  rewrite !Z.testbit_ones_nonneg by lia.
  cmp_cases; reflexivity.
Qed.

(** Clearing the low [k] bits. *)
Lemma bitsClearedFrom_eq (u n : Z) :
  0 <= u < 2 ^ 128 -> 0 <= n <= 128 ->
  uint128.bitsClearedFrom u n = u - u mod 2 ^ (128 - n).
Proof.
  intros Hu Hn. unfold uint128.bitsClearedFrom.
  transitivity (Z.ldiff u (Z.ones (128 - n))).
  - apply Z.bits_inj'. intros i Hi.
    rewrite Z.land_spec, Z.ldiff_spec, mask6_bits, Z.testbit_ones_nonneg by lia.
    bits_cases u.
  - rewrite Z.ldiff_ones_r by lia.
    rewrite Z.shiftl_mul_pow2, Z.shiftr_div_pow2 by lia.
    pose proof (Z.div_mod u (2 ^ (128 - n))) as E.
    pose proof (pow2_pos (128 - n)). lia.
Qed.

(** Setting the low [k] bits. *)
Lemma lor_ones (u k : Z) :
  0 <= k -> Z.lor u (Z.ones k) = u - u mod 2 ^ k + (2 ^ k - 1).
Proof.
  intros Hk.
  assert (E : Z.lor u (Z.ones k) = Z.lxor (Z.ldiff u (Z.ones k)) (Z.ones k)).
  { apply Z.bits_inj'. intros i Hi.
    rewrite Z.lor_spec, Z.lxor_spec, Z.ldiff_spec.
    destruct (Z.testbit u i), (Z.testbit (Z.ones k) i); reflexivity. }
  rewrite E, <- Z.add_nocarry_lxor.
  - rewrite Z.ldiff_ones_r by lia.
    rewrite Z.shiftl_mul_pow2, Z.shiftr_div_pow2 by lia.
    rewrite Z.ones_equiv.
    pose proof (Z.div_mod u (2 ^ k)) as D.
    pose proof (pow2_pos k). lia.
  - apply Z.bits_inj'. intros i Hi.
    rewrite Z.land_spec, Z.ldiff_spec, Z.bits_0.
    destruct (Z.testbit u i), (Z.testbit (Z.ones k) i); reflexivity.
Qed.

Lemma bitsSetFrom_eq (u n : Z) :
  0 <= n <= 128 ->
  uint128.bitsSetFrom u n
  = u - u mod 2 ^ (128 - n) + (2 ^ (128 - n) - 1).
Proof.
  intros Hn. unfold uint128.bitsSetFrom.
  rewrite not_mask6 by lia. apply lor_ones. lia.
Qed.

(** The test "[a] is all zero bits after the first [n]". *)
Lemma low_zero_test (u n : Z) :
  0 <= u < 2 ^ 128 -> 0 <= n <= 128 ->
  Z.lxor u (Z.land u (uint128.mask6 n)) = u mod 2 ^ (128 - n).
Proof.
  intros Hu Hn. rewrite <- Z.land_ones by lia.
  apply Z.bits_inj'. intros i Hi.
  rewrite Z.lxor_spec, !Z.land_spec, mask6_bits, Z.testbit_ones_nonneg by lia.
  bits_cases u.
Qed.

(** The test "[b] is all one bits after the first [n]". *)
Lemma low_ones_test (u n : Z) :
  0 <= u < 2 ^ 128 -> 0 <= n <= 128 ->
  Z.lor u (uint128.mask6 n) = u mod 2 ^ (128 - n) + (2 ^ 128 - 2 ^ (128 - n)).
Proof.
  intros Hu Hn. rewrite <- (mask6_eq n) by lia.
  rewrite <- Z.land_ones by lia.
  assert (E : Z.lor u (uint128.mask6 n)
              = Z.lxor (Z.land u (Z.ones (128 - n))) (uint128.mask6 n)).
  { apply Z.bits_inj'. intros i Hi.
    rewrite Z.lor_spec, Z.lxor_spec, Z.land_spec, mask6_bits,
      Z.testbit_ones_nonneg by lia.
    bits_cases u. }
  rewrite E. symmetry. apply Z.add_nocarry_lxor.
  apply Z.bits_inj'. intros i Hi.
  rewrite !Z.land_spec, mask6_bits, Z.testbit_ones_nonneg, Z.bits_0 by lia.
  bits_cases u.
Qed.

Section Common.

Variables a b : Z.
Hypothesis Ha : 0 <= a < 2 ^ 128.
Hypothesis Hb : 0 <= b < 2 ^ 128.

Let x := Z.lxor a b.
Let k := 128 - uint128.commonPrefixLen a b.

Lemma lxor_nonneg_lt : 0 <= x < 2 ^ 128.
Proof.
assert (H0 : 0 <= x) by (apply Z.lxor_nonneg; lia).
split; [exact H0|].
destruct (Z.eq_dec x 0) as [->|Hne]; [reflexivity|].
apply Z.log2_lt_pow2; [lia|].
pose proof (Z.log2_lxor a b (proj1 Ha) (proj1 Hb)) as L. fold x in L.
assert (Z.log2 a < 128).
{ destruct (Z.eq_dec a 0) as [->|]; [reflexivity|apply Z.log2_lt_pow2; lia]. }
assert (Z.log2 b < 128).
{ destruct (Z.eq_dec b 0) as [->|]; [reflexivity|apply Z.log2_lt_pow2; lia]. }
lia.
Qed.

Lemma common_k_cases :
(a = b /\ k = 0) \/ (a <> b /\ 0 < x /\ k = Z.log2 x + 1 /\ 1 <= k <= 128).
Proof.
unfold k, uint128.commonPrefixLen. fold x.
destruct (Z.eqb_spec x 0) as [E|E].
- left. split; [|lia]. apply Z.lxor_eq. exact E.
- right. pose proof lxor_nonneg_lt as [H0 H1].
  assert (a <> b) by (intros ->; apply E; apply Z.lxor_nilpotent).
  assert (Z.log2 x < 128) by (apply Z.log2_lt_pow2; lia).
  pose proof (Z.log2_nonneg x). repeat split; lia.
Qed.

Lemma common_k_range : 0 <= k <= 128.
Proof. destruct common_k_cases as [[_ ->]|(_ & _ & _ & H)]; lia. Qed.

Lemma common_k_zero : k = 0 <-> a = b.
Proof.
destruct common_k_cases as [[? ?]|(? & _ & _ & ?)]; split; intros;
  try tauto; lia.
Qed.

Lemma common_high_eq : a / 2 ^ k = b / 2 ^ k.
Proof.
destruct common_k_cases as [[-> _]|(_ & Hx & Hk & Hr)]; [reflexivity|].
apply Z.bits_inj'. intros i Hi.
rewrite !Z.div_pow2_bits by lia.
assert (T : Z.testbit x (i + k) = false).
{ apply Z.bits_above_log2; lia. }
unfold x in T. rewrite Z.lxor_spec in T.
apply xorb_eq. exact T.
Qed.

Lemma common_bit_diff : a <> b -> a / 2 ^ (k - 1) <> b / 2 ^ (k - 1).
Proof.
intros Hne E.
destruct common_k_cases as [[? _]|(_ & Hx & Hk & Hr)]; [tauto|].
assert (T : Z.testbit x (k - 1) = true).
{ replace (k - 1) with (Z.log2 x) by lia. apply Z.bit_log2. exact Hx. }
unfold x in T. rewrite Z.lxor_spec in T.
assert (Z.testbit a (k - 1) = Z.testbit b (k - 1)).
{ replace (k - 1) with (0 + (k - 1)) by lia.
  rewrite <- !Z.div_pow2_bits by lia. rewrite E. reflexivity. }
rewrite H, xorb_nilpotent in T. discriminate.
Qed.

Lemma common_k_le (j : Z) : 0 <= j -> a / 2 ^ j = b / 2 ^ j -> k <= j.
Proof.
intros Hj E.
destruct (Z.eq_dec a b) as [Hab|Hab]; [apply common_k_zero in Hab; lia|].
destruct (Z_le_gt_dec k j) as [|Hgt]; [assumption|].
exfalso. apply (common_bit_diff Hab).
replace (k - 1) with (j + (k - 1 - j)) by lia.
rewrite Z.pow_add_r by lia.
rewrite <- !Z.div_div by (try apply Z.pow_nonneg; try (apply pow2_pos); lia).
rewrite E. reflexivity.
Qed.

End Common.

(** ** The IPv4-mapped form *)

Lemma K_dvd (k : Z) : 0 <= k <= 32 -> K = 65535 * 2 ^ (32 - k) * 2 ^ k.
Proof.
  intros Hk. unfold K. rewrite <- Z.mul_assoc, <- Z.pow_add_r by lia.
  do 2 f_equal. lia.
Qed.

Lemma As16_v4_eq (a : Z) : 0 <= a < 2 ^ 32 -> netip.As16_v4 a = K + a.
Proof.
  intros Ha. unfold netip.As16_v4, K.
  rewrite Z.shiftl_mul_pow2 by lia.
  rewrite <- (Z.add_lor_land (65535 * 2 ^ 32) a).
  assert (E : Z.land (65535 * 2 ^ 32) a = 0); [|lia].
  apply Z.bits_inj'. intros i Hi.
  rewrite Z.land_spec, Z.bits_0.
  destruct (Z_lt_le_dec i 32).
  - rewrite Z.mul_pow2_bits_low by lia. reflexivity.
  - rewrite (testbit_above a 32) by lia. apply andb_false_r.
Qed.

Lemma As16_range (a : Z) : 0 <= a < 2 ^ 32 -> 0 <= K + a < 2 ^ 128.
Proof. unfold K. lia. Qed.

Lemma K_div (a k : Z) :
  0 <= k <= 32 -> (K + a) / 2 ^ k = 65535 * 2 ^ (32 - k) + a / 2 ^ k.
Proof.
  intros Hk. rewrite (K_dvd k Hk).
  rewrite Z.add_comm, Z.div_add by (pose proof (pow2_pos k); lia). lia.
Qed.

Lemma K_mod (a k : Z) : 0 <= k <= 32 -> (K + a) mod 2 ^ k = a mod 2 ^ k.
Proof.
  intros Hk. rewrite (K_dvd k Hk).
  rewrite Z.add_comm, Z.mod_add by (pose proof (pow2_pos k); lia). reflexivity.
Qed.

Section Step.

Variables a b : Z.
Hypothesis Ha : 0 <= a < 2 ^ 32.
Hypothesis Hb : 0 <= b < 2 ^ 32.

Let c := uint128.commonPrefixLen (K + a) (K + b).
Let k := 128 - c.

Lemma step_k_range : 0 <= k <= 32.
Proof.
pose proof (common_k_range (K + a) (K + b) (As16_range a Ha) (As16_range b Hb)).
pose proof (common_k_le (K + a) (K + b)
              (As16_range a Ha) (As16_range b Hb) 32) as L.
fold c in H, L. fold k in H, L.
split; [lia|]. apply L; [lia|].
rewrite !K_div by lia.
rewrite !Z.div_small by lia. reflexivity.
Qed.

Lemma step_k_zero : k = 0 <-> a = b.
Proof.
pose proof (common_k_zero (K + a) (K + b)
              (As16_range a Ha) (As16_range b Hb)) as Z0.
fold c in Z0. fold k in Z0. lia.
Qed.

Lemma step_high_eq : a / 2 ^ k = b / 2 ^ k.
Proof.
pose proof (common_high_eq (K + a) (K + b)
              (As16_range a Ha) (As16_range b Hb)) as E.
fold c in E. fold k in E.
rewrite !K_div in E by apply step_k_range. lia.
Qed.

Lemma step_bit_diff : a <> b -> a / 2 ^ (k - 1) <> b / 2 ^ (k - 1).
Proof.
intros Hne E.
assert (Hk : 1 <= k <= 32).
{ pose proof step_k_range. pose proof step_k_zero. lia. }
apply (common_bit_diff (K + a) (K + b) (As16_range a Ha) (As16_range b Hb)).
- lia.
- fold c. fold k. rewrite !K_div by lia. lia.
Qed.

Lemma step_compare :
netipx.comparePrefixes (K + a) (K + b)
= (c, (a mod 2 ^ k =? 0) && (b mod 2 ^ k =? 2 ^ k - 1)).
Proof.
unfold netipx.comparePrefixes. fold c.
pose proof step_k_range as Hk.
destruct (Z.eqb_spec c 128) as [E|E].
- assert (k = 0) by (unfold k; lia).
  rewrite H. rewrite !Z.mod_1_r. reflexivity.
- rewrite low_zero_test, low_ones_test
    by (try apply As16_range; unfold k in Hk; lia).
  fold k. rewrite !K_mod by lia.
  unfold uint128.max.
  f_equal. f_equal.
  destruct (Z.eqb_spec (b mod 2 ^ k + (2 ^ 128 - 2 ^ k)) (2 ^ 128 - 1)),
           (Z.eqb_spec (b mod 2 ^ k) (2 ^ k - 1)); lia || reflexivity.
Qed.

Lemma step_set :
1 <= k ->
uint128.bitsSetFrom (K + a) (c + 1)
= K + (a - a mod 2 ^ (k - 1) + (2 ^ (k - 1) - 1)).
Proof.
intros H1. pose proof step_k_range as Hk.
rewrite bitsSetFrom_eq by (unfold k in *; lia).
replace (128 - (c + 1)) with (k - 1) by (unfold k; lia).
rewrite K_mod by lia. lia.
Qed.

Lemma step_clear :
1 <= k ->
uint128.bitsClearedFrom (K + b) (c + 1) = K + (b - b mod 2 ^ (k - 1)).
Proof.
intros H1. pose proof step_k_range as Hk.
rewrite bitsClearedFrom_eq by (try apply As16_range; unfold k in *; lia).
replace (128 - (c + 1)) with (k - 1) by (unfold k; lia).
rewrite K_mod by lia. lia.
Qed.

Lemma step_prefix :
netipx.prefixFrom128AndBits (K + a) c
= netip.mkPrefix (netip.Addr4 a) (32 - k).
Proof.
pose proof step_k_range as Hk.
unfold netipx.prefixFrom128AndBits.
rewrite Z.land_ones by lia. rewrite (K_mod a 32) by lia.
rewrite Z.mod_small by lia.
replace (c - 96) with (32 - k) by (unfold k; lia).
rewrite (Z.mod_small (32 - k)) by lia.
unfold netip.PrefixFrom. cbn [netip.BitLen netip.withoutZone].
destruct (Z.leb_spec 0 (32 - k)), (Z.leb_spec (32 - k) 32); try lia. reflexivity.
Qed.

End Step.

Lemma pow2_divide (j k : Z) : 0 <= j <= k -> (2 ^ j | 2 ^ k).
Proof.
  intros H. exists (2 ^ (k - j)). rewrite <- Z.pow_add_r by lia. f_equal. lia.
Qed.

Lemma mod0_divide (s k : Z) : 0 <= k -> s mod 2 ^ k = 0 <-> (2 ^ k | s).
Proof.
  intros Hk. apply Z.mod_divide. pose proof (pow2_pos k Hk). lia.
Qed.

Lemma aligned_next (d s m : Z) :
  0 < d -> (d | s) -> (d | m) -> s < m -> s + d <= m.
Proof.
  intros Hd [x ->] [y ->] H.
  assert (x < y) by nia. nia.
Qed.

Lemma aligned_small (d s : Z) : (d | s) -> 0 <= s < d -> s = 0.
Proof.
  intros [x ->] H. assert (x = 0) by nia. subst. reflexivity.
Qed.

Lemma pow2_le_inv (j k : Z) : 0 <= j -> 0 <= k -> 2 ^ j <= 2 ^ k -> j <= k.
Proof. intros Hj Hk H. apply (Z.pow_le_mono_r_iff 2); lia. Qed.

Lemma Greedy_block (a k : Z) :
  0 <= k -> a mod 2 ^ k = 0 ->
  Spec.Greedy a (a + 2 ^ k - 1) [netip.mkPrefix (netip.Addr4 a) (32 - k)].
Proof.
  intros Hk Hal. pose proof (pow2_pos k Hk).
  apply (Spec.Greedy_emit _ _ k).
  - lia.
  - split.
    + repeat split; [lia | assumption | lia].
    + intros k' (Hk' & _ & Hf). apply pow2_le_inv; lia.
  - reflexivity.
  - apply Spec.Greedy_done. lia.
Qed.

Lemma Greedy_split (base k m b : Z) (l2 : list netip.Prefix) :
  1 <= k -> base mod 2 ^ k = 0 -> m + 1 = base + 2 ^ (k - 1) ->
  m < b -> b <= base + 2 ^ k - 1 ->
  Spec.Greedy (m + 1) b l2 ->
  forall s l1,
    Spec.Greedy s m l1 ->
    base <= s <= m + 1 -> (s = base -> b < base + 2 ^ k - 1) ->
    Spec.Greedy s b (l1 ++ l2).
Proof.
  intros Hk Hbase Hmid Hmb Hbtop G2 s l1 G1.
  assert (P1 : 0 < 2 ^ (k - 1)) by (apply pow2_pos; lia).
  assert (Pk : 2 ^ k = 2 * 2 ^ (k - 1)).
  { replace k with (1 + (k - 1)) at 1 by lia.
    rewrite Z.pow_add_r by lia. reflexivity. }
  apply mod0_divide in Hbase; [|lia].
  induction G1 as [s m Hlt | s m j p rest Hle [Hfit Hmax] Ep G1 IH]; intros Hs Hne.
  - assert (s = m + 1) by lia. subst s. exact G2.
  - cbn [app]. destruct Hfit as (Hj & Hal & Hend).
    pose proof (pow2_pos j Hj) as Pj.
    apply (Spec.Greedy_emit _ _ j); [| | exact Ep |].
    + lia.
    + split; [repeat split; [lia | assumption | lia]|].
      intros j' (Hj' & Hal' & Hend'). apply Hmax.
      repeat split; [lia | assumption |].
      pose proof (pow2_pos j' Hj') as Pj'.
      apply mod0_divide in Hal'; [|lia].
      destruct (Z_lt_le_dec j' k) as [Hlt|Hge].
      * (* the block stays inside the lower half *)
        assert (D : (2 ^ j' | m + 1)).
        { rewrite Hmid. apply Z.divide_add_r.
          - eapply Z.divide_trans; [apply (pow2_divide j' k); lia | exact Hbase].
          - apply pow2_divide; lia. }
        pose proof (aligned_next (2 ^ j') s (m + 1) Pj' Hal' D). lia.
      * (* a block of the whole size or more starts at [base] *)
        exfalso.
        assert (D : (2 ^ k | s - base)).
        { apply Z.divide_sub_r; [|exact Hbase].
          eapply Z.divide_trans; [apply (pow2_divide k j'); lia | exact Hal']. }
        assert (s - base = 0) by (apply (aligned_small (2 ^ k)); [exact D | lia]).
        assert (2 ^ k <= 2 ^ j') by (apply Z.pow_le_mono_r; lia).
        assert (s = base) by lia. specialize (Hne H1). lia.
    + apply IH; try assumption; lia.
Qed.

Lemma Greedy_functional (s e : Z) (l l' : list netip.Prefix) :
  Spec.Greedy s e l -> Spec.Greedy s e l' -> l = l'.
Proof.
  intros G. revert l'.
  induction G as [s e Hlt | s e k p rest Hle [Hfit Hmax] Ep G IH]; intros l' G';
    inversion G' as [? ? Hlt' | ? ? k' p' rest' Hle' [Hfit' Hmax'] Ep' G''];
    subst; try lia.
  - reflexivity.
  - assert (k = k') by (pose proof (Hmax k' Hfit'); pose proof (Hmax' k Hfit); lia).
    subst k'. f_equal. apply IH. exact G''.
Qed.

Lemma kOf_le (a b j : Z) :
  0 <= a < 2 ^ 32 -> 0 <= b < 2 ^ 32 -> 0 <= j <= 32 ->
  a / 2 ^ j = b / 2 ^ j -> kOf a b <= j.
Proof.
  intros Ha Hb Hj E. unfold kOf.
  apply (common_k_le (K + a) (K + b) (As16_range a Ha) (As16_range b Hb)); [lia|].
  rewrite !K_div by lia. lia.
Qed.

(** Where the two halves of a split meet. *)
Lemma split_arith (a b k : Z) :
  0 <= a <= b -> 1 <= k ->
  a / 2 ^ k = b / 2 ^ k -> a / 2 ^ (k - 1) <> b / 2 ^ (k - 1) ->
  let P := 2 ^ (k - 1) in
  let base := a / 2 ^ k * 2 ^ k in
  let mid := base + P in
  base mod 2 ^ k = 0 /\
  base <= a < mid /\ mid <= b <= base + 2 ^ k - 1 /\
  a - a mod P + (P - 1) = mid - 1 /\ b - b mod P = mid /\
  (mid - 1) / P = a / P /\ mid / P = b / P.
Proof.
  intros Hab Hk E D P base mid.
  assert (PP : 0 < P) by (apply pow2_pos; lia).
  assert (Pk : 2 ^ k = P * 2).
  { unfold P. replace k with ((k - 1) + 1) at 1 by lia.
    rewrite Z.pow_add_r by lia. reflexivity. }
  assert (Qa : a / P / 2 = a / 2 ^ k) by (rewrite Pk, Z.div_div by lia; reflexivity).
  assert (Qb : b / P / 2 = b / 2 ^ k) by (rewrite Pk, Z.div_div by lia; reflexivity).
  assert (Le : a / P <= b / P) by (apply Z.div_le_mono; lia).
  fold P in D.
  pose proof (Z.div_mod (a / P) 2 ltac:(lia)) as Da.
  pose proof (Z.div_mod (b / P) 2 ltac:(lia)) as Db.
  pose proof (Z.mod_pos_bound (a / P) 2 ltac:(lia)) as Ba.
  pose proof (Z.mod_pos_bound (b / P) 2 ltac:(lia)) as Bb.
  pose proof (Z.div_mod a P ltac:(lia)) as Ea.
  pose proof (Z.div_mod b P ltac:(lia)) as Eb.
  pose proof (Z.mod_pos_bound a P PP) as Ma.
  pose proof (Z.mod_pos_bound b P PP) as Mb.
  set (q := a / 2 ^ k) in *.
  assert (Xa : a / P = 2 * q) by lia.
  assert (Xb : b / P = 2 * q + 1) by lia.
  assert (Hbase : base = q * (P * 2)) by (unfold base; rewrite Pk; reflexivity).
  assert (Hmid : mid = (2 * q + 1) * P) by (unfold mid; lia).
  split; [unfold base; apply Z.mod_mul; lia|].
  split; [nia|]. split; [nia|]. split; [nia|]. split; [nia|].
  split.
  - rewrite Xa. symmetry. apply (Z.div_unique _ _ _ (P - 1)); [lia | nia].
  - rewrite Xb. symmetry. apply (Z.div_unique _ _ _ 0); [lia | nia].
Qed.

Lemma full_block_arith (a b k : Z) :
  0 <= k -> a / 2 ^ k = b / 2 ^ k ->
  a mod 2 ^ k = 0 -> b mod 2 ^ k = 2 ^ k - 1 -> b = a + 2 ^ k - 1.
Proof.
  intros Hk E Ma Mb. pose proof (pow2_pos k Hk).
  pose proof (Z.div_mod a (2 ^ k) ltac:(lia)).
  pose proof (Z.div_mod b (2 ^ k) ltac:(lia)). nia.
Qed.

Theorem appendRangePrefixes_greedy (fuel : nat) :
  forall a b dst,
    0 <= a -> a <= b -> b < 2 ^ 32 -> (Z.to_nat (kOf a b) < fuel)%nat ->
    exists l,
      netipx.appendRangePrefixes fuel dst (K + a) (K + b) = Some (dst ++ l)
      /\ Spec.Greedy a b l.
Proof.
  induction fuel as [|fuel IH]; intros a b dst Ha Hab Hb Hfuel; [lia|].
  assert (Ra : 0 <= a < 2 ^ 32) by lia.
  assert (Rb : 0 <= b < 2 ^ 32) by lia.
  pose proof (step_k_range a b Ra Rb) as Hk.
  pose proof (step_high_eq a b Ra Rb) as Hhi.
  pose proof (step_k_zero a b Ra Rb) as Hz.
  pose proof (step_bit_diff a b Ra Rb) as Hd.
  pose proof (step_prefix a b Ra Rb) as Hp.
  pose proof (step_set a b Ra Rb) as Hset.
  pose proof (step_clear a b Ra Rb) as Hclr.
  cbn [netipx.appendRangePrefixes].
  rewrite (step_compare a b Ra Rb).
  fold (kOf a b) in *. set (k := kOf a b) in *.
  set (c := uint128.commonPrefixLen (K + a) (K + b)) in *.
  assert (Split : ~ (a mod 2 ^ k = 0 /\ b mod 2 ^ k = 2 ^ k - 1) ->
    exists l,
      match netipx.appendRangePrefixes fuel dst (K + a)
              (uint128.bitsSetFrom (K + a) (c + 1)) with
      | Some dst' =>
          netipx.appendRangePrefixes fuel dst'
            (uint128.bitsClearedFrom (K + b) (c + 1)) (K + b)
      | None => None
      end = Some (dst ++ l) /\ Spec.Greedy a b l).
  { intros Hno.
    assert (H1 : 1 <= k).
    { destruct (Z.eq_dec k 0) as [E|]; [|lia].
      exfalso. apply Hno. rewrite E, !Z.mod_1_r. split; reflexivity. }
    assert (Hne : a <> b) by lia.
    destruct (split_arith a b k ltac:(lia) H1 Hhi (Hd Hne))
      as (Hbase & Hlo & Hup & Ea & Eb & Qa & Qb).
    set (P := 2 ^ (k - 1)) in *.
    set (base := a / 2 ^ k * 2 ^ k) in *.
    set (mid := base + P) in *.
    assert (PP : 0 < P) by (apply pow2_pos; lia).
    rewrite (Hset H1), (Hclr H1). fold P. rewrite Ea, Eb.
    destruct (IH a (mid - 1) dst) as (l1 & E1 & G1); try lia.
    { assert (kOf a (mid - 1) <= k - 1); [|lia].
      apply kOf_le; try lia. fold P. symmetry. exact Qa. }
    rewrite E1.
    destruct (IH mid b (dst ++ l1)) as (l2 & E2 & G2); try lia.
    { assert (kOf mid b <= k - 1); [|lia].
      apply kOf_le; try lia. fold P. exact Qb. }
    rewrite E2. exists (l1 ++ l2). split; [rewrite app_assoc; reflexivity|].
    apply (Greedy_split base k (mid - 1) b l2); try assumption; try lia.
    - replace (mid - 1 + 1) with mid by lia. exact G2.
    - intros Eab.
      destruct (Z.eq_dec b (base + 2 ^ k - 1)) as [Eb'|]; [|lia].
      exfalso. apply Hno. split; [rewrite Eab; exact Hbase|].
      rewrite Eb'.
      replace (base + 2 ^ k - 1) with (2 ^ k - 1 + (base / 2 ^ k) * 2 ^ k).
      + rewrite Z.mod_add by lia. apply Z.mod_small. lia.
      + unfold base. rewrite Z.div_mul by lia. lia. }
  destruct (Z.eqb_spec (a mod 2 ^ k) 0) as [Ma|Ma];
    [destruct (Z.eqb_spec (b mod 2 ^ k) (2 ^ k - 1)) as [Mb|Mb]|]; cbn [andb].
  - (* one whole block *)
    eexists. split; [reflexivity|].
    rewrite Hp.
    rewrite (full_block_arith a b k) by (assumption || lia).
    apply Greedy_block; [lia | assumption].
  - apply Split. tauto.
  - apply Split. tauto.
Qed.

(** ** Ranges of prefixes *)

Lemma Masked4_eq (a b : Z) :
  0 <= a < 2 ^ 32 -> 0 <= b <= 32 ->
  netip.Masked4 a b = a - a mod 2 ^ (32 - b).
Proof.
  intros Ha Hb. unfold netip.Masked4.
  rewrite As16_v4_eq by lia.
  fold (uint128.bitsClearedFrom (K + a) (b + 96)).
  rewrite bitsClearedFrom_eq by (try apply As16_range; lia).
  replace (128 - (b + 96)) with (32 - b) by lia.
  rewrite K_mod by lia.
  rewrite Z.land_ones by lia.
  replace (K + a - a mod 2 ^ (32 - b)) with (K + (a - a mod 2 ^ (32 - b))) by lia.
  rewrite (K_mod _ 32) by lia.
  pose proof (pow2_pos (32 - b) ltac:(lia)) as P.
  pose proof (Z.mod_pos_bound a (2 ^ (32 - b)) P).
  pose proof (Z.mod_le a (2 ^ (32 - b)) ltac:(lia) P).
  apply Z.mod_small. lia.
Qed.

Lemma fold_lor_bits (f : nat -> Z) (l : list nat) (a p : Z) :
  0 <= p -> (forall i, In i l -> 0 <= f i) ->
  Z.testbit (fold_left (fun acc i => Z.lor acc (Z.shiftl 1 (f i))) l a) p
  = Z.testbit a p || existsb (fun i => f i =? p) l.
Proof.
  intros Hp. revert a.
  induction l as [|i l IH]; intros a Hf; cbn [fold_left existsb].
  - rewrite orb_false_r. reflexivity.
  - rewrite IH by (intros; apply Hf; right; assumption).
    rewrite Z.lor_spec, Z.shiftl_spec by lia.
    assert (Hi : 0 <= f i) by (apply Hf; left; reflexivity).
    rewrite <- orb_assoc. f_equal. f_equal.
    destruct (Z.eqb_spec (f i) p) as [E|E].
    + rewrite <- E, Z.sub_diag. reflexivity.
    + destruct (Z_lt_le_dec p (f i)).
      * apply Z.testbit_neg_r. lia.
      * replace 1 with (2 ^ 0) by reflexivity.
        apply Z.pow2_bits_false. lia.
Qed.

Lemma PrefixLastIP_lor (m b : Z) :
  0 <= b <= 32 -> netipx.PrefixLastIP m b = Z.lor m (Z.ones (32 - b)).
Proof.
  intros Hb. apply Z.bits_inj'. intros p Hp.
  unfold netipx.PrefixLastIP.
  rewrite fold_lor_bits by (try lia; intros i Hi; apply in_seq in Hi; lia).
  rewrite Z.lor_spec, Z.testbit_ones_nonneg by lia. f_equal.
  destruct (Z.ltb_spec p (32 - b)) as [H|H].
  - apply existsb_exists. exists (Z.to_nat (31 - b - p)). split.
    + apply in_seq. lia.
    + apply Z.eqb_eq. lia.
  - apply not_true_is_false. intros E.
    apply existsb_exists in E. destruct E as (i & Hi & E).
    apply in_seq in Hi. apply Z.eqb_eq in E. lia.
Qed.

Lemma RangeOfPrefix_eq (a b : Z) :
  0 <= a < 2 ^ 32 -> 0 <= b <= 32 ->
  netipx.RangeOfPrefix a b
  = netipx.mkRange (a - a mod 2 ^ (32 - b))
                   (a - a mod 2 ^ (32 - b) + (2 ^ (32 - b) - 1)).
Proof.
  intros Ha Hb. unfold netipx.RangeOfPrefix.
  rewrite Masked4_eq by lia. f_equal.
  rewrite PrefixLastIP_lor, lor_ones by lia.
  set (k := 32 - b). assert (Hk : 0 <= k) by (unfold k; lia).
  pose proof (pow2_pos k Hk) as P.
  assert (E : (a - a mod 2 ^ k) mod 2 ^ k = 0).
  { rewrite Zminus_mod_idemp_r, Z.sub_diag. apply Z.mod_0_l. lia. }
  rewrite E. lia.
Qed.

Lemma RangeOfPrefix_bounds (a b : Z) :
  0 <= a < 2 ^ 32 -> 0 <= b <= 32 ->
  let r := netipx.RangeOfPrefix a b in
  0 <= netipx.from r /\ netipx.from r <= a <= netipx.to r
  /\ netipx.to r < 2 ^ 32.
Proof.
  intros Ha Hb. rewrite RangeOfPrefix_eq by lia. cbn [netipx.from netipx.to].
  set (k := 32 - b). assert (Hk : 0 <= k <= 32) by (unfold k; lia).
  pose proof (pow2_pos k ltac:(lia)) as P.
  pose proof (Z.mod_pos_bound a (2 ^ k) P) as M.
  pose proof (Z.div_mod a (2 ^ k) ltac:(lia)) as D.
  assert (E32 : 2 ^ 32 = 2 ^ (32 - k) * 2 ^ k).
  { rewrite <- Z.pow_add_r by lia. f_equal. lia. }
  assert (a / 2 ^ k < 2 ^ (32 - k)).
  { apply Z.div_lt_upper_bound; lia. }
  repeat split; try lia; nia.
Qed.

(** [Prefix.Contains] compares the top [bits] bits. *)
Lemma Contains4_div (a bits x : Z) :
  0 <= a < 2 ^ 32 -> 0 <= x < 2 ^ 32 -> 0 <= bits <= 32 ->
  netip_text.Contains4 a bits x = true
  <-> x / 2 ^ (32 - bits) = a / 2 ^ (32 - bits).
Proof.
  intros Ha Hx Hb. unfold netip_text.Contains4.
  set (k := 32 - bits). assert (Hk : 0 <= k <= 32) by (unfold k; lia).
  assert (E : Z.land k 63 = k).
  { change 63 with (Z.ones 6). rewrite Z.land_ones by lia.
    apply Z.mod_small. lia. }
  rewrite E, Z.shiftr_lxor, !Z.shiftr_div_pow2 by lia.
  pose proof (pow2_pos k ltac:(lia)) as P.
  assert (Rx : 0 <= x / 2 ^ k < 2 ^ 128).
  { split; [apply Z.div_pos; lia|].
    apply Z.div_lt_upper_bound; lia. }
  assert (Ra : 0 <= a / 2 ^ k < 2 ^ 128).
  { split; [apply Z.div_pos; lia|].
    apply Z.div_lt_upper_bound; lia. }
  assert (Rx' : x / 2 ^ k < 2 ^ 32) by (apply Z.div_lt_upper_bound; nia).
  assert (Ra' : a / 2 ^ k < 2 ^ 32) by (apply Z.div_lt_upper_bound; nia).
  assert (L : 0 <= Z.lxor (x / 2 ^ k) (a / 2 ^ k) < 2 ^ 32).
  { split; [apply Z.lxor_nonneg; lia|].
    destruct (Z.eq_dec (Z.lxor (x / 2 ^ k) (a / 2 ^ k)) 0) as [->|N]; [lia|].
    assert (0 <= Z.lxor (x / 2 ^ k) (a / 2 ^ k)) by (apply Z.lxor_nonneg; lia).
    apply Z.log2_lt_pow2; [lia|].
    pose proof (Z.log2_lxor (x / 2 ^ k) (a / 2 ^ k) ltac:(lia) ltac:(lia)).
    assert (Z.log2 (x / 2 ^ k) < 32).
    { destruct (Z.eq_dec (x / 2 ^ k) 0) as [->|];
        [reflexivity | apply Z.log2_lt_pow2; lia]. }
    assert (Z.log2 (a / 2 ^ k) < 32).
    { destruct (Z.eq_dec (a / 2 ^ k) 0) as [->|];
        [reflexivity | apply Z.log2_lt_pow2; lia]. }
    lia. }
  rewrite Z.mod_small by lia.
  rewrite Z.eqb_eq. apply Z.lxor_eq_0_iff.
Qed.

Lemma div_eq_range (a x k : Z) :
  0 <= k ->
  x / 2 ^ k = a / 2 ^ k
  <-> a - a mod 2 ^ k <= x <= a - a mod 2 ^ k + (2 ^ k - 1).
Proof.
  intros Hk. pose proof (pow2_pos k Hk) as P.
  pose proof (Z.div_mod a (2 ^ k) ltac:(lia)) as Da.
  pose proof (Z.div_mod x (2 ^ k) ltac:(lia)) as Dx.
  pose proof (Z.mod_pos_bound a (2 ^ k) P) as Ma.
  pose proof (Z.mod_pos_bound x (2 ^ k) P) as Mx.
  split.
  - intros E. rewrite E in Dx. lia.
  - intros H. symmetry. apply (Z.div_unique _ _ _ (x - 2 ^ k * (a / 2 ^ k))); lia.
Qed.

(** An address is in a prefix exactly when it is in the range the set
    builder records for it. *)
Lemma Contains4_range (a bits x : Z) :
  0 <= a < 2 ^ 32 -> 0 <= x < 2 ^ 32 -> 0 <= bits <= 32 ->
  netip_text.Contains4 a bits x = true
  <-> netipx.from (netipx.RangeOfPrefix a bits) <= x
      <= netipx.to (netipx.RangeOfPrefix a bits).
Proof.
  intros Ha Hx Hb.
  rewrite Contains4_div, RangeOfPrefix_eq by lia.
  cbn [netipx.from netipx.to]. apply div_eq_range. lia.
Qed.

(** ** [sort.Slice] with [IPRange.less] *)

Ltac less_cases :=
  unfold rangeLe, netipx.less in *;
  repeat match goal with
         | r : netipx.IPRange |- _ => destruct r
         end;
  cbn [netipx.from netipx.to] in *;
  repeat match goal with
         | H : context [Z.eqb ?a ?b] |- _ => destruct (Z.eqb_spec a b)
         | |- context [Z.eqb ?a ?b] => destruct (Z.eqb_spec a b)
         | H : context [Z.ltb ?a ?b] |- _ => destruct (Z.ltb_spec a b)
         | |- context [Z.ltb ?a ?b] => destruct (Z.ltb_spec a b)
         end;
  try congruence; try lia.

Lemma less_irrefl (x : netipx.IPRange) : netipx.less x x = false.
Proof. less_cases. Qed.

Lemma less_asym (x y : netipx.IPRange) :
  netipx.less x y = true -> netipx.less y x = false.
Proof. less_cases. Qed.

Lemma less_trans (x y z : netipx.IPRange) :
  netipx.less x y = true -> netipx.less y z = true -> netipx.less x z = true.
Proof. less_cases. Qed.

Lemma less_total (x y : netipx.IPRange) :
  netipx.less x y = false -> netipx.less y x = false -> x = y.
Proof. less_cases. intros. f_equal; lia. Qed.

Lemma nless_trans (x y z : netipx.IPRange) :
  netipx.less y x = false -> netipx.less z y = false -> netipx.less z x = false.
Proof. less_cases. Qed.

Lemma less_from (x y : netipx.IPRange) :
  netipx.less y x = false -> netipx.from x <= netipx.from y.
Proof. less_cases. Qed.

Lemma insert_perm (r : netipx.IPRange) (l : list netipx.IPRange) :
  Permutation (netipx.insert r l) (r :: l).
Proof.
  induction l as [|x l IH]; cbn [netipx.insert]; [reflexivity|].
  destruct (netipx.less x r); [|reflexivity].
  rewrite IH. apply perm_swap.
Qed.

Lemma sortRanges_perm (l : list netipx.IPRange) :
  Permutation (netipx.sortRanges l) l.
Proof.
  induction l as [|x l IH]; cbn; [reflexivity|].
  fold (netipx.sortRanges l). rewrite insert_perm. apply perm_skip. exact IH.
Qed.

Lemma insert_sorted (r : netipx.IPRange) (l : list netipx.IPRange) :
  StronglySorted rangeLe l -> StronglySorted rangeLe (netipx.insert r l).
Proof.
  induction 1 as [|x l Hs IH Hx]; cbn [netipx.insert].
  - repeat constructor.
  - destruct (netipx.less x r) eqn:E.
    + constructor; [exact IH|].
      apply (Permutation_Forall (Permutation_sym (insert_perm r l))).
      constructor; [|exact Hx].
      unfold rangeLe. apply less_asym. exact E.
    + constructor; [constructor; assumption|].
      constructor; [exact E|].
      eapply Forall_impl; [|exact Hx].
      intros y Hy. unfold rangeLe in *. eapply nless_trans; eassumption.
Qed.

Lemma sortRanges_sorted (l : list netipx.IPRange) :
  StronglySorted rangeLe (netipx.sortRanges l).
Proof.
  induction l as [|x l IH]; cbn; [constructor|].
  apply insert_sorted. exact IH.
Qed.

(** Inserting in either order gives the same list. *)
Lemma insert_comm (a b : netipx.IPRange) (l : list netipx.IPRange) :
  netipx.insert a (netipx.insert b l) = netipx.insert b (netipx.insert a l).
Proof.
  induction l as [|y l IH]; cbn [netipx.insert].
  - destruct (netipx.less b a) eqn:Eba, (netipx.less a b) eqn:Eab; try reflexivity.
    + rewrite (less_asym _ _ Eba) in Eab. discriminate.
    + rewrite (less_total a b Eab Eba). reflexivity.
  - destruct (netipx.less y b) eqn:Eyb, (netipx.less y a) eqn:Eya;
      cbn [netipx.insert]; rewrite ?Eyb, ?Eya.
    + f_equal. exact IH.
    + assert (Eab : netipx.less a b = true).
      { destruct (netipx.less a b) eqn:E; [reflexivity|].
        destruct (netipx.less b a) eqn:E'.
        - rewrite (less_trans _ _ _ Eyb E') in Eya. discriminate.
        - rewrite <- (less_total a b E E') in Eyb. congruence. }
      rewrite Eab. cbn [netipx.insert]. rewrite ?Eyb. reflexivity.
    + assert (Eba : netipx.less b a = true).
      { destruct (netipx.less b a) eqn:E; [reflexivity|].
        destruct (netipx.less a b) eqn:E'.
        - rewrite (less_trans _ _ _ Eya E') in Eyb. discriminate.
        - rewrite (less_total a b E' E) in Eya. congruence. }
      rewrite Eba. cbn [netipx.insert]. rewrite ?Eya. reflexivity.
    + destruct (netipx.less b a) eqn:Eba, (netipx.less a b) eqn:Eab;
        cbn [netipx.insert]; rewrite ?Eyb, ?Eya; try reflexivity.
      * rewrite (less_asym _ _ Eba) in Eab. discriminate.
      * rewrite (less_total a b Eab Eba). reflexivity.
Qed.

(** The sorted list depends on the elements only, not on their order. *)
Lemma sortRanges_Permutation (l l' : list netipx.IPRange) :
  Permutation l l' -> netipx.sortRanges l = netipx.sortRanges l'.
Proof.
  induction 1 as [| x l l' _ IH | x y l | l l' l'' _ IH1 _ IH2]; cbn.
  - reflexivity.
  - fold (netipx.sortRanges l) (netipx.sortRanges l'). rewrite IH. reflexivity.
  - apply insert_comm.
  - congruence.
Qed.

Lemma insert_head (r : netipx.IPRange) (l : list netipx.IPRange) :
  Forall (fun y => netipx.less y r = false) l -> netipx.insert r l = r :: l.
Proof.
  destruct l as [|x l]; cbn [netipx.insert]; [reflexivity|].
  intros H. inversion H as [|? ? Hx _]; subst. rewrite Hx. reflexivity.
Qed.

(** Sorting a sorted list leaves it as it is. *)
Lemma sortRanges_sorted_id (l : list netipx.IPRange) :
  StronglySorted rangeLe l -> netipx.sortRanges l = l.
Proof.
  induction 1 as [|x l Hs IH Hx]; cbn; [reflexivity|].
  fold (netipx.sortRanges l). rewrite IH. apply insert_head. exact Hx.
Qed.

(** ** The merge pass *)

Lemma Covered_nil (x : Z) : Covered [] x <-> False.
Proof. split; [intros (r & [] & _) | intros []]. Qed.

Lemma Covered_cons (r : netipx.IPRange) (rs : list netipx.IPRange) (x : Z) :
  Covered (r :: rs) x <-> InRange r x \/ Covered rs x.
Proof.
  unfold Covered. split.
  - intros (r' & [<-|Hin] & Hx); [left; exact Hx | right; eauto].
  - intros [Hx | (r' & Hin & Hx)]; [exists r | exists r']; cbn; auto.
Qed.

Lemma Covered_app (rs rs' : list netipx.IPRange) (x : Z) :
  Covered (rs ++ rs') x <-> Covered rs x \/ Covered rs' x.
Proof.
  induction rs as [|r rs IH]; cbn [app].
  - rewrite Covered_nil. tauto.
  - rewrite !Covered_cons, IH. tauto.
Qed.

Lemma Covered_Permutation (rs rs' : list netipx.IPRange) (x : Z) :
  Permutation rs rs' -> Covered rs x <-> Covered rs' x.
Proof.
  intros P. unfold Covered. split; intros (r & Hin & Hx); exists r; split; auto.
  - eapply Permutation_in; eassumption.
  - eapply Permutation_in; [symmetry|]; eassumption.
Qed.

Lemma Next4_eq (t : Z) :
  0 <= t < 2 ^ 32 ->
  netip.Next4 t = if t =? 2 ^ 32 - 1 then None else Some (t + 1).
Proof.
  intros Ht. unfold netip.Next4.
  destruct (Z.eqb_spec t (2 ^ 32 - 1)) as [->|N]; [reflexivity|].
  rewrite Z.mod_small by lia.
  destruct (Z.eqb_spec (t + 1) 0); [lia | reflexivity].
Qed.

Lemma wfRange_valid (r : netipx.IPRange) : wfRange r -> netipx.IsValid r = true.
Proof. intros (_ & H & _). unfold netipx.IsValid. apply Z.leb_le. exact H. Qed.

Lemma sorted_from (l : list netipx.IPRange) :
  StronglySorted rangeLe l -> StronglySorted fromLe l.
Proof.
  induction 1 as [|x l Hs IH Hx]; constructor; [exact IH|].
  eapply Forall_impl; [|exact Hx]. intros y Hy. apply less_from. exact Hy.
Qed.

Lemma mergeLoop_spec (rr : list netipx.IPRange) :
  forall prev,
    wfRange prev -> Forall wfRange rr -> StronglySorted fromLe (prev :: rr) ->
    exists out,
      netipx.mergeLoop prev rr = Some out
      /\ Separated out
      /\ (forall x, Covered out x <-> InRange prev x \/ Covered rr x)
      /\ exists h t, out = h :: t /\ netipx.from h = netipx.from prev.
Proof.
  induction rr as [|r rest IH]; intros prev Wp Wr Hs; cbn [netipx.mergeLoop].
  - exists [prev]. split; [reflexivity|]. split; [constructor; exact Wp|].
    split; [|eauto].
    intros x. rewrite Covered_cons. tauto.
  - inversion Wr as [|? ? Wr1 Wr2]; subst.
    inversion Hs as [|? ? Hs' Hf]; subst.
    inversion Hs' as [|? ? Hs'' Hf']; subst.
    inversion Hf as [|? ? Hpr Hf'']; subst.
    rewrite (wfRange_valid r Wr1). cbn [negb].
    destruct Wp as (Wp0 & Wp1 & Wp2). destruct Wr1 as (Wq0 & Wq1 & Wq2).
    unfold fromLe in Hpr.
    rewrite Next4_eq by lia.
    assert (Ext : forall t,
      netipx.to prev <= t -> netipx.from r <= netipx.to prev + 1 ->
      t = Z.max (netipx.to prev) (netipx.to r) ->
      exists out,
        netipx.mergeLoop (netipx.mkRange (netipx.from prev) t) rest = Some out
        /\ Separated out
        /\ (forall x, Covered out x <-> InRange prev x \/ Covered (r :: rest) x)
        /\ exists h t', out = h :: t' /\ netipx.from h = netipx.from prev).
    { intros t Ht Hadj Hmax.
      destruct (IH (netipx.mkRange (netipx.from prev) t)) as (out & E & S & C & H).
      - unfold wfRange. cbn [netipx.from netipx.to]. lia.
      - exact Wr2.
      - constructor; [exact Hs''|].
        eapply Forall_impl; [|exact Hf'']. unfold fromLe. cbn [netipx.from]. auto.
      - exists out. split; [exact E|]. split; [exact S|]. split; [|exact H].
        intros x. rewrite C, Covered_cons. unfold InRange.
        cbn [netipx.from netipx.to].
        split; [intros [Hx|Hx] | intros [Hx|[Hx|Hx]]]; try tauto; lia. }
    destruct (Z.eqb_spec (netipx.to prev) (2 ^ 32 - 1)) as [Etop|Ntop].
    + (* no successor: [r] lies inside [prev] *)
      destruct (Z.ltb_spec (netipx.to prev) (netipx.from r)); [lia|].
      destruct (Z.ltb_spec (netipx.to prev) (netipx.to r)); [lia|].
      destruct prev as [pf pt]. cbn [netipx.from netipx.to] in *.
      apply (Ext pt); lia.
    + destruct (Z.eqb_spec (netipx.to prev + 1) (netipx.from r)) as [Eadj|Nadj].
      * apply Ext; lia.
      * destruct (Z.ltb_spec (netipx.to prev) (netipx.from r)) as [Hgap|Hov].
        -- (* a gap: [prev] is final *)
           destruct (IH r) as (out & E & S & C & h & t & -> & Hh).
           ++ unfold wfRange. lia.
           ++ exact Wr2.
           ++ exact Hs'.
           ++ rewrite E. cbn [option_map].
              exists (prev :: h :: t). split; [reflexivity|].
              split; [constructor; [unfold wfRange; lia | lia | exact S]|].
              split; [|eauto].
              intros x. rewrite (Covered_cons prev), C, !Covered_cons. tauto.
        -- destruct (Z.ltb_spec (netipx.to prev) (netipx.to r)).
           ++ apply Ext; lia.
           ++ destruct prev as [pf pt]. cbn [netipx.from netipx.to] in *.
              apply (Ext pt); lia.
Qed.

Lemma Separated_wf (rs : list netipx.IPRange) :
  Separated rs -> Forall wfRange rs.
Proof.
  induction 1 as [| r W | r r' rest W Hgap S IH]; constructor; auto.
Qed.

(** [mergeIPRanges] always succeeds on well-formed ranges; its result is
    ascending with gaps and covers the same addresses. *)
Lemma mergeIPRanges_spec (rr : list netipx.IPRange) :
  Forall wfRange rr ->
  exists out,
    netipx.mergeIPRanges rr = Some out
    /\ Separated out
    /\ forall x, Covered out x <-> Covered rr x.
Proof.
  intros W. unfold netipx.mergeIPRanges.
  destruct rr as [|r0 [|r1 rest]].
  - exists []. repeat split; constructor || tauto.
  - exists [r0]. inversion W; subst. repeat split; try tauto. constructor. assumption.
  - set (rr := r0 :: r1 :: rest) in *.
    pose proof (sortRanges_perm rr) as P.
    pose proof (sortRanges_sorted rr) as S.
    destruct (netipx.sortRanges rr) as [|s0 srest] eqn:E.
    + apply Permutation_nil in P. discriminate.
    + assert (W' : Forall wfRange (s0 :: srest)).
      { apply (Permutation_Forall (Permutation_sym P)). exact W. }
      inversion W' as [|? ? W0 W1]; subst.
      destruct (mergeLoop_spec srest s0 W0 W1 (sorted_from _ S))
        as (out & Eo & So & C & _).
      exists out. split; [exact Eo|]. split; [exact So|].
      intros x. rewrite C, <- Covered_cons. apply Covered_Permutation. exact P.
Qed.

(** ** What a greedy decomposition looks like *)

Lemma block_toRange (s k : Z) :
  0 <= s -> 0 <= k <= 32 -> s mod 2 ^ k = 0 -> s + 2 ^ k <= 2 ^ 32 ->
  toRange (netip.mkPrefix (netip.Addr4 s) (32 - k))
  = netipx.mkRange s (s + 2 ^ k - 1).
Proof.
  intros Hs Hk Hal Htop. unfold toRange. cbn [netip.ip netip.bits].
  pose proof (pow2_pos k ltac:(lia)).
  rewrite RangeOfPrefix_eq by lia.
  replace (32 - (32 - k)) with k by lia. rewrite Hal. f_equal; lia.
Qed.

Lemma start_block (s k : Z) :
  0 <= s < 2 ^ 32 -> 0 <= k <= 32 -> s mod 2 ^ k = 0 ->
  start_ (netip.mkPrefix (netip.Addr4 s) (32 - k)) = s.
Proof.
  intros Hs Hk Hal. unfold start_, toRange. cbn [netip.ip netip.bits].
  rewrite RangeOfPrefix_eq by lia.
  replace (32 - (32 - k)) with k by lia. rewrite Hal. cbn [netipx.from]. lia.
Qed.

Lemma fits_bound (s e k : Z) :
  0 <= s -> e < 2 ^ 32 -> Spec.fits s e k -> 0 <= k <= 32 /\ s + 2 ^ k <= 2 ^ 32.
Proof.
  intros Hs He (Hk & _ & Hf). split; [|lia]. split; [lia|].
  apply pow2_le_inv; lia.
Qed.

(** ** The greedy loop as a program *)

Lemma blockSize_spec (n : nat) (s e : Z) :
  s <= e ->
  Spec.fits s e (Spec.blockSize n s e)
  /\ forall k, Spec.fits s e k -> k <= Z.of_nat n -> k <= Spec.blockSize n s e.
Proof.
  intros Hse. induction n as [|n [IH1 IH2]]; cbn [Spec.blockSize].
  - split.
    + repeat split; [lia | apply Z.mod_1_r | cbn; lia].
    + intros k (Hk & _) Hn. lia.
  - destruct (Z.eqb_spec (s mod 2 ^ Z.of_nat (S n)) 0) as [Hal|Hal];
      [destruct (Z.leb_spec (s + 2 ^ Z.of_nat (S n) - 1) e) as [Hf|Hf]|];
      cbn [andb].
    + split; [repeat split; [lia | exact Hal | exact Hf] | intros; assumption].
    + split; [exact IH1|]. intros k Fk Hk.
      destruct (Z.eq_dec k (Z.of_nat (S n))) as [->|];
        [destruct Fk as (_ & _ & ?); lia | apply IH2; [exact Fk | lia]].
    + split; [exact IH1|]. intros k Fk Hk.
      destruct (Z.eq_dec k (Z.of_nat (S n))) as [->|];
        [destruct Fk as (_ & ? & _); contradiction | apply IH2; [exact Fk | lia]].
Qed.

Lemma blockSize_largest (s e k : Z) :
  0 <= s -> e < 2 ^ 32 -> Spec.largest_block s e k ->
  Spec.blockSize 32 s e = k.
Proof.
  intros Hs He [Hfit Hmax].
  assert (Hse : s <= e).
  { destruct Hfit as (Hk & _ & Hf). pose proof (pow2_pos k Hk). lia. }
  destruct (blockSize_spec 32 s e Hse) as [B1 B2].
  destruct (fits_bound s e k Hs He Hfit) as [Hk _].
  pose proof (Hmax _ B1). pose proof (B2 k Hfit ltac:(lia)). lia.
Qed.

(** The program computes the list that the relation describes. *)
Lemma rangeToPrefixes_Greedy (s e : Z) (l : list netip.Prefix) :
  Spec.Greedy s e l -> 0 <= s -> e < 2 ^ 32 ->
  forall fuel, (List.length l < fuel)%nat -> Spec.rangeToPrefixes fuel s e = Some l.
Proof.
  induction 1 as [s e Hlt | s e k p rest Hle L Ep G IH]; intros Hs He fuel Hf;
    (destruct fuel as [|fuel]; [cbn [List.length] in Hf; lia|]);
    cbn [Spec.rangeToPrefixes].
  - destruct (Z.ltb_spec e s); [reflexivity | lia].
  - destruct (Z.ltb_spec e s); [lia|].
    rewrite (blockSize_largest s e k Hs He L).
    destruct L as [(Hk & _) _]. pose proof (pow2_pos k Hk).
    rewrite IH by (cbn [List.length] in Hf; lia). rewrite Ep. reflexivity.
Qed.

Lemma Greedy_canonical (s e : Z) (l : list netip.Prefix) :
  Spec.Greedy s e l -> 0 <= s -> e < 2 ^ 32 -> Forall canonical l.
Proof.
  induction 1 as [s e Hlt | s e k p rest Hle [Hfit Hmax] Ep G IH]; intros Hs He.
  - constructor.
  - subst p. destruct (fits_bound s e k Hs He Hfit) as [Hk Htop].
    destruct Hfit as (_ & Hal & Hf). pose proof (pow2_pos k ltac:(lia)).
    constructor; [|apply IH; lia].
    exists s. cbn [netip.ip netip.bits].
    replace (32 - (32 - k)) with k by lia. repeat split; lia.
Qed.

Lemma Greedy_cover (s e : Z) (l : list netip.Prefix) :
  Spec.Greedy s e l -> 0 <= s -> e < 2 ^ 32 ->
  forall x, Covered (map toRange l) x <-> s <= x <= e.
Proof.
  induction 1 as [s e Hlt | s e k p rest Hle [Hfit Hmax] Ep G IH]; intros Hs He x.
  - cbn [map]. rewrite Covered_nil. lia.
  - subst p. destruct (fits_bound s e k Hs He Hfit) as [Hk Htop].
    destruct Hfit as (_ & Hal & Hf). pose proof (pow2_pos k ltac:(lia)).
    cbn [map]. rewrite Covered_cons, IH, block_toRange by lia.
    unfold InRange. cbn [netipx.from netipx.to]. lia.
Qed.

Lemma Greedy_nonempty (s e : Z) (l : list netip.Prefix) :
  Spec.Greedy s e l -> s <= e ->
  exists k rest,
    l = netip.mkPrefix (netip.Addr4 s) (32 - k) :: rest
    /\ Spec.largest_block s e k /\ Spec.Greedy (s + 2 ^ k) e rest.
Proof.
  intros G Hle. inversion G; subst; [lia|]. eauto.
Qed.

Lemma siblings_start (p q : netip.Prefix) (s k : Z) :
  siblings p q -> p = netip.mkPrefix (netip.Addr4 s) (32 - k) ->
  0 <= k < 32 /\ s mod 2 ^ (k + 1) = 0
  /\ q = netip.mkPrefix (netip.Addr4 (s + 2 ^ k)) (32 - k).
Proof.
  intros (a & n & Hn & Hal & Ep & Eq) E. rewrite Ep in E.
  assert (Ea : netip.Addr4 a = netip.Addr4 s) by exact (f_equal netip.ip E).
  assert (En : n = 32 - k) by exact (f_equal netip.bits E).
  assert (a = s) by congruence. subst a n q.
  replace (33 - (32 - k)) with (k + 1) in Hal by lia.
  replace (32 - (32 - k)) with k by lia.
  repeat split; try lia; assumption.
Qed.

(** The decomposition of one range, followed by prefixes that start
    beyond the address after its end. *)
Lemma Greedy_apart (s e : Z) (l : list netip.Prefix) :
  Spec.Greedy s e l -> 0 <= s -> e < 2 ^ 32 ->
  forall ps,
    Sorted apart ps -> Forall canonical ps ->
    (forall q ps', ps = q :: ps' -> e + 1 < start_ q) ->
    Sorted apart (l ++ ps).
Proof.
  induction 1 as [s e Hlt | s e k p rest Hle [Hfit Hmax] Ep G IH];
    intros Hs He ps Sps Cps Hps; cbn [app]; [exact Sps|].
  subst p.
  destruct (fits_bound s e k Hs He Hfit) as [Hk Htop].
  pose proof Hfit as (_ & Hal & Hf). pose proof (pow2_pos k ltac:(lia)) as P.
  constructor; [apply IH; assumption || lia|].
  assert (Ep : end_ (netip.mkPrefix (netip.Addr4 s) (32 - k)) = s + 2 ^ k - 1).
  { unfold end_. rewrite block_toRange by lia. reflexivity. }
  destruct rest as [|q rest'].
  - (* the last prefix of this range *)
    cbn [app]. destruct ps as [|q ps']; constructor.
    specialize (Hps q ps' eq_refl) as Hq.
    inversion G; subst.
    split; [lia|].
    intros Sib. destruct (siblings_start _ _ s k Sib eq_refl) as (Hk' & Hal' & ->).
    assert (Al : (s + 2 ^ k) mod 2 ^ k = 0).
    { apply mod0_divide; [lia|]. apply Z.divide_add_r.
      - apply mod0_divide; [lia | exact Hal].
      - apply Z.divide_refl. }
    inversion Cps as [|? ? (a & Ea & Ra & _) _]; subst.
    cbn [netip.ip] in Ea. assert (a = s + 2 ^ k) by congruence. subst a.
    rewrite start_block in Hq by lia. lia.
  - (* the next prefix of the same range *)
    cbn [app]. constructor.
    inversion G as [| ? ? k' ? ? Hle' [Hfit' Hmax'] Eq G']; subst.
    destruct (fits_bound (s + 2 ^ k) e k' ltac:(lia) He Hfit') as [Hk' Htop'].
    pose proof Hfit' as (_ & Hal' & Hf').
    split.
    + rewrite Ep. unfold start_. rewrite block_toRange by lia.
      cbn [netipx.from]. lia.
    + intros Sib.
      destruct (siblings_start _ _ s k Sib eq_refl) as (Hkk & Hal2 & E).
      assert (Ek : 32 - k' = 32 - k) by exact (f_equal netip.bits E).
      assert (k' = k) by lia. subst k'.
      assert (Spec.fits s e (k + 1)).
      { repeat split; [lia | exact Hal2 |].
        rewrite Z.pow_add_r by lia. lia. }
      specialize (Hmax (k + 1) H). lia.
Qed.

(** ** The whole output *)

Lemma Separated_inv (r : netipx.IPRange) (rs : list netipx.IPRange) :
  Separated (r :: rs) ->
  wfRange r /\ Separated rs
  /\ forall r' rs', rs = r' :: rs' -> netipx.to r + 1 < netipx.from r'.
Proof.
  intros S. inversion S; subst.
  - split; [assumption|]. split; [constructor | discriminate].
  - split; [assumption|]. split; [assumption|].
    intros ? ? E. injection E as <- <-. assumption.
Qed.

Lemma Decomposes_nil (ps : list netip.Prefix) : Decomposes [] ps -> ps = [].
Proof. intros (ls & F & ->). inversion F. reflexivity. Qed.

Lemma Decomposes_cons (r : netipx.IPRange) (rs : list netipx.IPRange)
      (ps : list netip.Prefix) :
  Decomposes (r :: rs) ps ->
  exists l ps',
    ps = l ++ ps' /\ Spec.Greedy (netipx.from r) (netipx.to r) l
    /\ Decomposes rs ps'.
Proof.
  intros (ls & F & ->). inversion F as [|? l ? ls' G F']; subst.
  exists l, (List.concat ls'). cbn [List.concat].
  split; [reflexivity|]. split; [assumption|].
  exists ls'. split; [assumption | reflexivity].
Qed.

Lemma Decomposes_canonical (rs : list netipx.IPRange) :
  Separated rs -> forall ps, Decomposes rs ps -> Forall canonical ps.
Proof.
  induction rs as [|r rs IH]; intros S ps D.
  - apply Decomposes_nil in D. subst. constructor.
  - destruct (Separated_inv r rs S) as ((W0 & W1 & W2) & S' & _).
    destruct (Decomposes_cons r rs ps D) as (l & ps' & -> & G & D').
    apply Forall_app. split; [|apply IH; assumption].
    apply (Greedy_canonical _ _ _ G); lia.
Qed.

Lemma Decomposes_cover (rs : list netipx.IPRange) :
  Separated rs -> forall ps, Decomposes rs ps ->
  forall x, Covered (map toRange ps) x <-> Covered rs x.
Proof.
  induction rs as [|r rs IH]; intros S ps D x.
  - apply Decomposes_nil in D. subst. reflexivity.
  - destruct (Separated_inv r rs S) as ((W0 & W1 & W2) & S' & _).
    destruct (Decomposes_cons r rs ps D) as (l & ps' & -> & G & D').
    rewrite map_app, Covered_app, Covered_cons, (IH S' ps' D').
    rewrite (Greedy_cover _ _ _ G) by lia. reflexivity.
Qed.

Lemma Decomposes_head (r : netipx.IPRange) (rs : list netipx.IPRange)
      (ps : list netip.Prefix) :
  Separated (r :: rs) -> Decomposes (r :: rs) ps ->
  exists q ps', ps = q :: ps' /\ start_ q = netipx.from r.
Proof.
  intros S D.
  destruct (Separated_inv r rs S) as ((W0 & W1 & W2) & S' & _).
  destruct (Decomposes_cons r rs ps D) as (l & ps' & -> & G & D').
  destruct (Greedy_nonempty _ _ _ G W1) as (k & rest & -> & [Hfit _] & _).
  destruct (fits_bound _ _ k W0 W2 Hfit) as [Hk Htop].
  destruct Hfit as (_ & Hal & _). pose proof (pow2_pos k ltac:(lia)).
  eexists _, _. split; [reflexivity|].
  apply start_block; lia.
Qed.

(** Neighbours in the output never overlap and never are two halves of
    one prefix. *)
Lemma Decomposes_sorted (rs : list netipx.IPRange) :
  Separated rs -> forall ps, Decomposes rs ps -> Sorted apart ps.
Proof.
  induction rs as [|r rs IH]; intros S ps D.
  - apply Decomposes_nil in D. subst. constructor.
  - destruct (Separated_inv r rs S) as ((W0 & W1 & W2) & S' & Gap).
    destruct (Decomposes_cons r rs ps D) as (l & ps' & -> & G & D').
    apply (Greedy_apart _ _ _ G); try lia.
    + apply IH; assumption.
    + apply (Decomposes_canonical rs); assumption.
    + intros q ps'' E. subst ps'.
      destruct rs as [|r' rs'].
      * apply Decomposes_nil in D'. discriminate.
      * destruct (Decomposes_head r' rs' _ S' D') as (q' & ? & E & Hq).
        injection E as <- <-. rewrite Hq. apply (Gap r' rs'). reflexivity.
Qed.

(** ** Reading the output back in *)

Lemma mergeIPRanges_unfold (rr : list netipx.IPRange) :
  netipx.mergeIPRanges rr
  = match netipx.sortRanges rr with
    | [] => Some []
    | r0 :: rest => netipx.mergeLoop r0 rest
    end.
Proof. destruct rr as [|r0 [|r1 rest]]; reflexivity. Qed.

Lemma mergeLoop_chain (s e : Z) (l : list netip.Prefix) :
  Spec.Greedy s e l ->
  forall f tail,
    0 <= f < s -> e < 2 ^ 32 -> s <= e + 1 ->
    netipx.mergeLoop (netipx.mkRange f (s - 1)) (map toRange l ++ tail)
    = netipx.mergeLoop (netipx.mkRange f e) tail.
Proof.
  induction 1 as [s e Hlt | s e k p rest Hle [Hfit Hmax] Ep G IH];
    intros f tail Hf He Hse.
  - cbn [map app]. do 2 f_equal. lia.
  - subst p. destruct (fits_bound s e k ltac:(lia) He Hfit) as [Hk Htop].
    destruct Hfit as (_ & Hal & Hfe). pose proof (pow2_pos k ltac:(lia)) as P.
    cbn [map app netipx.mergeLoop]. rewrite block_toRange by lia.
    unfold netipx.IsValid. cbn [netipx.from netipx.to].
    destruct (Z.leb_spec s (s + 2 ^ k - 1)); [|lia]. cbn [negb].
    rewrite Next4_eq by lia.
    destruct (Z.eqb_spec (s - 1) (2 ^ 32 - 1)); [lia|].
    replace (s - 1 + 1) with s by lia. rewrite Z.eqb_refl.
    rewrite <- (IH f tail) by lia.
    first [reflexivity | do 2 f_equal; lia].
Qed.

Lemma range_eta (r : netipx.IPRange) :
  netipx.mkRange (netipx.from r) (netipx.to r) = r.
Proof. destruct r. reflexivity. Qed.

Lemma mergeLoop_first (r : netipx.IPRange) (l : list netip.Prefix)
      (tail : list netipx.IPRange) :
  wfRange r -> Spec.Greedy (netipx.from r) (netipx.to r) l ->
  exists p rest,
    l = p :: rest
    /\ netipx.from (toRange p) = netipx.from r
    /\ wfRange (toRange p)
    /\ netipx.mergeLoop (toRange p) (map toRange rest ++ tail)
       = netipx.mergeLoop r tail.
Proof.
  intros (W0 & W1 & W2) G.
  destruct (Greedy_nonempty _ _ _ G W1) as (k & rest & -> & [Hfit _] & G').
  destruct (fits_bound _ _ k W0 W2 Hfit) as [Hk Htop].
  destruct Hfit as (_ & Hal & Hfe). pose proof (pow2_pos k ltac:(lia)) as P.
  eexists _, _. split; [reflexivity|].
  rewrite block_toRange by lia. cbn [netipx.from netipx.to].
  split; [reflexivity|]. split; [unfold wfRange; cbn [netipx.from netipx.to]; lia|].
  replace (netipx.from r + 2 ^ k - 1) with (netipx.from r + 2 ^ k - 1 - 1 + 1) by lia.
  replace (netipx.from r + 2 ^ k - 1 - 1 + 1)
    with ((netipx.from r + 2 ^ k) - 1) by lia.
  rewrite (mergeLoop_chain _ _ _ G') by lia.
  rewrite range_eta. reflexivity.
Qed.

Lemma mergeLoop_ranges (rs : list netipx.IPRange) :
  forall r ps,
    Separated (r :: rs) -> Decomposes rs ps ->
    netipx.mergeLoop r (map toRange ps) = Some (r :: rs).
Proof.
  induction rs as [|r' rs IH]; intros r ps S D.
  - apply Decomposes_nil in D. subst. reflexivity.
  - destruct (Separated_inv r _ S) as ((W0 & W1 & W2) & S' & Gap).
    specialize (Gap r' rs eq_refl).
    destruct (Separated_inv r' _ S') as (W' & _ & _).
    destruct (Decomposes_cons r' rs ps D) as (l & ps' & -> & G & D').
    destruct (mergeLoop_first r' l (map toRange ps') W' G)
      as (p & rest & -> & Hfrom & Wp & E).
    cbn [app map netipx.mergeLoop]. rewrite map_app.
    rewrite (wfRange_valid _ Wp). cbn [negb]. rewrite Hfrom.
    rewrite Next4_eq by lia.
    destruct W' as (W0' & W1' & W2').
    assert (Nadj : match (if netipx.to r =? 2 ^ 32 - 1 then None
                          else Some (netipx.to r + 1)) with
                   | Some n => n =? netipx.from r'
                   | None => false
                   end = false).
    { destruct (Z.eqb_spec (netipx.to r) (2 ^ 32 - 1)); [reflexivity|].
      apply Z.eqb_neq. lia. }
    rewrite Nadj.
    destruct (Z.ltb_spec (netipx.to r) (netipx.from r')); [|lia].
    rewrite E, (IH r' ps' S' D'). reflexivity.
Qed.

Lemma apart_start (ps : list netip.Prefix) :
  Sorted apart ps -> Forall canonical ps ->
  StronglySorted rangeLe (map toRange ps).
Proof.
  intros S C.
  assert (Hend : forall p, canonical p -> start_ p <= end_ p).
  { intros p (a & Ea & Ra & Rb & Hal). unfold start_, end_, toRange. rewrite Ea.
    pose proof (RangeOfPrefix_bounds a (netip.bits p) Ra Rb). cbn zeta in H. lia. }
  revert C. induction S as [|p ps S IH Hd]; intros C; cbn [map]; [constructor|].
  inversion C as [|? ? Cp Cps]; subst.
  specialize (IH Cps). constructor; [exact IH|].
  assert (F : Forall (fun q => start_ p < start_ q) ps).
  { clear IH C. revert Cps p Cp Hd.
    induction S as [|q ps S IHs Hd']; intros Cps p Cp Hd.
    - constructor.
    - inversion Cps as [|? ? Cq Cps']; subst.
      inversion Hd as [|? ? [Hpq _]]; subst.
      pose proof (Hend p Cp). pose proof (Hend q Cq).
      constructor; [lia|].
      eapply Forall_impl; [|apply (IHs Cps' q Cq Hd')].
      cbn beta. intros. lia. }
  apply Forall_map. eapply Forall_impl; [|exact F].
  intros q Hq. unfold rangeLe, netipx.less, start_ in *.
  destruct (Z.eqb_spec (netipx.from (toRange q)) (netipx.from (toRange p))); [lia|].
  apply Z.ltb_ge. lia.
Qed.

(** Normalizing the prefixes of a normalized set gives the set back. *)
Lemma Decomposes_remerge (rs : list netipx.IPRange) (ps : list netip.Prefix) :
  Separated rs -> Decomposes rs ps ->
  netipx.mergeIPRanges (map toRange ps) = Some rs.
Proof.
  intros S D. rewrite mergeIPRanges_unfold.
  rewrite sortRanges_sorted_id
    by (apply apart_start;
        [apply (Decomposes_sorted rs) | apply (Decomposes_canonical rs)];
        assumption).
  destruct rs as [|r rs].
  - apply Decomposes_nil in D. subst. reflexivity.
  - destruct (Separated_inv r _ S) as (W & S' & _).
    destruct (Decomposes_cons r rs ps D) as (l & ps' & -> & G & D').
    destruct (mergeLoop_first r l (map toRange ps') W G)
      as (p & rest & -> & _ & _ & E).
    cbn [app map]. rewrite map_app, E.
    apply mergeLoop_ranges; assumption.
Qed.

(** ** [IPSet.Prefixes] *)

Lemma AppendPrefixes_greedy (r : netipx.IPRange) :
  wfRange r ->
  exists l,
    netipx.AppendPrefixes r [] = Some l
    /\ Spec.Greedy (netipx.from r) (netipx.to r) l.
Proof.
  intros W. pose proof (wfRange_valid r W) as V. destruct W as (W0 & W1 & W2).
  unfold netipx.AppendPrefixes. rewrite V. cbn [negb].
  rewrite !As16_v4_eq by lia.
  destruct (appendRangePrefixes_greedy netipx.maxDepth
              (netipx.from r) (netipx.to r) [] W0 W1 W2) as (l & E & G).
  - pose proof (step_k_range (netipx.from r) (netipx.to r) ltac:(lia) ltac:(lia)).
    unfold kOf, netipx.maxDepth. lia.
  - exists l. split; assumption.
Qed.

Lemma PrefixesLoop_spec (rs : list netipx.IPRange) :
  Forall wfRange rs ->
  forall out,
  exists ps,
    netipx.PrefixesLoop rs out = Some (out ++ ps) /\ Decomposes rs ps.
Proof.
  induction 1 as [|r rs W _ IH]; intros out; cbn [netipx.PrefixesLoop].
  - exists []. rewrite app_nil_r. split; [reflexivity|].
    exists []. split; [constructor | reflexivity].
  - destruct (AppendPrefixes_greedy r W) as (l & E & G). rewrite E.
    destruct (IH (out ++ l)) as (ps & E' & (ls & F & ->)).
    exists (l ++ List.concat ls). rewrite E', app_assoc. split; [reflexivity|].
    exists (l :: ls). split; [constructor; assumption | reflexivity].
Qed.

(** A canonical prefix covers exactly its range. *)
Lemma Contains_range (p : netip.Prefix) (x : Z) :
  canonical p -> 0 <= x < 2 ^ 32 ->
  netip_text.Contains p x = true <-> InRange (toRange p) x.
Proof.
  intros (a & Ea & Ra & Rb & _) Hx.
  unfold netip_text.Contains, toRange, InRange, netip.IsValid. rewrite Ea.
  destruct (Z.leb_spec 0 (netip.bits p)); [|lia]. cbn [andb].
  apply Contains4_range; assumption.
Qed.

(** ** Byte strings *)

Lemma sapp_nil_r (s : string) : (s ++ EmptyString)%string = s.
Proof. induction s as [|c s IH]; cbn; [reflexivity | rewrite IH; reflexivity]. Qed.

Lemma sapp_assoc (a b c : string) : ((a ++ b) ++ c = a ++ (b ++ c))%string.
Proof. induction a as [|x a IH]; cbn; [reflexivity | rewrite IH; reflexivity]. Qed.

Lemma slength_app (a b : string) :
  String.length (a ++ b) = (String.length a + String.length b)%nat.
Proof. induction a as [|x a IH]; cbn; [reflexivity | rewrite IH; reflexivity]. Qed.

Lemma len_app (a b : string) :
  gostring.len (a ++ b) = gostring.len a + gostring.len b.
Proof. unfold gostring.len. rewrite slength_app. lia. Qed.

Lemma len_nonneg (s : string) : 0 <= gostring.len s.
Proof. unfold gostring.len. lia. Qed.

Lemma len_String (c : ascii) (s : string) :
  gostring.len (String c s) = 1 + gostring.len s.
Proof. unfold gostring.len. cbn [String.length]. lia. Qed.

Lemma substring_all (s : string) : substring 0 (String.length s) s = s.
Proof. induction s as [|c s IH]; cbn; [reflexivity | rewrite IH; reflexivity]. Qed.

Lemma substring_prefix (x y : string) :
  substring 0 (String.length x) (x ++ y) = x.
Proof.
  induction x as [|c x IH]; cbn.
  - destruct y; reflexivity.
  - rewrite IH. reflexivity.
Qed.

Lemma substring_suffix (x y : string) :
  substring (String.length x) (String.length y) (x ++ y) = y.
Proof.
  induction x as [|c x IH]; cbn; [apply substring_all | exact IH].
Qed.

Lemma slice_prefix (x y : string) :
  gostring.slice (x ++ y) 0 (gostring.len x) = x.
Proof.
  unfold gostring.slice, gostring.len.
  rewrite Z.sub_0_r, Nat2Z.id. cbn [Z.to_nat]. apply substring_prefix.
Qed.

Lemma sliceFrom_suffix (x y : string) :
  gostring.sliceFrom (x ++ y) (gostring.len x) = y.
Proof.
  unfold gostring.sliceFrom, gostring.slice. rewrite len_app.
  unfold gostring.len.
  replace (Z.of_nat (String.length x) + Z.of_nat (String.length y)
           - Z.of_nat (String.length x)) with (Z.of_nat (String.length y)) by lia.
  rewrite !Nat2Z.id. apply substring_suffix.
Qed.

Lemma rev_onto_app (s acc : string) :
  gostring.rev_onto s acc = (gostring.rev s ++ acc)%string.
Proof.
  unfold gostring.rev. revert acc.
  induction s as [|c s IH]; intros acc; cbn [gostring.rev_onto]; [reflexivity|].
  rewrite IH, (IH (String c EmptyString)), sapp_assoc. reflexivity.
Qed.

Lemma srev_String (c : ascii) (s : string) :
  gostring.rev (String c s) = (gostring.rev s ++ String c EmptyString)%string.
Proof. unfold gostring.rev at 1. cbn [gostring.rev_onto]. apply rev_onto_app. Qed.

Lemma srev_app (a b : string) :
  gostring.rev (a ++ b) = (gostring.rev b ++ gostring.rev a)%string.
Proof.
  induction a as [|c a IH]; cbn [append].
  - rewrite sapp_nil_r. reflexivity.
  - rewrite !srev_String, IH, sapp_assoc. reflexivity.
Qed.

Lemma srev_involutive (s : string) : gostring.rev (gostring.rev s) = s.
Proof.
  induction s as [|c s IH]; [reflexivity|].
  rewrite srev_String, srev_app, IH. reflexivity.
Qed.

Lemma slen_rev (s : string) : gostring.len (gostring.rev s) = gostring.len s.
Proof.
  induction s as [|c s IH]; [reflexivity|].
  rewrite srev_String, len_app, IH, !len_String.
  change (gostring.len EmptyString) with 0. lia.
Qed.

Lemma allBytes_app (P : ascii -> bool) (a b : string) :
  allBytes P (a ++ b) = allBytes P a && allBytes P b.
Proof.
  induction a as [|c a IH]; cbn [append allBytes]; [reflexivity|].
  rewrite IH, andb_assoc. reflexivity.
Qed.

Lemma allBytes_impl (P Q : ascii -> bool) (s : string) :
  (forall c, P c = true -> Q c = true) ->
  allBytes P s = true -> allBytes Q s = true.
Proof.
  intros H. induction s as [|c s IH]; cbn [allBytes]; [reflexivity|].
  intros E. apply andb_true_iff in E. destruct E as [E1 E2].
  rewrite (H c E1), (IH E2). reflexivity.
Qed.

Lemma allBytes_rev (P : ascii -> bool) (s : string) :
  allBytes P (gostring.rev s) = allBytes P s.
Proof.
  induction s as [|c s IH]; [reflexivity|].
  rewrite srev_String, allBytes_app, IH. cbn [allBytes].
  rewrite andb_true_r. apply andb_comm.
Qed.

Lemma LastIndexByte_absent (s : string) (b : ascii) :
  allBytes (notByte b) s = true -> gostring.LastIndexByte s b = -1.
Proof.
  induction s as [|c s IH]; cbn [allBytes gostring.LastIndexByte]; [reflexivity|].
  intros E. apply andb_true_iff in E. destruct E as [E1 E2].
  rewrite (IH E2). unfold notByte in E1. apply negb_true_iff in E1.
  rewrite E1. reflexivity.
Qed.

Lemma LastIndexByte_last (x y : string) (b : ascii) :
  allBytes (notByte b) y = true ->
  gostring.LastIndexByte (x ++ String b y) b = gostring.len x.
Proof.
  intros Hy. induction x as [|c x IH]; cbn [append gostring.LastIndexByte].
  - rewrite (LastIndexByte_absent y b Hy), Ascii.eqb_refl. reflexivity.
  - rewrite IH, len_String.
    pose proof (len_nonneg x).
    destruct (Z.leb_spec 0 (gostring.len x)); lia.
Qed.

Lemma isDigit_notByte (b c : ascii) :
  gostring.isDigit b = false -> gostring.isDigit c = true -> notByte b c = true.
Proof.
  intros Hb Hc. unfold notByte. apply negb_true_iff.
  destruct (Ascii.eqb_spec c b); [congruence | reflexivity].
Qed.

(** ** What the IPv4 parser accepts *)

Lemma byte_range (c : ascii) : 0 <= gostring.byte c < 256.
Proof.
  unfold gostring.byte. pose proof (N_ascii_bounded c). lia.
Qed.

Lemma isDigit_value (c : ascii) :
  gostring.isDigit c = true -> 0 <= gostring.byte c - 48 <= 9.
Proof. unfold gostring.isDigit. intros H. apply andb_true_iff in H. lia. Qed.

Lemma setField_OK (f : netip_text.fields4) (pos v : Z) :
  fieldsOK f -> octet v -> fieldsOK (netip_text.setField f pos v).
Proof.
  destruct f as [[[f0 f1] f2] f3]. unfold netip_text.setField, fieldsOK.
  intros (H0 & H1 & H2 & H3) Hv.
  destruct (pos =? 0); [|destruct (pos =? 1); [|destruct (pos =? 2)]]; tauto.
Qed.

Lemma lor_bound (n a b : Z) :
  0 <= n -> 0 <= a < 2 ^ n -> 0 <= b < 2 ^ n -> 0 <= Z.lor a b < 2 ^ n.
Proof.
  intros Hn Ha Hb.
  assert (H0 : 0 <= Z.lor a b) by (apply Z.lor_nonneg; lia).
  split; [exact H0|].
  destruct (Z.eq_dec (Z.lor a b) 0) as [->|N]; [apply pow2_pos; lia|].
  assert (0 < n).
  { destruct (Z.eq_dec n 0) as [->|]; [|lia].
    assert (a = 0) by lia. assert (b = 0) by lia. subst. contradiction. }
  apply Z.log2_lt_pow2; [lia|]. rewrite Z.log2_lor by lia.
  assert (Z.log2 a < n).
  { destruct (Z.eq_dec a 0) as [->|]; [cbn; lia | apply Z.log2_lt_pow2; lia]. }
  assert (Z.log2 b < n).
  { destruct (Z.eq_dec b 0) as [->|]; [cbn; lia | apply Z.log2_lt_pow2; lia]. }
  lia.
Qed.

Lemma AddrFrom4_range (f : netip_text.fields4) :
  fieldsOK f -> exists a, netip_text.AddrFrom4 f = netip.Addr4 a /\ 0 <= a < 2 ^ 32.
Proof.
  destruct f as [[[f0 f1] f2] f3]. intros (H0 & H1 & H2 & H3).
  unfold octet in *. eexists. split; [reflexivity|].
  rewrite !Z.shiftl_mul_pow2 by lia.
  repeat apply lor_bound; lia.
Qed.

Lemma parseIPv4_loop_range (s : string) :
  forall i prev val pos digLen fields ip,
    octet val -> fieldsOK fields ->
    netip_text.parseIPv4_loop s i prev val pos digLen fields = Ok ip ->
    exists a, ip = netip.Addr4 a /\ 0 <= a < 2 ^ 32.
Proof.
  induction s as [|c rest IH]; intros i prev val pos digLen fields ip Hv Hf;
    cbn [netip_text.parseIPv4_loop].
  - destruct (pos <? 3); [discriminate|]. intros E. injection E as <-.
    destruct (AddrFrom4_range (netip_text.setField fields 3 val)) as (a & -> & Ra).
    + apply setField_OK; assumption.
    + eauto.
  - destruct (gostring.isDigit c) eqn:D.
    + destruct ((digLen =? 1) && (val =? 0)); [discriminate|].
      destruct (Z.ltb_spec 255 (val * 10 + (gostring.byte c - 48))); [discriminate|].
      apply IH; [|assumption].
      pose proof (isDigit_value c D). unfold octet in *. lia.
    + destruct (Ascii.eqb c "."); [|discriminate].
      destruct ((i =? 0) || _ || _); [discriminate|].
      destruct (pos =? 3); [discriminate|].
      apply IH; [unfold octet; lia|]. apply setField_OK; assumption.
Qed.

Lemma parseIPv4_range (s : string) (ip : netip.Addr) :
  netip_text.parseIPv4 s = Ok ip ->
  exists a, ip = netip.Addr4 a /\ 0 <= a < 2 ^ 32.
Proof.
  intros E. unfold netip_text.parseIPv4 in E.
  eapply parseIPv4_loop_range; [| | exact E].
  - unfold octet. lia.
  - unfold fieldsOK, octet. lia.
Qed.

(** The parser reads digits and dots only. *)
Lemma parseIPv4_loop_noSlash (s : string) :
  forall i prev val pos digLen fields ip,
    netip_text.parseIPv4_loop s i prev val pos digLen fields = Ok ip ->
    allBytes (notByte "/") s = true.
Proof.
  induction s as [|c rest IH]; intros i prev val pos digLen fields ip;
    cbn [netip_text.parseIPv4_loop allBytes]; [reflexivity|].
  destruct (gostring.isDigit c) eqn:D.
  - destruct ((digLen =? 1) && (val =? 0)); [discriminate|].
    destruct (255 <? _); [discriminate|].
    intros E. rewrite (IH _ _ _ _ _ _ _ E), andb_true_r.
    apply isDigit_notByte; [reflexivity | exact D].
  - destruct (Ascii.eqb_spec c "."); [|discriminate]. subst c.
    destruct ((i =? 0) || _ || _); [discriminate|].
    destruct (pos =? 3); [discriminate|].
    intros E. rewrite (IH _ _ _ _ _ _ _ E). reflexivity.
Qed.

Section ParsePrefix.

Variable parseIPv6 : string -> result (Z * string).

Lemma ParseAddr_v4_range (s : string) (a : Z) :
  netip_text.ParseAddr parseIPv6 s = Ok (netip.Addr4 a) -> 0 <= a < 2 ^ 32.
Proof.
  unfold netip_text.ParseAddr.
  destruct (netip_text.addrKindOf s); try discriminate.
  - intros E. destruct (parseIPv4_range s _ E) as (a' & Ea & Ra).
    injection Ea as ->. exact Ra.
  - destruct (parseIPv6 s) as [[? ?]|]; discriminate.
Qed.

(** A parsed IPv4 prefix has a 32-bit address and a length in [0, 32];
    its address is kept as written. *)
Lemma ParsePrefix_v4_range (s : string) (p : netip.Prefix) (a : Z) :
  netip_text.ParsePrefix parseIPv6 s = Ok p -> netip.ip p = netip.Addr4 a ->
  0 <= a < 2 ^ 32 /\ 0 <= netip.bits p <= 32.
Proof.
  unfold netip_text.ParsePrefix.
  destruct (_ <? 0); [discriminate|].
  destruct (netip_text.ParseAddr parseIPv6 _) as [ip|] eqn:EA; [|discriminate].
  destruct (netip.Is6 ip && netip_text.hasZone ip); [discriminate|].
  destruct (_ && _); [discriminate|].
  destruct (strconv.Atoi _) as [bits|]; [|discriminate].
  destruct (Z.ltb_spec bits 0); [discriminate|].
  cbn [orb].
  destruct ip as [a'|a' zone]; cbn [netip.Is6].
  - destruct (Z.ltb_spec 32 bits); [discriminate|].
    intros E. injection E as <-. unfold netip.PrefixFrom.
    cbn [netip.BitLen netip.withoutZone].
    destruct (Z.leb_spec 0 bits); [|lia].
    destruct (Z.leb_spec bits 32); [|lia].
    cbn [andb netip.ip netip.bits]. intros E. injection E as <-.
    split; [|lia]. apply (ParseAddr_v4_range _ _ EA).
  - destruct (128 <? bits); [discriminate|].
    intros E. injection E as <-. unfold netip.PrefixFrom.
    cbn [netip.withoutZone]. destruct (_ && _); cbn [netip.ip]; discriminate.
Qed.

(** Text without a slash is not a prefix. *)
Lemma ParsePrefix_noSlash (s : string) :
  allBytes (notByte "/") s = true ->
  netip_text.ParsePrefix parseIPv6 s = Err "no '/'".
Proof.
  intros H. unfold netip_text.ParsePrefix.
  rewrite (LastIndexByte_absent s "/" H). reflexivity.
Qed.

End ParsePrefix.

Section Pipeline.

Variable parseIPv6 : string -> result (Z * string).

(** ** The two loops are [normalize] on the texts they select *)

Lemma processSubnets_body_addText (targetAS : string) (subnets : list subnetAS) :
  forall st,
    fold_left (processSubnets_body parseIPv6 targetAS) subnets st
    = fold_left (addText parseIPv6) (textsOfAS subnets targetAS) st.
Proof.
  unfold textsOfAS.
  induction subnets as [|item rest IH]; intros [v4Set log]; [reflexivity|].
  cbn [fold_left filter]. rewrite IH.
  unfold processSubnets_body at 1.
  destruct (String.eqb (as_ item) targetAS); reflexivity.
Qed.

Lemma processSubnets_normalize (subnets : list subnetAS) (targetAS : string) :
  processSubnets parseIPv6 subnets targetAS
  = normalize parseIPv6 (textsOfAS subnets targetAS).
Proof.
  unfold processSubnets, normalize.
  rewrite processSubnets_body_addText. reflexivity.
Qed.

Lemma readLine_body_addText (lines : list string) :
  forall st,
    fold_left (readLine_body parseIPv6) lines st
    = fold_left (addText parseIPv6) (textsOfLines lines) st.
Proof.
  unfold textsOfLines.
  induction lines as [|line rest IH]; intros [v4Set log]; [reflexivity|].
  cbn [fold_left filter map]. rewrite IH.
  unfold readLine_body at 1.
  destruct (String.eqb (strings.TrimSpace line) EmptyString); reflexivity.
Qed.

Lemma downloadReadySubnets_normalize (data : string) :
  downloadReadySubnets parseIPv6 (Ok data)
  = normalize parseIPv6 (textsOfLines (fst (bufio.Scan data))).
Proof.
  unfold downloadReadySubnets, normalize.
  destruct (bufio.Scan data) as [lines ok]. cbn [fst].
  rewrite readLine_body_addText. reflexivity.
Qed.

Lemma downloadReadySplitSubnets_normalize (data : string) :
  snd (bufio.Scan data) = true ->
  downloadReadySplitSubnets parseIPv6 (Ok data)
  = normalize parseIPv6 (textsOfLines (fst (bufio.Scan data))).
Proof.
  unfold downloadReadySplitSubnets, normalize.
  destruct (bufio.Scan data) as [lines ok]. cbn [fst snd]. intros ->.
  rewrite readLine_body_addText.
  destruct (fold_left _ _ _). reflexivity.
Qed.

(** ** The set builder after the loop *)

Lemma v4PrefixOf_wf (text : string) (p : netip.Prefix) :
  v4PrefixOf parseIPv6 text = Some p ->
  exists a,
    netip.ip p = netip.Addr4 a /\ 0 <= a < 2 ^ 32 /\ 0 <= netip.bits p <= 32.
Proof.
  unfold v4PrefixOf.
  destruct (netip_text.ParsePrefix parseIPv6 text) as [q|] eqn:E; [|discriminate].
  destruct (netip.ip q) as [a|a z] eqn:Ea; cbn [netip.Is4]; [|discriminate].
  intros H. injection H as <-.
  exists a. split; [exact Ea|]. apply (ParsePrefix_v4_range parseIPv6 text q a E Ea).
Qed.

Lemma toRange_wf (p : netip.Prefix) (a : Z) :
  netip.ip p = netip.Addr4 a -> 0 <= a < 2 ^ 32 -> 0 <= netip.bits p <= 32 ->
  wfRange (toRange p).
Proof.
  intros Ea Ra Rb. unfold toRange, wfRange. rewrite Ea.
  pose proof (RangeOfPrefix_bounds a (netip.bits p) Ra Rb) as H.
  cbn zeta in H. lia.
Qed.

Lemma rangesOf_wf (text : string) : Forall wfRange (rangesOf parseIPv6 text).
Proof.
  unfold rangesOf.
  destruct (v4PrefixOf parseIPv6 text) as [p|] eqn:E; [|constructor].
  destruct (v4PrefixOf_wf text p E) as (a & Ea & Ra & Rb).
  constructor; [|constructor]. apply (toRange_wf p a); assumption.
Qed.

Lemma addText_step (v4Set : netipx.IPSetBuilder) (log : Log) (text : string) :
  addText parseIPv6 (v4Set, log) text
  = (netipx.mkBuilder (netipx.in_ v4Set ++ rangesOf parseIPv6 text)
                      (netipx.errs v4Set),
     log ++ diagOf parseIPv6 text).
Proof.
  unfold addText, rangesOf, diagOf,
    v4PrefixOf.
  destruct (netip_text.ParsePrefix parseIPv6 text) as [p|msg] eqn:E.
  - rewrite app_nil_r. f_equal. unfold addIfIs4.
    destruct (netip.ip p) as [a|a z] eqn:Ea; cbn [netip.Is4].
    + destruct (ParsePrefix_v4_range parseIPv6 text p a E Ea) as [Ra Rb].
      pose proof (toRange_wf p a Ea Ra Rb) as W.
      unfold toRange in *. rewrite Ea in *.
      unfold netipx.AddPrefix, netipx.AddRange.
      rewrite (wfRange_valid _ W). reflexivity.
    + rewrite app_nil_r. destruct v4Set. reflexivity.
  - rewrite app_nil_r. destruct v4Set. reflexivity.
Qed.

Lemma fold_addText (texts : list string) :
  forall v4Set log,
    fold_left (addText parseIPv6) texts (v4Set, log)
    = (netipx.mkBuilder (netipx.in_ v4Set ++ flat_map (rangesOf parseIPv6) texts)
                        (netipx.errs v4Set),
       log ++ flat_map (diagOf parseIPv6) texts).
Proof.
  induction texts as [|text rest IH]; intros v4Set log; cbn [fold_left flat_map].
  - rewrite !app_nil_r. destruct v4Set. reflexivity.
  - rewrite addText_step, IH. cbn [netipx.in_ netipx.errs].
    rewrite <- !app_assoc. reflexivity.
Qed.

Lemma flat_rangesOf_wf (texts : list string) :
  Forall wfRange (flat_map (rangesOf parseIPv6) texts).
Proof.
  induction texts as [|text rest IH]; cbn [flat_map]; [constructor|].
  apply Forall_app. split; [apply rangesOf_wf | exact IH].
Qed.

(** [normalize] always returns: merged ranges [rs], their prefixes, no
    error, and one log line per rejected text. *)
Lemma normalize_spec (texts : list string) :
  exists rs ps,
    normalize parseIPv6 texts = (Some ps, None, flat_map (diagOf parseIPv6) texts)
    /\ netipx.Prefixes (netipx.mkIPSet rs) = Some ps
    /\ Separated rs /\ Decomposes rs ps
    /\ forall x, Covered rs x <-> Covered (flat_map (rangesOf parseIPv6) texts) x.
Proof.
  unfold normalize. rewrite fold_addText.
  cbn [netipx.in_ netipx.errs netipx.empty app].
  destruct (mergeIPRanges_spec _ (flat_rangesOf_wf texts)) as (rs & E & S & C).
  unfold netipx.IPSet_of, netipx.normalize. cbn [netipx.in_ netipx.errs].
  rewrite E. cbn [netipx.in_ netipx.errs].
  destruct (PrefixesLoop_spec rs (Separated_wf rs S) []) as (ps & Ep & D).
  unfold netipx.Prefixes. cbn [netipx.rr]. rewrite Ep. cbn [app].
  exists rs, ps. repeat split; try assumption; apply C.
Qed.

(** [normalize] is a function of the ranges and of the log lines of its
    texts. *)
Lemma normalize_unfold (texts : list string) :
  normalize parseIPv6 texts
  = (netipx.Prefixes
       (fst (netipx.IPSet_of
               (netipx.mkBuilder (flat_map (rangesOf parseIPv6) texts) []))),
     None, flat_map (diagOf parseIPv6) texts).
Proof.
  unfold normalize. rewrite fold_addText.
  cbn [netipx.in_ netipx.errs netipx.empty app].
  destruct (netipx.IPSet_of _). reflexivity.
Qed.

End Pipeline.

Lemma and_iff_under (A B C : Prop) : (A -> (B <-> C)) -> (A /\ B <-> A /\ C).
Proof. tauto. Qed.

Section Coverage.

Variable parseIPv6 : string -> result (Z * string).

Lemma Contains_toRange (p : netip.Prefix) (a x : Z) :
  netip.ip p = netip.Addr4 a -> 0 <= a < 2 ^ 32 -> 0 <= netip.bits p <= 32 ->
  0 <= x < 2 ^ 32 ->
  netip_text.Contains p x = true <-> InRange (toRange p) x.
Proof.
  intros Ea Ra Rb Hx.
  unfold netip_text.Contains, toRange, InRange, netip.IsValid. rewrite Ea.
  destruct (Z.leb_spec 0 (netip.bits p)); [|lia]. cbn [andb].
  apply Contains4_range; assumption.
Qed.

Lemma InInput_Covered (texts : list string) (x : Z) :
  InInput parseIPv6 texts x
  <-> 0 <= x < 2 ^ 32 /\ Covered (flat_map (rangesOf parseIPv6) texts) x.
Proof.
  unfold InInput. apply and_iff_under. intros Hx.
  induction texts as [|t rest IH]; cbn [flat_map].
  - rewrite Covered_nil. split; [intros (? & ? & [] & _) | intros []].
  - rewrite Covered_app, <- IH. unfold rangesOf. split.
    + intros (text & p & [<-|Hin] & Ep & Hc).
      * left. rewrite Ep. apply Covered_cons. left.
        destruct (v4PrefixOf_wf parseIPv6 _ p Ep) as (a & Ea & Ra & Rb).
        apply (Contains_toRange p a x Ea Ra Rb Hx). exact Hc.
      * right. eauto.
    + intros [Hc | (text & p & Hin & Ep & Hc)].
      * destruct (v4PrefixOf parseIPv6 t) as [p|] eqn:Ep.
        -- apply Covered_cons in Hc. destruct Hc as [Hc|Hc];
             [|apply Covered_nil in Hc; contradiction].
           destruct (v4PrefixOf_wf parseIPv6 _ p Ep) as (a & Ea & Ra & Rb).
           exists t, p. split; [left; reflexivity|]. split; [exact Ep|].
           apply (Contains_toRange p a x Ea Ra Rb Hx). exact Hc.
        -- apply Covered_nil in Hc. contradiction.
      * exists text, p. split; [right; exact Hin|]. split; assumption.
Qed.

Lemma InOutput_Covered (out : list netip.Prefix) (x : Z) :
  Forall canonical out ->
  InOutput out x <-> 0 <= x < 2 ^ 32 /\ Covered (map toRange out) x.
Proof.
  intros C. unfold InOutput. apply and_iff_under. intros Hx.
  induction C as [|p out Cp _ IH]; cbn [map].
  - rewrite Covered_nil. split; [intros (? & [] & _) | intros []].
  - rewrite Covered_cons, <- IH. split.
    + intros (q & [<-|Hin] & Hc).
      * left. apply Contains_range; assumption.
      * right. eauto.
    + intros [Hc | (q & Hin & Hc)].
      * exists p. split; [left; reflexivity|]. apply Contains_range; assumption.
      * exists q. split; [right; exact Hin | exact Hc].
Qed.

(** [normalize] returns, and its prefixes cover the addresses of the
    IPv4 prefixes among its texts, no more and no less. *)
Lemma normalize_coverage (texts : list string) :
  exists out log,
    normalize parseIPv6 texts = (Some out, None, log)
    /\ forall x, InOutput out x <-> InInput parseIPv6 texts x.
Proof.
  destruct (normalize_spec parseIPv6 texts) as (rs & ps & E & _ & S & D & C).
  exists ps, (flat_map (diagOf parseIPv6) texts). split; [exact E|].
  intros x.
  rewrite InInput_Covered, InOutput_Covered
    by (apply (Decomposes_canonical rs); assumption).
  rewrite (Decomposes_cover rs S ps D), C. reflexivity.
Qed.

(** [downloadReadySplitSubnets] is [downloadReadySubnets] with the
    scanner's error reported. *)
Lemma downloadReadySplitSubnets_same (data : string) :
  downloadReadySplitSubnets parseIPv6 (Ok data)
  = if snd (bufio.Scan data)
    then downloadReadySubnets parseIPv6 (Ok data)
    else (Some [], Some "bufio.Scanner: token too long"%string,
          snd (downloadReadySubnets parseIPv6 (Ok data))).
Proof.
  unfold downloadReadySplitSubnets, downloadReadySubnets.
  destruct (bufio.Scan data) as [lines ok]. cbn [snd].
  destruct (fold_left _ lines _) as [v4Set log].
  destruct ok; cbn [negb]; destruct (netipx.IPSet_of v4Set); reflexivity.
Qed.

(** C1. Coverage preservation: for every input of [processSubnets] and
    of [downloadReadySubnets], the call returns a prefix list, and a
    32-bit address is covered by that list exactly when it is covered by
    one of the input texts that parse as an IPv4 prefix (for
    [processSubnets]: among the entries of the target AS), whatever the
    overlap or duplication in the input.  [downloadReadySplitSubnets]
    returns the same as [downloadReadySubnets] unless its scanner
    stopped on an over-long line. *)
Theorem coverage_preserved
        (subnets : list subnetAS) (targetAS : string) (data : string) :
  (exists out log,
      processSubnets parseIPv6 subnets targetAS = (Some out, None, log)
      /\ forall x,
          InOutput out x
          <-> InInput parseIPv6 (textsOfAS subnets targetAS) x)
  /\ (exists out log,
         downloadReadySubnets parseIPv6 (Ok data) = (Some out, None, log)
         /\ forall x,
             InOutput out x
             <-> InInput parseIPv6 (textsOfLines (fst (bufio.Scan data))) x)
  /\ downloadReadySplitSubnets parseIPv6 (Ok data)
     = if snd (bufio.Scan data)
       then downloadReadySubnets parseIPv6 (Ok data)
       else (Some [], Some "bufio.Scanner: token too long"%string,
             snd (downloadReadySubnets parseIPv6 (Ok data))).
Proof.
  split; [|split].
  - rewrite processSubnets_normalize. apply normalize_coverage.
  - rewrite downloadReadySubnets_normalize. apply normalize_coverage.
  - apply downloadReadySplitSubnets_same.
Qed.

End Coverage.

(** C2. Range-to-prefix decomposition: for every range [a .. b] of 32-bit
    addresses, [IPRange.Prefixes] returns, within its recursion bound, the
    list that the greedy alignment-first loop of the spec emits (at each
    step the largest aligned block that fits, then advance by its size,
    until past [b]), both as the relation [Spec.Greedy] and as the program
    [Spec.rangeToPrefixes]; this includes [b = 2^32 - 1].  On
    [1.1.1.1 .. 1.1.1.2] it returns the two /32 prefixes. *)
Theorem decomposition_is_greedy (a b : Z) :
  0 <= a -> a <= b -> b <= 2 ^ 32 - 1 ->
  (exists l,
      netipx.AppendPrefixes (netipx.mkRange a b) [] = Some l
      /\ Spec.Greedy a b l
      /\ Spec.rangeToPrefixes (S (List.length l)) a b = Some l)
  /\ netipx.AppendPrefixes (netipx.mkRange (ip4 1 1 1 1) (ip4 1 1 1 2)) []
     = Some [prefix4 1 1 1 1 32; prefix4 1 1 1 2 32].
Proof.
  intros Ha Hab Hb. split; [|reflexivity].
  destruct (AppendPrefixes_greedy (netipx.mkRange a b)) as (l & E & G).
  { unfold wfRange. cbn [netipx.from netipx.to]. lia. }
  cbn [netipx.from netipx.to] in G.
  exists l. split; [exact E|]. split; [exact G|].
  apply (rangeToPrefixes_Greedy a b l G); lia.
Qed.

Lemma Sorted_impl {A : Type} (R R' : A -> A -> Prop) (P : A -> Prop)
      (l : list A) :
  (forall x y, P x -> P y -> R x y -> R' x y) ->
  Forall P l -> Sorted R l -> Sorted R' l.
Proof.
  intros HR F S. induction S as [|x l S IH Hd]; [constructor|].
  inversion F as [|? ? Px Pl]; subst.
  constructor; [apply IH; exact Pl|].
  destruct Hd as [|y l' Hxy]; constructor.
  inversion Pl; subst. apply HR; assumption.
Qed.

Lemma canonical_start_le_end (p : netip.Prefix) :
  canonical p -> start_ p <= end_ p.
Proof.
  intros (a & Ea & Ra & Rb & _). unfold start_, end_, toRange. rewrite Ea.
  pose proof (RangeOfPrefix_bounds a (netip.bits p) Ra Rb) as H.
  cbn zeta in H. lia.
Qed.

Section Claims.

Variable parseIPv6 : string -> result (Z * string).

Lemma normalize_sorted (texts : list string) :
  exists out log,
    normalize parseIPv6 texts = (Some out, None, log)
    /\ Sorted neighbours out /\ Forall canonical out.
Proof.
  destruct (normalize_spec parseIPv6 texts) as (rs & ps & E & _ & S & D & _).
  exists ps, (flat_map (diagOf parseIPv6) texts). split; [exact E|].
  pose proof (Decomposes_canonical rs S ps D) as C.
  split; [|exact C].
  apply (Sorted_impl apart neighbours canonical); [|exact C|].
  - intros p q Cp _ [H1 H2]. pose proof (canonical_start_le_end p Cp).
    unfold neighbours. repeat split; try assumption. lia.
  - apply (Decomposes_sorted rs); assumption.
Qed.

(** C3, amended. Every prefix list returned by [processSubnets] and by
    [downloadReadySubnets] is ascending by start address, and for every
    adjacent pair [end(p_i) < start(p_{i+1})]: no two entries overlap;
    two neighbours may touch, but then they are never the two halves of
    one shorter prefix. *)
Theorem output_sorted_disjoint
        (subnets : list subnetAS) (targetAS : string) (data : string) :
  (exists out log,
      processSubnets parseIPv6 subnets targetAS = (Some out, None, log)
      /\ Sorted neighbours out)
  /\ (exists out log,
         downloadReadySubnets parseIPv6 (Ok data) = (Some out, None, log)
         /\ Sorted neighbours out).
Proof.
  split.
  - rewrite processSubnets_normalize.
    destruct (normalize_sorted (textsOfAS subnets targetAS))
      as (out & log & E & S & _). eauto.
  - rewrite downloadReadySubnets_normalize.
    destruct (normalize_sorted (textsOfLines (fst (bufio.Scan data))))
      as (out & log & E & S & _). eauto.
Qed.

(** ** Order of the input *)

Lemma normalize_Permutation (texts texts' : list string) :
  Permutation texts texts' ->
  fst (normalize parseIPv6 texts) = fst (normalize parseIPv6 texts').
Proof.
  intros P. unfold normalize. rewrite !fold_addText.
  cbn [netipx.in_ netipx.errs netipx.empty app].
  unfold netipx.IPSet_of, netipx.normalize. cbn [netipx.in_ netipx.errs].
  destruct (mergeIPRanges_spec _ (flat_rangesOf_wf parseIPv6 texts))
    as (rs & E & _).
  assert (E' : netipx.mergeIPRanges (flat_map (rangesOf parseIPv6) texts')
               = Some rs).
  { rewrite <- E, !mergeIPRanges_unfold.
    rewrite (sortRanges_Permutation _ _
               (Permutation_flat_map (rangesOf parseIPv6) P)).
    reflexivity. }
  rewrite E, E'. reflexivity.
Qed.

Lemma Permutation_filter {A : Type} (f : A -> bool) (l l' : list A) :
  Permutation l l' -> Permutation (filter f l) (filter f l').
Proof.
  induction 1 as [| x l l' _ IH | x y l | l l' l'' _ IH1 _ IH2]; cbn [filter].
  - constructor.
  - destruct (f x); [constructor|]; exact IH.
  - destruct (f x), (f y); try reflexivity. apply perm_swap.
  - etransitivity; eassumption.
Qed.

(** C7. Order invariance: permuting the entries given to
    [processSubnets], or the lines read by [downloadReadySubnets],
    leaves the returned prefix list (and the returned error) the same,
    prefix for prefix. *)
Theorem order_invariant
        (subnets subnets' : list subnetAS) (targetAS : string)
        (data data' : string) :
  Permutation subnets subnets' ->
  Permutation (fst (bufio.Scan data)) (fst (bufio.Scan data')) ->
  fst (processSubnets parseIPv6 subnets targetAS)
  = fst (processSubnets parseIPv6 subnets' targetAS)
  /\ fst (downloadReadySubnets parseIPv6 (Ok data))
     = fst (downloadReadySubnets parseIPv6 (Ok data')).
Proof.
  intros P1 P2. split.
  - rewrite !processSubnets_normalize. apply normalize_Permutation.
    unfold textsOfAS. apply Permutation_map, Permutation_filter. exact P1.
  - rewrite !downloadReadySubnets_normalize. apply normalize_Permutation.
    unfold textsOfLines. apply Permutation_filter, Permutation_map. exact P2.
Qed.

(** ** The AS filter *)

Lemma textsOfAS_other (before after : list subnetAS) (item : subnetAS)
      (targetAS : string) :
  as_ item <> targetAS ->
  textsOfAS (before ++ item :: after) targetAS
  = textsOfAS (before ++ after) targetAS.
Proof.
  intros N. unfold textsOfAS. rewrite !filter_app. cbn [filter].
  destruct (String.eqb_spec (as_ item) targetAS); [contradiction | reflexivity].
Qed.

Lemma InInput_items (subnets : list subnetAS) (targetAS : string) (x : Z) :
  InInput parseIPv6 (textsOfAS subnets targetAS) x
  <-> 0 <= x < 2 ^ 32
      /\ exists item p,
          In item subnets /\ as_ item = targetAS
          /\ v4PrefixOf parseIPv6 (subnet item) = Some p
          /\ netip_text.Contains p x = true.
Proof.
  unfold InInput, textsOfAS. apply and_iff_under. intros _. split.
  - intros (text & p & Hin & Ep & Hc).
    apply in_map_iff in Hin. destruct Hin as (item & <- & Hin).
    apply filter_In in Hin. destruct Hin as [Hin Has].
    apply String.eqb_eq in Has. exists item, p. auto.
  - intros (item & p & Hin & Has & Ep & Hc).
    exists (subnet item), p. split; [|auto].
    apply in_map. apply filter_In. split; [exact Hin|].
    apply String.eqb_eq. exact Has.
Qed.

(** C9. The AS filter of [processSubnets] is exact string equality: an
    entry whose AS string differs from [targetAS] in any way can be
    removed without changing what the call returns, and a 32-bit address
    is covered by the returned prefixes exactly when it is covered by an
    entry whose AS string equals [targetAS] and whose subnet text parses
    as an IPv4 prefix. *)
Theorem as_filter_exact (subnets : list subnetAS) (targetAS : string) :
  (forall before item after,
      as_ item <> targetAS ->
      fst (processSubnets parseIPv6 (before ++ item :: after) targetAS)
      = fst (processSubnets parseIPv6 (before ++ after) targetAS))
  /\ exists out log,
      processSubnets parseIPv6 subnets targetAS = (Some out, None, log)
      /\ forall x,
          InOutput out x
          <-> 0 <= x < 2 ^ 32
              /\ exists item p,
                  In item subnets /\ as_ item = targetAS
                  /\ v4PrefixOf parseIPv6 (subnet item) = Some p
                  /\ netip_text.Contains p x = true.
Proof.
  split.
  - intros before item after N.
    rewrite !processSubnets_normalize, textsOfAS_other by exact N.
    reflexivity.
  - rewrite processSubnets_normalize.
    destruct (normalize_coverage parseIPv6 (textsOfAS subnets targetAS))
      as (out & log & E & C).
    exists out, log. split; [exact E|].
    intros x. rewrite C. apply InInput_items.
Qed.

(** C10. [processSubnets] tests the AS before it parses: for an entry
    whose AS differs from [targetAS] the loop body returns the set
    builder and the log as they were, whatever the subnet text is, so no
    diagnostic is written and the whole call returns the same prefixes,
    error and log as without the entry. *)
Theorem as_filter_before_parse
        (targetAS : string) (item : subnetAS)
        (st : netipx.IPSetBuilder * Log) (before after : list subnetAS) :
  as_ item <> targetAS ->
  processSubnets_body parseIPv6 targetAS st item = st
  /\ (forall text,
         processSubnets_body parseIPv6 targetAS st
                             (mkSubnetAS text (as_ item)) = st)
  /\ processSubnets parseIPv6 (before ++ item :: after) targetAS
     = processSubnets parseIPv6 (before ++ after) targetAS.
Proof.
  intros N.
  assert (B : forall text,
             processSubnets_body parseIPv6 targetAS st
                                 (mkSubnetAS text (as_ item)) = st).
  { intros text. unfold processSubnets_body. destruct st as [v4Set log].
    cbn [as_]. destruct (String.eqb_spec (as_ item) targetAS);
      [contradiction | reflexivity]. }
  split; [|split; [exact B|]].
  - destruct item as [text asn]. apply (B text).
  - rewrite !processSubnets_normalize, textsOfAS_other by exact N.
    reflexivity.
Qed.

End Claims.

(** ** Decimal digits *)

Lemma digit_cases (d : Z) (P : Z -> Prop) :
  0 <= d <= 9 ->
  P 0 -> P 1 -> P 2 -> P 3 -> P 4 -> P 5 -> P 6 -> P 7 -> P 8 -> P 9 -> P d.
Proof.
  intros H.
  assert (E : d = 0 \/ d = 1 \/ d = 2 \/ d = 3 \/ d = 4 \/ d = 5 \/ d = 6
              \/ d = 7 \/ d = 8 \/ d = 9) by lia.
  intuition (subst; assumption).
Qed.

Lemma digit_isDigit (d : Z) :
  0 <= d <= 9 -> gostring.isDigit (netip_text.digit d) = true.
Proof. intros H. apply (digit_cases d); try assumption; reflexivity. Qed.

Lemma digit_byte (d : Z) :
  0 <= d <= 9 -> gostring.byte (netip_text.digit d) = 48 + d.
Proof. intros H. apply (digit_cases d); try assumption; reflexivity. Qed.

Lemma appendDecimal_dec (b : string) (x : Z) :
  netip_text.appendDecimal b x = (b ++ dec x)%string.
Proof.
  unfold dec, netip_text.appendDecimal.
  destruct (100 <=? x), (10 <=? x); cbn [append];
    rewrite ?sapp_assoc; cbn [append]; rewrite ?sapp_nil_r; reflexivity.
Qed.

Lemma dec_cases (x : Z) :
  0 <= x < 256 ->
  (x < 10 /\ dec x = String (netip_text.digit x) EmptyString)
  \/ (10 <= x < 100
      /\ dec x = String (netip_text.digit (x / 10))
                        (String (netip_text.digit (x mod 10)) EmptyString))
  \/ (100 <= x
      /\ dec x = String (netip_text.digit (x / 100))
                        (String (netip_text.digit (x / 10 mod 10))
                                (String (netip_text.digit (x mod 10)) EmptyString))).
Proof.
  intros H. unfold dec, netip_text.appendDecimal.
  destruct (Z.leb_spec 100 x), (Z.leb_spec 10 x); cbn [append]; try lia.
  - right. right. split; [lia | reflexivity].
  - right. left. split; [lia|].
    rewrite (Z.mod_small (x / 10)) by (Z.div_mod_to_equations; lia). reflexivity.
  - left. split; [lia|]. rewrite Z.mod_small by lia. reflexivity.
Qed.

Lemma dec_digits (x : Z) :
  0 <= x < 256 -> allBytes gostring.isDigit (dec x) = true.
Proof.
  intros H.
  destruct (dec_cases x H) as [[? ->] | [[? ->] | [? ->]]]; cbn [allBytes];
    rewrite ?digit_isDigit; try reflexivity; Z.div_mod_to_equations; lia.
Qed.

Lemma dec_len (x : Z) : 0 <= x < 256 -> 1 <= gostring.len (dec x) <= 3.
Proof.
  intros H.
  destruct (dec_cases x H) as [[? ->] | [[? ->] | [? ->]]];
    unfold gostring.len; cbn [String.length]; lia.
Qed.

Lemma dec_head (x : Z) :
  0 <= x < 256 ->
  exists c rest, dec x = String c rest /\ gostring.isDigit c = true.
Proof.
  intros H.
  destruct (dec_cases x H) as [[? ->] | [[? ->] | [? ->]]];
    eexists _, _; (split; [reflexivity|]); apply digit_isDigit;
    Z.div_mod_to_equations; lia.
Qed.

(** ** Parsing what [string4] prints *)

Lemma loop_digit (d : Z) (rest : string) (i : Z) (prev : ascii)
      (val pos digLen : Z) (fields : netip_text.fields4) :
  0 <= d <= 9 ->
  ((digLen =? 1) && (val =? 0)) = false -> val * 10 + d <= 255 ->
  netip_text.parseIPv4_loop (String (netip_text.digit d) rest)
                            i prev val pos digLen fields
  = netip_text.parseIPv4_loop rest (i + 1) (netip_text.digit d)
                              (val * 10 + d) pos (digLen + 1) fields.
Proof.
  intros Hd Hz Hv. cbn [netip_text.parseIPv4_loop].
  rewrite (digit_isDigit d Hd), Hz, (digit_byte d Hd).
  replace (48 + d - 48) with d by lia.
  destruct (Z.ltb_spec 255 (val * 10 + d)); [lia | reflexivity].
Qed.

Lemma loop_dec (x : Z) (rest : string) (i : Z) (prev : ascii)
      (pos : Z) (fields : netip_text.fields4) :
  0 <= x < 256 ->
  netip_text.parseIPv4_loop (dec x ++ rest) i prev 0 pos 0 fields
  = netip_text.parseIPv4_loop rest (i + gostring.len (dec x))
                              (netip_text.digit (x mod 10)) x pos
                              (gostring.len (dec x)) fields.
Proof.
  intros H.
  destruct (dec_cases x H) as [[? ->] | [[? ->] | [? ->]]]; cbn [append].
  - rewrite loop_digit by (reflexivity || lia).
    rewrite (Z.mod_small x 10) by lia. reflexivity.
  - rewrite loop_digit by (reflexivity || (Z.div_mod_to_equations; lia)).
    rewrite loop_digit.
    + f_equal; unfold gostring.len; cbn [String.length];
        Z.div_mod_to_equations; lia.
    + Z.div_mod_to_equations; lia.
    + change (0 + 1 =? 1) with true. cbn [andb].
      apply Z.eqb_neq. Z.div_mod_to_equations; lia.
    + Z.div_mod_to_equations; lia.
  - rewrite loop_digit by (reflexivity || (Z.div_mod_to_equations; lia)).
    rewrite loop_digit.
    + rewrite loop_digit.
      * f_equal; unfold gostring.len; cbn [String.length];
          Z.div_mod_to_equations; lia.
      * Z.div_mod_to_equations; lia.
      * reflexivity.
      * Z.div_mod_to_equations; lia.
    + Z.div_mod_to_equations; lia.
    + change (0 + 1 =? 1) with true. cbn [andb].
      apply Z.eqb_neq. Z.div_mod_to_equations; lia.
    + Z.div_mod_to_equations; lia.
Qed.

Lemma loop_dot (rest : string) (i : Z) (prev : ascii)
      (val pos digLen : Z) (fields : netip_text.fields4) :
  1 <= i -> rest <> EmptyString -> gostring.isDigit prev = true -> pos <> 3 ->
  netip_text.parseIPv4_loop (String "." rest) i prev val pos digLen fields
  = netip_text.parseIPv4_loop rest (i + 1) "." 0 (pos + 1) 0
                              (netip_text.setField fields pos val).
Proof.
  intros Hi Hr Hp Hpos. cbn [netip_text.parseIPv4_loop].
  change (gostring.isDigit ".") with false. cbn match.
  rewrite Ascii.eqb_refl.
  destruct (Z.eqb_spec i 0); [lia|].
  destruct rest as [|c rest]; [contradiction|].
  destruct (Ascii.eqb_spec prev "."); [subst; discriminate|].
  destruct (Z.eqb_spec pos 3); [contradiction|]. reflexivity.
Qed.

Lemma dec_app_nonempty (x : Z) (rest : string) :
  0 <= x < 256 -> (dec x ++ rest)%string <> EmptyString.
Proof.
  intros H. destruct (dec_head x H) as (c & r & -> & _). discriminate.
Qed.

Lemma octetOf_range (a i : Z) : 0 <= octetOf a i < 256.
Proof. unfold octetOf. apply Z.mod_pos_bound. lia. Qed.

Lemma string4_eq (a : Z) :
  netip_text.string4 a
  = (dec (octetOf a 0) ++ "." ++ dec (octetOf a 1) ++ "."
     ++ dec (octetOf a 2) ++ "." ++ dec (octetOf a 3))%string.
Proof.
  unfold netip_text.string4. rewrite !appendDecimal_dec.
  unfold octetOf.
  change (8 * (3 - 0)) with 24. change (8 * (3 - 1)) with 16.
  change (8 * (3 - 2)) with 8. change (8 * (3 - 3)) with 0.
  rewrite !sapp_assoc. cbn [append].
  change (Z.shiftr a 0) with a. reflexivity.
Qed.

Lemma AddrFrom4_octets (a : Z) :
  0 <= a < 2 ^ 32 ->
  netip_text.AddrFrom4 (octetOf a 0, octetOf a 1, octetOf a 2, octetOf a 3)
  = netip.Addr4 a.
Proof.
  intros Ha. unfold netip_text.AddrFrom4, octetOf. f_equal.
  change (8 * (3 - 0)) with 24. change (8 * (3 - 1)) with 16.
  change (8 * (3 - 2)) with 8. change (8 * (3 - 3)) with 0.
  change 256 with (2 ^ 8).
  apply Z.bits_inj'. intros i Hi.
  rewrite !Z.lor_spec, !Z.shiftl_spec by lia.
  assert (T : forall s j,
             0 <= s ->
             Z.testbit (Z.shiftr a s mod 2 ^ 8) j
             = (0 <=? j) && (j <? 8) && Z.testbit a (j + s)).
  { intros s j Hs. destruct (Z.leb_spec 0 j).
    - rewrite Z.testbit_mod_pow2, Z.shiftr_spec by lia. reflexivity.
    - rewrite Z.testbit_neg_r by lia. reflexivity. }
  rewrite !T by lia.
  replace (i - 24 + 24) with i by lia. replace (i - 16 + 16) with i by lia.
  replace (i - 8 + 8) with i by lia. replace (i + 0) with i by lia.
  destruct (Z_lt_le_dec i 32) as [L|L].
  - destruct (Z.testbit a i); [|rewrite !andb_false_r; reflexivity].
    rewrite !andb_true_r. cmp_cases; reflexivity.
  - rewrite (testbit_above a 32) by lia. rewrite !andb_false_r. reflexivity.
Qed.

(** The IPv4 parser reads back what [string4] prints. *)
Lemma parseIPv4_string4 (a : Z) :
  0 <= a < 2 ^ 32 ->
  netip_text.parseIPv4 (netip_text.string4 a) = Ok (netip.Addr4 a).
Proof.
  intros Ha. rewrite string4_eq. unfold netip_text.parseIPv4.
  pose proof (octetOf_range a 0) as R0. pose proof (octetOf_range a 1) as R1.
  pose proof (octetOf_range a 2) as R2. pose proof (octetOf_range a 3) as R3.
  pose proof (dec_len _ R0) as L0. pose proof (dec_len _ R1) as L1.
  pose proof (dec_len _ R2) as L2. pose proof (dec_len _ R3) as L3.
  assert (D : forall x, 0 <= x < 256 ->
                        gostring.isDigit (netip_text.digit (x mod 10)) = true).
  { intros x Hx. apply digit_isDigit. Z.div_mod_to_equations; lia. }
  rewrite <- (sapp_nil_r (dec (octetOf a 3))).
  cbn [append].
  rewrite loop_dec by assumption.
  rewrite loop_dot by (try apply dec_app_nonempty; try apply D; assumption || lia).
  rewrite loop_dec by assumption.
  rewrite loop_dot by (try apply dec_app_nonempty; try apply D; assumption || lia).
  rewrite loop_dec by assumption.
  rewrite loop_dot by (try apply dec_app_nonempty; try apply D; assumption || lia).
  rewrite loop_dec by assumption.
  cbn [netip_text.parseIPv4_loop].
  change (0 + 1 + 1 + 1 <? 3) with false. cbn match.
  change (netip_text.setField
            (netip_text.setField
               (netip_text.setField
                  (netip_text.setField (0, 0, 0, 0) 0 (octetOf a 0))
                  (0 + 1) (octetOf a 1))
               (0 + 1 + 1) (octetOf a 2))
            3 (octetOf a 3))
    with (octetOf a 0, octetOf a 1, octetOf a 2, octetOf a 3).
  rewrite AddrFrom4_octets by assumption. reflexivity.
Qed.

Lemma addrKindOf_digits (d rest : string) :
  allBytes gostring.isDigit d = true ->
  netip_text.addrKindOf (d ++ String "." rest) = netip_text.kind4.
Proof.
  induction d as [|c d IH]; cbn [append allBytes netip_text.addrKindOf].
  - reflexivity.
  - intros E. apply andb_true_iff in E. destruct E as [E1 E2].
    destruct (Ascii.eqb_spec c "."); [subst; discriminate|].
    destruct (Ascii.eqb_spec c ":"); [subst; discriminate|].
    destruct (Ascii.eqb_spec c "%"); [subst; discriminate|].
    apply IH. exact E2.
Qed.

Lemma string4_plain (a : Z) :
  allBytes plain (netip_text.string4 a) = true.
Proof.
  rewrite string4_eq.
  assert (D : forall i, allBytes plain (dec (octetOf a i)) = true).
  { intros i. apply (allBytes_impl gostring.isDigit).
    - intros c H. unfold plain. rewrite H. reflexivity.
    - apply dec_digits, octetOf_range. }
  rewrite !allBytes_app, !D. reflexivity.
Qed.

Lemma string4_notSlash (a : Z) :
  allBytes (notByte "/") (netip_text.string4 a) = true.
Proof.
  rewrite string4_eq.
  assert (D : forall i, allBytes (notByte "/") (dec (octetOf a i)) = true).
  { intros i. apply (allBytes_impl gostring.isDigit).
    - intros c H. apply isDigit_notByte; [reflexivity | exact H].
    - apply dec_digits, octetOf_range. }
  rewrite !allBytes_app, !D. reflexivity.
Qed.

Lemma string4_len (a : Z) : 7 <= gostring.len (netip_text.string4 a) <= 15.
Proof.
  rewrite string4_eq, !len_app.
  pose proof (dec_len _ (octetOf_range a 0)).
  pose proof (dec_len _ (octetOf_range a 1)).
  pose proof (dec_len _ (octetOf_range a 2)).
  pose proof (dec_len _ (octetOf_range a 3)).
  change (gostring.len ".") with 1. lia.
Qed.

Lemma string4_head (a : Z) :
  exists c rest,
    netip_text.string4 a = String c rest /\ gostring.isDigit c = true.
Proof.
  rewrite string4_eq.
  destruct (dec_head _ (octetOf_range a 0)) as (c & r & -> & D).
  cbn [append]. eauto.
Qed.

Section Bits.

Variable parseIPv6 : string -> result (Z * string).

Lemma ParseAddr_string4 (a : Z) :
  0 <= a < 2 ^ 32 ->
  netip_text.ParseAddr parseIPv6 (netip_text.string4 a) = Ok (netip.Addr4 a).
Proof.
  intros Ha. unfold netip_text.ParseAddr.
  assert (K4 : netip_text.addrKindOf (netip_text.string4 a) = netip_text.kind4).
  { rewrite string4_eq. apply addrKindOf_digits, dec_digits, octetOf_range. }
  rewrite K4. apply parseIPv4_string4. exact Ha.
Qed.

End Bits.

(** ** The prefix length in text *)

Lemma bitsTextOK_all :
  forallb bitsTextOK (map Z.of_nat (seq 0 33)) = true.
Proof. vm_compute. reflexivity. Qed.

Lemma bitsText (b : Z) : 0 <= b <= 32 -> bitsTextOK b = true.
Proof.
  intros H. pose proof bitsTextOK_all as A.
  rewrite forallb_forall in A. apply A.
  rewrite <- (Z2Nat.id b) by lia. apply in_map. apply in_seq. lia.
Qed.

Lemma bitsText_facts (b : Z) :
  0 <= b <= 32 ->
  ((1 <? gostring.len (strconv.Itoa b))
   && ((utf8.nth_byte (strconv.Itoa b) 0 <? 49)
       || (57 <? utf8.nth_byte (strconv.Itoa b) 0))) = false
  /\ strconv.Atoi (strconv.Itoa b) = Ok b
  /\ allBytes gostring.isDigit (strconv.Itoa b) = true
  /\ 1 <= gostring.len (strconv.Itoa b) <= 2.
Proof.
  intros H. pose proof (bitsText b H) as T. unfold bitsTextOK in T. cbn zeta in T.
  repeat (apply andb_true_iff in T; destruct T as [T ?]).
  apply negb_true_iff in T.
  split; [exact T|]. split.
  - destruct (strconv.Atoi (strconv.Itoa b)) as [v|]; [|discriminate].
    f_equal. apply Z.eqb_eq. assumption.
  - split; [assumption|]. lia.
Qed.

(** ** Printing and parsing a prefix *)

Section RoundTrip.

Variable parseIPv6 : string -> result (Z * string).
Variable string6 : Z -> string -> string.

Lemma Prefix_String_eq (p : netip.Prefix) (a : Z) :
  netip.ip p = netip.Addr4 a -> 0 <= netip.bits p ->
  netip_text.Prefix_String string6 p
  = (netip_text.string4 a ++ String "/" (strconv.Itoa (netip.bits p)))%string.
Proof.
  intros Ea Hb. unfold netip_text.Prefix_String, netip.IsValid.
  destruct (Z.leb_spec 0 (netip.bits p)); [|lia]. cbn [negb].
  unfold netip_text.Addr_String. rewrite Ea. reflexivity.
Qed.

(** [ParsePrefix] reads back what [Prefix.String] prints. *)
Lemma ParsePrefix_String (p : netip.Prefix) (a : Z) :
  netip.ip p = netip.Addr4 a -> 0 <= a < 2 ^ 32 -> 0 <= netip.bits p <= 32 ->
  netip_text.ParsePrefix parseIPv6 (netip_text.Prefix_String string6 p) = Ok p.
Proof.
  intros Ea Ra Rb. rewrite (Prefix_String_eq p a Ea) by lia.
  destruct (bitsText_facts (netip.bits p) Rb) as (G & At & Dg & Ln).
  unfold netip_text.ParsePrefix.
  rewrite LastIndexByte_last
    by (apply (allBytes_impl gostring.isDigit); [|exact Dg];
        intros c Hc; apply isDigit_notByte; [reflexivity | exact Hc]).
  pose proof (len_nonneg (netip_text.string4 a)) as L0.
  destruct (Z.ltb_spec (gostring.len (netip_text.string4 a)) 0); [lia|].
  rewrite slice_prefix, ParseAddr_string4 by exact Ra.
  cbn [netip.Is6 andb].
  replace (netip_text.string4 a ++ String "/" (strconv.Itoa (netip.bits p)))%string
    with ((netip_text.string4 a ++ "/") ++ strconv.Itoa (netip.bits p))%string
    by (rewrite sapp_assoc; reflexivity).
  replace (gostring.len (netip_text.string4 a) + 1)
    with (gostring.len (netip_text.string4 a ++ "/"))
    by (rewrite len_app; reflexivity).
  rewrite sliceFrom_suffix, G, At.
  destruct (Z.ltb_spec (netip.bits p) 0); [lia|].
  destruct (Z.ltb_spec 32 (netip.bits p)); [lia|]. cbn [orb].
  unfold netip.PrefixFrom. cbn [netip.BitLen netip.withoutZone].
  destruct (Z.leb_spec 0 (netip.bits p)); [|lia].
  destruct (Z.leb_spec (netip.bits p) 32); [|lia]. cbn [andb].
  destruct p as [ip bits]. cbn [netip.ip netip.bits] in *. subst ip.
  reflexivity.
Qed.

Lemma Prefix_String_plain (p : netip.Prefix) (a : Z) :
  netip.ip p = netip.Addr4 a -> 0 <= netip.bits p <= 32 ->
  allBytes plain (netip_text.Prefix_String string6 p) = true
  /\ gostring.len (netip_text.Prefix_String string6 p) <= 18
  /\ (exists c rest,
         netip_text.Prefix_String string6 p = String c rest
         /\ gostring.isDigit c = true)
  /\ (exists c rest,
         gostring.rev (netip_text.Prefix_String string6 p) = String c rest
         /\ gostring.isDigit c = true).
Proof.
  clear parseIPv6.
  intros Ea Rb. rewrite (Prefix_String_eq p a Ea) by lia.
  destruct (bitsText_facts (netip.bits p) Rb) as (_ & _ & Dg & Ln).
  split; [|split; [|split]].
  - rewrite allBytes_app, string4_plain. cbn [allBytes andb].
    change (plain "/") with true. cbn [andb].
    apply (allBytes_impl gostring.isDigit); [|exact Dg].
    intros c H. unfold plain. rewrite H. reflexivity.
  - rewrite len_app, len_String. pose proof (string4_len a). lia.
  - destruct (string4_head a) as (c & r & -> & D). cbn [append]. eauto.
  - rewrite srev_app, srev_String.
    destruct (gostring.rev (strconv.Itoa (netip.bits p))) as [|c r] eqn:E.
    + apply (f_equal gostring.len) in E. rewrite slen_rev in E.
      change (gostring.len EmptyString) with 0 in E. lia.
    + cbn [append]. exists c. eexists. split; [reflexivity|].
      pose proof Dg as A. rewrite <- allBytes_rev in A.
      rewrite E in A. cbn [allBytes] in A. apply andb_true_iff in A. tauto.
Qed.

End RoundTrip.

(** ** Trimming and scanning printed prefixes *)

Lemma isDigit_ascii (c : ascii) :
  gostring.isDigit c = true ->
  (utf8.RuneSelf <=? gostring.byte c) = false
  /\ strings.asciiSpace (gostring.byte c) = false
  /\ Ascii.eqb c "010" = false /\ Ascii.eqb c "013" = false.
Proof.
  intros H. unfold gostring.isDigit in H. apply andb_true_iff in H.
  destruct H as [H1 H2]. apply Z.leb_le in H1, H2.
  unfold utf8.RuneSelf, strings.asciiSpace.
  repeat split.
  - apply Z.leb_gt. lia.
  - destruct (Z.leb_spec 9 (gostring.byte c)), (Z.leb_spec (gostring.byte c) 13),
      (Z.eqb_spec (gostring.byte c) 32); cbn [andb orb]; lia || reflexivity.
  - destruct (Ascii.eqb_spec c "010"); [subst; cbn in *; lia | reflexivity].
  - destruct (Ascii.eqb_spec c "013"); [subst; cbn in *; lia | reflexivity].
Qed.

(** Text that starts and ends with a digit is left alone. *)
Lemma TrimSpace_digits (s : string) (c0 c1 : ascii) (r0 r1 : string) :
  s = String c0 r0 -> gostring.isDigit c0 = true ->
  gostring.rev s = String c1 r1 -> gostring.isDigit c1 = true ->
  strings.TrimSpace s = s.
Proof.
  intros E0 D0 E1 D1.
  destruct (isDigit_ascii c0 D0) as (A0 & S0 & _).
  destruct (isDigit_ascii c1 D1) as (A1 & S1 & _).
  rewrite E0 at 1. cbn [strings.TrimSpace]. rewrite A0, S0, <- E0, E1.
  cbn [strings.trimTail]. rewrite A1, S1, <- E1. apply srev_involutive.
Qed.

Lemma dropCR_digit (s : string) (c1 : ascii) (r1 : string) :
  gostring.rev s = String c1 r1 -> gostring.isDigit c1 = true ->
  bufio.dropCR s = s.
Proof.
  intros E1 D1. unfold bufio.dropCR. rewrite E1.
  destruct (isDigit_ascii c1 D1) as (_ & _ & _ & ->). reflexivity.
Qed.

Lemma plain_notNewline (s : string) :
  allBytes plain s = true -> allBytes (notByte "010") s = true.
Proof.
  apply allBytes_impl. intros c H. unfold plain in H. unfold notByte.
  apply negb_true_iff. destruct (Ascii.eqb_spec c "010"); [|reflexivity].
  subst c. discriminate H.
Qed.

Lemma scan_line (line rest : string) :
  forall cur,
    allBytes (notByte "010") line = true ->
    gostring.len cur + gostring.len line < bufio.MaxScanTokenSize ->
    bufio.scan (line ++ String "010" rest) cur
    = (bufio.dropCR (gostring.rev (gostring.rev_onto line cur))
         :: fst (bufio.scan rest EmptyString),
       snd (bufio.scan rest EmptyString)).
Proof.
  induction line as [|c line IH]; intros cur Hn Hl;
    cbn [append bufio.scan gostring.rev_onto].
  - change (gostring.len EmptyString) with 0 in Hl.
    destruct (Z.leb_spec bufio.MaxScanTokenSize (gostring.len cur)); [lia|].
    rewrite Ascii.eqb_refl. destruct (bufio.scan rest EmptyString). reflexivity.
  - cbn [allBytes] in Hn. apply andb_true_iff in Hn. destruct Hn as [Hc Hn].
    rewrite len_String in Hl. pose proof (len_nonneg line).
    destruct (Z.leb_spec bufio.MaxScanTokenSize (gostring.len cur)); [lia|].
    unfold notByte in Hc. apply negb_true_iff in Hc. rewrite Hc.
    apply IH; [exact Hn|]. rewrite len_String. lia.
Qed.

Lemma Scan_joinLines (lines : list string) :
  Forall scannable lines -> bufio.Scan (joinLines lines) = (lines, true).
Proof.
  unfold bufio.Scan.
  induction 1 as [|l rest (Hn & Hl & Hd) _ IH]; cbn [joinLines]; [reflexivity|].
  rewrite scan_line
    by (assumption || (change (gostring.len EmptyString) with 0; lia)).
  rewrite IH. cbn [fst snd gostring.rev_onto].
  fold (gostring.rev l). rewrite srev_involutive, Hd. reflexivity.
Qed.

Section File.

Variable parseIPv6 : string -> result (Z * string).
Variable string6 : Z -> string -> string.

Lemma writeSubnetsToFile_lines (prefixes : list netip.Prefix) :
  writeSubnetsToFile string6 prefixes
  = joinLines (map (netip_text.Prefix_String string6) prefixes).
Proof.
  unfold writeSubnetsToFile.
  assert (G : forall acc,
             fold_left
               (fun file prefix =>
                  (file ++ netip_text.Prefix_String string6 prefix
                   ++ String "010" EmptyString)%string) prefixes acc
             = (acc ++ joinLines
                         (map (netip_text.Prefix_String string6) prefixes))%string).
  { induction prefixes as [|p rest IH]; intros acc; cbn [fold_left map joinLines].
    - rewrite sapp_nil_r. reflexivity.
    - rewrite IH, !sapp_assoc. reflexivity. }
  rewrite G. reflexivity.
Qed.

Lemma canonical_line (p : netip.Prefix) :
  canonical p ->
  scannable (netip_text.Prefix_String string6 p)
  /\ strings.TrimSpace (netip_text.Prefix_String string6 p)
     = netip_text.Prefix_String string6 p
  /\ netip_text.Prefix_String string6 p <> EmptyString
  /\ netip_text.ParsePrefix parseIPv6 (netip_text.Prefix_String string6 p)
     = Ok p.
Proof.
  intros (a & Ea & Ra & Rb & _).
  destruct (Prefix_String_plain string6 p a Ea Rb)
    as (Pl & Ln & (c0 & r0 & E0 & D0) & (c1 & r1 & E1 & D1)).
  split; [|split; [|split]].
  - split; [apply plain_notNewline; exact Pl|].
    split; [unfold bufio.MaxScanTokenSize; lia|].
    apply (dropCR_digit _ c1 r1); assumption.
  - apply (TrimSpace_digits _ c0 c1 r0 r1); assumption.
  - rewrite E0. discriminate.
  - apply (ParsePrefix_String parseIPv6 string6 p a); assumption.
Qed.

Lemma textsOfLines_canonical (out : list netip.Prefix) :
  Forall canonical out ->
  textsOfLines (map (netip_text.Prefix_String string6) out)
  = map (netip_text.Prefix_String string6) out.
Proof.
  unfold textsOfLines.
  induction 1 as [|p out Cp _ IH]; cbn [map filter]; [reflexivity|].
  destruct (canonical_line p Cp) as (_ & T & N & _).
  rewrite T.
  destruct (String.eqb_spec (netip_text.Prefix_String string6 p) EmptyString);
    [contradiction|].
  cbn [negb]. rewrite IH. reflexivity.
Qed.

Lemma ranges_canonical (out : list netip.Prefix) :
  Forall canonical out ->
  flat_map (rangesOf parseIPv6) (map (netip_text.Prefix_String string6) out)
  = map toRange out
  /\ flat_map (diagOf parseIPv6) (map (netip_text.Prefix_String string6) out)
     = [].
Proof.
  induction 1 as [|p out Cp _ [IH1 IH2]]; cbn [map flat_map];
    [split; reflexivity|].
  destruct (canonical_line p Cp) as (_ & _ & _ & E).
  destruct Cp as (a & Ea & _).
  rewrite IH1, IH2.
  unfold rangesOf, diagOf, v4PrefixOf. rewrite E, Ea. cbn [netip.Is4].
  split; reflexivity.
Qed.

(** Reading back the file written from a normalized set gives the set. *)
Lemma reread_normalized (rs : list netipx.IPRange) (out : list netip.Prefix) :
  Separated rs -> Decomposes rs out ->
  netipx.Prefixes (netipx.mkIPSet rs) = Some out ->
  downloadReadySubnets parseIPv6 (Ok (writeSubnetsToFile string6 out))
  = (Some out, None, []).
Proof.
  intros S D P.
  pose proof (Decomposes_canonical rs S out D) as C.
  rewrite downloadReadySubnets_normalize, writeSubnetsToFile_lines.
  rewrite Scan_joinLines.
  - cbn [fst]. rewrite (textsOfLines_canonical out C), normalize_unfold.
    destruct (ranges_canonical out C) as [-> ->].
    unfold netipx.IPSet_of, netipx.normalize. cbn [netipx.in_ netipx.errs].
    rewrite (Decomposes_remerge rs out S D). cbn [netipx.in_ fst].
    rewrite P. reflexivity.
  - apply Forall_map. eapply Forall_impl; [|exact C].
    intros p Cp. apply (canonical_line p Cp).
Qed.

(** C8. Idempotence under the textual round trip: the prefix list that
    [processSubnets] (or [downloadReadySubnets]) returns, written out by
    [writeSubnetsToFile] one ["a.b.c.d/n"] line each and read back by
    [downloadReadySubnets], comes back as the identical prefix list,
    with no error and nothing logged. *)
Theorem roundtrip_idempotent
        (subnets : list subnetAS) (targetAS : string) (data : string) :
  (exists out log,
      processSubnets parseIPv6 subnets targetAS = (Some out, None, log)
      /\ downloadReadySubnets parseIPv6 (Ok (writeSubnetsToFile string6 out))
         = (Some out, None, []))
  /\ (exists out log,
         downloadReadySubnets parseIPv6 (Ok data) = (Some out, None, log)
         /\ downloadReadySubnets parseIPv6
              (Ok (writeSubnetsToFile string6 out))
            = (Some out, None, [])).
Proof.
  split.
  - rewrite processSubnets_normalize.
    destruct (normalize_spec parseIPv6 (textsOfAS subnets targetAS))
      as (rs & out & E & P & S & D & _).
    exists out. eexists. split; [exact E|].
    apply (reread_normalized rs); assumption.
  - rewrite (downloadReadySubnets_normalize parseIPv6 data).
    destruct (normalize_spec parseIPv6 (textsOfLines (fst (bufio.Scan data))))
      as (rs & out & E & P & S & D & _).
    exists out. eexists. split; [exact E|].
    apply (reread_normalized rs); assumption.
Qed.

End File.

Section Diagnostics.

Variable parseIPv6 : string -> result (Z * string).

Lemma diag_rejected (texts : list string) :
  flat_map (diagOf parseIPv6) texts
  = map invalidMsg (filter (rejected parseIPv6) texts).
Proof.
  induction texts as [|t rest IH]; cbn [flat_map filter]; [reflexivity|].
  rewrite IH. unfold diagOf, rejected.
  destruct (netip_text.ParsePrefix parseIPv6 t); reflexivity.
Qed.

Lemma diag_accepted (texts : list string) :
  flat_map (diagOf parseIPv6) (filter (accepted parseIPv6) texts) = [].
Proof.
  induction texts as [|t rest IH]; cbn [flat_map filter]; [reflexivity|].
  unfold accepted at 1, rejected.
  destruct (netip_text.ParsePrefix parseIPv6 t) eqn:E; cbn [negb flat_map].
  - rewrite IH. unfold diagOf. rewrite E. reflexivity.
  - exact IH.
Qed.

Lemma ranges_accepted (texts : list string) :
  flat_map (rangesOf parseIPv6) (filter (accepted parseIPv6) texts)
  = flat_map (rangesOf parseIPv6) texts.
Proof.
  induction texts as [|t rest IH]; cbn [flat_map filter]; [reflexivity|].
  unfold accepted at 1, rejected.
  destruct (netip_text.ParsePrefix parseIPv6 t) eqn:E; cbn [negb flat_map].
  - rewrite IH. reflexivity.
  - rewrite IH. unfold rangesOf, v4PrefixOf. rewrite E. reflexivity.
Qed.

Lemma normalize_accepted (texts : list string) :
  exists out,
    normalize parseIPv6 texts
    = (Some out, None, map invalidMsg (filter (rejected parseIPv6) texts))
    /\ normalize parseIPv6 (filter (accepted parseIPv6) texts) = (Some out, None, []).
Proof.
  destruct (normalize_spec parseIPv6 texts) as (rs & out & E & _).
  exists out. split.
  - rewrite E, diag_rejected. reflexivity.
  - rewrite normalize_unfold in *.
    rewrite ranges_accepted, diag_accepted.
    pose proof (f_equal (fun r => fst (fst r)) E) as E1.
    cbn beta in E1. cbn [fst] in E1. rewrite E1. reflexivity.
Qed.

Lemma textsOfAS_accepted (subnets : list subnetAS) (targetAS : string) :
  textsOfAS (filter (fun item => accepted parseIPv6 (subnet item)) subnets) targetAS
  = filter (accepted parseIPv6) (textsOfAS subnets targetAS).
Proof.
  unfold textsOfAS.
  induction subnets as [|item rest IH]; cbn [filter map]; [reflexivity|].
  destruct (accepted parseIPv6 (subnet item)) eqn:A,
           (String.eqb (as_ item) targetAS) eqn:B;
    cbn [filter map]; rewrite ?A, ?B; cbn [filter map]; rewrite ?A, ?IH;
    reflexivity.
Qed.

(** C5, amended. A bare IPv4 address, with no ["/n"] suffix, is not
    (accepted parseIPv6) as a /32 prefix: [netip.ParsePrefix] rejects it for its
    missing slash, and [processSubnets] logs it as invalid and returns
    no prefix for it. *)
Theorem bare_address_rejected
        (s : string) (ip : netip.Addr) (targetAS : string) :
  netip_text.parseIPv4 s = Ok ip ->
  netip_text.ParsePrefix parseIPv6 s = Err "no '/'"
  /\ processSubnets parseIPv6 [mkSubnetAS s targetAS] targetAS
     = (Some [], None, [invalidMsg s]).
Proof.
  intros E.
  assert (P : netip_text.ParsePrefix parseIPv6 s = Err "no '/'").
  { apply ParsePrefix_noSlash.
    unfold netip_text.parseIPv4 in E.
    apply (parseIPv4_loop_noSlash _ _ _ _ _ _ _ _ E). }
  split; [exact P|].
  rewrite processSubnets_normalize, normalize_unfold.
  unfold textsOfAS. cbn [filter as_]. rewrite String.eqb_refl.
  cbn [map subnet flat_map].
  unfold rangesOf, diagOf, v4PrefixOf. rewrite P. reflexivity.
Qed.

End Diagnostics.

(** ** Counterexamples to the claims as first stated *)

Open Scope string_scope.

(** C3 as stated fails: the two neighbours [1.1.1.1/32] and [1.1.1.2/32]
    of a returned list touch. *)
Lemma output_gap_counterexample :
  ~ (forall parseIPv6 subnets targetAS out,
        fst (fst (processSubnets parseIPv6 subnets targetAS)) = Some out ->
        Sorted gapBetween out).
Proof.
  intros H.
  specialize (H rejectIPv6
                [mkSubnetAS "1.1.1.1/32" "AS1"; mkSubnetAS "1.1.1.2/32" "AS1"]%list
                "AS1"
                [prefix4 1 1 1 1 32; prefix4 1 1 1 2 32]%list
                ltac:(vm_compute; reflexivity)).
  inversion H as [|? ? _ Hd]; subst.
  inversion Hd as [|? ? G]; subst.
  vm_compute in G. discriminate G.
Qed.

(** C4 as stated fails: the diagnostics cannot be read off what the call
    returns; with and without a malformed entry the returned values are
    the same. *)
Lemma diagnostics_returned_counterexample :
  ~ exists report : option (list netip.Prefix) * option string -> Log,
      forall parseIPv6 subnets targetAS,
        report (fst (processSubnets parseIPv6 subnets targetAS))
        = flat_map (diagOf parseIPv6) (textsOfAS subnets targetAS).
Proof.
  intros [report H].
  pose proof (H rejectIPv6
                [mkSubnetAS "not-an-ip" "AS1"; mkSubnetAS "10.0.0.0/24" "AS1"]%list
                "AS1") as H1.
  pose proof (H rejectIPv6 [mkSubnetAS "10.0.0.0/24" "AS1"]%list "AS1") as H2.
  vm_compute in H1, H2. rewrite H1 in H2. discriminate H2.
Qed.

(** C5 as stated fails: the bare address ["1.2.3.4"] is rejected. *)
Lemma bare_address_counterexample :
  ~ (forall parseIPv6 s a,
        netip_text.parseIPv4 s = Ok (netip.Addr4 a) ->
        netip_text.ParsePrefix parseIPv6 s
        = Ok (netip.mkPrefix (netip.Addr4 a) 32)).
Proof.
  intros H.
  specialize (H rejectIPv6 "1.2.3.4" (ip4 1 2 3 4) ltac:(vm_compute; reflexivity)).
  vm_compute in H. discriminate H.
Qed.

(** ** The scenarios of the spec, evaluated *)

(** Scenario A: two adjacent /24s come out as one /23. *)
Example scenario_A :
  processSubnets rejectIPv6
    [mkSubnetAS "10.0.0.0/24" "AS1"; mkSubnetAS "10.0.1.0/24" "AS1"]%list "AS1"
  = (Some [prefix4 10 0 0 0 23]%list, None, []%list).
Proof. vm_compute. reflexivity. Qed.

(** Scenario B: a prefix contained in another one disappears. *)
Example scenario_B :
  processSubnets rejectIPv6
    [mkSubnetAS "192.168.1.0/24" "AS1"; mkSubnetAS "192.168.1.128/25" "AS1"]%list
    "AS1"
  = (Some [prefix4 192 168 1 0 24]%list, None, []%list).
Proof. vm_compute. reflexivity. Qed.

(** Scenario C: [1.1.1.1 .. 1.1.1.2] is two /32s. *)
Example scenario_C :
  processSubnets rejectIPv6
    [mkSubnetAS "1.1.1.1/32" "AS1"; mkSubnetAS "1.1.1.2/32" "AS1"]%list "AS1"
  = (Some [prefix4 1 1 1 1 32; prefix4 1 1 1 2 32]%list, None, []%list).
Proof. vm_compute. reflexivity. Qed.

(** Scenario D: a malformed line among valid ones is logged and skipped;
    here read by [downloadReadySubnets], with blank space around lines. *)
Example scenario_D :
  downloadReadySubnets rejectIPv6
    (Ok (" 10.0.0.0/24" ++ String "010" "not-an-ip"
         ++ String "013" (String "010" (String "010" "10.0.1.7/24  "))))
  = (Some [prefix4 10 0 0 0 23]%list, None, ["Invalid subnet: not-an-ip"]%list).
Proof. vm_compute. reflexivity. Qed.

(** Scenario E: nothing in, nothing out. *)
Example scenario_E :
  processSubnets rejectIPv6 []%list "AS1" = (Some []%list, None, []%list)
  /\ downloadReadySubnets rejectIPv6 (Ok EmptyString)
     = (Some []%list, None, []%list).
Proof. split; vm_compute; reflexivity. Qed.

(** The top of the address space: the last two addresses merge into the
    last /31, and the whole space is [0.0.0.0/0]. *)
Example top_of_address_space :
  processSubnets rejectIPv6
    [mkSubnetAS "255.255.255.255/32" "AS1";
     mkSubnetAS "255.255.255.254/32" "AS1"]%list
    "AS1"
  = (Some [prefix4 255 255 255 254 31]%list, None, []%list)
  /\ processSubnets rejectIPv6
       [mkSubnetAS "128.0.0.0/1" "AS1"; mkSubnetAS "0.0.0.0/1" "AS1"]%list "AS1"
     = (Some [prefix4 0 0 0 0 0]%list, None, []%list).
Proof. split; vm_compute; reflexivity. Qed.

Open Scope string_scope.

(** ** The theorems at concrete inputs *)

(** C2 at the range [0.0.0.3 .. 255.255.255.255], which ends at the top
    of the address space. *)
Lemma decomposition_is_greedy_witness :
  0 <= 3 /\ 3 <= 2 ^ 32 - 1 /\ 2 ^ 32 - 1 <= 2 ^ 32 - 1
  /\ exists l,
      netipx.AppendPrefixes (netipx.mkRange 3 (2 ^ 32 - 1)) [] = Some l
      /\ Spec.Greedy 3 (2 ^ 32 - 1) l
      /\ Spec.rangeToPrefixes (S (List.length l)) 3 (2 ^ 32 - 1) = Some l.
Proof.
  split; [lia|]. split; [lia|]. split; [lia|].
  apply (proj1 (decomposition_is_greedy 3 (2 ^ 32 - 1)
                  ltac:(lia) ltac:(lia) ltac:(lia))).
Defined.

(** C5 at the bare address ["1.2.3.4"]. *)
Lemma bare_address_rejected_witness :
  netip_text.parseIPv4 "1.2.3.4" = Ok (netip.Addr4 (ip4 1 2 3 4))
  /\ netip_text.ParsePrefix rejectIPv6 "1.2.3.4" = Err "no '/'"
  /\ processSubnets rejectIPv6 [mkSubnetAS "1.2.3.4" "AS13335"]%list "AS13335"
     = (Some []%list, None, [invalidMsg "1.2.3.4"]%list).
Proof.
  split; [vm_compute; reflexivity|].
  apply (bare_address_rejected rejectIPv6 "1.2.3.4"
           (netip.Addr4 (ip4 1 2 3 4)) "AS13335").
  vm_compute. reflexivity.
Defined.

(** C7 at two entries in either order. *)
Lemma order_invariant_witness :
  Permutation [mkSubnetAS "10.0.1.0/24" "AS1"; mkSubnetAS "10.0.0.0/24" "AS1"]%list
              [mkSubnetAS "10.0.0.0/24" "AS1"; mkSubnetAS "10.0.1.0/24" "AS1"]%list
  /\ fst (processSubnets rejectIPv6
            [mkSubnetAS "10.0.1.0/24" "AS1"; mkSubnetAS "10.0.0.0/24" "AS1"]%list
            "AS1")
     = fst (processSubnets rejectIPv6
              [mkSubnetAS "10.0.0.0/24" "AS1"; mkSubnetAS "10.0.1.0/24" "AS1"]%list
              "AS1").
Proof.
  split; [apply perm_swap|].
  apply (proj1 (order_invariant rejectIPv6 _ _ "AS1" EmptyString EmptyString
                  (perm_swap _ _ _) (Permutation_refl _))).
Defined.

(** C9 at an entry whose AS differs from the target in letter case. *)
Lemma as_filter_exact_witness :
  as_ (mkSubnetAS "10.0.0.0/24" "as1") <> "AS1"
  /\ fst (processSubnets rejectIPv6
            ([mkSubnetAS "192.0.2.0/24" "AS1"]
               ++ mkSubnetAS "10.0.0.0/24" "as1" :: [])%list "AS1")
     = fst (processSubnets rejectIPv6
              ([mkSubnetAS "192.0.2.0/24" "AS1"] ++ [])%list "AS1").
Proof.
  split; [discriminate|].
  apply (proj1 (as_filter_exact rejectIPv6 []%list "AS1")).
  discriminate.
Defined.

(** C10 at a malformed subnet text under another AS. *)
Lemma as_filter_before_parse_witness :
  as_ (mkSubnetAS "not-an-ip" "AS2") <> "AS1"
  /\ processSubnets_body rejectIPv6 "AS1" (netipx.empty, []%list)
                         (mkSubnetAS "not-an-ip" "AS2")
     = (netipx.empty, []%list).
Proof.
  split; [discriminate|].
  apply (proj1 (as_filter_before_parse rejectIPv6 "AS1"
                  (mkSubnetAS "not-an-ip" "AS2") (netipx.empty, []%list)
                  []%list []%list ltac:(discriminate))).
Defined.

(* ================================================================= *)
(** * Further properties *)

Close Scope string_scope.

(** ** Merged ranges are determined by the addresses they cover *)

Lemma Separated_above (rs : list netipx.IPRange) :
  forall r,
    Separated (r :: rs) ->
    Forall (fun r' => netipx.to r + 1 < netipx.from r') rs.
Proof.
  induction rs as [|r' rs IH]; intros r S; [constructor|].
  destruct (Separated_inv r (r' :: rs) S) as (_ & S' & Hgap).
  specialize (Hgap r' rs eq_refl).
  destruct (Separated_inv r' rs S') as ((_ & W & _) & _ & _).
  constructor; [exact Hgap|].
  apply (Forall_impl _ (P := fun q => netipx.to r' + 1 < netipx.from q));
    [intros q Hq; lia | apply IH; exact S'].
Qed.

Lemma Separated_Covered_above (r : netipx.IPRange) (rs : list netipx.IPRange)
      (x : Z) :
  Separated (r :: rs) -> Covered rs x -> netipx.to r + 1 < x.
Proof.
  intros S (r' & Hin & Hx).
  pose proof (proj1 (Forall_forall _ _) (Separated_above rs r S) r' Hin).
  unfold InRange in Hx. cbn beta in *. lia.
Qed.

Lemma Separated_pairwise (rs : list netipx.IPRange) :
  Separated rs ->
  forall r r', In r rs -> In r' rs ->
    r = r' \/ netipx.to r + 1 < netipx.from r'
    \/ netipx.to r' + 1 < netipx.from r.
Proof.
  induction rs as [|r0 rs IH]; intros S r r' Hr Hr'; [destruct Hr|].
  destruct (Separated_inv r0 rs S) as (_ & S' & _).
  pose proof (proj1 (Forall_forall _ _) (Separated_above rs r0 S)) as A.
  cbn beta in A.
  destruct Hr as [<-|Hr], Hr' as [<-|Hr'].
  - left. reflexivity.
  - right. left. apply A. exact Hr'.
  - right. right. apply A. exact Hr.
  - apply IH; assumption.
Qed.

Lemma Separated_unique (rs1 : list netipx.IPRange) :
  forall rs2,
    Separated rs1 -> Separated rs2 ->
    (forall x, Covered rs1 x <-> Covered rs2 x) ->
    rs1 = rs2.
Proof.
  induction rs1 as [|r1 t1 IH]; intros [|r2 t2] S1 S2 C.
  - reflexivity.
  - destruct (Separated_inv r2 t2 S2) as ((_ & W & _) & _).
    exfalso. apply (Covered_nil (netipx.from r2)), C, Covered_cons. left.
    unfold InRange. lia.
  - destruct (Separated_inv r1 t1 S1) as ((_ & W & _) & _).
    exfalso. apply (Covered_nil (netipx.from r1)), C, Covered_cons. left.
    unfold InRange. lia.
  - destruct (Separated_inv r1 t1 S1) as ((W10 & W11 & W12) & S1' & _).
    destruct (Separated_inv r2 t2 S2) as ((W20 & W21 & W22) & S2' & _).
    pose proof (Separated_Covered_above r1 t1) as A1.
    pose proof (Separated_Covered_above r2 t2) as A2.
    assert (In1 : forall x, InRange r1 x -> InRange r2 x \/ Covered t2 x).
    { intros x Hx. apply Covered_cons, C, Covered_cons. left. exact Hx. }
    assert (In2 : forall x, InRange r2 x -> InRange r1 x \/ Covered t1 x).
    { intros x Hx. apply Covered_cons, C, Covered_cons. left. exact Hx. }
    assert (Ef : netipx.from r1 = netipx.from r2).
    { destruct (In1 (netipx.from r1)) as [H1|H1]; [unfold InRange; lia| |];
        destruct (In2 (netipx.from r2)) as [H2|H2]; try (unfold InRange; lia);
        try (apply (A1 _ S1) in H2); try (apply (A2 _ S2) in H1);
        unfold InRange in *; lia. }
    assert (Et : netipx.to r1 = netipx.to r2).
    { destruct (Z.lt_trichotomy (netipx.to r1) (netipx.to r2)) as [L|[E|L]];
        [|exact E|]; exfalso.
      - destruct (In2 (netipx.to r1 + 1)) as [H|H];
          [unfold InRange; lia | unfold InRange in H; lia |].
        apply (A1 _ S1) in H. lia.
      - destruct (In1 (netipx.to r2 + 1)) as [H|H];
          [unfold InRange; lia | unfold InRange in H; lia |].
        apply (A2 _ S2) in H. lia. }
    assert (E : r1 = r2).
    { destruct r1, r2. cbn [netipx.from netipx.to] in *. congruence. }
    subst r2. f_equal. apply IH; [assumption..|].
    intros x. split; intros H.
    + pose proof (A1 _ S1 H).
      assert (Hc : Covered (r1 :: t2) x)
        by (apply C, Covered_cons; right; exact H).
      apply Covered_cons in Hc. destruct Hc as [Hc|Hc]; [|exact Hc].
      unfold InRange in Hc. lia.
    + pose proof (A2 _ S2 H).
      assert (Hc : Covered (r1 :: t1) x)
        by (apply C, Covered_cons; right; exact H).
      apply Covered_cons in Hc. destruct Hc as [Hc|Hc]; [|exact Hc].
      unfold InRange in Hc. lia.
Qed.

Lemma wf_Covered_range (rs : list netipx.IPRange) (x : Z) :
  Forall wfRange rs -> Covered rs x -> 0 <= x < 2 ^ 32.
Proof.
  intros F (r & Hin & Hx).
  pose proof (proj1 (Forall_forall _ _) F r Hin) as (W0 & W1 & W2).
  unfold InRange in Hx. lia.
Qed.

Section Canonical.

Variable parseIPv6 : string -> result (Z * string).

(** The merged ranges behind [normalize], in terms of [InInput]. *)
Lemma normalize_ranges (texts : list string) :
  exists rs ps,
    normalize parseIPv6 texts
    = (Some ps, None, flat_map (diagOf parseIPv6) texts)
    /\ netipx.Prefixes (netipx.mkIPSet rs) = Some ps
    /\ Separated rs /\ Decomposes rs ps
    /\ forall x, Covered rs x <-> InInput parseIPv6 texts x.
Proof.
  destruct (normalize_spec parseIPv6 texts) as (rs & ps & E & P & S & D & C).
  exists rs, ps. do 4 (split; [assumption|]).
  intros x. rewrite InInput_Covered, <- C. split; [|tauto].
  intros H. split; [|exact H].
  apply (wf_Covered_range rs); [apply Separated_wf|]; assumption.
Qed.

(** Inputs that cover the same addresses give the same prefix list. *)
Lemma normalize_canonical (texts texts' : list string) :
  (forall x, InInput parseIPv6 texts x <-> InInput parseIPv6 texts' x) ->
  fst (normalize parseIPv6 texts) = fst (normalize parseIPv6 texts').
Proof.
  intros H.
  destruct (normalize_ranges texts) as (rs & ps & E & P & S & _ & C).
  destruct (normalize_ranges texts') as (rs' & ps' & E' & P' & S' & _ & C').
  assert (rs = rs').
  { apply Separated_unique; [assumption..|].
    intros x. rewrite C, C'. apply H. }
  subst rs'. rewrite E, E'. cbn [fst]. congruence.
Qed.

End Canonical.

(** ** Aligned blocks are nested or disjoint *)

Lemma block_laminar (m1 k1 m2 k2 x : Z) :
  0 <= k1 <= k2 -> m1 mod 2 ^ k1 = 0 -> m2 mod 2 ^ k2 = 0 ->
  m1 <= x < m1 + 2 ^ k1 -> m2 <= x < m2 + 2 ^ k2 ->
  m2 <= m1 /\ m1 + 2 ^ k1 <= m2 + 2 ^ k2.
Proof.
  intros Hk A1 A2 H1 H2.
  pose proof (pow2_pos k1 ltac:(lia)) as P1.
  apply mod0_divide in A1; [|lia]. apply mod0_divide in A2; [|lia].
  pose proof (pow2_divide k1 k2 Hk) as D.
  assert (D2 : (2 ^ k1 | m2)) by (eapply Z.divide_trans; eassumption).
  assert (D3 : (2 ^ k1 | m2 + 2 ^ k2)) by (apply Z.divide_add_r; assumption).
  split.
  - destruct (Z.le_gt_cases m2 m1) as [|L]; [assumption|].
    pose proof (aligned_next _ _ _ P1 A1 D2 L). lia.
  - apply aligned_next; try assumption. lia.
Qed.

Lemma validV4_block (q : netip.Prefix) :
  validV4 q ->
  exists m k,
    0 <= k <= 32 /\ 0 <= m /\ m mod 2 ^ k = 0 /\ m + 2 ^ k <= 2 ^ 32
    /\ toRange q = netipx.mkRange m (m + 2 ^ k - 1).
Proof.
  intros (a & Ea & Ra & Rb). unfold toRange. rewrite Ea.
  rewrite RangeOfPrefix_eq by assumption.
  set (k := 32 - netip.bits q).
  pose proof (pow2_pos k ltac:(unfold k; lia)) as P.
  pose proof (Z.mod_pos_bound a (2 ^ k) P) as B.
  pose proof (Z.mod_le a (2 ^ k) ltac:(lia) P) as Le.
  pose proof (RangeOfPrefix_bounds a (netip.bits q) Ra Rb) as H.
  cbn zeta in H. rewrite RangeOfPrefix_eq in H by assumption.
  cbn [netipx.from netipx.to] in H. fold k in H.
  exists (a - a mod 2 ^ k), k.
  split; [unfold k; lia|]. split; [lia|]. split; [|split; [lia|f_equal; lia]].
  rewrite Zminus_mod_idemp_r, Z.sub_diag. apply Z.mod_0_l. lia.
Qed.

Lemma canonical_validV4 (p : netip.Prefix) : canonical p -> validV4 p.
Proof. intros (a & Ea & Ra & Rb & _). exists a. auto. Qed.

Lemma validV4_Contains (q : netip.Prefix) (x : Z) :
  validV4 q -> 0 <= x < 2 ^ 32 ->
  netip_text.Contains q x = true <-> InRange (toRange q) x.
Proof.
  intros (a & Ea & Ra & Rb) Hx. apply (Contains_toRange q a); assumption.
Qed.

(** ** Every emitted block is a largest one *)

Lemma Greedy_bounds (s e : Z) (l : list netip.Prefix) :
  Spec.Greedy s e l -> 0 <= s -> e < 2 ^ 32 ->
  Forall (fun p => s <= start_ p /\ end_ p <= e) l.
Proof.
  induction 1 as [s e Hlt | s e k p rest Hle [Hfit Hmax] Ep G IH];
    intros Hs He; [constructor|].
  subst p. destruct (fits_bound s e k Hs He Hfit) as [Hk Htop].
  destruct Hfit as (_ & Hal & Hf). pose proof (pow2_pos k ltac:(lia)).
  constructor.
  - unfold start_, end_. rewrite block_toRange by lia.
    cbn [netipx.from netipx.to]. lia.
  - apply (Forall_impl _ (P := fun p => s + 2 ^ k <= start_ p /\ end_ p <= e));
      [intros p Hp; lia | apply IH; lia].
Qed.

(** An aligned block inside the range that holds the first address of an
    emitted prefix lies within that prefix. *)
Lemma Greedy_maximal (s e : Z) (l : list netip.Prefix) :
  Spec.Greedy s e l -> 0 <= s -> e < 2 ^ 32 ->
  forall p m j,
    In p l -> 0 <= j -> m mod 2 ^ j = 0 -> s <= m -> m + 2 ^ j - 1 <= e ->
    m <= start_ p <= m + 2 ^ j - 1 ->
    start_ p <= m /\ m + 2 ^ j - 1 <= end_ p.
Proof.
  induction 1 as [s e Hlt | s e k p0 rest Hle [Hfit Hmax] Ep G IH];
    intros Hs He p m j Hin Hj Hal Hsm Hme Hc; [destruct Hin|].
  destruct (fits_bound s e k Hs He Hfit) as [Hk Htop].
  pose proof Hfit as (_ & Hal0 & Hf).
  pose proof (pow2_pos k ltac:(lia)) as Pk.
  pose proof (pow2_pos j Hj) as Pj.
  assert (B0 : start_ p0 = s /\ end_ p0 = s + 2 ^ k - 1).
  { subst p0. unfold start_, end_. rewrite block_toRange by lia.
    cbn [netipx.from netipx.to]. lia. }
  assert (Fit : m = s -> j <= k).
  { intros ->. apply Hmax. repeat split; assumption. }
  destruct Hin as [<-|Hin].
  - destruct B0 as [B1 B2]. rewrite B1, B2 in *.
    assert (m = s) by lia. specialize (Fit H).
    pose proof (Z.pow_le_mono_r 2 j k ltac:(lia) Fit). lia.
  - destruct (Z.le_gt_cases (s + 2 ^ k) m) as [Hge|Hlt].
    + apply (IH ltac:(lia) He p m j); assumption.
    + exfalso.
      pose proof (proj1 (Forall_forall _ _)
                    (Greedy_bounds _ _ _ G ltac:(lia) He) p Hin) as [Lp _].
      destruct (Z.le_gt_cases j k) as [Hjk|Hkj].
      * pose proof (block_laminar m j s k m ltac:(lia) Hal Hal0
                      ltac:(lia) ltac:(lia)). lia.
      * pose proof (block_laminar s k m j m ltac:(lia) Hal0 Hal
                      ltac:(lia) ltac:(lia)) as [L _].
        assert (m = s) by lia. specialize (Fit H). lia.
Qed.

(** ** An interval inside a separated cover lies in one range *)

Lemma interval_in_range (rs : list netipx.IPRange) :
  Separated rs ->
  forall r lo hi y,
    In r rs -> lo <= y <= hi -> InRange r y ->
    (forall x, lo <= x <= hi -> Covered rs x) ->
    netipx.from r <= lo /\ hi <= netipx.to r.
Proof.
  intros S r lo hi y Hin Hy Hr Hcov.
  pose proof (Separated_pairwise rs S) as PW.
  pose proof (proj1 (Forall_forall _ _) (Separated_wf rs S)) as WF.
  pose proof (WF r Hin) as (W0 & W1 & W2).
  unfold InRange in Hr.
  split.
  - destruct (Z.le_gt_cases (netipx.from r) lo) as [|L]; [assumption|].
    exfalso.
    destruct (Hcov (netipx.from r - 1) ltac:(lia)) as (r' & Hin' & Hx).
    pose proof (WF r' Hin') as (W0' & W1' & W2').
    unfold InRange in Hx.
    destruct (PW r r' Hin Hin') as [<-|[H|H]]; lia.
  - destruct (Z.le_gt_cases hi (netipx.to r)) as [|L]; [assumption|].
    exfalso.
    destruct (Hcov (netipx.to r + 1) ltac:(lia)) as (r' & Hin' & Hx).
    pose proof (WF r' Hin') as (W0' & W1' & W2').
    unfold InRange in Hx.
    destruct (PW r r' Hin Hin') as [<-|[H|H]]; lia.
Qed.

Lemma Decomposes_In (rs : list netipx.IPRange) :
  forall ps p,
    Decomposes rs ps -> In p ps ->
    exists r l,
      In r rs /\ Spec.Greedy (netipx.from r) (netipx.to r) l /\ In p l.
Proof.
  induction rs as [|r rs IH]; intros ps p D Hin.
  - apply Decomposes_nil in D. subst. destruct Hin.
  - destruct (Decomposes_cons r rs ps D) as (l & ps' & -> & G & D').
    apply in_app_or in Hin. destruct Hin as [Hin|Hin].
    + exists r, l. split; [left; reflexivity | split; assumption].
    + destruct (IH ps' p D' Hin) as (r' & l' & Hr' & G' & Hp).
      exists r', l'. split; [right; exact Hr' | split; assumption].
Qed.

(** A valid prefix inside the covered set that meets an output prefix
    lies within it. *)
Lemma overlap_within (rs : list netipx.IPRange) (ps : list netip.Prefix)
      (p q : netip.Prefix) (y : Z) :
  Separated rs -> Decomposes rs ps -> In p ps -> validV4 q ->
  (forall x, InRange (toRange q) x -> Covered rs x) ->
  InRange (toRange p) y -> InRange (toRange q) y ->
  within q p.
Proof.
  intros S D Hp Vq Hq Yp Yq.
  destruct (Decomposes_In rs ps p D Hp) as (r & l & Hr & G & Hpl).
  pose proof (proj1 (Forall_forall _ _) (Separated_wf rs S) r Hr)
    as (W0 & W1 & W2).
  pose proof (proj1 (Forall_forall _ _)
                (Greedy_bounds _ _ _ G W0 W2) p Hpl) as [Bp1 Bp2].
  pose proof (proj1 (Forall_forall _ _)
                (Greedy_canonical _ _ _ G W0 W2) p Hpl) as Cp.
  destruct (validV4_block p (canonical_validV4 p Cp))
    as (mp & kp & Hkp & Hmp & Alp & Tp & Ep).
  destruct (validV4_block q Vq) as (m & j & Hj & Hm & Al & Tq & Eq).
  unfold within, start_, end_ in *. rewrite Ep, Eq in *.
  unfold InRange in *. cbn [netipx.from netipx.to] in *.
  pose proof (pow2_pos kp ltac:(lia)). pose proof (pow2_pos j ltac:(lia)).
  destruct (interval_in_range rs S r m (m + 2 ^ j - 1) y Hr
              ltac:(lia) ltac:(unfold InRange; lia) Hq) as [I1 I2].
  destruct (Z.le_gt_cases j kp) as [Hjk|Hkj].
  - pose proof (block_laminar m j mp kp y ltac:(lia) Al Alp
                  ltac:(lia) ltac:(lia)). lia.
  - pose proof (block_laminar mp kp m j y ltac:(lia) Alp Al
                  ltac:(lia) ltac:(lia)).
    pose proof (Greedy_maximal _ _ _ G W0 W2 p m j Hpl ltac:(lia) Al I1 I2)
      as M.
    unfold start_, end_ in M. rewrite Ep in M.
    cbn [netipx.from netipx.to] in M. lia.
Qed.

(** ** Counting *)

Lemma injection_length {A B : Type} (R : A -> B -> Prop) (l : list A) :
  forall m : list B,
    (forall a, In a l -> exists b, In b m /\ R a b) ->
    ForallOrdPairs (fun a a' => forall b, R a b -> R a' b -> False) l ->
    (List.length l <= List.length m)%nat.
Proof.
  induction l as [|a l IH]; intros m H F; [cbn; lia|].
  inversion F as [|? ? Fa Fl]; subst.
  destruct (H a (or_introl eq_refl)) as (b & Hb & Rab).
  apply in_split in Hb. destruct Hb as (m1 & m2 & ->).
  assert (L : (List.length l <= List.length (m1 ++ m2))%nat).
  { apply IH; [|exact Fl]. intros a' Ha'.
    destruct (H a' (or_intror Ha')) as (b' & Hb' & Rab').
    exists b'. split; [|exact Rab'].
    apply in_app_or in Hb'. apply in_or_app.
    destruct Hb' as [Hb'|[<-|Hb']]; [left; exact Hb' | | right; exact Hb'].
    exfalso. apply (proj1 (Forall_forall _ _) Fa a' Ha' b); assumption. }
  rewrite !length_app in *. cbn [List.length]. lia.
Qed.

Lemma apart_after (ps : list netip.Prefix) :
  forall p,
    Sorted apart (p :: ps) -> Forall canonical ps ->
    Forall (fun p' => end_ p < start_ p') ps.
Proof.
  induction ps as [|p1 ps IH]; intros p S C; [constructor|].
  inversion S as [|? ? S' Hd]; subst.
  inversion Hd as [|? ? [Hap _]]; subst.
  inversion C as [|? ? C1 Cs]; subst.
  pose proof (canonical_start_le_end p1 C1).
  constructor; [exact Hap|].
  apply (Forall_impl _ (P := fun p' => end_ p1 < start_ p'));
    [intros q Hq; lia | apply IH; assumption].
Qed.

Lemma apart_ordpairs (ps : list netip.Prefix) :
  Sorted apart ps -> Forall canonical ps ->
  ForallOrdPairs (fun p p' => end_ p < start_ p') ps.
Proof.
  induction ps as [|p ps IH]; intros S C; [constructor|].
  inversion C; subst. constructor.
  - apply apart_after; assumption.
  - apply IH; [inversion S|]; assumption.
Qed.

Lemma ForallOrdPairs_impl {A : Type} (R R' : A -> A -> Prop) (l : list A) :
  (forall a b, R a b -> R' a b) -> ForallOrdPairs R l -> ForallOrdPairs R' l.
Proof.
  intros H F. induction F as [|a l Fa _ IH]; constructor; [|exact IH].
  apply (Forall_impl _ (H a)). exact Fa.
Qed.

(** The prefixes of merged ranges are the fewest that cover them. *)
Lemma Decomposes_minimal (rs : list netipx.IPRange) (ps Q : list netip.Prefix) :
  Separated rs -> Decomposes rs ps -> Forall validV4 Q ->
  (forall x, Covered (map toRange Q) x <-> Covered rs x) ->
  (List.length ps <= List.length Q)%nat.
Proof.
  intros S D V C.
  pose proof (Decomposes_canonical rs S ps D) as Cp.
  pose proof (Decomposes_sorted rs S ps D) as Sp.
  apply (injection_length (fun p q => validV4 q /\ within q p)).
  - intros p Hp.
    pose proof (proj1 (Forall_forall _ _) Cp p Hp) as Cn.
    pose proof (canonical_start_le_end p Cn) as Hle.
    assert (Yp : InRange (toRange p) (start_ p))
      by (unfold InRange, start_, end_ in *; lia).
    assert (Hc : Covered (map toRange Q) (start_ p)).
    { apply C, (Decomposes_cover rs S ps D). exists (toRange p).
      split; [apply in_map; exact Hp | exact Yp]. }
    destruct Hc as (rq & Hrq & Yq).
    apply in_map_iff in Hrq. destruct Hrq as (q & <- & Hq).
    pose proof (proj1 (Forall_forall _ _) V q Hq) as Vq.
    exists q. split; [exact Hq|]. split; [exact Vq|].
    apply (overlap_within rs ps p q (start_ p)); try assumption.
    intros x Hx. apply C. exists (toRange q).
    split; [apply in_map; exact Hq | exact Hx].
  - apply (ForallOrdPairs_impl (fun p p' => end_ p < start_ p'));
      [|apply apart_ordpairs; assumption].
    intros p p' Hlt q [Vq [W1 W2]] [_ [W1' W2']].
    destruct (validV4_block q Vq) as (m & j & Hj & Hm & Al & Tq & Eq).
    pose proof (pow2_pos j ltac:(lia)).
    unfold start_, end_ in *. rewrite Eq in *.
    cbn [netipx.from netipx.to] in *. lia.
Qed.

(** ** Lists in normal form: sorted, disjoint, no two neighbours halves
       of one prefix *)

Lemma canonical_block (q : netip.Prefix) :
  canonical q ->
  exists s k,
    0 <= k <= 32 /\ 0 <= s < 2 ^ 32 /\ s mod 2 ^ k = 0 /\ s + 2 ^ k <= 2 ^ 32
    /\ q = netip.mkPrefix (netip.Addr4 s) (32 - k)
    /\ start_ q = s /\ end_ q = s + 2 ^ k - 1.
Proof.
  intros (a & Ea & Ra & Rb & Al).
  set (k := 32 - netip.bits q) in *.
  pose proof (pow2_pos k ltac:(unfold k; lia)) as P.
  assert (Top : a + 2 ^ k <= 2 ^ 32).
  { apply aligned_next; try lia.
    - apply mod0_divide; [unfold k; lia | exact Al].
    - apply pow2_divide. unfold k. lia. }
  assert (Eq : q = netip.mkPrefix (netip.Addr4 a) (32 - k)).
  { destruct q as [ip b]. cbn [netip.ip netip.bits] in *. subst ip.
    f_equal. unfold k. lia. }
  exists a, k. split; [unfold k; lia|]. split; [exact Ra|].
  split; [exact Al|]. split; [exact Top|]. split; [exact Eq|].
  unfold start_, end_. rewrite Eq at 1 2.
  rewrite block_toRange by (try assumption; unfold k in *; lia).
  cbn [netipx.from netipx.to]. split; reflexivity.
Qed.

Lemma block_eq (s k s' k' : Z) :
  netip.mkPrefix (netip.Addr4 s) (32 - k)
  = netip.mkPrefix (netip.Addr4 s') (32 - k') ->
  s = s' /\ k = k'.
Proof.
  intros E.
  assert (Ea : netip.Addr4 s = netip.Addr4 s') by exact (f_equal netip.ip E).
  assert (Eb : 32 - k = 32 - k') by exact (f_equal netip.bits E).
  split; [congruence | lia].
Qed.

Lemma Tiling_inv (s e : Z) (p : netip.Prefix) (rest : list netip.Prefix) :
  Tiling s e (p :: rest) ->
  exists k,
    0 <= k /\ s mod 2 ^ k = 0 /\ s + 2 ^ k - 1 <= e
    /\ p = netip.mkPrefix (netip.Addr4 s) (32 - k)
    /\ Tiling (s + 2 ^ k) e rest.
Proof. intros T. inversion T; subst. eauto 10. Qed.

(** In a tiling without sibling neighbours, the first block is at least
    as large as any aligned block that fits at the start. *)
Lemma tiling_first (j : nat) :
  forall m e L,
    Tiling m e L -> Sorted apart L -> 0 <= m -> e < 2 ^ 32 ->
    m mod 2 ^ Z.of_nat j = 0 -> m + 2 ^ Z.of_nat j - 1 <= e ->
    exists k rest,
      L = netip.mkPrefix (netip.Addr4 m) (32 - k) :: rest
      /\ Z.of_nat j <= k.
Proof.
  induction j as [|j IH]; intros m e L T S Hm He Al Fit.
  - inversion T as [? ? Hd | ? ? k p rest Hk Hal Hf Ep T']; subst.
    + cbn in Fit. lia.
    + exists k, rest. split; [reflexivity | cbn; lia].
  - rewrite Nat2Z.inj_succ in *. set (J := Z.of_nat j) in *.
    assert (HJ : 0 <= J) by (unfold J; lia).
    pose proof (pow2_pos J HJ) as PJ.
    assert (E2 : 2 ^ Z.succ J = 2 * 2 ^ J) by (apply Z.pow_succ_r; exact HJ).
    assert (DJ : (2 ^ J | m)).
    { apply Z.divide_trans with (2 ^ Z.succ J).
      - apply pow2_divide. lia.
      - apply mod0_divide; [lia | exact Al]. }
    destruct (IH m e L T S Hm He) as (k & rest & -> & Hk).
    { apply mod0_divide; [lia | exact DJ]. }
    { lia. }
    destruct (Z.le_gt_cases (Z.succ J) k) as [Hge|Hlt];
      [exists k, rest; split; [reflexivity | exact Hge]|].
    assert (k = J) by lia. subst k. exfalso.
    destruct (Tiling_inv _ _ _ _ T) as (k' & Hk' & Al' & Fit' & Ep & T').
    apply block_eq in Ep. destruct Ep as [_ <-].
    destruct (Sorted_inv S) as [S' Hd].
    destruct (IH (m + 2 ^ J) e rest T' S' ltac:(lia) He)
      as (k2 & rest2 & -> & Hk2).
    { apply mod0_divide; [lia|]. apply Z.divide_add_r; [exact DJ|].
      apply Z.divide_refl. }
    { lia. }
    destruct (Tiling_inv _ _ _ _ T') as (k3 & Hk3 & Al3 & _ & Ep3 & _).
    apply block_eq in Ep3. destruct Ep3 as [_ <-].
    assert (k2 = J).
    { destruct (Z.le_gt_cases k2 J) as [|Hgt]; [lia|]. exfalso.
      assert (D : (2 ^ Z.succ J | m + 2 ^ J)).
      { apply Z.divide_trans with (2 ^ k2).
        - apply pow2_divide. lia.
        - apply mod0_divide; [lia | exact Al3]. }
      apply mod0_divide in Al; [|lia].
      destruct D as [x Hx], Al as [y Hy]. rewrite E2 in *.
      assert (2 ^ J * (2 * x - 2 * y - 1) = 0) by lia.
      apply Z.mul_eq_0 in H. lia. }
    subst k2.
    destruct (HdRel_inv Hd) as [_ NS]. apply NS.
    assert (J < 32).
    { assert (Z.succ J <= 32) by (apply pow2_le_inv; lia). lia. }
    exists m, (32 - J). split; [lia|].
    replace (33 - (32 - J)) with (Z.succ J) by lia.
    replace (32 - (32 - J)) with J by lia.
    split; [exact Al|]. split; reflexivity.
Qed.

Lemma Tiling_Greedy (s e : Z) (L : list netip.Prefix) :
  Tiling s e L -> Sorted apart L -> 0 <= s -> e < 2 ^ 32 ->
  Spec.Greedy s e L.
Proof.
  induction 1 as [s e Hd | s e k p rest Hk Hal Hf Ep T IH]; intros S Hs He.
  - constructor. lia.
  - pose proof (pow2_pos k Hk) as P.
    apply (Spec.Greedy_emit s e k p rest); [lia | | exact Ep |].
    + split; [repeat split; assumption|].
      intros k' (Hk' & Al' & Fit').
      destruct (tiling_first (Z.to_nat k') s e (p :: rest))
        as (k2 & rest2 & E2 & Hle);
        try rewrite Z2Nat.id by lia; try assumption.
      * apply (Tiling_emit s e k p rest); assumption.
      * injection E2 as E2 _. rewrite Ep in E2.
        apply block_eq in E2. lia.
    + apply IH; [exact (proj1 (Sorted_inv S)) | lia | exact He].
Qed.

(** A sorted list of disjoint canonical prefixes, cut where an address
    is missing between two neighbours: each piece tiles its range. *)
Lemma runs (Q : list netip.Prefix) :
  Sorted apart Q -> Forall canonical Q ->
  exists rs ls,
    Separated rs
    /\ Forall2 (fun r l => Tiling (netipx.from r) (netipx.to r) l
                           /\ Sorted apart l) rs ls
    /\ Q = List.concat ls
    /\ forall q Q',
        Q = q :: Q' ->
        exists r rs' l ls',
          rs = r :: rs' /\ ls = l :: ls' /\ netipx.from r = start_ q.
Proof.
  induction Q as [|q Q' IH]; intros S C.
  - exists [], []. split; [constructor|]. split; [constructor|].
    split; [reflexivity | discriminate].
  - destruct (Sorted_inv S) as [S' Hd].
    pose proof (Forall_inv C) as Cq. pose proof (Forall_inv_tail C) as C'.
    destruct (canonical_block q Cq) as (s & k & Hk & Hs & Al & Top & Eq & Es & Ee).
    pose proof (pow2_pos k ltac:(lia)) as P.
    assert (Tq : forall e rest,
               s + 2 ^ k - 1 <= e -> Tiling (s + 2 ^ k) e rest ->
               Tiling s e (q :: rest)).
    { intros e rest He T. apply (Tiling_emit s e k q rest); try assumption. lia. }
    assert (T1 : Tiling s (s + 2 ^ k - 1) [q]).
    { apply Tq; [lia|]. constructor. lia. }
    assert (S1 : Sorted apart [q]) by (repeat constructor).
    assert (W1 : wfRange (netipx.mkRange s (s + 2 ^ k - 1))).
    { unfold wfRange. cbn [netipx.from netipx.to]. lia. }
    destruct Q' as [|q1 Q''].
    + exists [netipx.mkRange s (s + 2 ^ k - 1)], [[q]].
      split; [constructor; exact W1|].
      split; [constructor; [split; assumption | constructor]|].
      split; [reflexivity|].
      intros q0 Q0 E. injection E as <- <-.
      exists (netipx.mkRange s (s + 2 ^ k - 1)), [], [q], [].
      cbn [netipx.from]. auto.
    + destruct (IH S' C') as (rs' & ls' & Sep' & F2' & EQ' & Hhead').
      destruct (Hhead' q1 Q'' eq_refl)
        as (r1 & rs'' & l1 & ls'' & -> & -> & Ef1).
      destruct (HdRel_inv Hd) as [Hap _].
      apply Forall2_cons_iff in F2'. destruct F2' as [[Tl1 Sl1] F2''].
      destruct (Separated_inv r1 rs'' Sep') as ((W10 & W11 & W12) & Sep'' & Gap).
      cbn [List.concat] in EQ'.
      destruct (Z.eq_dec (end_ q + 1) (start_ q1)) as [Adj|NAdj].
      * exists (netipx.mkRange s (netipx.to r1) :: rs''), ((q :: l1) :: ls'').
        assert (W : wfRange (netipx.mkRange s (netipx.to r1))).
        { unfold wfRange. cbn [netipx.from netipx.to]. lia. }
        split.
        { destruct rs'' as [|r2 rs3]; [constructor; exact W|].
          constructor; [exact W | | exact Sep''].
          cbn [netipx.to]. apply (Gap r2 rs3 eq_refl). }
        split.
        { constructor; [|exact F2'']. cbn [netipx.from netipx.to]. split.
          - apply Tq; [lia|]. replace (s + 2 ^ k) with (netipx.from r1) by lia.
            exact Tl1.
          - constructor; [exact Sl1|].
            destruct l1 as [|p l1']; [constructor|].
            cbn [app] in EQ'. injection EQ' as <- _.
            constructor. exact (HdRel_inv Hd). }
        split; [cbn [List.concat app]; rewrite EQ'; reflexivity|].
        intros q0 Q0 E. injection E as <- <-.
        exists (netipx.mkRange s (netipx.to r1)), rs'', (q :: l1), ls''.
        cbn [netipx.from]. auto.
      * exists (netipx.mkRange s (s + 2 ^ k - 1) :: r1 :: rs''),
               ([q] :: l1 :: ls'').
        split.
        { constructor; [exact W1 | cbn [netipx.to]; lia | exact Sep']. }
        split.
        { constructor; [split; assumption|].
          constructor; [split; assumption | exact F2'']. }
        split; [cbn [List.concat app] in *; rewrite EQ'; reflexivity|].
        intros q0 Q0 E. injection E as <- <-.
        exists (netipx.mkRange s (s + 2 ^ k - 1)), (r1 :: rs''), [q], (l1 :: ls'').
        cbn [netipx.from]. auto.
Qed.

Lemma Forall2_Greedy (rs : list netipx.IPRange) :
  forall ls,
    Forall wfRange rs ->
    Forall2 (fun r l => Tiling (netipx.from r) (netipx.to r) l
                        /\ Sorted apart l) rs ls ->
    Forall2 (fun r l => Spec.Greedy (netipx.from r) (netipx.to r) l) rs ls.
Proof.
  induction rs as [|r rs IH]; intros ls W F; inversion F; subst;
    constructor.
  - destruct (Forall_inv W) as (W0 & W1 & W2).
    destruct H1 as [T S]. apply Tiling_Greedy; assumption.
  - apply IH; [exact (Forall_inv_tail W) | assumption].
Qed.

(** A list in normal form is the greedy decomposition of separated
    ranges. *)
Lemma normal_Decomposes (Q : list netip.Prefix) :
  Sorted apart Q -> Forall canonical Q ->
  exists rs, Separated rs /\ Decomposes rs Q.
Proof.
  intros S C. destruct (runs Q S C) as (rs & ls & Sep & F2 & EQ & _).
  exists rs. split; [exact Sep|]. exists ls. split; [|exact EQ].
  apply Forall2_Greedy; [apply Separated_wf|]; assumption.
Qed.

Lemma Decomposes_functional (rs : list netipx.IPRange) :
  forall ps ps', Decomposes rs ps -> Decomposes rs ps' -> ps = ps'.
Proof.
  induction rs as [|r rs IH]; intros ps ps' D D'.
  - apply Decomposes_nil in D, D'. congruence.
  - destruct (Decomposes_cons r rs ps D) as (l & t & -> & G & Dt).
    destruct (Decomposes_cons r rs ps' D') as (l' & t' & -> & G' & Dt').
    rewrite (Greedy_functional _ _ _ _ G G'), (IH t t' Dt Dt'). reflexivity.
Qed.

Lemma neighbours_apart (Q : list netip.Prefix) :
  Sorted neighbours Q -> Sorted apart Q.
Proof.
  induction 1 as [|q Q S IH Hd]; constructor; [exact IH|].
  destruct Hd as [|q1 Q' (_ & H1 & H2)]; constructor. split; assumption.
Qed.

Section NormalForm.

Variable parseIPv6 : string -> result (Z * string).
Variable string6 : Z -> string -> string.

(** The ranges and prefixes that the set builder computes from the
    printed form of a list in normal form are the list itself. *)
Lemma normal_form_reread (Q : list netip.Prefix) :
  Forall canonical Q -> Sorted neighbours Q ->
  exists rs,
    Separated rs /\ Decomposes rs Q
    /\ netipx.Prefixes (netipx.mkIPSet rs) = Some Q.
Proof.
  intros C S.
  destruct (normal_Decomposes Q (neighbours_apart Q S) C) as (rs & Sep & D).
  exists rs. split; [exact Sep|]. split; [exact D|].
  destruct (PrefixesLoop_spec rs (Separated_wf rs Sep) []) as (ps & E & D').
  unfold netipx.Prefixes. cbn [netipx.rr]. rewrite E. cbn [app].
  f_equal. apply (Decomposes_functional rs); assumption.
Qed.

Lemma normalize_fixed (Q : list netip.Prefix) :
  Forall canonical Q -> Sorted neighbours Q ->
  normalize parseIPv6 (map (netip_text.Prefix_String string6) Q)
  = (Some Q, None, []).
Proof.
  intros C S.
  destruct (normal_form_reread Q C S) as (rs & Sep & D & P).
  rewrite normalize_unfold.
  destruct (ranges_canonical parseIPv6 string6 Q C) as [-> ->].
  unfold netipx.IPSet_of, netipx.normalize. cbn [netipx.in_ netipx.errs].
  rewrite (Decomposes_remerge rs Q Sep D). cbn [netipx.in_ fst].
  rewrite P. reflexivity.
Qed.

End NormalForm.

(** ** The returned list as a normal form *)

Lemma joinLines_app (a b : list string) :
  joinLines (a ++ b) = (joinLines a ++ joinLines b)%string.
Proof.
  induction a as [|l a IH]; cbn [joinLines app]; [reflexivity|].
  rewrite IH, sapp_assoc. reflexivity.
Qed.

Lemma InOutput_app (o1 o2 : list netip.Prefix) (x : Z) :
  InOutput (o1 ++ o2) x <-> InOutput o1 x \/ InOutput o2 x.
Proof.
  unfold InOutput. split.
  - intros (Hx & p & Hin & Hc). apply in_app_or in Hin.
    destruct Hin; [left | right]; eauto.
  - intros [(Hx & p & Hin & Hc) | (Hx & p & Hin & Hc)];
      (split; [exact Hx|]); exists p; (split; [|exact Hc]);
      apply in_or_app; auto.
Qed.

Lemma textsOfAS_app (s1 s2 : list subnetAS) (targetAS : string) :
  textsOfAS (s1 ++ s2) targetAS
  = textsOfAS s1 targetAS ++ textsOfAS s2 targetAS.
Proof. unfold textsOfAS. rewrite filter_app, map_app. reflexivity. Qed.

Section CoverageFacts.

Variable parseIPv6 : string -> result (Z * string).

Lemma InInput_app (t1 t2 : list string) (x : Z) :
  InInput parseIPv6 (t1 ++ t2) x
  <-> InInput parseIPv6 t1 x \/ InInput parseIPv6 t2 x.
Proof.
  rewrite !InInput_Covered, flat_map_app, Covered_app. tauto.
Qed.

(** A text that is an IPv4 prefix covers its own address. *)
Lemma v4PrefixOf_inhabited (text : string) (p : netip.Prefix) :
  v4PrefixOf parseIPv6 text = Some p ->
  exists x, 0 <= x < 2 ^ 32 /\ netip_text.Contains p x = true.
Proof.
  intros E. destruct (v4PrefixOf_wf parseIPv6 text p E) as (a & Ea & Ra & Rb).
  exists a. split; [exact Ra|].
  apply (Contains_toRange p a a Ea Ra Rb Ra).
  unfold toRange, InRange. rewrite Ea.
  pose proof (RangeOfPrefix_bounds a (netip.bits p) Ra Rb) as H.
  cbn zeta in H. lia.
Qed.

Lemma normalize_nil_iff (texts : list string) :
  fst (fst (normalize parseIPv6 texts)) = Some []
  <-> forall text, In text texts -> v4PrefixOf parseIPv6 text = None.
Proof.
  destruct (normalize_coverage parseIPv6 texts) as (out & log & E & C).
  rewrite E. cbn [fst]. split.
  - intros H text Hin. injection H as ->.
    destruct (v4PrefixOf parseIPv6 text) as [p|] eqn:Ep; [|reflexivity].
    exfalso. destruct (v4PrefixOf_inhabited text p Ep) as (x & Hx & Hc).
    assert (I : InInput parseIPv6 texts x) by (split; eauto).
    apply C in I. destruct I as (_ & q & [] & _).
  - intros H. f_equal.
    destruct out as [|q out']; [reflexivity|]. exfalso.
    destruct (normalize_sorted parseIPv6 texts) as (out2 & log2 & E2 & _ & Cn).
    rewrite E in E2. injection E2 as <- _.
    pose proof (Forall_inv Cn) as Cq.
    pose proof (canonical_start_le_end q Cq) as Hle.
    destruct (canonical_block q Cq) as (s & k & _ & Hs & _ & _ & _ & Es & _).
    assert (I : InOutput (q :: out') (start_ q)).
    { split; [lia|]. exists q. split; [left; reflexivity|].
      apply Contains_range; [exact Cq | lia |].
      unfold InRange, start_, end_ in *. lia. }
    apply C in I. destruct I as (_ & text & p & Hin & Ep & _).
    rewrite (H text Hin) in Ep. discriminate.
Qed.

(** The set builder never records an error in either loop. *)
Lemma fold_addText_errs (texts : list string) :
  netipx.errs (fst (fold_left (addText parseIPv6) texts (netipx.empty, [])))
  = [].
Proof. rewrite fold_addText. reflexivity. Qed.

End CoverageFacts.

Section NormalFormFacts.

Variable parseIPv6 : string -> result (Z * string).
Variable string6 : Z -> string -> string.

(** The printed form of canonical prefixes covers what they cover. *)
Lemma InInput_printed (out : list netip.Prefix) (x : Z) :
  Forall canonical out ->
  InInput parseIPv6 (map (netip_text.Prefix_String string6) out) x
  <-> InOutput out x.
Proof.
  intros C.
  rewrite InInput_Covered, InOutput_Covered by exact C.
  destruct (ranges_canonical parseIPv6 string6 out C) as [-> _].
  reflexivity.
Qed.

(** Reading a file of canonical prefixes is [normalize] on its lines. *)
Lemma reread_canonical (L : list netip.Prefix) :
  Forall canonical L ->
  downloadReadySubnets parseIPv6 (Ok (writeSubnetsToFile string6 L))
  = normalize parseIPv6 (map (netip_text.Prefix_String string6) L).
Proof.
  intros C.
  rewrite downloadReadySubnets_normalize, writeSubnetsToFile_lines.
  rewrite Scan_joinLines.
  - cbn [fst]. rewrite (textsOfLines_canonical parseIPv6 string6 L C). reflexivity.
  - apply Forall_map. eapply Forall_impl; [|exact C].
    intros p Cp. apply (canonical_line parseIPv6 string6 p Cp).
Qed.

Lemma writeSubnetsToFile_app (a b : list netip.Prefix) :
  writeSubnetsToFile string6 (a ++ b)
  = (writeSubnetsToFile string6 a ++ writeSubnetsToFile string6 b)%string.
Proof.
  rewrite !writeSubnetsToFile_lines, map_app. apply joinLines_app.
Qed.

Lemma normalize_printed_log (L : list netip.Prefix) :
  Forall canonical L ->
  snd (normalize parseIPv6 (map (netip_text.Prefix_String string6) L)) = [].
Proof.
  intros C. rewrite normalize_unfold. cbn [snd].
  apply (ranges_canonical parseIPv6 string6 L C).
Qed.

Lemma textsOfAS_printed (Q : list netip.Prefix) (targetAS : string) :
  textsOfAS
    (map (fun p => mkSubnetAS (netip_text.Prefix_String string6 p) targetAS) Q)
    targetAS
  = map (netip_text.Prefix_String string6) Q.
Proof.
  unfold textsOfAS. induction Q as [|p Q IH]; cbn [map filter as_];
    [reflexivity|].
  rewrite String.eqb_refl. cbn [map subnet]. rewrite IH. reflexivity.
Qed.

End NormalFormFacts.

Lemma InOutput_Covered_valid (Q : list netip.Prefix) (x : Z) :
  Forall validV4 Q ->
  InOutput Q x <-> Covered (map toRange Q) x.
Proof.
  intros V. unfold InOutput, Covered. split.
  - intros (Hx & p & Hin & Hc). exists (toRange p).
    split; [apply in_map; exact Hin|].
    apply validV4_Contains; [|exact Hx|exact Hc].
    apply (proj1 (Forall_forall _ _) V p Hin).
  - intros (r & Hin & Hr). apply in_map_iff in Hin.
    destruct Hin as (p & <- & Hin).
    pose proof (proj1 (Forall_forall _ _) V p Hin) as Vp.
    destruct (validV4_block p Vp) as (m & k & Hk & Hm & _ & Top & E).
    assert (Hx : 0 <= x < 2 ^ 32).
    { unfold InRange in Hr. rewrite E in Hr.
      cbn [netipx.from netipx.to] in Hr. lia. }
    split; [exact Hx|]. exists p. split; [exact Hin|].
    apply validV4_Contains; assumption.
Qed.

Section SetTheorems.

Variable parseIPv6 : string -> result (Z * string).

Lemma normalize_facts (texts : list string) :
  exists out,
    normalize parseIPv6 texts
    = (Some out, None, flat_map (diagOf parseIPv6) texts)
    /\ Forall canonical out /\ Sorted neighbours out
    /\ forall x, InOutput out x <-> InInput parseIPv6 texts x.
Proof.
  destruct (normalize_sorted parseIPv6 texts) as (out & log & E & S & C).
  destruct (normalize_coverage parseIPv6 texts) as (out' & log' & E' & Cv).
  destruct (normalize_spec parseIPv6 texts) as (rs & ps & E2 & _).
  assert (out = ps) by congruence. assert (out' = ps) by congruence.
  subst out out'. exists ps. auto.
Qed.

Lemma normalize_minimal (texts : list string) :
  exists out log,
    normalize parseIPv6 texts = (Some out, None, log)
    /\ forall Q,
        Forall validV4 Q ->
        (forall x, InOutput Q x <-> InOutput out x) ->
        (List.length out <= List.length Q)%nat.
Proof.
  destruct (normalize_spec parseIPv6 texts) as (rs & ps & E & _ & S & D & _).
  exists ps, (flat_map (diagOf parseIPv6) texts). split; [exact E|].
  intros Q V H. apply (Decomposes_minimal rs ps Q S D V).
  intros x.
  rewrite <- (InOutput_Covered_valid Q x V), H.
  rewrite <- (Decomposes_cover rs S ps D x).
  apply InOutput_Covered_valid.
  eapply Forall_impl; [exact canonical_validV4|].
  apply (Decomposes_canonical rs S ps D).
Qed.

Lemma v4Prefixes_valid (texts : list string) :
  Forall validV4 (v4Prefixes parseIPv6 texts).
Proof.
  unfold v4Prefixes. induction texts as [|t texts IH]; cbn [flat_map];
    [constructor|].
  apply Forall_app. split; [|exact IH].
  destruct (v4PrefixOf parseIPv6 t) as [p|] eqn:E; [|constructor].
  constructor; [|constructor]. exact (v4PrefixOf_wf parseIPv6 t p E).
Qed.

Lemma v4Prefixes_In (texts : list string) (p : netip.Prefix) :
  In p (v4Prefixes parseIPv6 texts)
  <-> exists text, In text texts /\ v4PrefixOf parseIPv6 text = Some p.
Proof.
  unfold v4Prefixes. rewrite in_flat_map. split.
  - intros (t & Hin & Hp). exists t. split; [exact Hin|].
    destruct (v4PrefixOf parseIPv6 t) as [q|]; [|destruct Hp].
    destruct Hp as [->|[]]. reflexivity.
  - intros (t & Hin & E). exists t. split; [exact Hin|].
    rewrite E. left. reflexivity.
Qed.

Lemma v4Prefixes_cover (texts : list string) (x : Z) :
  InOutput (v4Prefixes parseIPv6 texts) x <-> InInput parseIPv6 texts x.
Proof.
  unfold InOutput, InInput. apply and_iff_under. intros _. split.
  - intros (p & Hin & Hc). apply v4Prefixes_In in Hin.
    destruct Hin as (t & Hin & E). eauto.
  - intros (t & p & Hin & E & Hc). exists p. split; [|exact Hc].
    apply v4Prefixes_In. eauto.
Qed.

Lemma v4Prefixes_length (texts : list string) :
  (List.length (v4Prefixes parseIPv6 texts) <= List.length texts)%nat.
Proof.
  unfold v4Prefixes. induction texts as [|t texts IH]; cbn [flat_map];
    [apply le_n|].
  rewrite length_app. cbn [List.length].
  destruct (v4PrefixOf parseIPv6 t); cbn [List.length]; lia.
Qed.

Lemma normalize_shorter (texts : list string) :
  exists out log,
    normalize parseIPv6 texts = (Some out, None, log)
    /\ (List.length out <= List.length (v4Prefixes parseIPv6 texts))%nat.
Proof.
  destruct (normalize_minimal texts) as (out & log & E & M).
  destruct (normalize_facts texts) as (out' & E' & _ & _ & Cv).
  assert (out' = out) by congruence. subst out'.
  exists out, log. split; [exact E|].
  apply M; [apply v4Prefixes_valid|].
  intros x. rewrite Cv. apply v4Prefixes_cover.
Qed.

(** An IPv4 text among the input lies within exactly one returned
    prefix. *)
Lemma normalize_supernets (texts : list string) :
  exists out log,
    normalize parseIPv6 texts = (Some out, None, log)
    /\ forall text p,
        In text texts -> v4PrefixOf parseIPv6 text = Some p ->
        exists o,
          In o out /\ within p o
          /\ forall o', In o' out -> within p o' -> o' = o.
Proof.
  destruct (normalize_ranges parseIPv6 texts) as (rs & ps & E & _ & S & D & C).
  exists ps, (flat_map (diagOf parseIPv6) texts). split; [exact E|].
  intros text p Hin Ep.
  pose proof (Decomposes_canonical rs S ps D) as Cn.
  pose proof (Decomposes_sorted rs S ps D) as Sp.
  pose proof (v4PrefixOf_wf parseIPv6 text p Ep) as Vp.
  destruct (validV4_block p Vp) as (m & k & Hk & Hm & Al & Top & Er).
  pose proof (pow2_pos k ltac:(lia)) as P.
  assert (Cp : forall x, InRange (toRange p) x -> Covered rs x).
  { intros x Hx. apply C. split.
    - rewrite Er in Hx. unfold InRange in Hx.
      cbn [netipx.from netipx.to] in Hx. lia.
    - exists text, p. split; [exact Hin|]. split; [exact Ep|].
      apply validV4_Contains; [exact Vp | | exact Hx].
      rewrite Er in Hx. unfold InRange in Hx.
      cbn [netipx.from netipx.to] in Hx. lia. }
  assert (Ym : InRange (toRange p) m).
  { rewrite Er. unfold InRange. cbn [netipx.from netipx.to]. lia. }
  destruct (proj2 (Decomposes_cover rs S ps D m) (Cp m Ym))
    as (ro & Hro & Yo).
  apply in_map_iff in Hro. destruct Hro as (o & <- & Ho).
  assert (W : within p o)
    by (apply (overlap_within rs ps o p m); assumption).
  exists o. split; [exact Ho|]. split; [exact W|].
  intros o' Ho' W'.
  pose proof (apart_ordpairs ps Sp Cn) as OP.
  destruct (ForallOrdPairs_In OP o' o Ho' Ho) as [Eq|[L|L]];
    [exact Eq | exfalso | exfalso];
    unfold within, start_, end_ in *; rewrite Er in *;
    cbn [netipx.from netipx.to] in *; lia.
Qed.

(** X1. The returned prefix list is a function of the set of
    addresses covered: whenever the entries that [processSubnets]
    selects from two tables, or from a table and the lines read by
    [downloadReadySubnets], cover the same 32-bit addresses, the
    calls return the identical prefix list (and error). *)
Theorem same_coverage_same_prefixes
        (subnets subnets' : list subnetAS) (targetAS targetAS' : string)
        (data : string) :
  (forall x,
      InInput parseIPv6 (textsOfAS subnets targetAS) x
      <-> InInput parseIPv6 (textsOfAS subnets' targetAS') x) ->
  (forall x,
      InInput parseIPv6 (textsOfAS subnets targetAS) x
      <-> InInput parseIPv6 (textsOfLines (fst (bufio.Scan data))) x) ->
  fst (processSubnets parseIPv6 subnets targetAS)
  = fst (processSubnets parseIPv6 subnets' targetAS')
  /\ fst (processSubnets parseIPv6 subnets targetAS)
     = fst (downloadReadySubnets parseIPv6 (Ok data)).
Proof.
  intros H1 H2.
  rewrite !processSubnets_normalize, downloadReadySubnets_normalize.
  split; apply normalize_canonical; assumption.
Qed.

(** X6. An entry whose addresses are already covered by the
    other selected entries changes nothing: inserting it anywhere in
    the table leaves the prefix list returned by [processSubnets] the
    same (a duplicate, a sub-prefix, or a prefix covered jointly by
    several others). *)
Theorem covered_entry_absorbed
        (before after : list subnetAS) (item : subnetAS) (targetAS : string)
        (p : netip.Prefix) :
  v4PrefixOf parseIPv6 (subnet item) = Some p ->
  (forall x,
      0 <= x < 2 ^ 32 -> netip_text.Contains p x = true ->
      InInput parseIPv6 (textsOfAS (before ++ after) targetAS) x) ->
  fst (processSubnets parseIPv6 (before ++ item :: after) targetAS)
  = fst (processSubnets parseIPv6 (before ++ after) targetAS).
Proof.
  intros Ep H. rewrite !processSubnets_normalize.
  destruct (String.eqb_spec (as_ item) targetAS) as [Eas|Nas];
    [|rewrite textsOfAS_other by exact Nas; reflexivity].
  apply normalize_canonical. intros x.
  change (before ++ item :: after) with (before ++ [item] ++ after).
  rewrite !textsOfAS_app, !InInput_app.
  split; [|tauto].
  intros [Hb|[Hi|Ha]]; [tauto| |tauto].
  rewrite <- InInput_app, <- textsOfAS_app.
  destruct Hi as (Hx & text & q & Hin & Eq & Hc).
  unfold textsOfAS in Hin. cbn [filter] in Hin.
  destruct (String.eqb (as_ item) targetAS); [|destruct Hin].
  destruct Hin as [<-|[]]. assert (q = p) by congruence. subst q.
  apply H; assumption.
Qed.

(** X2. The returned list is a smallest one: no list of valid
    IPv4 prefixes that covers exactly the same addresses is shorter
    than the list returned by [processSubnets] or by
    [downloadReadySubnets]. *)
Theorem output_is_minimal
        (subnets : list subnetAS) (targetAS : string) (data : string) :
  (exists out log,
      processSubnets parseIPv6 subnets targetAS = (Some out, None, log)
      /\ forall Q,
          Forall validV4 Q ->
          (forall x, InOutput Q x <-> InOutput out x) ->
          (List.length out <= List.length Q)%nat)
  /\ (exists out log,
         downloadReadySubnets parseIPv6 (Ok data) = (Some out, None, log)
         /\ forall Q,
             Forall validV4 Q ->
             (forall x, InOutput Q x <-> InOutput out x) ->
             (List.length out <= List.length Q)%nat).
Proof.
  split.
  - rewrite processSubnets_normalize. apply normalize_minimal.
  - rewrite downloadReadySubnets_normalize. apply normalize_minimal.
Qed.

(** X8. The returned list is empty exactly when no selected
    entry is an IPv4 prefix: for [processSubnets], when no entry of
    the target AS has a subnet text that parses as an IPv4 prefix; for
    [downloadReadySubnets], when no trimmed line does. *)
Theorem empty_output_iff
        (subnets : list subnetAS) (targetAS : string) (data : string) :
  (fst (fst (processSubnets parseIPv6 subnets targetAS)) = Some []
   <-> forall item,
        In item subnets -> as_ item = targetAS ->
        v4PrefixOf parseIPv6 (subnet item) = None)
  /\ (fst (fst (downloadReadySubnets parseIPv6 (Ok data))) = Some []
      <-> forall line,
           In line (fst (bufio.Scan data)) ->
           v4PrefixOf parseIPv6 (strings.TrimSpace line) = None).
Proof.
  split.
  - rewrite processSubnets_normalize, normalize_nil_iff.
    unfold textsOfAS. split.
    + intros H item Hin Eas. apply H, in_map, filter_In.
      split; [exact Hin | apply String.eqb_eq; exact Eas].
    + intros H text Hin. apply in_map_iff in Hin.
      destruct Hin as (item & <- & Hin). apply filter_In in Hin.
      destruct Hin as [Hin Eas]. apply String.eqb_eq in Eas. auto.
  - rewrite downloadReadySubnets_normalize, normalize_nil_iff.
    unfold textsOfLines. split.
    + intros H line Hin.
      destruct (String.eqb_spec (strings.TrimSpace line) EmptyString) as [->|N];
        [reflexivity|].
      apply H, filter_In. split; [apply in_map; exact Hin|].
      apply negb_true_iff, String.eqb_neq. exact N.
    + intros H text Hin. apply filter_In in Hin. destruct Hin as [Hin _].
      apply in_map_iff in Hin. destruct Hin as (line & <- & Hin). auto.
Qed.

(** X9. The error that the program discards, in
    [v4IPSet, _ := v4Set.IPSet()], is always nil: neither loop makes
    the set builder record an error, since every prefix it adds is a
    valid IPv4 prefix with a valid range. *)
Theorem builder_error_never_set
        (subnets : list subnetAS) (targetAS : string) (data : string) :
  snd (netipx.IPSet_of
         (fst (fold_left (processSubnets_body parseIPv6 targetAS) subnets
                         (netipx.empty, []))))
  = []
  /\ snd (netipx.IPSet_of
            (fst (fold_left (readLine_body parseIPv6)
                            (fst (bufio.Scan data)) (netipx.empty, []))))
     = [].
Proof.
  rewrite processSubnets_body_addText, readLine_body_addText, !fold_addText.
  cbn [fst netipx.errs netipx.in_ netipx.empty app].
  unfold netipx.IPSet_of, netipx.normalize. cbn [netipx.in_ netipx.errs].
  split.
  - destruct (netipx.mergeIPRanges _); reflexivity.
  - destruct (netipx.mergeIPRanges _); reflexivity.
Qed.

(** X4. Normalising never adds entries: the list returned by
    [processSubnets] has at most as many prefixes as there are IPv4
    prefixes among the entries of the target AS, and so at most as many
    as the table has entries; the list returned by
    [downloadReadySubnets] has at most as many prefixes as the data has
    lines. *)
Theorem output_not_longer_than_input
        (subnets : list subnetAS) (targetAS : string) (data : string) :
  (exists out log,
      processSubnets parseIPv6 subnets targetAS = (Some out, None, log)
      /\ (List.length out
          <= List.length (v4Prefixes parseIPv6 (textsOfAS subnets targetAS)))%nat
      /\ (List.length out <= List.length subnets)%nat)
  /\ (exists out log,
         downloadReadySubnets parseIPv6 (Ok data) = (Some out, None, log)
         /\ (List.length out <= List.length (fst (bufio.Scan data)))%nat).
Proof.
  split.
  - rewrite processSubnets_normalize.
    destruct (normalize_shorter (textsOfAS subnets targetAS))
      as (out & log & E & L).
    exists out, log. split; [exact E|]. split; [exact L|].
    pose proof (v4Prefixes_length (textsOfAS subnets targetAS)) as L2.
    unfold textsOfAS in L2 at 2. rewrite length_map in L2.
    pose proof (filter_length_le
                  (fun item => String.eqb (as_ item) targetAS) subnets).
    lia.
  - rewrite downloadReadySubnets_normalize.
    destruct (normalize_shorter (textsOfLines (fst (bufio.Scan data))))
      as (out & log & E & L).
    exists out, log. split; [exact E|].
    pose proof (v4Prefixes_length (textsOfLines (fst (bufio.Scan data))))
      as L2.
    unfold textsOfLines in L2 at 2.
    pose proof (filter_length_le
                  (fun line => negb (String.eqb line EmptyString))
                  (map strings.TrimSpace (fst (bufio.Scan data)))) as L3.
    rewrite length_map in L3. lia.
Qed.

(** X5. Every IPv4 prefix of the input lies within exactly
    one returned prefix: for each entry of the target AS whose subnet
    text parses as an IPv4 prefix, one prefix of the list returned by
    [processSubnets] covers all its addresses, and no other returned
    prefix does. *)
Theorem input_within_one_output
        (subnets : list subnetAS) (targetAS : string) :
  exists out log,
    processSubnets parseIPv6 subnets targetAS = (Some out, None, log)
    /\ forall item p,
        In item subnets -> as_ item = targetAS ->
        v4PrefixOf parseIPv6 (subnet item) = Some p ->
        exists o,
          In o out /\ within p o
          /\ forall o', In o' out -> within p o' -> o' = o.
Proof.
  rewrite processSubnets_normalize.
  destruct (normalize_supernets (textsOfAS subnets targetAS))
    as (out & log & E & H).
  exists out, log. split; [exact E|].
  intros item p Hin Eas Ep. apply (H (subnet item) p); [|exact Ep].
  unfold textsOfAS. apply in_map, filter_In. split; [exact Hin|].
  apply String.eqb_eq. exact Eas.
Qed.

End SetTheorems.

Section PrintedTheorems.

Variable parseIPv6 : string -> result (Z * string).
Variable string6 : Z -> string -> string.

Lemma normalize_fixed_iff (Q : list netip.Prefix) :
  normalize parseIPv6 (map (netip_text.Prefix_String string6) Q)
  = (Some Q, None, [])
  <-> Forall canonical Q /\ Sorted neighbours Q.
Proof.
  split.
  - intros E.
    destruct (normalize_facts parseIPv6 (map (netip_text.Prefix_String string6) Q))
      as (out & E' & C & S & _).
    assert (out = Q) by congruence. subst out. auto.
  - intros [C S]. apply normalize_fixed; assumption.
Qed.

(** X7. Normalising composes: write the lists that
    [processSubnets] returns for two tables with [writeSubnetsToFile],
    concatenate the two files and read the result with
    [downloadReadySubnets]; what comes back is the list that
    [processSubnets] returns for the two tables together, with no error
    and nothing logged. *)
Theorem merged_files_normalize
        (subnets1 subnets2 : list subnetAS) (targetAS : string) :
  exists out1 out2 log1 log2,
    processSubnets parseIPv6 subnets1 targetAS = (Some out1, None, log1)
    /\ processSubnets parseIPv6 subnets2 targetAS = (Some out2, None, log2)
    /\ downloadReadySubnets parseIPv6
         (Ok (writeSubnetsToFile string6 out1
              ++ writeSubnetsToFile string6 out2)%string)
       = (fst (fst (processSubnets parseIPv6 (subnets1 ++ subnets2)
                                   targetAS)),
          None, []).
Proof.
  rewrite !processSubnets_normalize, textsOfAS_app.
  set (t1 := textsOfAS subnets1 targetAS).
  set (t2 := textsOfAS subnets2 targetAS).
  destruct (normalize_facts parseIPv6 t1) as (out1 & E1 & C1 & _ & Cv1).
  destruct (normalize_facts parseIPv6 t2) as (out2 & E2 & C2 & _ & Cv2).
  destruct (normalize_facts parseIPv6 (t1 ++ t2)) as (out & E & _).
  exists out1, out2, (flat_map (diagOf parseIPv6) t1),
    (flat_map (diagOf parseIPv6) t2).
  split; [exact E1|]. split; [exact E2|].
  assert (C12 : Forall canonical (out1 ++ out2))
    by (apply Forall_app; split; assumption).
  rewrite <- writeSubnetsToFile_app, (reread_canonical parseIPv6 string6 _ C12).
  destruct (normalize_facts parseIPv6
              (map (netip_text.Prefix_String string6) (out1 ++ out2)))
    as (out' & E' & _).
  pose proof (normalize_printed_log parseIPv6 string6 _ C12) as L.
  rewrite E' in L. cbn [snd] in L.
  assert (F : fst (normalize parseIPv6
                     (map (netip_text.Prefix_String string6) (out1 ++ out2)))
              = fst (normalize parseIPv6 (t1 ++ t2))).
  { apply normalize_canonical. intros x.
    rewrite (InInput_printed parseIPv6 string6 _ x C12).
    rewrite InOutput_app, InInput_app, Cv1, Cv2. reflexivity. }
  rewrite E', E in F. cbn [fst] in F.
  rewrite E', E, L. cbn [fst]. congruence.
Qed.

(** X3. The lists that come back unchanged are exactly the
    lists in normal form: a prefix list [Q], written by
    [writeSubnetsToFile] and read by [downloadReadySubnets] (or handed
    to [processSubnets] as printed entries of one AS), is returned
    as it is, with nothing logged, if and only if every prefix of [Q]
    is an IPv4 prefix without host bits and [Q] is ascending, disjoint
    and has no two neighbours that are the halves of one shorter
    prefix. *)
Theorem normal_form_fixed_points (Q : list netip.Prefix) (targetAS : string) :
  (downloadReadySubnets parseIPv6 (Ok (writeSubnetsToFile string6 Q))
   = (Some Q, None, [])
   <-> Forall canonical Q /\ Sorted neighbours Q)
  /\ (processSubnets parseIPv6
        (map (fun p =>
                mkSubnetAS (netip_text.Prefix_String string6 p) targetAS) Q)
        targetAS
      = (Some Q, None, [])
      <-> Forall canonical Q /\ Sorted neighbours Q).
Proof.
  split.
  - split.
    + intros E. rewrite downloadReadySubnets_normalize in E.
      destruct (normalize_facts parseIPv6
                  (textsOfLines
                     (fst (bufio.Scan (writeSubnetsToFile string6 Q)))))
        as (out & E' & C & S & _).
      assert (out = Q) by congruence. subst out. auto.
    + intros [C S]. rewrite (reread_canonical parseIPv6 string6 Q C).
      apply normalize_fixed_iff. auto.
  - rewrite processSubnets_normalize, textsOfAS_printed.
    apply normalize_fixed_iff.
Qed.

End PrintedTheorems.

(** ** The IPv4 texts that the parser accepts *)

Lemma digit_of_byte (c : ascii) :
  gostring.isDigit c = true -> c = netip_text.digit (gostring.byte c - 48).
Proof.
  intros H. pose proof (isDigit_value c H) as R.
  unfold netip_text.digit, gostring.byte in *.
  replace (48 + (Z.of_N (N_of_ascii c) - 48)) with (Z.of_N (N_of_ascii c))
    by lia.
  rewrite N2Z.id, ascii_N_embedding. reflexivity.
Qed.

Lemma dec_single (d : Z) :
  0 <= d <= 9 -> dec d = String (netip_text.digit d) EmptyString.
Proof.
  intros H. destruct (dec_cases d ltac:(lia)) as [[_ E]|[[? _]|[? _]]];
    [exact E | lia | lia].
Qed.

Lemma dec_snoc (val d : Z) :
  1 <= val -> 0 <= d <= 9 -> val * 10 + d <= 255 ->
  dec (val * 10 + d) = (dec val ++ String (netip_text.digit d) EmptyString)%string.
Proof.
  intros Hv Hd Hle.
  assert (E1 : (val * 10 + d) / 10 = val) by (Z.div_mod_to_equations; lia).
  assert (E2 : (val * 10 + d) mod 10 = d) by (Z.div_mod_to_equations; lia).
  assert (E3 : (val * 10 + d) / 100 = val / 10)
    by (Z.div_mod_to_equations; lia).
  destruct (dec_cases val ltac:(lia)) as [[L ->]|[[L ->]|[L _]]]; [| |lia];
    destruct (dec_cases (val * 10 + d) ltac:(lia)) as [[L' E]|[[L' E]|[L' E]]];
    try lia; rewrite E, ?E1, ?E2, ?E3; reflexivity.
Qed.

Lemma dec_len_cases (x : Z) :
  0 <= x < 256 ->
  (x < 10 /\ gostring.len (dec x) = 1)
  \/ (10 <= x < 100 /\ gostring.len (dec x) = 2)
  \/ (100 <= x /\ gostring.len (dec x) = 3).
Proof.
  intros H. destruct (dec_cases x H) as [[L ->]|[[L ->]|[L ->]]];
    [left | right; left | right; right]; split; try assumption; reflexivity.
Qed.

Lemma octets_of_lor (f0 f1 f2 f3 : Z) :
  octet f0 -> octet f1 -> octet f2 -> octet f3 ->
  let a := Z.lor (Z.lor (Z.lor (Z.shiftl f0 24) (Z.shiftl f1 16))
                        (Z.shiftl f2 8)) f3 in
  octetOf a 0 = f0 /\ octetOf a 1 = f1 /\ octetOf a 2 = f2 /\ octetOf a 3 = f3.
Proof.
  unfold octet. intros H0 H1 H2 H3. cbv zeta. unfold octetOf.
  change (8 * (3 - 0)) with 24. change (8 * (3 - 1)) with 16.
  change (8 * (3 - 2)) with 8. change (8 * (3 - 3)) with 0.
  change 256 with (2 ^ 8) in *.
  assert (T : forall f j, 0 <= f < 2 ^ 8 -> j < 0 \/ 8 <= j ->
                          Z.testbit f j = false).
  { intros f j Hf [Hj|Hj];
      [apply Z.testbit_neg_r; exact Hj | apply (testbit_above f 8); lia]. }
  repeat split; apply Z.bits_inj'; intros j Hj;
    rewrite Z.testbit_mod_pow2, Z.shiftr_spec, !Z.lor_spec, !Z.shiftl_spec
      by lia;
    (destruct (Z.ltb_spec j 8) as [L|L]; cbn [andb];
     [|symmetry; apply T; [assumption | lia]]).
  - replace (j + 24 - 24) with j by lia.
    rewrite (T f1), (T f2), (T f3) by (try assumption; lia).
    rewrite !orb_false_r. reflexivity.
  - replace (j + 16 - 16) with j by lia.
    rewrite (T f0), (T f2), (T f3) by (try assumption; lia).
    rewrite !orb_false_r. reflexivity.
  - replace (j + 8 - 8) with j by lia.
    rewrite (T f0), (T f1), (T f3) by (try assumption; lia).
    rewrite !orb_false_r. reflexivity.
  - replace (j + 0) with j by lia.
    rewrite (T f0), (T f1), (T f2) by (try assumption; lia).
    reflexivity.
Qed.

Lemma AddrFrom4_string (f0 f1 f2 f3 : Z) :
  octet f0 -> octet f1 -> octet f2 -> octet f3 ->
  exists a,
    netip_text.AddrFrom4 (f0, f1, f2, f3) = netip.Addr4 a
    /\ 0 <= a < 2 ^ 32
    /\ netip_text.string4 a
       = (dec f0 ++ "." ++ dec f1 ++ "." ++ dec f2 ++ "." ++ dec f3)%string.
Proof.
  intros H0 H1 H2 H3.
  destruct (AddrFrom4_range (f0, f1, f2, f3)) as (a & E & Ra);
    [repeat split; apply H0 || apply H1 || apply H2 || apply H3|].
  exists a. split; [exact E|]. split; [exact Ra|].
  unfold netip_text.AddrFrom4 in E.
  pose proof (octets_of_lor f0 f1 f2 f3 H0 H1 H2 H3) as O. cbv zeta in O.
  assert (Ea : Z.lor (Z.lor (Z.lor (Z.shiftl f0 24) (Z.shiftl f1 16))
                            (Z.shiftl f2 8)) f3 = a) by congruence.
  rewrite Ea in O. destruct O as (O0 & O1 & O2 & O3).
  rewrite string4_eq, O0, O1, O2, O3. reflexivity.
Qed.

Lemma renderFields_next (fields : netip_text.fields4) (pos val : Z) :
  0 <= pos < 3 ->
  renderFields (netip_text.setField fields pos val) (pos + 1)
  = (renderFields fields pos ++ dec val ++ ".")%string.
Proof.
  intros H. destruct fields as [[[f0 f1] f2] f3].
  assert (E : pos = 0 \/ pos = 1 \/ pos = 2) by lia.
  destruct E as [-> | [-> | ->]]; cbv [renderFields netip_text.setField];
    cbn [Z.add Z.eqb Pos.add Pos.eqb Pos.succ]; rewrite ?sapp_assoc;
    reflexivity.
Qed.

Lemma loop_canonical (s : string) :
  forall i prev val pos digLen fields ip,
    netip_text.parseIPv4_loop s i prev val pos digLen fields = Ok ip ->
    0 <= pos <= 3 -> fieldsOK fields ->
    (digLen = 0 /\ val = 0
     /\ ((i = 0 /\ pos = 0) \/ (prev = "."%char /\ s <> EmptyString)))
    \/ (1 <= digLen /\ digLen = gostring.len (dec val) /\ 0 <= val <= 255
        /\ gostring.isDigit prev = true) ->
    exists a,
      ip = netip.Addr4 a /\ 0 <= a < 2 ^ 32
      /\ netip_text.string4 a
         = (renderFields fields pos ++ renderCur val digLen ++ s)%string.
Proof.
  induction s as [|c rest IH]; intros i prev val pos digLen fields ip E Hp Hf Inv;
    cbn [netip_text.parseIPv4_loop] in E.
  - destruct (Z.ltb_spec pos 3); [discriminate|]. injection E as <-.
    assert (pos = 3) by lia. subst pos.
    destruct Inv as [(_ & _ & [[_ ?]|[_ ?]])|(Hd & Hl & Hv & _)];
      [lia | contradiction |].
    destruct fields as [[[f0 f1] f2] f3]. destruct Hf as (O0 & O1 & O2 & _).
    destruct (AddrFrom4_string f0 f1 f2 val O0 O1 O2 ltac:(unfold octet; lia))
      as (a & Ea & Ra & Es).
    exists a. split; [exact Ea|]. split; [exact Ra|].
    rewrite Es. unfold renderFields, renderCur.
    destruct (Z.eqb_spec digLen 0); [lia|].
    change (3 =? 0) with false. change (3 =? 1) with false.
    change (3 =? 2) with false. cbv iota.
    rewrite sapp_nil_r, !sapp_assoc. reflexivity.
  - destruct (gostring.isDigit c) eqn:Dc.
    + destruct ((digLen =? 1) && (val =? 0)) eqn:LZ; [discriminate|].
      pose proof (isDigit_value c Dc) as Rd.
      set (d := gostring.byte c - 48) in *.
      destruct (Z.ltb_spec 255 (val * 10 + d)); [discriminate|].
      assert (Ec : c = netip_text.digit d) by (apply digit_of_byte; exact Dc).
      assert (N : 0 <= digLen /\ 0 <= val
                  /\ renderCur (val * 10 + d) (digLen + 1)
                     = (renderCur val digLen ++ String c EmptyString)%string
                  /\ digLen + 1 = gostring.len (dec (val * 10 + d))).
      { unfold renderCur.
        destruct (Z.eqb_spec (digLen + 1) 0) as [Z0|_].
        { destruct Inv as [(? & _)|(? & _)]; lia. }
        destruct Inv as [(-> & -> & _)|(Hd & Hl & Hv & _)].
        - change (0 =? 0) with true. cbv iota. cbn [Z.mul Z.add append].
          rewrite dec_single by lia. rewrite Ec.
          split; [lia|]. split; [lia|]. split; reflexivity.
        - destruct (Z.eqb_spec digLen 0); [lia|].
          assert (1 <= val).
          { destruct (Z.eq_dec val 0) as [->|]; [|lia].
            change (gostring.len (dec 0)) with 1 in Hl. subst digLen.
            discriminate LZ. }
          rewrite dec_snoc by lia. rewrite len_app, <- Hl, Ec.
          split; [lia|]. split; [lia|]. split; reflexivity. }
      destruct N as (N0 & N1 & N2 & N3).
      destruct (IH _ _ _ _ _ _ _ E Hp Hf) as (a & Ea & Ra & Es).
      { right. split; [lia|]. split; [exact N3|]. split; [lia | exact Dc]. }
      exists a. split; [exact Ea|]. split; [exact Ra|].
      rewrite Es, N2, !sapp_assoc. reflexivity.
    + destruct (Ascii.eqb_spec c ".") as [->|]; [|discriminate].
      destruct (Z.eqb_spec i 0) as [|Ni]; [discriminate|]. cbn [orb] in E.
      destruct rest as [|c1 rest1] eqn:Er; [discriminate|]. cbn [orb] in E.
      destruct (Ascii.eqb_spec prev ".") as [|Np]; [discriminate|].
      destruct (Z.eqb_spec pos 3) as [|Np3]; [discriminate|].
      destruct Inv as [(_ & _ & [[? _]|[? _]])|(Hd & Hl & Hv & _)];
        [contradiction | contradiction |].
      rewrite <- Er in *.
      destruct (IH _ _ _ _ _ _ _ E ltac:(lia)) as (a & Ea & Ra & Es).
      { apply setField_OK; [exact Hf | unfold octet; lia]. }
      { left. split; [reflexivity|]. split; [reflexivity|]. right.
        split; [reflexivity|]. rewrite Er. discriminate. }
      exists a. split; [exact Ea|]. split; [exact Ra|].
      rewrite Es, renderFields_next by lia.
      unfold renderCur. destruct (Z.eqb_spec digLen 0); [lia|].
      change (0 =? 0) with true. cbv iota.
      rewrite !sapp_assoc. reflexivity.
Qed.

(** An accepted IPv4 address text is the printed form of its address. *)
Lemma parseIPv4_canonical (s : string) (ip : netip.Addr) :
  netip_text.parseIPv4 s = Ok ip ->
  exists a, ip = netip.Addr4 a /\ 0 <= a < 2 ^ 32 /\ netip_text.string4 a = s.
Proof.
  intros E. unfold netip_text.parseIPv4 in E.
  destruct (loop_canonical s _ _ _ _ _ _ _ E ltac:(lia))
    as (a & Ea & Ra & Es).
  - repeat split; lia.
  - left. auto.
  - exists a. auto.
Qed.

(** ** The prefix length *)

Lemma LastIndexByte_split (s : string) (b : ascii) :
  0 <= gostring.LastIndexByte s b ->
  exists x y,
    s = (x ++ String b y)%string
    /\ gostring.len x = gostring.LastIndexByte s b
    /\ allBytes (notByte b) y = true.
Proof.
  induction s as [|c rest IH]; cbn [gostring.LastIndexByte]; [lia|].
  destruct (Z.leb_spec 0 (gostring.LastIndexByte rest b)) as [Hr|Hr].
  - intros _. destruct (IH Hr) as (x & y & -> & L & N).
    exists (String c x), y. split; [reflexivity|]. split; [|exact N].
    rewrite len_String. lia.
  - destruct (Ascii.eqb_spec c b) as [->|]; [|lia]. intros _.
    exists EmptyString, rest. split; [reflexivity|]. split; [reflexivity|].
    clear IH. induction rest as [|c rest IH]; [reflexivity|].
    cbn [gostring.LastIndexByte allBytes] in *.
    destruct (Z.leb_spec 0 (gostring.LastIndexByte rest b)); [lia|].
    unfold notByte at 1.
    destruct (Ascii.eqb_spec c b); [lia|]. cbn [negb andb]. apply IH. lia.
Qed.

Lemma digits_ge (s : string) :
  forall n v,
    0 <= n -> strconv.digits s n = Some v ->
    n <= v /\ (s <> EmptyString -> 10 * n <= v).
Proof.
  induction s as [|c rest IH]; intros n v Hn E; cbn [strconv.digits] in E.
  - injection E as <-. split; [lia | congruence].
  - destruct (gostring.isDigit c) eqn:Dc; [|discriminate].
    pose proof (isDigit_value c Dc).
    destruct (IH (n * 10 + (gostring.byte c - 48)) v ltac:(lia) E) as [H1 _].
    split; [lia | intros _; lia].
Qed.

Lemma Itoa_small_all :
  forallb (fun n => String.eqb (strconv.Itoa n) (itoa2 n))
          (map Z.of_nat (seq 0 33)) = true.
Proof. vm_compute. reflexivity. Qed.

Lemma Itoa_small (n : Z) : 0 <= n <= 32 -> strconv.Itoa n = itoa2 n.
Proof.
  intros H. pose proof Itoa_small_all as A.
  rewrite forallb_forall in A. apply String.eqb_eq, A.
  rewrite <- (Z2Nat.id n) by lia. apply in_map. apply in_seq. lia.
Qed.

(** A prefix length that passes the checks of [ParsePrefix] is written
    as [Itoa] writes it: no sign, no leading zero. *)
Lemma bits_text_canonical (bitsStr : string) (bits : Z) :
  ((1 <? gostring.len bitsStr)
   && ((utf8.nth_byte bitsStr 0 <? 49) || (57 <? utf8.nth_byte bitsStr 0)))
  = false ->
  strconv.Atoi bitsStr = Ok bits -> 0 <= bits <= 32 ->
  bitsStr = strconv.Itoa bits.
Proof.
  intros G A R. rewrite (Itoa_small bits R). unfold itoa2.
  destruct bitsStr as [|c rest]; [discriminate A|].
  unfold utf8.nth_byte in G. cbn [String.get] in G.
  rewrite len_String in G. pose proof (len_nonneg rest) as Lr.
  destruct rest as [|c2 rest2].
  - (* one byte *)
    unfold strconv.Atoi in A.
    destruct (Ascii.eqb c "-") eqn:Em; cbn [orb] in A; [discriminate A|].
    destruct (Ascii.eqb c "+") eqn:Ep; [discriminate A|].
    cbn [strconv.digits] in A.
    destruct (gostring.isDigit c) eqn:Dc; [|discriminate A].
    pose proof (isDigit_value c Dc) as Rd.
    cbn [Z.mul Z.add] in A.
    destruct ((- 2 ^ 63 <=? gostring.byte c - 48)
              && (gostring.byte c - 48 <=? 2 ^ 63 - 1)); [|discriminate A].
    injection A as <-.
    destruct (Z.ltb_spec (gostring.byte c - 48) 10); [|lia].
    rewrite <- digit_of_byte by exact Dc. reflexivity.
  - (* two bytes or more: the first one is 1..9 *)
    rewrite len_String in *. pose proof (len_nonneg rest2) as Lr2.
    destruct (Z.ltb_spec 1 (1 + (1 + gostring.len rest2))); [|lia].
    cbn [andb] in G. apply orb_false_iff in G. destruct G as [G1 G2].
    apply Z.ltb_ge in G1, G2.
    assert (Dc : gostring.isDigit c = true).
    { unfold gostring.isDigit. apply andb_true_iff.
      split; apply Z.leb_le; lia. }
    unfold strconv.Atoi in A.
    assert (Em : Ascii.eqb c "-" = false).
    { destruct (Ascii.eqb_spec c "-") as [->|]; [|reflexivity].
      vm_compute in G1. exfalso. apply G1. reflexivity. }
    assert (Ep : Ascii.eqb c "+" = false).
    { destruct (Ascii.eqb_spec c "+") as [->|]; [|reflexivity].
      vm_compute in G1. exfalso. apply G1. reflexivity. }
    rewrite Em, Ep in A. cbn [orb] in A.
    destruct (strconv.digits (String c (String c2 rest2)) 0) as [n|] eqn:Dg;
      [|discriminate A].
    destruct ((- 2 ^ 63 <=? n) && (n <=? 2 ^ 63 - 1)); [|discriminate A].
    injection A as <-.
    cbn [strconv.digits] in Dg. rewrite Dc in Dg.
    destruct (gostring.isDigit c2) eqn:Dc2; [|discriminate Dg].
    pose proof (isDigit_value c2 Dc2) as Rd2.
    cbn [Z.mul Z.add] in Dg.
    remember (gostring.byte c - 48) as d1 eqn:Ed1.
    remember (gostring.byte c2 - 48) as d2 eqn:Ed2.
    assert (R1 : 1 <= d1 <= 9) by lia.
    destruct (digits_ge rest2 (d1 * 10 + d2) n ltac:(lia) Dg) as [Hge Hnz].
    destruct rest2 as [|c3 rest3].
    + cbn [strconv.digits] in Dg. injection Dg as <-.
      destruct (Z.ltb_spec (d1 * 10 + d2) 10); [lia|].
      replace ((d1 * 10 + d2) / 10) with d1 by (Z.div_mod_to_equations; lia).
      replace ((d1 * 10 + d2) mod 10) with d2 by (Z.div_mod_to_equations; lia).
      subst d1 d2. rewrite <- !digit_of_byte by assumption. reflexivity.
    + specialize (Hnz ltac:(discriminate)). lia.
Qed.

Section AcceptedText.

Variable parseIPv6 : string -> result (Z * string).

Lemma ParseAddr_v4_canonical (s : string) (a : Z) :
  netip_text.ParseAddr parseIPv6 s = Ok (netip.Addr4 a) ->
  0 <= a < 2 ^ 32 /\ netip_text.string4 a = s.
Proof.
  unfold netip_text.ParseAddr. intros E.
  destruct (netip_text.addrKindOf s); try discriminate E.
  - destruct (parseIPv4_canonical s _ E) as (a' & Ea & Ra & Es).
    assert (a = a') by congruence. subst a'. auto.
  - destruct (parseIPv6 s) as [[a6 zone]|]; discriminate E.
Qed.

(** What [ParsePrefix] returns for a text it accepts as IPv4. *)
Lemma ParsePrefix_v4_canonical (s : string) (p : netip.Prefix) (a : Z) :
  netip_text.ParsePrefix parseIPv6 s = Ok p -> netip.ip p = netip.Addr4 a ->
  0 <= a < 2 ^ 32 /\ 0 <= netip.bits p <= 32
  /\ s = (netip_text.string4 a
          ++ String "/" (strconv.Itoa (netip.bits p)))%string.
Proof.
  intros E Ea.
  destruct (ParsePrefix_v4_range parseIPv6 s p a E Ea) as [Ra Rb].
  split; [exact Ra|]. split; [exact Rb|].
  unfold netip_text.ParsePrefix in E. cbv zeta in E.
  destruct (Z.ltb_spec (gostring.LastIndexByte s "/") 0) as [|Hi];
    [discriminate E|].
  destruct (LastIndexByte_split s "/" Hi) as (x & y & Es & Lx & Ny).
  assert (Hx : gostring.slice s 0 (gostring.LastIndexByte s "/") = x).
  { rewrite <- Lx, Es. apply slice_prefix. }
  assert (Hy : gostring.sliceFrom s (gostring.LastIndexByte s "/" + 1) = y).
  { rewrite <- Lx, Es.
    replace (x ++ String "/" y)%string with ((x ++ "/") ++ y)%string
      by (rewrite sapp_assoc; reflexivity).
    replace (gostring.len x + 1) with (gostring.len (x ++ "/"))
      by (rewrite len_app; reflexivity).
    apply sliceFrom_suffix. }
  rewrite Hx, Hy in E.
  destruct (netip_text.ParseAddr parseIPv6 x) as [ip0|] eqn:Ex;
    [|discriminate E].
  destruct (netip.Is6 ip0 && netip_text.hasZone ip0); [discriminate E|].
  destruct ((1 <? gostring.len y)
            && ((utf8.nth_byte y 0 <? 49) || (57 <? utf8.nth_byte y 0)))
    eqn:G; [discriminate E|].
  destruct (strconv.Atoi y) as [bits|] eqn:At; [|discriminate E].
  destruct ((bits <? 0) || ((if netip.Is6 ip0 then 128 else 32) <? bits))
    eqn:B; [discriminate E|].
  assert (Ep : netip.PrefixFrom ip0 bits = p) by congruence.
  unfold netip.PrefixFrom in Ep.
  apply orb_false_iff in B. destruct B as [B1 B2].
  apply Z.ltb_ge in B1, B2.
  destruct ip0 as [a0|a0 z0]; cbn [netip.Is6 netip.BitLen netip.withoutZone] in *.
  - destruct (Z.leb_spec 0 bits); [|lia].
    destruct (Z.leb_spec bits 32); [|lia]. cbn [andb] in Ep.
    subst p. cbn [netip.ip netip.bits] in *.
    assert (a0 = a) by congruence. subst a0.
    destruct (ParseAddr_v4_canonical x a Ex) as [_ <-].
    rewrite <- (bits_text_canonical y bits G At) by lia.
    exact Es.
  - destruct ((0 <=? bits) && (bits <=? 128)); subst p;
      cbn [netip.ip] in Ea; discriminate Ea.
Qed.

End AcceptedText.

Section AcceptedTextTheorem.

Variable parseIPv6 : string -> result (Z * string).
Variable string6 : Z -> string -> string.

(** X10. The IPv4 texts that [netip.ParsePrefix] accepts are
    exactly the canonical ones: a text parses to the IPv4 prefix [p]
    if and only if [p] is a valid IPv4 prefix and the text is what
    [Prefix.String] prints for it.  So an octet with a leading zero or
    above 255, a missing or extra octet, a sign or a leading zero in
    the length, a length above 32, or any other byte in the text
    (blank space included) makes the program log the entry as invalid
    (or, for IPv6 text, drop it). *)
Theorem accepted_ipv4_text_canonical (s : string) (p : netip.Prefix) :
  (netip_text.ParsePrefix parseIPv6 s = Ok p
   /\ netip.Is4 (netip.ip p) = true)
  <-> (validV4 p /\ s = netip_text.Prefix_String string6 p).
Proof.
  split.
  - intros [E I4].
    destruct (netip.ip p) as [a|a z] eqn:Ea; [|discriminate I4].
    destruct (ParsePrefix_v4_canonical parseIPv6 s p a E Ea) as (Ra & Rb & Es).
    split; [exists a; auto|].
    rewrite (Prefix_String_eq string6 p a Ea) by lia. exact Es.
  - intros [(a & Ea & Ra & Rb) ->]. split.
    + apply (ParsePrefix_String parseIPv6 string6 p a); assumption.
    + rewrite Ea. reflexivity.
Qed.

End AcceptedTextTheorem.

(** ** Lines, blank space and fields *)

Lemma spaceByte_ascii (c : ascii) :
  spaceByte c = true -> (utf8.RuneSelf <=? gostring.byte c) = false.
Proof.
  unfold spaceByte, strings.asciiSpace, utf8.RuneSelf. intros H.
  apply Z.leb_gt.
  apply orb_true_iff in H. destruct H as [H|H].
  - apply andb_true_iff in H. destruct H as [_ H]. apply Z.leb_le in H. lia.
  - apply Z.eqb_eq in H. lia.
Qed.

Lemma blankByte_space (c : ascii) : blankByte c = true -> spaceByte c = true.
Proof. unfold blankByte. intros H. apply andb_true_iff in H. tauto. Qed.

Lemma wordByte_facts (c : ascii) :
  wordByte c = true ->
  (utf8.RuneSelf <=? gostring.byte c) = false
  /\ strings.asciiSpace (gostring.byte c) = false
  /\ Ascii.eqb c "010" = false /\ Ascii.eqb c "013" = false.
Proof.
  unfold wordByte, asciiByte, spaceByte. intros H.
  apply andb_true_iff in H. destruct H as [H1 H2].
  apply Z.ltb_lt in H1. apply negb_true_iff in H2.
  split; [apply Z.leb_gt; exact H1|]. split; [exact H2|].
  split; [destruct (Ascii.eqb_spec c "010") as [->|] |
          destruct (Ascii.eqb_spec c "013") as [->|]];
    try reflexivity; discriminate H2.
Qed.

(** *** The scanner *)

Lemma scan_eof (last : string) :
  forall cur,
    allBytes (notByte "010") last = true ->
    gostring.len cur + gostring.len last < bufio.MaxScanTokenSize ->
    gostring.rev_onto last cur <> EmptyString ->
    bufio.scan last cur
    = ([bufio.dropCR (gostring.rev (gostring.rev_onto last cur))], true).
Proof.
  induction last as [|c last IH]; intros cur Hn Hl Hne;
    cbn [bufio.scan gostring.rev_onto] in *.
  - change (gostring.len EmptyString) with 0 in Hl.
    destruct cur as [|c0 cur0]; [contradiction|].
    destruct (Z.leb_spec bufio.MaxScanTokenSize (gostring.len (String c0 cur0)));
      [lia | reflexivity].
  - cbn [allBytes] in Hn. apply andb_true_iff in Hn. destruct Hn as [Hc Hn].
    rewrite len_String in Hl. pose proof (len_nonneg last).
    destruct (Z.leb_spec bufio.MaxScanTokenSize (gostring.len cur)); [lia|].
    unfold notByte in Hc. apply negb_true_iff in Hc. rewrite Hc.
    apply IH; [exact Hn | rewrite len_String; lia | exact Hne].
Qed.

Lemma scan_long (big tail : string) :
  forall cur,
    allBytes (notByte "010") big = true ->
    bufio.MaxScanTokenSize <= gostring.len cur + gostring.len big ->
    bufio.scan (big ++ tail) cur = ([], false).
Proof.
  induction big as [|c big IH]; intros cur Hn Hl; cbn [append].
  - change (gostring.len EmptyString) with 0 in Hl.
    destruct tail as [|c tail]; cbn [bufio.scan].
    + destruct cur as [|c0 cur0];
        [change (gostring.len EmptyString) with 0 in Hl;
         unfold bufio.MaxScanTokenSize in Hl; lia|].
      destruct (Z.leb_spec bufio.MaxScanTokenSize
                           (gostring.len (String c0 cur0))); [reflexivity | lia].
    + destruct (Z.leb_spec bufio.MaxScanTokenSize (gostring.len cur));
        [reflexivity | lia].
  - cbn [bufio.scan].
    destruct (Z.leb_spec bufio.MaxScanTokenSize (gostring.len cur));
      [reflexivity|].
    cbn [allBytes] in Hn. apply andb_true_iff in Hn. destruct Hn as [Hc Hn].
    unfold notByte in Hc. apply negb_true_iff in Hc. rewrite Hc.
    apply IH; [exact Hn|]. rewrite len_String in *. lia.
Qed.

Lemma fitsScanner_facts (l : string) :
  fitsScanner l = true ->
  allBytes (notByte "010") l = true
  /\ gostring.len l < bufio.MaxScanTokenSize.
Proof.
  unfold fitsScanner. intros H. apply andb_true_iff in H.
  destruct H as [H1 H2]. apply Z.ltb_lt in H2. auto.
Qed.

(** The scanner on lines that fit, followed by anything. *)
Lemma scan_lines (ls : list string) (rest : string) :
  forallb fitsScanner ls = true ->
  bufio.scan (joinLines ls ++ rest) EmptyString
  = (map bufio.dropCR ls ++ fst (bufio.scan rest EmptyString),
     snd (bufio.scan rest EmptyString)).
Proof.
  induction ls as [|l ls IH]; cbn [forallb joinLines map app]; intros H.
  - cbn [append]. destruct (bufio.scan rest EmptyString). reflexivity.
  - apply andb_true_iff in H. destruct H as [Hl H].
    destruct (fitsScanner_facts l Hl) as [Hn Hlen].
    rewrite sapp_assoc. cbn [append].
    rewrite scan_line by (assumption || (change (gostring.len EmptyString) with 0; lia)).
    rewrite (IH H). cbn [fst snd gostring.rev_onto].
    fold (gostring.rev l). rewrite srev_involutive. reflexivity.
Qed.

Lemma Scan_lines (ls : list string) :
  forallb fitsScanner ls = true ->
  bufio.Scan (joinLines ls) = (map bufio.dropCR ls, true).
Proof.
  intros H. unfold bufio.Scan.
  rewrite <- (sapp_nil_r (joinLines ls)), (scan_lines ls EmptyString H).
  cbn [bufio.scan fst snd]. rewrite app_nil_r. reflexivity.
Qed.

(** A last line without its newline is read all the same. *)
Lemma Scan_lines_last (ls : list string) (last : string) :
  forallb fitsScanner ls = true -> fitsScanner last = true ->
  last <> EmptyString ->
  bufio.Scan (joinLines ls ++ last) = (map bufio.dropCR (ls ++ [last]), true).
Proof.
  intros H Hl Hne. unfold bufio.Scan. rewrite (scan_lines ls last H).
  destruct (fitsScanner_facts last Hl) as [Hn Hlen].
  rewrite scan_eof; try assumption.
  - cbn [fst snd gostring.rev_onto]. fold (gostring.rev last).
    rewrite srev_involutive, map_app. reflexivity.
  - fold (gostring.rev last). intros E.
    apply (f_equal gostring.rev) in E. rewrite srev_involutive in E.
    exact (Hne E).
Qed.

(** An over-long line stops the scanner; what follows is not read. *)
Lemma Scan_long (ls : list string) (big tail : string) :
  forallb fitsScanner ls = true ->
  allBytes (notByte "010") big = true ->
  bufio.MaxScanTokenSize <= gostring.len big ->
  bufio.Scan (joinLines ls ++ big ++ tail) = (map bufio.dropCR ls, false).
Proof.
  intros H Hn Hl. unfold bufio.Scan. rewrite (scan_lines ls _ H).
  rewrite (scan_long big tail EmptyString Hn)
    by (change (gostring.len EmptyString) with 0; lia).
  cbn [fst snd]. rewrite app_nil_r. reflexivity.
Qed.

(** *** Carriage returns and blank space *)

Lemma allBytes_String (P : ascii -> bool) (c : ascii) (s : string) :
  allBytes P (String c s) = true -> P c = true /\ allBytes P s = true.
Proof. cbn [allBytes]. intros H. apply andb_true_iff in H. exact H. Qed.

Lemma rev_eq_nil (s : string) : gostring.rev s = EmptyString -> s = EmptyString.
Proof.
  intros E. apply (f_equal gostring.rev) in E.
  rewrite srev_involutive in E. exact E.
Qed.

Lemma dropCR_spaces (s : string) :
  allBytes spaceByte s = true -> allBytes spaceByte (bufio.dropCR s) = true.
Proof.
  intros H. unfold bufio.dropCR.
  destruct (gostring.rev s) as [|c rest] eqn:E; [exact H|].
  destruct (Ascii.eqb c "013"); [|exact H].
  rewrite allBytes_rev. rewrite <- allBytes_rev, E in H.
  apply (allBytes_String _ _ _ H).
Qed.

(** After a text that does not end in a carriage return, [dropCR] only
    changes the blank space. *)
Lemma dropCR_tail (body pad' : string) (c1 : ascii) (r1 : string) :
  allBytes spaceByte pad' = true ->
  gostring.rev body = String c1 r1 -> Ascii.eqb c1 "013" = false ->
  exists pad'',
    allBytes spaceByte pad'' = true
    /\ bufio.dropCR (body ++ pad') = (body ++ pad'')%string.
Proof.
  intros Hp Eb Hc. unfold bufio.dropCR. rewrite srev_app.
  destruct (gostring.rev pad') as [|c r] eqn:Er.
  - apply rev_eq_nil in Er. subst pad'. cbn [append].
    rewrite Eb, Hc. exists EmptyString. split; reflexivity.
  - cbn [append]. destruct (Ascii.eqb c "013").
    + exists (gostring.rev r). split.
      * rewrite allBytes_rev. rewrite <- allBytes_rev, Er in Hp.
        apply (allBytes_String _ _ _ Hp).
      * rewrite srev_app, srev_involutive. reflexivity.
    + exists pad'. split; [exact Hp | reflexivity].
Qed.

(** *** [TrimSpace] on ASCII blank space *)

Lemma TrimSpace_spaces_prefix (pad s : string) :
  allBytes spaceByte pad = true ->
  strings.TrimSpace (pad ++ s) = strings.TrimSpace s.
Proof.
  induction pad as [|c pad IH]; intros H; [reflexivity|].
  apply allBytes_String in H. destruct H as [Hc H].
  cbn [append]. change (strings.TrimSpace (String c (pad ++ s)))
    with (if utf8.RuneSelf <=? gostring.byte c
          then strings.TrimRightSpace (strings.TrimLeftSpace (String c (pad ++ s)))
          else if strings.asciiSpace (gostring.byte c)
               then strings.TrimSpace (pad ++ s)
               else strings.trimTail (gostring.rev (String c (pad ++ s)))).
  rewrite (spaceByte_ascii c Hc). unfold spaceByte in Hc. rewrite Hc.
  apply IH. exact H.
Qed.

Lemma TrimSpace_spaces (s : string) :
  allBytes spaceByte s = true -> strings.TrimSpace s = EmptyString.
Proof.
  intros H. rewrite <- (sapp_nil_r s). rewrite TrimSpace_spaces_prefix by exact H.
  reflexivity.
Qed.

Lemma trimTail_spaces (r x : string) :
  allBytes spaceByte r = true ->
  strings.trimTail (r ++ x) = strings.trimTail x.
Proof.
  induction r as [|c r IH]; intros H; [reflexivity|].
  apply allBytes_String in H. destruct H as [Hc H].
  cbn [append strings.trimTail].
  rewrite (spaceByte_ascii c Hc). unfold spaceByte in Hc. rewrite Hc.
  apply IH. exact H.
Qed.

Lemma tight_facts (t : string) :
  tight t = true ->
  exists c0 r0 c1 r1,
    t = String c0 r0 /\ wordByte c0 = true
    /\ gostring.rev t = String c1 r1 /\ wordByte c1 = true.
Proof.
  unfold tight. destruct t as [|c0 r0]; [discriminate|].
  destruct (gostring.rev (String c0 r0)) as [|c1 r1]; [discriminate|].
  intros H. apply andb_true_iff in H. destruct H.
  exists c0, r0, c1, r1. auto.
Qed.

Lemma TrimSpace_tight (pad t pad' : string) :
  allBytes spaceByte pad = true -> tight t = true ->
  allBytes spaceByte pad' = true ->
  strings.TrimSpace (pad ++ t ++ pad') = t.
Proof.
  intros Hp Ht Hp'. rewrite TrimSpace_spaces_prefix by exact Hp.
  destruct (tight_facts t Ht) as (c0 & r0 & c1 & r1 & E0 & W0 & E1 & W1).
  destruct (wordByte_facts c0 W0) as (A0 & S0 & _).
  destruct (wordByte_facts c1 W1) as (A1 & S1 & _).
  rewrite E0 at 1. cbn [append strings.TrimSpace]. rewrite A0, S0.
  change (String c0 (r0 ++ pad')) with (String c0 r0 ++ pad')%string.
  rewrite <- E0, srev_app, trimTail_spaces by (rewrite allBytes_rev; exact Hp').
  rewrite E1. cbn [strings.trimTail]. rewrite A1, S1, <- E1.
  apply srev_involutive.
Qed.

Lemma allBytes_blank_space (s : string) :
  allBytes blankByte s = true -> allBytes spaceByte s = true.
Proof. apply allBytes_impl. exact blankByte_space. Qed.

(** The text of a line of a ready list, as the readers see it. *)
Lemma okRow_text (row : string * string * string) :
  okRow row = true ->
  fitsScanner (lineOf row) = true
  /\ strings.TrimSpace (bufio.dropCR (lineOf row)) = textOf row.
Proof.
  destruct row as [[pad t] pad']. unfold okRow.
  intros H. repeat (apply andb_true_iff in H; destruct H as [H ?]).
  rename H into Hp, H0 into Hlen, H1 into Hn, H2 into Ht, H3 into Hp'.
  cbn [lineOf textOf] in *. split.
  - unfold fitsScanner. rewrite Hlen, !allBytes_app, Hn, andb_true_r.
    assert (NL : forall s, allBytes blankByte s = true ->
                           allBytes (notByte "010") s = true).
    { intros s. apply allBytes_impl. intros c Hc. unfold blankByte in Hc.
      apply andb_true_iff in Hc. tauto. }
    rewrite (NL pad Hp), (NL pad' Hp'). reflexivity.
  - pose proof (allBytes_blank_space pad Hp) as Sp.
    pose proof (allBytes_blank_space pad' Hp') as Sp'.
    destruct t as [|c0 r0].
    + cbn [append]. apply TrimSpace_spaces, dropCR_spaces.
      rewrite allBytes_app, Sp, Sp'. reflexivity.
    + cbn [isEmpty orb] in Ht. set (t := String c0 r0) in *.
      destruct (tight_facts t Ht) as (c0' & r0' & c1 & r1 & _ & _ & E1 & W1).
      destruct (wordByte_facts c1 W1) as (_ & _ & _ & CR).
      rewrite <- sapp_assoc.
      destruct (dropCR_tail (pad ++ t) pad' c1 (r1 ++ gostring.rev pad) Sp')
        as (pad'' & Sp'' & ->);
        [rewrite srev_app, E1; reflexivity | exact CR |].
      rewrite sapp_assoc. apply TrimSpace_tight; assumption.
Qed.

(** *** [Fields] on ASCII text *)

Lemma setBits_ascii (s : string) :
  forall acc,
    0 <= acc < 2 ^ 7 -> allBytes asciiByte s = true ->
    0 <= strings.setBits s acc < 2 ^ 7.
Proof.
  induction s as [|c s IH]; intros acc Ha H; cbn [strings.setBits];
    [exact Ha|].
  apply allBytes_String in H. destruct H as [Hc H].
  apply IH; [|exact H]. apply lor_bound; [lia | exact Ha |].
  unfold asciiByte, utf8.RuneSelf in Hc. apply Z.ltb_lt in Hc.
  pose proof (byte_range c). change (2 ^ 7) with 128. lia.
Qed.

Lemma Fields_ascii (s : string) :
  allBytes asciiByte s = true ->
  strings.Fields s = strings.fieldsASCII s EmptyString.
Proof.
  intros H. unfold strings.Fields.
  pose proof (setBits_ascii s 0 ltac:(lia) H) as B.
  change (2 ^ 7) with 128 in B. unfold utf8.RuneSelf.
  destruct (Z.leb_spec 128 (strings.setBits s 0)); [lia | reflexivity].
Qed.

Lemma fieldsASCII_trailing (x sp : string) :
  allBytes spaceByte sp = true ->
  forall cur,
    strings.fieldsASCII (x ++ sp) cur = strings.fieldsASCII x cur.
Proof.
  intros Hs. induction x as [|c x IH]; intros cur; cbn [append].
  - revert cur. induction sp as [|c sp IHs]; intros cur; [reflexivity|].
    apply allBytes_String in Hs. destruct Hs as [Hc Hs].
    cbn [strings.fieldsASCII]. unfold spaceByte in Hc. rewrite Hc.
    destruct cur; rewrite (IHs Hs); reflexivity.
  - cbn [strings.fieldsASCII].
    destruct (strings.asciiSpace (gostring.byte c));
      [destruct cur|]; rewrite IH; reflexivity.
Qed.

Lemma fieldsASCII_leading (sp x : string) :
  allBytes spaceByte sp = true ->
  strings.fieldsASCII (sp ++ x) EmptyString
  = strings.fieldsASCII x EmptyString.
Proof.
  induction sp as [|c sp IH]; intros Hs; [reflexivity|].
  apply allBytes_String in Hs. destruct Hs as [Hc Hs].
  cbn [append strings.fieldsASCII]. unfold spaceByte in Hc. rewrite Hc.
  apply IH. exact Hs.
Qed.

Lemma fieldsASCII_word (w x : string) :
  allBytes wordByte w = true ->
  forall cur,
    strings.fieldsASCII (w ++ x) cur
    = strings.fieldsASCII x (gostring.rev_onto w cur).
Proof.
  induction w as [|c w IH]; intros Hw cur; [reflexivity|].
  apply allBytes_String in Hw. destruct Hw as [Hc Hw].
  destruct (wordByte_facts c Hc) as (_ & S & _).
  cbn [append strings.fieldsASCII gostring.rev_onto]. rewrite S.
  apply IH. exact Hw.
Qed.

(** At the end of the text or before a space, the field in hand is
    emitted. *)
Lemma fieldsASCII_emit (x cur : string) :
  cur <> EmptyString ->
  match x with
  | EmptyString => True
  | String c _ => spaceByte c = true
  end ->
  strings.fieldsASCII x cur
  = gostring.rev cur :: strings.fieldsASCII x EmptyString.
Proof.
  intros Hc Hx. destruct x as [|c x]; cbn [strings.fieldsASCII].
  - destruct cur; [contradiction | reflexivity].
  - unfold spaceByte in Hx. rewrite Hx.
    destruct cur; [contradiction | reflexivity].
Qed.

Lemma isWord_facts (w : string) :
  isWord w = true -> w <> EmptyString /\ allBytes wordByte w = true.
Proof.
  unfold isWord. intros H. apply andb_true_iff in H. destruct H as [H1 H2].
  split; [|exact H2]. intros ->. discriminate H1.
Qed.

Lemma itemsText_head (items : list (string * string)) (trail : string) :
  okItems false items = true -> allBytes blankByte trail = true ->
  match (itemsText items ++ trail)%string with
  | EmptyString => True
  | String c _ => spaceByte c = true
  end.
Proof.
  intros Hi Ht. destruct items as [|[sep w] rest]; cbn [itemsText append].
  - destruct trail as [|c trail]; [exact I|].
    apply allBytes_String in Ht. apply blankByte_space, Ht.
  - cbn [okItems orb] in Hi.
    repeat (apply andb_true_iff in Hi; destruct Hi as [Hi ?]).
    destruct sep as [|c sep]; [discriminate|].
    apply allBytes_String in Hi. cbn [append]. apply blankByte_space, Hi.
Qed.

(** The fields of a table line are its words. *)
Lemma fieldsASCII_items (items : list (string * string)) (trail : string) :
  forall first,
    okItems first items = true -> allBytes blankByte trail = true ->
    strings.fieldsASCII (itemsText items ++ trail) EmptyString
    = map snd items.
Proof.
  induction items as [|[sep w] rest IH]; intros first Hi Ht;
    cbn [itemsText map snd].
  - cbn [append]. rewrite <- (sapp_nil_r trail).
    rewrite fieldsASCII_leading by (apply allBytes_blank_space; exact Ht).
    reflexivity.
  - cbn [okItems] in Hi.
    repeat (apply andb_true_iff in Hi; destruct Hi as [Hi ?]).
    rename Hi into Hsep, H into Hrest, H0 into Hw.
    destruct (isWord_facts w Hw) as [Wne Ww].
    rewrite !sapp_assoc.
    rewrite fieldsASCII_leading by (apply allBytes_blank_space; exact Hsep).
    rewrite fieldsASCII_word by exact Ww.
    rewrite fieldsASCII_emit.
    + cbn [gostring.rev_onto]. fold (gostring.rev w).
      rewrite srev_involutive, (IH false Hrest Ht). reflexivity.
    + fold (gostring.rev w). intros E. apply rev_eq_nil in E. contradiction.
    + apply itemsText_head; assumption.
Qed.

Lemma trimTail_ascii (r : string) :
  allBytes asciiByte r = true ->
  exists sp,
    allBytes spaceByte sp = true
    /\ gostring.rev r = (strings.trimTail r ++ sp)%string.
Proof.
  induction r as [|c r IH]; intros H.
  - exists EmptyString. split; reflexivity.
  - apply allBytes_String in H. destruct H as [Hc H].
    unfold asciiByte in Hc. apply Z.ltb_lt in Hc.
    cbn [strings.trimTail].
    destruct (Z.leb_spec utf8.RuneSelf (gostring.byte c)); [lia|].
    destruct (strings.asciiSpace (gostring.byte c)) eqn:S.
    + destruct (IH H) as (sp & Hs & E).
      exists (sp ++ String c EmptyString)%string. split.
      * rewrite allBytes_app, Hs. cbn [allBytes]. unfold spaceByte.
        rewrite S. reflexivity.
      * rewrite srev_String, E, sapp_assoc. reflexivity.
    + exists EmptyString. split; [reflexivity|].
      rewrite sapp_nil_r. reflexivity.
Qed.

(** An ASCII text is its trimmed form with spaces on both sides. *)
Lemma TrimSpace_ascii_split (s : string) :
  allBytes asciiByte s = true ->
  exists sp1 sp2,
    allBytes spaceByte sp1 = true /\ allBytes spaceByte sp2 = true
    /\ s = (sp1 ++ strings.TrimSpace s ++ sp2)%string.
Proof.
  induction s as [|c s IH]; intros H.
  - exists EmptyString, EmptyString. repeat split; reflexivity.
  - pose proof H as Hall.
    apply allBytes_String in H. destruct H as [Hc H].
    unfold asciiByte in Hc. apply Z.ltb_lt in Hc.
    cbn [strings.TrimSpace].
    destruct (Z.leb_spec utf8.RuneSelf (gostring.byte c)); [lia|].
    destruct (strings.asciiSpace (gostring.byte c)) eqn:S.
    + destruct (IH H) as (sp1 & sp2 & H1 & H2 & E).
      exists (String c sp1), sp2. split.
      * cbn [allBytes]. unfold spaceByte at 1. rewrite S, H1. reflexivity.
      * split; [exact H2|]. cbn [append]. rewrite <- E. reflexivity.
    + destruct (trimTail_ascii (gostring.rev (String c s))) as (sp & Hs & E).
      * rewrite allBytes_rev. exact Hall.
      * rewrite srev_involutive in E.
        exists EmptyString, sp. split; [reflexivity|]. split; [exact Hs|].
        exact E.
Qed.

Lemma asciiByte_of_space (c : ascii) : spaceByte c = true -> asciiByte c = true.
Proof.
  intros H. unfold asciiByte. apply Z.ltb_lt.
  pose proof (spaceByte_ascii c H) as A. apply Z.leb_gt in A. exact A.
Qed.

(** Trimming first does not change the fields of an ASCII text. *)
Lemma Fields_TrimSpace_ascii (s : string) :
  allBytes asciiByte s = true ->
  strings.Fields (strings.TrimSpace s) = strings.Fields s.
Proof.
  intros H.
  destruct (TrimSpace_ascii_split s H) as (sp1 & sp2 & H1 & H2 & E).
  assert (HT : allBytes asciiByte (strings.TrimSpace s) = true).
  { rewrite E, !allBytes_app in H.
    apply andb_true_iff in H. destruct H as [_ H].
    apply andb_true_iff in H. tauto. }
  rewrite (Fields_ascii _ HT), (Fields_ascii _ H).
  rewrite E at 2.
  rewrite fieldsASCII_leading, fieldsASCII_trailing by assumption.
  reflexivity.
Qed.

Lemma dropCR_cases (s : string) :
  bufio.dropCR s = s
  \/ s = (bufio.dropCR s ++ String "013" EmptyString)%string.
Proof.
  unfold bufio.dropCR. destruct (gostring.rev s) as [|c r] eqn:E; [left; reflexivity|].
  destruct (Ascii.eqb_spec c "013") as [->|]; [right | left; reflexivity].
  apply (f_equal gostring.rev) in E. rewrite srev_involutive in E.
  rewrite E, srev_String. reflexivity.
Qed.

Lemma Fields_dropCR_ascii (s : string) :
  allBytes asciiByte s = true ->
  allBytes asciiByte (bufio.dropCR s) = true
  /\ strings.Fields (bufio.dropCR s) = strings.Fields s.
Proof.
  intros H. destruct (dropCR_cases s) as [->|E]; [auto|].
  assert (HD : allBytes asciiByte (bufio.dropCR s) = true).
  { rewrite E, allBytes_app in H. apply andb_true_iff in H. tauto. }
  split; [exact HD|].
  rewrite (Fields_ascii _ HD), (Fields_ascii _ H).
  rewrite E at 2. rewrite fieldsASCII_trailing; reflexivity.
Qed.

(** ** What the readers make of the layout of their input *)

Lemma eqb_empty (s : string) : String.eqb s EmptyString = isEmpty s.
Proof. destruct s; reflexivity. Qed.

Lemma textsOfLines_rows (rows : list (string * string * string)) :
  forallb okRow rows = true ->
  forallb fitsScanner (map lineOf rows) = true
  /\ textsOfLines (map bufio.dropCR (map lineOf rows)) = plainLines rows.
Proof.
  unfold textsOfLines, plainLines.
  induction rows as [|row rows IH]; cbn [forallb map filter]; intros H;
    [split; reflexivity|].
  apply andb_true_iff in H. destruct H as [Hr H].
  destruct (IH H) as [IH1 IH2]. destruct (okRow_text row Hr) as [F T].
  rewrite F, IH1, T, IH2, eqb_empty. split; reflexivity.
Qed.

Lemma plain_rows_ok (rows : list (string * string * string)) :
  forallb okRow rows = true ->
  forallb okRow (map (fun t => (EmptyString, t, EmptyString)) (plainLines rows))
  = true
  /\ plainLines (map (fun t => (EmptyString, t, EmptyString)) (plainLines rows))
     = plainLines rows
  /\ map lineOf (map (fun t => (EmptyString, t, EmptyString)) (plainLines rows))
     = plainLines rows.
Proof.
  unfold plainLines.
  induction rows as [|[[pad t] pad'] rows IH]; cbn [forallb map filter textOf];
    intros H; [repeat split; reflexivity|].
  apply andb_true_iff in H. destruct H as [Hr H].
  destruct (IH H) as (IH1 & IH2 & IH3).
  destruct (isEmpty t) eqn:Et; cbn [negb]; [auto|].
  cbn [map forallb filter textOf lineOf]. rewrite Et. cbn [negb].
  rewrite IH1, IH2, IH3. cbn [append]. rewrite sapp_nil_r.
  split; [|split; reflexivity]. rewrite andb_true_r.
  unfold okRow in *. cbn [lineOf allBytes append andb] in *.
  rewrite sapp_nil_r.
  repeat (apply andb_true_iff in Hr; destruct Hr as [Hr ?]).
  rewrite H1, H2. cbn [andb]. apply Z.ltb_lt. apply Z.ltb_lt in H0.
  rewrite !len_app in H0. pose proof (len_nonneg pad).
  pose proof (len_nonneg pad'). lia.
Qed.

Section Readers.

Variable parseIPv6 : string -> result (Z * string).

Lemma downloadReadySubnets_rows (rows : list (string * string * string)) :
  forallb okRow rows = true ->
  downloadReadySubnets parseIPv6 (Ok (joinLines (map lineOf rows)))
  = normalize parseIPv6 (plainLines rows)
  /\ downloadReadySplitSubnets parseIPv6 (Ok (joinLines (map lineOf rows)))
     = normalize parseIPv6 (plainLines rows).
Proof.
  intros H. destruct (textsOfLines_rows rows H) as [F T].
  pose proof (Scan_lines _ F) as S.
  rewrite downloadReadySubnets_normalize,
    downloadReadySplitSubnets_normalize by (rewrite S; reflexivity).
  rewrite S. cbn [fst]. rewrite T. split; reflexivity.
Qed.

(** X11. The readers of ready lists see only the texts: blank
    lines, ASCII blank space before and after a text, and a carriage
    return before the newline change nothing.  A list with such layout
    gives [downloadReadySubnets] and [downloadReadySplitSubnets] the
    same prefixes, error and log lines as the list of its bare texts,
    one per line. *)
Theorem readers_ignore_layout (rows : list (string * string * string)) :
  forallb okRow rows = true ->
  downloadReadySubnets parseIPv6 (Ok (joinLines (map lineOf rows)))
  = downloadReadySubnets parseIPv6 (Ok (joinLines (plainLines rows)))
  /\ downloadReadySplitSubnets parseIPv6 (Ok (joinLines (map lineOf rows)))
     = downloadReadySubnets parseIPv6 (Ok (joinLines (plainLines rows))).
Proof.
  intros H. destruct (plain_rows_ok rows H) as (P1 & P2 & P3).
  destruct (downloadReadySubnets_rows rows H) as [-> ->].
  destruct (downloadReadySubnets_rows _ P1) as [E _].
  rewrite P2, P3 in E. rewrite E. split; reflexivity.
Qed.

(** X12. A last line that is not closed by a newline is read
    like any other: [downloadReadySubnets] and [downloadBGPTable]
    return the same for the data with and without the final newline. *)
Theorem final_newline_optional (ls : list string) (last : string) :
  forallb fitsScanner ls = true -> fitsScanner last = true ->
  last <> EmptyString ->
  downloadReadySubnets parseIPv6 (Ok (joinLines ls ++ last)%string)
  = downloadReadySubnets parseIPv6 (Ok (joinLines (ls ++ [last])))
  /\ downloadBGPTable (Ok (joinLines ls ++ last)%string)
     = downloadBGPTable (Ok (joinLines (ls ++ [last]))).
Proof.
  intros H Hl Hne.
  assert (F : forallb fitsScanner (ls ++ [last]) = true).
  { rewrite forallb_app, H. cbn [forallb]. rewrite Hl. reflexivity. }
  unfold downloadReadySubnets, downloadBGPTable.
  rewrite (Scan_lines_last ls last H Hl Hne), (Scan_lines _ F).
  split; reflexivity.
Qed.

(** X13. A line of 65536 bytes or more stops the scanner.
    [downloadReadySubnets] does not look at the scanner's error: it
    returns, with a nil error, the prefixes of the lines before the
    long one, as if the data ended there; the long line and all lines
    after it are dropped without a diagnostic.
    [downloadReadySplitSubnets] and [downloadBGPTable] return the
    scanner's error and no result. *)
Theorem overlong_line_truncates (ls : list string) (big tail : string) :
  forallb fitsScanner ls = true ->
  allBytes (notByte "010") big = true ->
  bufio.MaxScanTokenSize <= gostring.len big ->
  downloadReadySubnets parseIPv6 (Ok (joinLines ls ++ big ++ tail)%string)
  = downloadReadySubnets parseIPv6 (Ok (joinLines ls))
  /\ downloadReadySplitSubnets parseIPv6 (Ok (joinLines ls ++ big ++ tail)%string)
     = (Some [], Some "bufio.Scanner: token too long"%string,
        snd (downloadReadySubnets parseIPv6 (Ok (joinLines ls))))
  /\ downloadBGPTable (Ok (joinLines ls ++ big ++ tail)%string)
     = Err "bufio.Scanner: token too long".
Proof.
  intros H Hn Hl.
  pose proof (Scan_long ls big tail H Hn Hl) as S.
  pose proof (Scan_lines ls H) as S'.
  split; [|split].
  - unfold downloadReadySubnets. rewrite S, S'. reflexivity.
  - rewrite downloadReadySplitSubnets_same, S. cbn [snd].
    unfold downloadReadySubnets. rewrite S, S'. reflexivity.
  - unfold downloadBGPTable. rewrite S. reflexivity.
Qed.

End Readers.

(** ** The lines of the BGP table *)

Lemma itemsText_bytes (P : ascii -> bool) (items : list (string * string)) :
  (forall c, blankByte c = true -> P c = true) ->
  (forall c, wordByte c = true -> P c = true) ->
  forall first,
    okItems first items = true -> allBytes P (itemsText items) = true.
Proof.
  intros Hb Hw. induction items as [|[sep w] rest IH]; intros first H;
    cbn [itemsText]; [reflexivity|].
  cbn [okItems] in H.
  repeat (apply andb_true_iff in H; destruct H as [H ?]).
  destruct (isWord_facts w H1) as [_ Ww].
  rewrite !allBytes_app, (allBytes_impl _ _ _ Hb H),
    (allBytes_impl _ _ _ Hw Ww), (IH false H0).
  reflexivity.
Qed.

Lemma tableLine_bytes (P : ascii -> bool) (row : list (string * string) * string) :
  (forall c, blankByte c = true -> P c = true) ->
  (forall c, wordByte c = true -> P c = true) ->
  okTableRow row = true -> allBytes P (tableLine row) = true.
Proof.
  intros Hb Hw H. unfold okTableRow in H.
  repeat (apply andb_true_iff in H; destruct H as [H ?]).
  unfold tableLine.
  rewrite allBytes_app, (itemsText_bytes P _ Hb Hw true H),
    (allBytes_impl _ _ _ Hb H1).
  reflexivity.
Qed.

Lemma blank_notNewline (c : ascii) : blankByte c = true -> notByte "010" c = true.
Proof. unfold blankByte. intros H. apply andb_true_iff in H. tauto. Qed.

Lemma word_notNewline (c : ascii) : wordByte c = true -> notByte "010" c = true.
Proof.
  intros H. destruct (wordByte_facts c H) as (_ & _ & N & _).
  unfold notByte. rewrite N. reflexivity.
Qed.

Lemma blank_ascii (c : ascii) : blankByte c = true -> asciiByte c = true.
Proof. intros H. apply asciiByte_of_space, blankByte_space, H. Qed.

Lemma word_ascii (c : ascii) : wordByte c = true -> asciiByte c = true.
Proof. unfold wordByte. intros H. apply andb_true_iff in H. tauto. Qed.

(** The fields that [downloadBGPTable] finds on a table line. *)
Lemma tableRow_fields (row : list (string * string) * string) :
  okTableRow row = true ->
  fitsScanner (tableLine row) = true
  /\ strings.Fields (strings.TrimSpace (bufio.dropCR (tableLine row)))
     = map snd (fst row).
Proof.
  intros H.
  pose proof (tableLine_bytes _ row blank_notNewline word_notNewline H) as NL.
  pose proof (tableLine_bytes _ row blank_ascii word_ascii H) as AS.
  unfold okTableRow in H.
  repeat (apply andb_true_iff in H; destruct H as [H ?]).
  split; [unfold fitsScanner; rewrite NL, H0; reflexivity|].
  destruct (Fields_dropCR_ascii _ AS) as [AD ED].
  rewrite (Fields_TrimSpace_ascii _ AD), ED, (Fields_ascii _ AS).
  apply (fieldsASCII_items _ _ true); assumption.
Qed.

Lemma fold_tableLine_body (lines : list string) :
  forall acc,
    fold_left tableLine_body lines acc
    = acc ++ flat_map (fun text => tableLine_body [] text) lines.
Proof.
  induction lines as [|l lines IH]; intros acc; cbn [fold_left flat_map].
  - rewrite app_nil_r. reflexivity.
  - rewrite IH, app_assoc. f_equal.
    unfold tableLine_body.
    destruct (strings.Fields (strings.TrimSpace l)) as [|p0 [|p1 ps]];
      cbn [app]; rewrite ?app_nil_r; reflexivity.
Qed.

(** X14. The format of the BGP table: on every line the first
    two blank-separated words are the subnet and the AS; further words
    are ignored, and a line with fewer than two words gives no entry.
    For a table of ASCII lines, each made of words separated by runs of
    blank space (also before the first word, after the last one, and
    with a carriage return before the newline), [downloadBGPTable]
    returns exactly the entries of its lines, in order. *)
Theorem table_rows_parsed (rows : list (list (string * string) * string)) :
  forallb okTableRow rows = true ->
  downloadBGPTable (Ok (joinLines (map tableLine rows)))
  = Ok (flat_map entryOf rows).
Proof.
  intros H.
  assert (F : forallb fitsScanner (map tableLine rows) = true
              /\ flat_map (fun text => tableLine_body [] text)
                          (map bufio.dropCR (map tableLine rows))
                 = flat_map entryOf rows).
  { induction rows as [|row rows IH]; cbn [forallb map flat_map] in *;
      [split; reflexivity|].
    apply andb_true_iff in H. destruct H as [Hr H].
    destruct (IH H) as [IH1 IH2]. destruct (tableRow_fields row Hr) as [F T].
    rewrite F, IH1, IH2. split; [reflexivity|]. f_equal.
    unfold tableLine_body, entryOf. rewrite T.
    destruct (map snd (fst row)) as [|w0 [|w1 ws]]; reflexivity. }
  destruct F as [F E].
  unfold downloadBGPTable. rewrite (Scan_lines _ F).
  cbn [negb]. rewrite fold_tableLine_body, E. reflexivity.
Qed.

(** ** Fields of arbitrary bytes *)

Lemma isField_rev_cons (c : ascii) (f : string) :
  spaceByte c = false ->
  (f = EmptyString \/ isField (gostring.rev f) = true) ->
  isField (gostring.rev (String c f)) = true.
Proof.
  intros Hc Hf. unfold isField. rewrite allBytes_rev. cbn [allBytes].
  rewrite Hc. cbn [negb andb].
  assert (N : isEmpty (gostring.rev (String c f)) = false).
  { destruct (gostring.rev (String c f)) eqn:E; [|reflexivity].
    apply rev_eq_nil in E. discriminate E. }
  rewrite N. cbn [negb andb].
  destruct Hf as [->|Hf]; [reflexivity|].
  unfold isField in Hf. rewrite allBytes_rev in Hf.
  apply andb_true_iff in Hf. tauto.
Qed.

(** The ASCII loop: every field it emits is a field. *)
Lemma fieldsASCII_fields (s : string) :
  forall cur,
    (cur = EmptyString \/ isField (gostring.rev cur) = true) ->
    forallb isField (strings.fieldsASCII s cur) = true.
Proof.
  induction s as [|c s IH]; intros cur Hc; cbn [strings.fieldsASCII].
  - destruct cur as [|c0 cur0]; [reflexivity|].
    destruct Hc as [Hc|Hc]; [discriminate Hc|].
    cbn [forallb]. rewrite Hc. reflexivity.
  - destruct (strings.asciiSpace (gostring.byte c)) eqn:S.
    + destruct cur as [|c0 cur0]; [apply IH; left; reflexivity|].
      destruct Hc as [Hc|Hc]; [discriminate Hc|].
      cbn [forallb]. rewrite Hc. apply IH. left. reflexivity.
    + apply IH. right. apply isField_rev_cons; assumption.
Qed.

(** What follows the first byte of a rune that is longer than one
    byte: bytes that are not ASCII. *)
Lemma decode_high (c : ascii) (rest : string) (r size : Z) :
  utf8.DecodeRuneInString (String c rest) = (r, size) ->
  1 <= size /\ highPrefix (Z.to_nat (size - 1)) rest = true.
Proof.
  intros E. apply (f_equal snd) in E. cbn [snd] in E.
  unfold utf8.DecodeRuneInString, utf8.cont, utf8.nth_byte, utf8.RuneSelf in *.
  cbv zeta in E.
  destruct rest as [|c1 [|c2 [|c3 rest3]]]; cbn [String.get] in E;
    rewrite ?len_String in E; try change (gostring.len EmptyString) with 0 in E;
    try pose proof (len_nonneg rest3);
    repeat (match type of E with
            | context [Z.ltb ?a ?b] => destruct (Z.ltb_spec a b)
            | context [Z.leb ?a ?b] => destruct (Z.leb_spec a b)
            | context [Z.eqb ?a ?b] => destruct (Z.eqb_spec a b)
            end; cbn [orb andb negb snd] in E);
    try lia; subst size; (split; [lia|]);
    try reflexivity;
    repeat match goal with
           | H : context [Z.eqb ?a ?b] |- _ => destruct (Z.eqb_spec a b)
           end;
    repeat match goal with
           | |- context [Z.to_nat ?e] =>
               let v := eval vm_compute in (Z.to_nat e) in
               change (Z.to_nat e) with v
           end;
    cbn [highPrefix]; unfold utf8.RuneSelf;
    repeat match goal with
           | |- context [Z.leb ?a ?b] => destruct (Z.leb_spec a b)
           end;
    cbn [andb]; try reflexivity; lia.
Qed.

(** An ASCII space is a rune of its own, and a space. *)
Lemma decode_space (c : ascii) (rest : string) :
  spaceByte c = true ->
  exists r size,
    utf8.DecodeRuneInString (String c rest) = (r, size)
    /\ unicode.IsSpace r = true.
Proof.
  intros H. pose proof (spaceByte_ascii c H) as A. apply Z.leb_gt in A.
  unfold utf8.RuneSelf in A.
  unfold utf8.DecodeRuneInString.
  rewrite len_String. pose proof (len_nonneg rest) as L0.
  destruct (Z.ltb_spec (1 + gostring.len rest) 1); [lia|].
  unfold utf8.nth_byte. cbn [String.get].
  destruct (Z.ltb_spec (gostring.byte c) 128); [|lia].
  exists (gostring.byte c), 1. split; [reflexivity|].
  unfold unicode.IsSpace. destruct (Z.leb_spec (gostring.byte c) 255); [|lia].
  unfold spaceByte, strings.asciiSpace in H.
  apply orb_true_iff in H.
  destruct H as [H|H]; rewrite H, ?orb_true_r; reflexivity.
Qed.

Lemma highPrefix_notSpace (k : nat) (c : ascii) (rest : string) :
  highPrefix (S k) (String c rest) = true ->
  spaceByte c = false /\ highPrefix k rest = true.
Proof.
  cbn [highPrefix]. intros H. apply andb_true_iff in H. destruct H as [H1 H2].
  split; [|exact H2].
  destruct (spaceByte c) eqn:S; [|reflexivity].
  rewrite (spaceByte_ascii c S) in H1. discriminate H1.
Qed.

(** The loop over runes: every field it emits is a field. *)
Lemma FieldsFuncSpace_fields (s : string) :
  forall skip cur,
    highPrefix skip s = true ->
    match cur with
    | Some f => isField (gostring.rev f) = true
    | None => True
    end ->
    forallb isField (strings.FieldsFuncSpace s skip cur) = true.
Proof.
  induction s as [|c s IH]; intros skip cur Hs Hc;
    cbn [strings.FieldsFuncSpace].
  - destruct cur as [f|]; [|reflexivity]. cbn [forallb]. rewrite Hc.
    reflexivity.
  - destruct skip as [|k].
    + destruct (utf8.DecodeRuneInString (String c s)) as [r size] eqn:E.
      destruct (decode_high c s r size E) as [D1 D2].
      destruct (unicode.IsSpace r) eqn:Sp.
      * destruct cur as [f|]; cbn [forallb]; rewrite ?Hc;
          apply IH; (exact D2 || exact I).
      * apply IH; [exact D2|].
        apply isField_rev_cons.
        -- destruct (spaceByte c) eqn:Sc; [|reflexivity].
           destruct (decode_space c s Sc) as (r' & size' & E' & Sp').
           rewrite E in E'. injection E' as <- <-. congruence.
        -- destruct cur as [f|]; [right; exact Hc | left; reflexivity].
    + destruct (highPrefix_notSpace k c s Hs) as [Sc Hk].
      apply IH; [exact Hk|].
      destruct cur as [f|]; cbn [option_map]; [|exact I].
      apply isField_rev_cons; [exact Sc | right; exact Hc].
Qed.

Lemma Fields_fields (s : string) : forallb isField (strings.Fields s) = true.
Proof.
  unfold strings.Fields. destruct (utf8.RuneSelf <=? strings.setBits s 0).
  - apply FieldsFuncSpace_fields; [reflexivity | exact I].
  - apply fieldsASCII_fields. left. reflexivity.
Qed.

(** X15. Whatever bytes the table holds, no entry that
    [downloadBGPTable] returns has an empty subnet or AS text, and none
    contains an ASCII space (blank, tab, newline, carriage return,
    vertical tab or form feed). *)
Theorem table_entries_are_fields (data : string) :
  match downloadBGPTable (Ok data) with
  | Ok subnets =>
      forallb (fun item => isField (subnet item) && isField (as_ item))
              subnets = true
  | Err _ => True
  end.
Proof.
  unfold downloadBGPTable. destruct (bufio.Scan data) as [lines ok].
  destruct ok; cbn [negb]; [|exact I].
  rewrite fold_tableLine_body. cbn [app].
  induction lines as [|l lines IH]; cbn [flat_map]; [reflexivity|].
  rewrite forallb_app, IH, andb_true_r.
  unfold tableLine_body.
  pose proof (Fields_fields (strings.TrimSpace l)) as F.
  destruct (strings.Fields (strings.TrimSpace l)) as [|p0 [|p1 ps]];
    [reflexivity | reflexivity |].
  cbn [forallb] in F. cbn [app forallb subnet as_].
  apply andb_true_iff in F. destruct F as [F0 F].
  apply andb_true_iff in F. destruct F as [F1 _].
  rewrite F0, F1. reflexivity.
Qed.

(** ** Host bits and malformed lines, on the whole calls *)

Lemma filter_filter {A : Type} (f g : A -> bool) (l : list A) :
  filter f (filter g l) = filter (fun x => g x && f x) l.
Proof.
  induction l as [|x l IH]; cbn [filter]; [reflexivity|].
  destruct (g x); cbn [filter andb]; rewrite IH; reflexivity.
Qed.

Lemma filter_map_swap {A B : Type} (f : B -> bool) (h : A -> B) (l : list A) :
  filter f (map h l) = map h (filter (fun x => f (h x)) l).
Proof.
  induction l as [|x l IH]; cbn [filter map]; [reflexivity|].
  destruct (f (h x)); cbn [map]; rewrite IH; reflexivity.
Qed.

Lemma forallb_filter {A : Type} (f g : A -> bool) (l : list A) :
  forallb f l = true -> forallb f (filter g l) = true.
Proof.
  induction l as [|x l IH]; cbn [forallb filter]; [reflexivity|].
  intros H. apply andb_true_iff in H. destruct H as [Hx H].
  destruct (g x); cbn [forallb]; rewrite ?Hx; auto.
Qed.

Section WholeCalls.

Variable parseIPv6 : string -> result (Z * string).

(** A text accepted as an IPv4 prefix is a line that the scanner can
    hold and that the reader takes as it is. *)
Lemma accepted_text_line (text : string) (p : netip.Prefix) (a : Z) :
  netip_text.ParsePrefix parseIPv6 text = Ok p ->
  netip.ip p = netip.Addr4 a ->
  fitsScanner text = true /\ lineText text = text
  /\ text <> EmptyString.
Proof.
  intros E Ea.
  destruct (ParsePrefix_v4_canonical parseIPv6 text p a E Ea)
    as (Ra & Rb & Es).
  pose (string6 := fun (_ : Z) (_ : string) => EmptyString).
  rewrite <- (Prefix_String_eq string6 p a Ea) in Es by lia.
  destruct (Prefix_String_plain string6 p a Ea Rb)
    as (Pl & Ln & (c0 & r0 & E0 & D0) & (c1 & r1 & E1 & D1)).
  rewrite <- Es in *.
  split; [|split].
  - unfold fitsScanner. rewrite (plain_notNewline text Pl). cbn [andb].
    apply Z.ltb_lt. unfold bufio.MaxScanTokenSize. lia.
  - unfold lineText. rewrite (dropCR_digit text c1 r1 E1 D1).
    apply (TrimSpace_digits text c0 c1 r0 r1); assumption.
  - rewrite E0. discriminate.
Qed.

(** One accepted IPv4 text alone gives its masked prefix. *)
Lemma normalize_single (text : string) (p : netip.Prefix) (a : Z) :
  netip_text.ParsePrefix parseIPv6 text = Ok p ->
  netip.ip p = netip.Addr4 a ->
  normalize parseIPv6 [text]
  = (Some [netip.mkPrefix
             (netip.Addr4 (a - a mod 2 ^ (32 - netip.bits p)))
             (netip.bits p)],
     None, []).
Proof.
  intros E Ea.
  destruct (ParsePrefix_v4_range parseIPv6 text p a E Ea) as [Ra Rb].
  set (k := 32 - netip.bits p).
  set (network := a - a mod 2 ^ k).
  pose proof (pow2_pos k ltac:(unfold k; lia)) as P.
  assert (Al : network mod 2 ^ k = 0).
  { unfold network. rewrite Zminus_mod_idemp_r, Z.sub_diag.
    apply Z.mod_0_l. lia. }
  assert (Er : toRange p
               = netipx.mkRange network (network + (2 ^ k - 1))).
  { unfold toRange. rewrite Ea. apply RangeOfPrefix_eq; assumption. }
  assert (Ev : v4PrefixOf parseIPv6 text = Some p).
  { unfold v4PrefixOf. rewrite E, Ea. reflexivity. }
  destruct (normalize_spec parseIPv6 [text])
    as (rs & ps & En & _ & S & D & C).
  assert (Ed : flat_map (diagOf parseIPv6) [text] = []).
  { cbn [flat_map]. unfold diagOf. rewrite E. reflexivity. }
  assert (Eg : flat_map (rangesOf parseIPv6) [text] = [toRange p]).
  { cbn [flat_map]. unfold rangesOf. rewrite Ev. reflexivity. }
  rewrite Ed in En. rewrite Eg in C.
  assert (Ers : rs = [toRange p]).
  { apply Separated_unique; [exact S | | exact C].
    apply Separated_one. apply (toRange_wf p a); assumption. }
  subst rs.
  destruct (Decomposes_cons _ _ _ D) as (l & ps' & -> & G & D').
  apply Decomposes_nil in D'. subst ps'. rewrite app_nil_r in En.
  rewrite Er in G. cbn [netipx.from netipx.to] in G.
  pose proof (Greedy_block network k ltac:(unfold k; lia) Al) as G'.
  replace (network + 2 ^ k - 1) with (network + (2 ^ k - 1)) in G'
    by lia.
  rewrite (Greedy_functional _ _ _ _ G G') in En.
  replace (32 - k) with (netip.bits p) in En by (unfold k; lia).
  exact En.
Qed.

(** Among other texts, one returned prefix holds the masked block. *)
Lemma normalize_holds_block (texts : list string) (text : string)
      (p : netip.Prefix) (a : Z) :
  In text texts ->
  netip_text.ParsePrefix parseIPv6 text = Ok p ->
  netip.ip p = netip.Addr4 a ->
  exists out log,
    normalize parseIPv6 texts = (Some out, None, log)
    /\ Forall canonical out
    /\ exists o,
        In o out
        /\ forall x,
            a - a mod 2 ^ (32 - netip.bits p) <= x
            <= a - a mod 2 ^ (32 - netip.bits p)
               + (2 ^ (32 - netip.bits p) - 1) ->
            netip_text.Contains o x = true.
Proof.
  intros Hin E Ea.
  destruct (ParsePrefix_v4_range parseIPv6 text p a E Ea) as [Ra Rb].
  assert (Ev : v4PrefixOf parseIPv6 text = Some p).
  { unfold v4PrefixOf. rewrite E, Ea. reflexivity. }
  destruct (normalize_facts parseIPv6 texts) as (out & En & Cn & _).
  destruct (normalize_supernets parseIPv6 texts) as (out' & log' & En' & H).
  assert (out' = out) by congruence. subst out'.
  destruct (H text p Hin Ev) as (o & Ho & [W1 W2] & _).
  exists out, (flat_map (diagOf parseIPv6) texts).
  split; [exact En|]. split; [exact Cn|].
  exists o. split; [exact Ho|]. intros x Hx.
  pose proof (toRange_wf p a Ea Ra Rb) as (F0 & F1 & F2).
  assert (Er : toRange p
               = netipx.mkRange
                   (a - a mod 2 ^ (32 - netip.bits p))
                   (a - a mod 2 ^ (32 - netip.bits p)
                    + (2 ^ (32 - netip.bits p) - 1))).
  { unfold toRange. rewrite Ea. apply RangeOfPrefix_eq; assumption. }
  unfold start_, end_ in W1, W2. rewrite Er in *.
  cbn [netipx.from netipx.to] in *.
  pose proof (proj1 (Forall_forall _ _) Cn o Ho) as Co.
  apply (validV4_Contains o x (canonical_validV4 o Co)); [lia|].
  unfold InRange. lia.
Qed.

Lemma reader_lines (lines : list string) :
  forallb fitsScanner lines = true ->
  downloadReadySubnets parseIPv6 (Ok (joinLines lines))
  = normalize parseIPv6 (textsOfLines (map bufio.dropCR lines))
  /\ downloadReadySplitSubnets parseIPv6 (Ok (joinLines lines))
     = normalize parseIPv6 (textsOfLines (map bufio.dropCR lines)).
Proof.
  intros H. pose proof (Scan_lines lines H) as S.
  rewrite downloadReadySplitSubnets_same, downloadReadySubnets_normalize, S.
  split; reflexivity.
Qed.

(** C6. Host bits.  A text that [netip.ParsePrefix] accepts as the
    IPv4 prefix [a/n] is masked: alone under the target AS, or alone
    as a line of a ready list, it makes [processSubnets] and
    [downloadReadySubnets] return exactly the prefix [network/n], where
    [network] is [a] with its low [32 - n] bits cleared, and log
    nothing; among any other entries, or any other lines that the
    scanner can hold, one of the returned prefixes contains the whole
    block from [network] to [network + 2^(32 - n) - 1].  And every
    prefix [(address, length)] that [processSubnets],
    [downloadReadySubnets] and [downloadReadySplitSubnets] return,
    for every table and every data, satisfies
    [address mod 2^(32 - length) = 0]. *)
Theorem host_bits_masked
        (subnets subnets1 subnets2 : list subnetAS) (targetAS : string)
        (data : string) (lines1 lines2 : list string)
        (text : string) (p : netip.Prefix) (a : Z) :
  netip_text.ParsePrefix parseIPv6 text = Ok p ->
  netip.ip p = netip.Addr4 a ->
  forallb fitsScanner lines1 = true ->
  forallb fitsScanner lines2 = true ->
  let k := 32 - netip.bits p in
  let network := a - a mod 2 ^ k in
  let masked := netip.mkPrefix (netip.Addr4 network) (netip.bits p) in
  network mod 2 ^ k = 0
  /\ processSubnets parseIPv6 [mkSubnetAS text targetAS] targetAS
     = (Some [masked], None, [])
  /\ downloadReadySubnets parseIPv6 (Ok (joinLines [text]))
     = (Some [masked], None, [])
  /\ (exists out log,
         processSubnets parseIPv6
           (subnets1 ++ mkSubnetAS text targetAS :: subnets2) targetAS
         = (Some out, None, log)
         /\ exists o,
             In o out
             /\ forall x,
                 network <= x <= network + (2 ^ k - 1) ->
                 netip_text.Contains o x = true)
  /\ (exists out log,
         downloadReadySubnets parseIPv6
           (Ok (joinLines (lines1 ++ text :: lines2)))
         = (Some out, None, log)
         /\ exists o,
             In o out
             /\ forall x,
                 network <= x <= network + (2 ^ k - 1) ->
                 netip_text.Contains o x = true)
  /\ (exists out log,
         processSubnets parseIPv6 subnets targetAS = (Some out, None, log)
         /\ Forall canonical out)
  /\ (exists out log,
         downloadReadySubnets parseIPv6 (Ok data) = (Some out, None, log)
         /\ Forall canonical out)
  /\ (exists out err log,
         downloadReadySplitSubnets parseIPv6 (Ok data) = (Some out, err, log)
         /\ Forall canonical out).
Proof.
  intros E Ea F1 F2. cbv zeta.
  destruct (ParsePrefix_v4_range parseIPv6 text p a E Ea) as [Ra Rb].
  destruct (accepted_text_line text p a E Ea) as (Ft & Lt & Nt).
  pose proof (pow2_pos (32 - netip.bits p) ltac:(lia)) as P.
  split; [|split; [|split; [|split; [|split; [|split; [|split]]]]]].
  - rewrite Zminus_mod_idemp_r, Z.sub_diag. apply Z.mod_0_l. lia.
  - rewrite processSubnets_normalize. unfold textsOfAS.
    cbn [filter as_]. rewrite String.eqb_refl. cbn [map subnet].
    apply (normalize_single text p a E Ea).
  - destruct (reader_lines [text]) as [R _].
    { cbn [forallb]. rewrite Ft. reflexivity. }
    rewrite R. unfold textsOfLines. cbn [map filter].
    fold (lineText text). rewrite Lt, eqb_empty.
    destruct text; [contradiction|]. cbn [isEmpty negb].
    apply (normalize_single _ p a E Ea).
  - rewrite processSubnets_normalize.
    destruct (normalize_holds_block
                (textsOfAS (subnets1 ++ mkSubnetAS text targetAS :: subnets2)
                           targetAS) text p a)
      as (out & log & En & _ & H); try assumption.
    + unfold textsOfAS.
      change text with (subnet (mkSubnetAS text targetAS)) at 1.
      apply in_map, filter_In. split.
      * apply in_or_app. right. left. reflexivity.
      * cbn [as_]. apply String.eqb_refl.
    + exists out, log. split; [exact En | exact H].
  - assert (F : forallb fitsScanner (lines1 ++ text :: lines2) = true).
    { rewrite forallb_app, F1. cbn [forallb]. rewrite Ft, F2. reflexivity. }
    destruct (reader_lines _ F) as [R _]. rewrite R.
    destruct (normalize_holds_block
                (textsOfLines (map bufio.dropCR (lines1 ++ text :: lines2)))
                text p a)
      as (out & log & En & _ & H); try assumption.
    + unfold textsOfLines. apply filter_In. split.
      * rewrite map_map. rewrite <- Lt at 1.
        apply (in_map lineText). apply in_or_app. right. left. reflexivity.
      * rewrite eqb_empty. destruct text; [contradiction | reflexivity].
    + exists out, log. split; [exact En | exact H].
  - rewrite processSubnets_normalize.
    destruct (normalize_sorted parseIPv6 (textsOfAS subnets targetAS))
      as (out & log & En & _ & C). eauto.
  - rewrite downloadReadySubnets_normalize.
    destruct (normalize_sorted parseIPv6
                (textsOfLines (fst (bufio.Scan data))))
      as (out & log & En & _ & C). eauto.
  - rewrite downloadReadySplitSubnets_same, downloadReadySubnets_normalize.
    destruct (normalize_sorted parseIPv6
                (textsOfLines (fst (bufio.Scan data))))
      as (out & log & En & _ & C).
    destruct (snd (bufio.Scan data)).
    + exists out, None, log. split; [exact En | exact C].
    + exists [], (Some "bufio.Scanner: token too long"%string), log.
      rewrite En. split; [reflexivity | constructor].
Qed.

Lemma texts_malformed (lines : list string) :
  filter (rejected parseIPv6) (textsOfLines (map bufio.dropCR lines))
  = filter (malformed parseIPv6) (map lineText lines).
Proof.
  unfold textsOfLines. rewrite map_map, filter_filter.
  apply filter_ext. intros t. unfold malformed. rewrite eqb_empty.
  reflexivity.
Qed.

Lemma texts_kept (lines : list string) :
  textsOfLines
    (map bufio.dropCR
         (filter (fun line => negb (malformed parseIPv6 (lineText line)))
                 lines))
  = filter (accepted parseIPv6) (textsOfLines (map bufio.dropCR lines)).
Proof.
  unfold textsOfLines. rewrite !map_map.
  change (fun x => strings.TrimSpace (bufio.dropCR x)) with lineText.
  rewrite <- (filter_map_swap
                (fun t => negb (malformed parseIPv6 t)) lineText).
  rewrite !filter_filter. apply filter_ext. intros t.
  unfold malformed, accepted. rewrite eqb_empty.
  destruct (isEmpty t), (rejected parseIPv6 t); reflexivity.
Qed.

(** C4, amended. A text that [netip.ParsePrefix] rejects never aborts
    the call.  [processSubnets], for every table, and
    [downloadReadySubnets] and [downloadReadySplitSubnets], for every
    sequence of lines that the scanner can hold, return a prefix list
    and a nil error; they write one line ["Invalid subnet: <text>"]
    to the log per rejected text (per rejected subnet text of the
    target AS; per line whose trimmed text is not blank and is
    rejected), in input order; and the prefixes are those that the
    same call returns, logging nothing, for the input without the
    rejected entries; a last line without its newline is read like
    any other.  The diagnostics go to the log; they are not part of
    what is returned.  A line of 65536 bytes or more is not
    reported either: it stops the scanner, and with the lines before
    it [downloadReadySubnets] returns what it returns for those lines
    alone, with a nil error and no log line for the long line or for
    any line after it, while [downloadReadySplitSubnets] returns the
    scanner's error and no prefix. *)
Theorem malformed_lines_logged
        (subnets : list subnetAS) (targetAS : string)
        (lines : list string) :
  forallb fitsScanner lines = true ->
  let diagnostics :=
    map invalidMsg (filter (malformed parseIPv6) (map lineText lines)) in
  let kept :=
    filter (fun line => negb (malformed parseIPv6 (lineText line)))
           lines in
  (exists out,
      processSubnets parseIPv6 subnets targetAS
      = (Some out, None,
         map invalidMsg
             (filter (rejected parseIPv6) (textsOfAS subnets targetAS)))
      /\ processSubnets parseIPv6
           (filter (fun item => accepted parseIPv6 (subnet item)) subnets)
           targetAS
         = (Some out, None, []))
  /\ (exists out,
         downloadReadySubnets parseIPv6 (Ok (joinLines lines))
         = (Some out, None, diagnostics)
         /\ downloadReadySplitSubnets parseIPv6 (Ok (joinLines lines))
            = (Some out, None, diagnostics)
         /\ downloadReadySubnets parseIPv6 (Ok (joinLines kept))
            = (Some out, None, [])
         /\ downloadReadySplitSubnets parseIPv6 (Ok (joinLines kept))
            = (Some out, None, [])
         /\ (forall ls last,
                lines = ls ++ [last] -> last <> EmptyString ->
                downloadReadySubnets parseIPv6
                  (Ok (joinLines ls ++ last)%string)
                = (Some out, None, diagnostics)
                /\ downloadReadySplitSubnets parseIPv6
                     (Ok (joinLines ls ++ last)%string)
                   = (Some out, None, diagnostics))
         /\ forall big tail,
             allBytes (notByte "010") big = true ->
             bufio.MaxScanTokenSize <= gostring.len big ->
             downloadReadySubnets parseIPv6
               (Ok (joinLines lines ++ big ++ tail)%string)
             = (Some out, None, diagnostics)
             /\ downloadReadySplitSubnets parseIPv6
                  (Ok (joinLines lines ++ big ++ tail)%string)
                = (Some [], Some "bufio.Scanner: token too long"%string,
                   diagnostics)).
Proof.
  intros F. cbv zeta. split.
  - rewrite !processSubnets_normalize, textsOfAS_accepted.
    apply normalize_accepted.
  - destruct (reader_lines lines F) as [R1 R2].
    assert (Fk : forallb fitsScanner
                   (filter (fun line =>
                              negb (malformed parseIPv6 (lineText line)))
                           lines) = true)
      by (apply forallb_filter; exact F).
    destruct (reader_lines _ Fk) as [K1 K2].
    destruct (normalize_accepted parseIPv6
                (textsOfLines (map bufio.dropCR lines)))
      as (out & En & Ea).
    rewrite texts_malformed in En. rewrite <- texts_kept in Ea.
    exists out. rewrite R1, R2, K1, K2.
    split; [exact En|]. split; [exact En|].
    split; [exact Ea|]. split; [exact Ea|].
    split.
    { intros ls last El Nl. subst lines.
      rewrite forallb_app in F. apply andb_true_iff in F.
      destruct F as [Fl Fa]. cbn [forallb] in Fa.
      rewrite andb_true_r in Fa.
      pose proof (Scan_lines_last ls last Fl Fa Nl) as S.
      rewrite downloadReadySplitSubnets_same,
        downloadReadySubnets_normalize, S.
      cbn [fst snd]. rewrite En. split; reflexivity. }
    intros big tail Hn Hl.
    pose proof (Scan_long lines big tail F Hn Hl) as S.
    rewrite downloadReadySplitSubnets_same, downloadReadySubnets_normalize, S.
    cbn [fst snd]. rewrite En. split; reflexivity.
Qed.

End WholeCalls.

Open Scope string_scope.

(** ** The loop of [Clean], element by element *)

Lemma atEnd_app (p q : string) :
  filepath.atEnd (p ++ String "/" q) = filepath.atEnd p.
Proof. destruct p; reflexivity. Qed.

Lemma notSep (c : ascii) :
  notByte "/" c = true -> filepath.IsPathSeparator c = false.
Proof. unfold notByte, filepath.IsPathSeparator. apply negb_true_iff. Qed.

Lemma cleanLoop_atEnd (rest out : string) (dd : Z) (rooted b : bool) :
  filepath.atEnd rest = true ->
  filepath.cleanLoop rest out dd rooted b
  = filepath.cleanLoop rest out dd rooted false.
Proof.
  destruct rest as [|c r]; [reflexivity|]. cbn [filepath.atEnd]. intros E.
  cbn [filepath.cleanLoop]. rewrite E. reflexivity.
Qed.

Lemma cleanLoop_copy (e rest out : string) (dd : Z) (rooted : bool) :
  allBytes (notByte "/") e = true -> filepath.atEnd rest = true ->
  filepath.cleanLoop (e ++ rest) out dd rooted true
  = filepath.cleanLoop rest (gostring.rev e ++ out) dd rooted false.
Proof.
  revert out. induction e as [|c e IH]; intros out He Hr.
  - apply cleanLoop_atEnd. exact Hr.
  - apply allBytes_String in He. destruct He as [Hc He].
    cbn [append filepath.cleanLoop]. rewrite (notSep c Hc).
    rewrite IH by assumption. rewrite srev_String, sapp_assoc. reflexivity.
Qed.

Lemma isName_facts (e : string) :
  isName e = true ->
  e <> EmptyString /\ allBytes (notByte "/") e = true /\ e <> "."
  /\ e <> "..".
Proof.
  unfold isName. rewrite !andb_true_iff, !negb_true_iff.
  intros [[[H1 H2] H3] H4]. repeat split; try assumption.
  - intros ->. discriminate H1.
  - intros ->. discriminate H3.
  - intros ->. discriminate H4.
Qed.

Lemma cleanElement_name (e : string) (rooted : bool) (out : string) (dd : Z) :
  isName e = true ->
  cleanElement e rooted (out, dd)
  = ((gostring.rev e ++ filepath.withSeparator out rooted), dd).
Proof.
  unfold isName. rewrite !andb_true_iff, !negb_true_iff.
  intros [[[H1 H2] H3] H4]. unfold cleanElement.
  rewrite H1, H3, H4. reflexivity.
Qed.

(** An element that is neither [.] nor [..] is copied. *)
Lemma cleanLoop_name (c : ascii) (e rest out : string) (dd : Z)
      (rooted : bool) :
  allBytes (notByte "/") e = true -> filepath.atEnd rest = true ->
  filepath.cleanLoop (e ++ rest)
    (String c (filepath.withSeparator out rooted)) dd rooted true
  = filepath.cleanLoop rest
      (gostring.rev (String c e) ++ filepath.withSeparator out rooted)
      dd rooted false.
Proof.
  intros He Hr. rewrite cleanLoop_copy by assumption.
  rewrite srev_String, sapp_assoc. reflexivity.
Qed.

Lemma cleanLoop_element (e rest out : string) (dd : Z) (rooted : bool) :
  allBytes (notByte "/") e = true -> filepath.atEnd rest = true ->
  filepath.cleanLoop (e ++ rest) out dd rooted false
  = cleanFrom rest rooted (cleanElement e rooted (out, dd)).
Proof.
  intros He Hr. destruct e as [|c e]; [reflexivity|].
  apply allBytes_String in He. destruct He as [Hc He].
  cbn [append filepath.cleanLoop]. rewrite (notSep c Hc).
  destruct e as [|c1 e].
  - (* one byte *)
    cbn [append]. rewrite Hr, andb_true_r.
    unfold cleanElement. cbn [isEmpty orb String.eqb].
    destruct (Ascii.eqb c ".") eqn:Ec; [reflexivity|].
    cbn [andb].
    assert (X : filepath.cleanLoop rest
                  (String c (filepath.withSeparator out rooted)) dd rooted true
                = cleanFrom rest rooted
                    ((gostring.rev (String c EmptyString)
                      ++ filepath.withSeparator out rooted), dd)).
    { apply (cleanLoop_name c EmptyString rest out dd rooted);
        [reflexivity | exact Hr]. }
    destruct rest as [|c1 rest1]; [exact X|].
    cbn [filepath.atEnd] in Hr.
    exact X.
  - apply allBytes_String in He. destruct He as [Hc1 He].
    cbn [append filepath.atEnd]. rewrite (notSep c1 Hc1), andb_false_r.
    assert (X : filepath.cleanLoop (String c1 (e ++ rest))
                  (String c (filepath.withSeparator out rooted)) dd rooted true
                = cleanFrom rest rooted
                    ((gostring.rev (String c (String c1 e))
                      ++ filepath.withSeparator out rooted), dd)).
    { apply (cleanLoop_name c (String c1 e) rest out dd rooted); [|exact Hr].
      cbn [allBytes]. rewrite Hc1, He. reflexivity. }
    unfold cleanElement. cbn [isEmpty orb String.eqb].
    destruct (Ascii.eqb c ".") eqn:Ec; cbn [andb]; [|exact X].
    destruct (Ascii.eqb c1 ".") eqn:Ec1; cbn [andb]; [|exact X].
    destruct e as [|c2 e].
    + cbn [append]. rewrite Hr. cbn [String.eqb].
      destruct (dd <? gostring.len out)%Z; [reflexivity|].
      destruct rooted; reflexivity.
    + apply allBytes_String in He. destruct He as [Hc2 He].
      cbn [append filepath.atEnd]. rewrite (notSep c2 Hc2).
      cbn [String.eqb]. exact X.
Qed.

Lemma cleanFrom_nil (rooted : bool) (st : string * Z) :
  cleanFrom EmptyString rooted st = st.
Proof. destruct st; reflexivity. Qed.

Lemma cleanFrom_element (e : string) (rooted : bool) (st : string * Z) :
  allBytes (notByte "/") e = true ->
  cleanFrom e rooted st = cleanElement e rooted st.
Proof.
  intros He. destruct st as [out dd]. unfold cleanFrom. cbn [fst snd].
  rewrite <- (sapp_nil_r e) at 1.
  rewrite cleanLoop_element by (try assumption; reflexivity).
  apply cleanFrom_nil.
Qed.

(** What follows a separator is read from the state the loop has
    reached before it. *)
Lemma cleanLoop_app (n : nat) :
  forall (p q out : string) (dd : Z) (rooted b : bool),
    (String.length p <= n)%nat ->
    filepath.cleanLoop (p ++ String "/" q) out dd rooted b
    = cleanFrom q rooted (filepath.cleanLoop p out dd rooted b).
Proof.
  induction n as [|n IH]; intros p q out dd rooted b Hn.
  - destruct p; [reflexivity | cbn in Hn; lia].
  - destruct p as [|c p]; [reflexivity|].
    cbn [String.length] in Hn.
    cbn [append filepath.cleanLoop].
    destruct (filepath.IsPathSeparator c); [apply IH; lia|].
    destruct b; [apply IH; lia|].
    rewrite atEnd_app.
    destruct (Ascii.eqb c "." && filepath.atEnd p)%bool; [apply IH; lia|].
    destruct p as [|c1 p].
    + cbn [append].
      replace (Ascii.eqb c "." && Ascii.eqb "/" "." && filepath.atEnd q)%bool
        with false by (rewrite andb_false_r; reflexivity).
      apply (IH EmptyString q). cbn. lia.
    + cbn [append String.length] in *. rewrite atEnd_app.
      destruct (Ascii.eqb c "." && Ascii.eqb c1 "." && filepath.atEnd p)%bool.
      * destruct (dd <? gostring.len out)%Z; [apply IH; lia|].
        destruct (negb rooted); apply IH; lia.
      * apply (IH (String c1 p) q). cbn [String.length]. lia.
Qed.

Lemma cleanStart_snoc (p e : string) :
  p <> EmptyString -> allBytes (notByte "/") e = true ->
  filepath.cleanStart (p ++ String "/" e)
  = cleanElement e (rootedPath p) (filepath.cleanStart p).
Proof.
  intros Hp He. destruct p as [|c p]; [contradiction|].
  unfold filepath.cleanStart, rootedPath. cbn [append].
  destruct (filepath.IsPathSeparator c).
  - rewrite (cleanLoop_app (String.length p)) by lia.
    apply cleanFrom_element. exact He.
  - change (String c (p ++ String "/" e)) with (String c p ++ String "/" e).
    rewrite (cleanLoop_app (String.length (String c p))) by lia.
    apply cleanFrom_element. exact He.
Qed.

Lemma cleanStart_relative (e : string) :
  allBytes (notByte "/") e = true ->
  filepath.cleanStart e = cleanElement e false (EmptyString, 0).
Proof.
  intros He. destruct e as [|c e]; [reflexivity|].
  unfold filepath.cleanStart.
  destruct (allBytes_String _ _ _ He) as [Hc _]. rewrite (notSep c Hc).
  apply (cleanFrom_element (String c e) false (EmptyString, 0)). exact He.
Qed.

Lemma cleanStart_rooted (e : string) :
  allBytes (notByte "/") e = true ->
  filepath.cleanStart (String "/" e) = cleanElement e true ("/", 1).
Proof. intros He. apply (cleanFrom_element e true ("/", 1)). exact He. Qed.

(** ** The buffers of [Clean] *)

Lemma Cleaned_dotdot (rooted : bool) (out : string) (dd : Z) :
  Cleaned rooted out dd -> 0 <= dd <= gostring.len out.
Proof.
  induction 1 as [R|R|out out2 R H IH E|out dd e H IH He].
  - cbn. lia.
  - cbn. lia.
  - pose proof (len_nonneg out2). lia.
  - rewrite len_app. pose proof (len_nonneg (gostring.rev e)).
    unfold filepath.withSeparator.
    destruct (_ || _)%bool; rewrite ?len_String; lia.
Qed.

Lemma Cleaned_rooted (out : string) (dd : Z) :
  Cleaned true out dd -> dd = 1 /\ exists o, out = o ++ "/".
Proof.
  induction 1 as [R|R|out out2 R H IH E|out dd e H IH He].
  - split; [reflexivity | exists EmptyString; reflexivity].
  - discriminate R.
  - discriminate R.
  - destruct IH as [-> [o ->]]. split; [reflexivity|].
    unfold filepath.withSeparator.
    destruct (_ || _)%bool.
    + exists (gostring.rev e ++ String "/" o).
      rewrite sapp_assoc. reflexivity.
    + exists (gostring.rev e ++ o). rewrite sapp_assoc. reflexivity.
Qed.

Lemma len_zero (s : string) : gostring.len s = 0 -> s = EmptyString.
Proof.
  destruct s; [reflexivity|].
  rewrite len_String. pose proof (len_nonneg s). lia.
Qed.

Lemma Cleaned_rooted_one (out : string) (dd : Z) :
  Cleaned true out dd -> gostring.len out = 1 -> out = "/" /\ dd = 1.
Proof.
  intros H L. destruct (Cleaned_rooted out dd H) as [-> [o ->]].
  rewrite len_app in L. change (gostring.len "/") with 1 in L.
  rewrite (len_zero o) by lia. split; reflexivity.
Qed.

(** Where no separator is put before a name the buffer is at the
    place where [..] stops. *)
Lemma withSeparator_cases (rooted : bool) (out : string) (dd : Z) :
  Cleaned rooted out dd ->
  (filepath.withSeparator out rooted = String "/" out /\ out <> EmptyString)
  \/ (filepath.withSeparator out rooted = out /\ dd = gostring.len out
      /\ (out = EmptyString /\ rooted = false \/ out = "/" /\ rooted = true)).
Proof.
  intros H. unfold filepath.withSeparator.
  destruct rooted; cbn [andb orb negb].
  - rewrite orb_false_r.
    destruct (gostring.len out =? 1)%Z eqn:E; cbn [negb].
    + apply Z.eqb_eq in E. destruct (Cleaned_rooted_one out dd H E) as [-> ->].
      right. repeat split. right. split; reflexivity.
    + left. split; [reflexivity|]. intros ->.
      destruct (Cleaned_rooted _ _ H) as [_ [o Ho]].
      destruct o; discriminate Ho.
  - destruct (gostring.len out =? 0)%Z eqn:E; cbn [negb].
    + apply Z.eqb_eq in E. pose proof (Cleaned_dotdot _ _ _ H).
      right. repeat split; [lia|]. left.
      split; [apply len_zero; exact E | reflexivity].
    + left. split; [reflexivity|]. intros ->. discriminate E.
Qed.

Lemma backtrack_separator (r out0 : string) (dd : Z) :
  allBytes (notByte "/") r = true -> dd <= gostring.len out0 ->
  filepath.backtrack (r ++ String "/" out0)
                     (gostring.len r + gostring.len out0) dd
  = out0.
Proof.
  intros Hr Hd. induction r as [|c r IH].
  - cbn [append filepath.backtrack]. rewrite andb_false_r. reflexivity.
  - apply allBytes_String in Hr. destruct Hr as [Hc Hr].
    cbn [append filepath.backtrack]. rewrite (notSep c Hc).
    rewrite len_String. pose proof (len_nonneg r).
    replace (dd <? 1 + gostring.len r + gostring.len out0)%Z with true
      by (symmetry; apply Z.ltb_lt; lia).
    cbn [andb negb].
    replace (1 + gostring.len r + gostring.len out0 - 1)
      with (gostring.len r + gostring.len out0) by lia.
    apply IH. exact Hr.
Qed.

Lemma backtrack_floor (r out0 : string) :
  allBytes (notByte "/") r = true -> r <> EmptyString ->
  filepath.backtrack (r ++ out0)
                     (gostring.len r + gostring.len out0 - 1)
                     (gostring.len out0)
  = out0.
Proof.
  intros Hr Hn. induction r as [|c r IH]; [contradiction|].
  apply allBytes_String in Hr. destruct Hr as [Hc Hr].
  cbn [append filepath.backtrack]. rewrite (notSep c Hc).
  rewrite len_String. pose proof (len_nonneg r).
  destruct r as [|c1 r].
  - change (gostring.len EmptyString) with 0.
    replace (gostring.len out0 <? 1 + 0 + gostring.len out0 - 1)%Z with false
      by (symmetry; apply Z.ltb_ge; lia).
    reflexivity.
  - rewrite len_String in *. pose proof (len_nonneg r).
    replace (gostring.len out0
             <? 1 + (1 + gostring.len r) + gostring.len out0 - 1)%Z
      with true by (symmetry; apply Z.ltb_lt; lia).
    cbn [andb negb].
    replace (1 + (1 + gostring.len r) + gostring.len out0 - 1 - 1)
      with (1 + gostring.len r + gostring.len out0 - 1) by lia.
    apply IH; [exact Hr | discriminate].
Qed.

Lemma Cleaned_backtrack (rooted : bool) (out : string) (dd : Z) :
  Cleaned rooted out dd -> dd < gostring.len out ->
  Cleaned rooted
          (filepath.backtrack out (gostring.len out - 1) dd) dd.
Proof.
  intros H L. destruct H as [R|R|out out2 R H E|out dd e H He].
  - cbn in L. lia.
  - cbn in L. lia.
  - lia.
  - destruct (isName_facts e He) as (N1 & N2 & _).
    assert (Nr : allBytes (notByte "/") (gostring.rev e) = true)
      by (rewrite allBytes_rev; exact N2).
    assert (Ne : gostring.rev e <> EmptyString).
    { intros X. apply rev_eq_nil in X. contradiction. }
    rewrite len_app.
    destruct (withSeparator_cases rooted out dd H) as [[-> _]|[-> [-> _]]].
    + rewrite len_String.
      replace (gostring.len (gostring.rev e) + (1 + gostring.len out) - 1)
        with (gostring.len (gostring.rev e) + gostring.len out) by lia.
      rewrite backtrack_separator;
        [exact H | exact Nr | apply (Cleaned_dotdot _ _ _ H)].
    + rewrite backtrack_floor by assumption. exact H.
Qed.

Lemma Cleaned_element (rooted : bool) (e out : string) (dd : Z) :
  Cleaned rooted out dd -> allBytes (notByte "/") e = true ->
  Cleaned rooted (fst (cleanElement e rooted (out, dd)))
          (snd (cleanElement e rooted (out, dd))).
Proof.
  intros H He. unfold cleanElement.
  destruct (isEmpty e || String.eqb e ".")%bool eqn:E1; [exact H|].
  apply orb_false_iff in E1. destruct E1 as [E0 E1].
  destruct (String.eqb e "..") eqn:E2.
  - destruct (dd <? gostring.len out)%Z eqn:L.
    + apply Z.ltb_lt in L. cbn [fst snd]. apply Cleaned_backtrack; assumption.
    + apply Z.ltb_ge in L. pose proof (Cleaned_dotdot _ _ _ H) as B.
      destruct rooted; cbn [negb fst snd]; [exact H|].
      apply (Cleaned_up false out); [reflexivity | | reflexivity].
      replace (gostring.len out) with dd by lia. exact H.
  - cbn [fst snd]. apply Cleaned_name; [exact H|].
    unfold isName. rewrite E0, He, E1, E2. reflexivity.
Qed.

Lemma split_element (path : string) :
  exists e rest,
    path = e ++ rest /\ allBytes (notByte "/") e = true
    /\ (rest = EmptyString \/ exists r, rest = String "/" r)
    /\ (String.length rest <= String.length path)%nat.
Proof.
  induction path as [|c path IH].
  - exists EmptyString, EmptyString. repeat split; [left; reflexivity | lia].
  - destruct (Ascii.eqb_spec c "/") as [->|N].
    + exists EmptyString, (String "/" path). repeat split; [|lia].
      right. exists path. reflexivity.
    + destruct IH as (e & rest & -> & He & Hr & Hl).
      exists (String c e), rest. repeat split.
      * cbn [allBytes]. rewrite He. unfold notByte.
        destruct (Ascii.eqb_spec c "/"); [contradiction | reflexivity].
      * exact Hr.
      * cbn [String.length append]. lia.
Qed.

Lemma Cleaned_loop (n : nat) :
  forall (path : string) (rooted : bool) (st : string * Z),
    (String.length path <= n)%nat ->
    Cleaned rooted (fst st) (snd st) ->
    Cleaned rooted (fst (cleanFrom path rooted st))
            (snd (cleanFrom path rooted st)).
Proof.
  induction n as [|n IH]; intros path rooted [out dd] Hn H.
  - destruct path; [exact H | cbn in Hn; lia].
  - destruct (split_element path) as (e & rest & -> & He & Hr & Hl).
    unfold cleanFrom. cbn [fst snd] in *.
    assert (A : filepath.atEnd rest = true).
    { destruct Hr as [->|[r ->]]; reflexivity. }
    rewrite cleanLoop_element by assumption.
    pose proof (Cleaned_element rooted e out dd H He) as H'.
    destruct Hr as [->|[r ->]].
    + rewrite cleanFrom_nil. exact H'.
    + change (cleanFrom (String "/" r) rooted (cleanElement e rooted (out, dd)))
        with (cleanFrom r rooted (cleanElement e rooted (out, dd))).
      apply IH; [|exact H'].
      cbn [String.length] in Hl. lia.
Qed.

Lemma Cleaned_start (path : string) :
  Cleaned (rootedPath path) (fst (filepath.cleanStart path))
          (snd (filepath.cleanStart path)).
Proof.
  destruct path as [|c path]; [apply Cleaned_empty; reflexivity|].
  unfold filepath.cleanStart, rootedPath.
  destruct (filepath.IsPathSeparator c) eqn:E.
  - apply (Cleaned_loop (String.length path) path true ("/", 1)); [lia|].
    apply Cleaned_root. reflexivity.
  - apply (Cleaned_loop (String.length (String c path)) (String c path)
                        false (EmptyString, 0)); [lia|].
    apply Cleaned_empty. reflexivity.
Qed.

Lemma rootedPath_app (p q : string) :
  p <> EmptyString -> rootedPath (p ++ q) = rootedPath p.
Proof. destruct p; [contradiction | reflexivity]. Qed.

Lemma rev_nonempty (s : string) : s <> EmptyString -> gostring.rev s <> EmptyString.
Proof. intros N E. apply rev_eq_nil in E. contradiction. Qed.

Lemma rootedPath_name (e : string) :
  e <> EmptyString -> allBytes (notByte "/") e = true -> rootedPath e = false.
Proof.
  destruct e as [|c e]; [contradiction|]. intros _ H.
  apply allBytes_String in H. apply notSep. apply H.
Qed.

(** A cleaned path is read back into the buffer it was printed from. *)
Lemma Cleaned_reread (rooted : bool) (out : string) (dd : Z) :
  Cleaned rooted out dd -> out <> EmptyString ->
  filepath.cleanStart (gostring.rev out) = (out, dd)
  /\ rootedPath (gostring.rev out) = rooted.
Proof.
  induction 1 as [R|R|out out2 R H IH E|out dd e H IH He]; intros N.
  - subst rooted. split; reflexivity.
  - contradiction.
  - subst rooted. destruct out as [|c0 out0].
    + subst out2. split; reflexivity.
    + set (out := String c0 out0) in *.
      assert (P : 0 < gostring.len out).
      { unfold out. rewrite len_String. pose proof (len_nonneg out0). lia. }
      assert (No : out <> EmptyString) by discriminate.
      destruct (IH No) as [IH1 IH2].
      assert (E' : out2 = String "." (String "." (String "/" out))).
      { rewrite E. apply Z.ltb_lt in P. rewrite P. reflexivity. }
      assert (T : gostring.rev out2 = gostring.rev out ++ String "/" "..").
      { rewrite E', !srev_String, !sapp_assoc. reflexivity. }
      rewrite T. split.
      * rewrite cleanStart_snoc; [|apply rev_nonempty; exact No | reflexivity].
        rewrite IH1, IH2. unfold cleanElement.
        cbn [isEmpty String.eqb Ascii.eqb Bool.eqb orb andb negb].
        rewrite Z.ltb_irrefl. apply Z.ltb_lt in P. rewrite P.
        rewrite <- E'. reflexivity.
      * rewrite rootedPath_app by (apply rev_nonempty; exact No). exact IH2.
  - destruct (isName_facts e He) as (N1 & N2 & N3 & N4).
    rewrite srev_app, srev_involutive.
    destruct (withSeparator_cases rooted out dd H)
      as [[W No]|[W [D [[-> ->]|[-> ->]]]]].
    + destruct (IH No) as [IH1 IH2].
      assert (T : gostring.rev (filepath.withSeparator out rooted) ++ e
                  = gostring.rev out ++ String "/" e).
      { rewrite W, srev_String, sapp_assoc. reflexivity. }
      rewrite T. split.
      * rewrite cleanStart_snoc; [|apply rev_nonempty; exact No | exact N2].
        rewrite IH1, IH2. apply cleanElement_name. exact He.
      * rewrite rootedPath_app by (apply rev_nonempty; exact No). exact IH2.
    + cbn in D. subst dd. cbn [filepath.withSeparator gostring.rev
                                 gostring.rev_onto append].
      split; [|apply rootedPath_name; assumption].
      rewrite cleanStart_relative by exact N2.
      apply cleanElement_name. exact He.
    + cbn in D. subst dd.
      change (gostring.rev (filepath.withSeparator "/" true) ++ e)
        with (String "/" e).
      split; [|reflexivity].
      rewrite cleanStart_rooted by exact N2.
      apply cleanElement_name. exact He.
Qed.

(** ** [Join], [Base] and [Dir] of a directory and a name *)

Lemma dirPrefix_end (dir : string) :
  dirPrefix dir = EmptyString \/ exists d, dirPrefix dir = d ++ "/".
Proof.
  unfold dirPrefix.
  destruct (withSeparator_cases _ _ _ (Cleaned_start dir))
    as [[-> _]|[-> [_ [[-> _]|[-> _]]]]].
  - right. exists (gostring.rev (fst (filepath.cleanStart dir))).
    apply srev_String.
  - left. reflexivity.
  - right. exists EmptyString. reflexivity.
Qed.

Lemma Clean_name (e : string) : isName e = true -> filepath.Clean e = e.
Proof.
  intros He. destruct (isName_facts e He) as (N1 & N2 & _).
  unfold filepath.Clean. rewrite cleanStart_relative by exact N2.
  rewrite cleanElement_name by exact He. cbn [fst].
  change (filepath.withSeparator EmptyString false) with EmptyString. rewrite sapp_nil_r.
  destruct (gostring.rev e) eqn:E.
  - apply rev_eq_nil in E. contradiction.
  - rewrite <- E. apply srev_involutive.
Qed.

Lemma Clean_dir_name (dir e : string) :
  dir <> EmptyString -> isName e = true ->
  filepath.Clean (dir ++ String "/" e) = dirPrefix dir ++ e.
Proof.
  intros Hd He. destruct (isName_facts e He) as (N1 & N2 & _).
  unfold filepath.Clean, dirPrefix. rewrite cleanStart_snoc by assumption.
  destruct (filepath.cleanStart dir) as [out dd].
  rewrite cleanElement_name by exact He. cbn [fst].
  destruct (gostring.rev e ++ filepath.withSeparator out (rootedPath dir))
    eqn:E.
  - destruct (gostring.rev e) eqn:E'; [|discriminate E].
    apply rev_eq_nil in E'. contradiction.
  - rewrite <- E, srev_app, srev_involutive. reflexivity.
Qed.

(** [Join] of a directory and a name: the cleaned directory, a
    separator where one is needed, and the name. *)
Lemma Join_dir_name (dir e : string) :
  isName e = true -> filepath.Join [dir; e] = dirPrefix dir ++ e.
Proof.
  intros He. destruct (isName_facts e He) as (N1 & N2 & _).
  destruct dir as [|c dir].
  - cbn [filepath.Join]. destruct e as [|c e]; [contradiction|].
    cbn [filepath.joinSeparator]. apply Clean_name. exact He.
  - cbn [filepath.Join filepath.joinSeparator].
    apply (Clean_dir_name (String c dir) e); [discriminate | exact He].
Qed.

Lemma dropWhile_names (r d : string) :
  allBytes (notByte "/") r = true ->
  (d = EmptyString \/ exists d', d = String "/" d') ->
  filepath.dropWhile (fun c => negb (filepath.IsPathSeparator c)) (r ++ d) = d.
Proof.
  intros Hr Hd. induction r as [|c r IH].
  - destruct Hd as [->|[d' ->]]; reflexivity.
  - apply allBytes_String in Hr. destruct Hr as [Hc Hr].
    cbn [append filepath.dropWhile]. rewrite (notSep c Hc). cbn [negb].
    apply IH. exact Hr.
Qed.

Lemma takeWhile_names (r d : string) :
  allBytes (notByte "/") r = true ->
  (d = EmptyString \/ exists d', d = String "/" d') ->
  filepath.takeWhile (fun c => negb (filepath.IsPathSeparator c)) (r ++ d) = r.
Proof.
  intros Hr Hd. induction r as [|c r IH].
  - destruct Hd as [->|[d' ->]]; reflexivity.
  - apply allBytes_String in Hr. destruct Hr as [Hc Hr].
    cbn [append filepath.takeWhile]. rewrite (notSep c Hc). cbn [negb].
    rewrite IH by exact Hr. reflexivity.
Qed.

Lemma rev_prefix_end (d : string) :
  (d = EmptyString \/ exists d', d = d' ++ "/") ->
  gostring.rev d = EmptyString \/ exists r, gostring.rev d = String "/" r.
Proof.
  intros [->|[d' ->]]; [left; reflexivity|].
  right. exists (gostring.rev d'). apply srev_app.
Qed.

Lemma Base_dir_name (d e : string) :
  (d = EmptyString \/ exists d', d = d' ++ "/") -> isName e = true ->
  filepath.Base (d ++ e) = e.
Proof.
  intros Hd He. destruct (isName_facts e He) as (N1 & N2 & _).
  unfold filepath.Base.
  destruct (d ++ e) eqn:E.
  - destruct d; [|discriminate E]. cbn in E. contradiction.
  - rewrite <- E, srev_app.
    assert (Nr : allBytes (notByte "/") (gostring.rev e) = true)
      by (rewrite allBytes_rev; exact N2).
    destruct (gostring.rev e) as [|c r] eqn:Er.
    { apply rev_eq_nil in Er. contradiction. }
    cbn [append filepath.dropWhile].
    destruct (allBytes_String _ _ _ Nr) as [Hc _]. rewrite (notSep c Hc).
    change (String c (r ++ gostring.rev d))
      with (String c r ++ gostring.rev d).
    rewrite takeWhile_names by (try assumption; apply rev_prefix_end; exact Hd).
    rewrite <- Er. apply srev_involutive.
Qed.

Lemma Dir_dir_name (d e : string) :
  (d = EmptyString \/ exists d', d = d' ++ "/") ->
  allBytes (notByte "/") e = true ->
  filepath.Dir (d ++ e) = filepath.Clean d.
Proof.
  intros Hd He. unfold filepath.Dir. rewrite srev_app.
  rewrite dropWhile_names;
    [|rewrite allBytes_rev; exact He | apply rev_prefix_end; exact Hd].
  rewrite srev_involutive. reflexivity.
Qed.

(** Cleaning the directory part again does not change it. *)
Lemma dirPrefix_Clean (dir : string) :
  dirPrefix (filepath.Clean (dirPrefix dir)) = dirPrefix dir.
Proof.
  unfold dirPrefix at 2 3.
  pose proof (Cleaned_start dir) as H.
  destruct (filepath.cleanStart dir) as [out dd]. cbn [fst snd] in *.
  destruct (withSeparator_cases _ _ _ H) as [[W No]|[W [_ [[-> _]|[-> _]]]]].
  - destruct (Cleaned_reread _ _ _ H No) as [R1 R2].
    rewrite W, srev_String.
    assert (C : filepath.Clean (gostring.rev out ++ "/") = gostring.rev out).
    { unfold filepath.Clean.
      rewrite cleanStart_snoc; [|apply rev_nonempty; exact No | reflexivity].
      rewrite R1. cbn [cleanElement isEmpty orb fst].
      destruct out; [contradiction | reflexivity]. }
    rewrite C. unfold dirPrefix. rewrite R1, R2. cbn [fst].
    rewrite W. apply srev_String.
  - rewrite W. reflexivity.
  - rewrite W. reflexivity.
Qed.

(** ** [Title] on ASCII names *)

Lemma byte_ascii (c : ascii) : ascii_of_N (Z.to_N (gostring.byte c)) = c.
Proof. unfold gostring.byte. rewrite N2Z.id. apply ascii_N_embedding. Qed.

Lemma byte_of_small (b : Z) :
  0 <= b < 256 -> gostring.byte (ascii_of_N (Z.to_N b)) = b.
Proof.
  intros H. unfold gostring.byte. rewrite N_ascii_embedding.
  - apply Z2N.id. lia.
  - apply N2Z.inj_lt. rewrite Z2N.id by lia. exact (proj2 H).
Qed.

Lemma decode_ascii (c : ascii) (rest : string) :
  asciiByte c = true ->
  utf8.DecodeRuneInString (String c rest) = (gostring.byte c, 1).
Proof.
  unfold asciiByte, utf8.RuneSelf. intros H.
  unfold utf8.DecodeRuneInString. rewrite len_String.
  pose proof (len_nonneg rest).
  replace (1 + gostring.len rest <? 1)%Z with false
    by (symmetry; apply Z.ltb_ge; lia).
  change (utf8.nth_byte (String c rest) 0) with (gostring.byte c).
  cbv zeta. rewrite H. reflexivity.
Qed.

Lemma upperByte_byte (c : ascii) :
  gostring.byte (upperByte c)
  = if ((97 <=? gostring.byte c) && (gostring.byte c <=? 122))%Z
    then gostring.byte c - 32 else gostring.byte c.
Proof.
  unfold upperByte. cbv zeta.
  destruct ((97 <=? gostring.byte c) && (gostring.byte c <=? 122))%Z eqn:E;
    [|reflexivity].
  apply andb_true_iff in E. destruct E as [E1 E2].
  apply Z.leb_le in E1, E2. apply byte_of_small. lia.
Qed.

Section TitleASCII.

Variable IsLetter : Z -> bool.
Variable IsDigit : Z -> bool.
Variable toTitleCase : Z -> Z.

Lemma isSeparator_ascii (c : ascii) :
  asciiByte c = true ->
  strings.isSeparator IsLetter IsDigit (gostring.byte c)
  = negb (identByte c).
Proof.
  unfold asciiByte, utf8.RuneSelf, strings.isSeparator, identByte.
  intros H. apply Z.ltb_lt in H. cbv zeta.
  replace (gostring.byte c <=? 127)%Z with true
    by (symmetry; apply Z.leb_le; lia).
  destruct ((48 <=? gostring.byte c) && (gostring.byte c <=? 57))%Z;
    [reflexivity|].
  destruct ((97 <=? gostring.byte c) && (gostring.byte c <=? 122))%Z;
    [reflexivity|].
  destruct ((65 <=? gostring.byte c) && (gostring.byte c <=? 90))%Z;
    [reflexivity|].
  destruct (gostring.byte c =? 95)%Z; reflexivity.
Qed.

Lemma ToTitle_ascii (c : ascii) :
  asciiByte c = true ->
  unicode.ToTitle toTitleCase (gostring.byte c)
  = gostring.byte (upperByte c).
Proof.
  unfold asciiByte, utf8.RuneSelf, unicode.ToTitle, unicode.MaxASCII.
  intros H. apply Z.ltb_lt in H.
  replace (gostring.byte c <=? 127)%Z with true
    by (symmetry; apply Z.leb_le; lia).
  rewrite upperByte_byte. reflexivity.
Qed.

Lemma upperByte_ascii (c : ascii) :
  asciiByte c = true -> asciiByte (upperByte c) = true.
Proof.
  unfold asciiByte, utf8.RuneSelf. intros H. apply Z.ltb_lt in H.
  apply Z.ltb_lt. rewrite upperByte_byte.
  destruct ((97 <=? gostring.byte c) && (gostring.byte c <=? 122))%Z; lia.
Qed.

Lemma AppendRune_ascii (c : ascii) :
  asciiByte c = true ->
  utf8.AppendRune (gostring.byte c) = String c EmptyString.
Proof.
  unfold asciiByte, utf8.RuneSelf. intros H. apply Z.ltb_lt in H.
  pose proof (byte_range c) as B.
  unfold utf8.AppendRune. cbv zeta.
  rewrite (Z.mod_small (gostring.byte c) (2 ^ 32)) by lia.
  replace (gostring.byte c <=? 127)%Z with true
    by (symmetry; apply Z.leb_le; lia).
  unfold utf8.byteOf. rewrite Z.mod_small by lia.
  rewrite byte_ascii. reflexivity.
Qed.

Lemma byte_inj (a b : ascii) : gostring.byte a = gostring.byte b -> a = b.
Proof.
  intros E. rewrite <- (byte_ascii a), <- (byte_ascii b), E. reflexivity.
Qed.

(** On ASCII bytes the two loops of [Map] write the same bytes. *)
Lemma Map_loop_ascii (s : string) :
  forall (prev : ascii) (keep changed : bool),
    allBytes asciiByte s = true -> asciiByte prev = true ->
    strings.Map_loop (strings.titleMapping IsLetter IsDigit toTitleCase)
                     s 0 keep changed (gostring.byte prev)
    = titleASCII s prev.
Proof.
  induction s as [|c s IH]; intros prev keep changed Hs Hp; [reflexivity|].
  apply allBytes_String in Hs. destruct Hs as [Hc Hs].
  cbn [strings.Map_loop titleASCII].
  rewrite decode_ascii by exact Hc.
  unfold strings.titleMapping at 1.
  rewrite isSeparator_ascii by exact Hp.
  change (Z.to_nat (1 - 1)) with 0%nat.
  pose proof (byte_range c) as B.
  assert (NE : (gostring.byte c =? utf8.RuneError)%Z = false).
  { apply Z.eqb_neq. unfold asciiByte, utf8.RuneSelf in Hc.
    apply Z.ltb_lt in Hc. unfold utf8.RuneError. lia. }
  destruct (identByte prev); cbn [negb].
  - (* inside a word *)
    rewrite Z.eqb_refl, NE. cbn [negb orb andb].
    destruct changed; cbn [negb andb].
    + replace (0 <=? gostring.byte c)%Z with true
        by (symmetry; apply Z.leb_le; lia).
      rewrite AppendRune_ascii by exact Hc. cbn [append].
      rewrite IH by assumption. reflexivity.
    + rewrite IH by assumption. reflexivity.
  - rewrite ToTitle_ascii by exact Hc. rewrite NE. cbn [negb orb].
    rewrite andb_true_r.
    destruct (negb changed
              && (gostring.byte (upperByte c) =? gostring.byte c)%Z)%bool
      eqn:E.
    + apply andb_true_iff in E. destruct E as [_ E].
      apply Z.eqb_eq in E. apply byte_inj in E. rewrite E.
      rewrite IH by assumption. reflexivity.
    + pose proof (byte_range (upperByte c)).
      replace (0 <=? gostring.byte (upperByte c))%Z with true
        by (symmetry; apply Z.leb_le; lia).
      rewrite AppendRune_ascii by (apply upperByte_ascii; exact Hc).
      cbn [append]. rewrite IH by assumption. reflexivity.
Qed.

Lemma Title_ascii (s : string) :
  allBytes asciiByte s = true ->
  strings.Title IsLetter IsDigit toTitleCase s = titleASCII s " ".
Proof.
  intros H. unfold strings.Title, strings.Map.
  apply (Map_loop_ascii s " " true false H). reflexivity.
Qed.

End TitleASCII.

(** ** The legacy copy *)

Lemma upperByte_cases (c : ascii) :
  upperByte c = c
  \/ (65 <= gostring.byte (upperByte c) <= 90
      /\ 97 <= gostring.byte c <= 122).
Proof.
  pose proof (upperByte_byte c) as E. unfold upperByte in *. cbv zeta in *.
  destruct ((97 <=? gostring.byte c) && (gostring.byte c <=? 122))%Z eqn:C;
    [|left; reflexivity].
  apply andb_true_iff in C. destruct C as [C1 C2].
  apply Z.leb_le in C1, C2. right. lia.
Qed.

(** A byte that is no ASCII letter is where it was. *)
Lemma upperByte_fixed (b c : ascii) :
  (gostring.byte b < 65)%Z ->
  (Ascii.eqb (upperByte c) b) = Ascii.eqb c b.
Proof.
  intros Hb. destruct (upperByte_cases c) as [->|[U L]]; [reflexivity|].
  destruct (Ascii.eqb_spec (upperByte c) b) as [E|_].
  - rewrite E in U. lia.
  - destruct (Ascii.eqb_spec c b) as [E|_]; [|reflexivity].
    rewrite E in L. lia.
Qed.

Lemma titleByte_fixed (b c prev : ascii) :
  (gostring.byte b < 65)%Z ->
  Ascii.eqb (if identByte prev then c else upperByte c) b = Ascii.eqb c b.
Proof.
  intros Hb. destruct (identByte prev); [reflexivity|].
  apply upperByte_fixed. exact Hb.
Qed.

Lemma titleASCII_notByte (b : ascii) (s : string) (prev : ascii) :
  (gostring.byte b < 65)%Z ->
  allBytes (notByte b) (titleASCII s prev) = allBytes (notByte b) s.
Proof.
  intros Hb. revert prev. induction s as [|c s IH]; intros prev; [reflexivity|].
  cbn [titleASCII allBytes]. rewrite IH. unfold notByte.
  rewrite titleByte_fixed by exact Hb. reflexivity.
Qed.

Lemma titleASCII_eqb (t s : string) (prev : ascii) :
  allBytes (fun b => gostring.byte b <? 65)%Z t = true ->
  String.eqb (titleASCII s prev) t = String.eqb s t.
Proof.
  revert s prev. induction t as [|b t IH]; intros s prev Ht.
  - destruct s; reflexivity.
  - apply allBytes_String in Ht. destruct Ht as [Hb Ht].
    apply Z.ltb_lt in Hb.
    destruct s as [|c s]; [reflexivity|].
    cbn [titleASCII String.eqb].
    rewrite titleByte_fixed by exact Hb. rewrite IH by exact Ht.
    reflexivity.
Qed.

Lemma titleASCII_ascii (s : string) (prev : ascii) :
  allBytes asciiByte s = true ->
  allBytes asciiByte (titleASCII s prev) = true.
Proof.
  revert prev. induction s as [|c s IH]; intros prev H; [reflexivity|].
  apply allBytes_String in H. destruct H as [Hc Hs].
  cbn [titleASCII allBytes]. rewrite IH by exact Hs.
  destruct (identByte prev); [rewrite Hc; reflexivity|].
  rewrite upperByte_ascii by exact Hc. reflexivity.
Qed.

Lemma titleASCII_isName (e : string) (prev : ascii) :
  isName (titleASCII e prev) = isName e.
Proof.
  unfold isName.
  rewrite (titleASCII_notByte "/") by (cbn; lia).
  rewrite !titleASCII_eqb by reflexivity.
  destruct e; reflexivity.
Qed.

Lemma sapp_inv_head (d a b : string) : d ++ a = d ++ b -> a = b.
Proof.
  induction d as [|c d IH]; cbn [append]; intros E; [exact E|].
  apply IH. congruence.
Qed.

(** A word after a byte that ends a word is capitalized; inside the
    word nothing changes. *)
Lemma titleASCII_word (w rest : string) (prev : ascii) :
  allBytes identByte w = true -> identByte prev = true ->
  titleASCII (w ++ String "." rest) prev
  = w ++ String "." (titleASCII rest ".").
Proof.
  revert prev. induction w as [|c w IH]; intros prev Hw Hp.
  - cbn [append titleASCII]. rewrite Hp. reflexivity.
  - apply allBytes_String in Hw. destruct Hw as [Hc Hw].
    cbn [append titleASCII]. rewrite Hp, IH by assumption. reflexivity.
Qed.

Lemma titleASCII_last (w : string) (prev : ascii) :
  allBytes identByte w = true -> identByte prev = true ->
  titleASCII w prev = w.
Proof.
  revert prev. induction w as [|c w IH]; intros prev Hw Hp; [reflexivity|].
  apply allBytes_String in Hw. destruct Hw as [Hc Hw].
  cbn [titleASCII]. rewrite Hp, IH by assumption. reflexivity.
Qed.

Lemma titleASCII_name_ext (name ext : string) :
  isIdent name = true -> isIdent ext = true ->
  titleASCII (name ++ String "." ext) " "
  = capitalized name ++ String "." (capitalized ext).
Proof.
  unfold isIdent. rewrite !andb_true_iff, !negb_true_iff.
  intros [N1 N2] [E1 E2].
  destruct name as [|c name]; [discriminate N1|].
  destruct ext as [|c' ext]; [discriminate E1|].
  apply allBytes_String in N2, E2.
  destruct N2 as [Hc Hn], E2 as [Hc' He].
  cbn [append titleASCII capitalized].
  change (identByte " ") with false. cbv iota.
  rewrite titleASCII_word by assumption.
  cbn [titleASCII]. change (identByte ".") with false. cbv iota.
  rewrite titleASCII_last by assumption. reflexivity.
Qed.

Lemma identByte_facts (c : ascii) :
  identByte c = true -> asciiByte c = true /\ notByte "/" c = true.
Proof.
  unfold identByte, asciiByte, notByte, utf8.RuneSelf. cbv zeta. intros H.
  assert (B : 48 <= gostring.byte c < 128).
  { repeat (apply orb_true_iff in H; destruct H as [H|H]);
      try (apply andb_true_iff in H; destruct H as [H1 H2];
           apply Z.leb_le in H1, H2; lia).
    apply Z.eqb_eq in H. lia. }
  split; [apply Z.ltb_lt; lia|].
  destruct (Ascii.eqb_spec c "/") as [->|_]; [|reflexivity].
  cbn in B. lia.
Qed.

Lemma name_ext_isName (name ext : string) :
  isIdent name = true -> isIdent ext = true ->
  isName (name ++ String "." ext) = true
  /\ allBytes asciiByte (name ++ String "." ext) = true.
Proof.
  unfold isIdent. rewrite !andb_true_iff, !negb_true_iff.
  intros [N1 N2] [E1 E2].
  assert (A : forall w, allBytes identByte w = true ->
                        allBytes asciiByte w = true
                        /\ allBytes (notByte "/") w = true).
  { intros w H. split; refine (allBytes_impl _ _ w _ H); intros c Hc;
      apply (identByte_facts c Hc). }
  destruct (A name N2) as [A1 A2]. destruct (A ext E2) as [A3 A4].
  split.
  - unfold isName. rewrite allBytes_app. cbn [allBytes].
    rewrite A2, A4.
    destruct name as [|c name]; [discriminate N1|].
    destruct ext as [|c' ext]; [discriminate E1|].
    cbn [append isEmpty negb andb].
    change (notByte "/" ".") with true. cbn [andb].
    destruct name as [|c1 [|c2 name]]; cbn [append String.eqb];
      repeat match goal with
             | |- context [Ascii.eqb ?a ?b] => destruct (Ascii.eqb a b)
             end; reflexivity.
  - rewrite allBytes_app. cbn [allBytes]. rewrite A1, A3. reflexivity.
Qed.

Section LegacyCopy.

Variable IsLetter : Z -> bool.
Variable IsDigit : Z -> bool.
Variable toTitleCase : Z -> Z.

Lemma Title_isName (file : string) :
  isName file = true -> allBytes asciiByte file = true ->
  isName (strings.Title IsLetter IsDigit toTitleCase file) = true.
Proof.
  intros N A. rewrite Title_ascii by exact A.
  rewrite titleASCII_isName. exact N.
Qed.

Lemma destFilename_dir_name (dir file : string) :
  isName file = true ->
  isName (strings.Title IsLetter IsDigit toTitleCase file) = true ->
  destFilename IsLetter IsDigit toTitleCase (filepath.Join [dir; file])
  = dirPrefix dir ++ strings.Title IsLetter IsDigit toTitleCase file.
Proof.
  intros N T. rewrite Join_dir_name by exact N.
  unfold destFilename.
  destruct (isName_facts file N) as (_ & N2 & _).
  rewrite Base_dir_name by (try assumption; apply dirPrefix_end).
  rewrite Dir_dir_name by (try assumption; apply dirPrefix_end).
  rewrite Join_dir_name by exact T.
  rewrite dirPrefix_Clean. reflexivity.
Qed.

(** X16 The legacy copy of a list file is made in the directory
    of the list file, under the title form of its name: for every
    directory path and every ASCII file name, the file that
    [copyFileLegacy] creates for [Join(dir, file)] is
    [Join(dir, Title(file))]. *)
Theorem legacy_copy_beside_source (dir file : string) :
  isName file = true -> allBytes asciiByte file = true ->
  destFilename IsLetter IsDigit toTitleCase (filepath.Join [dir; file])
  = filepath.Join [dir; strings.Title IsLetter IsDigit toTitleCase file].
Proof.
  intros N A. pose proof (Title_isName file N A) as T.
  rewrite destFilename_dir_name by assumption.
  rewrite Join_dir_name by exact T. reflexivity.
Qed.

(** X17 The legacy name capitalizes the extension too: for a
    file [name.ext] of letters, digits and underscores the legacy
    copy is [Name.Ext] in the same directory, so that [discord.lst]
    is copied to [Discord.Lst]. *)
Theorem legacy_copy_capitalizes (dir name ext : string) :
  isIdent name = true -> isIdent ext = true ->
  destFilename IsLetter IsDigit toTitleCase
               (filepath.Join [dir; name ++ String "." ext])
  = filepath.Join [dir; capitalized name ++ String "." (capitalized ext)].
Proof.
  intros Hn He. destruct (name_ext_isName name ext Hn He) as [N A].
  pose proof (Title_isName _ N A) as T.
  rewrite destFilename_dir_name by assumption.
  assert (E : strings.Title IsLetter IsDigit toTitleCase
                (name ++ String "." ext)
              = capitalized name ++ String "." (capitalized ext)).
  { rewrite Title_ascii by exact A.
    apply titleASCII_name_ext; assumption. }
  rewrite E in *. rewrite Join_dir_name by exact T. reflexivity.
Qed.

(** X18 The file created for the legacy copy of a list is the
    file [other] of the same directory exactly when [other] is the
    title form of the list's file name; so it is the list file itself
    exactly when that name is in title form already. *)
Theorem legacy_copy_overwrites_iff (dir file other : string) :
  isName file = true -> allBytes asciiByte file = true ->
  isName other = true ->
  destFilename IsLetter IsDigit toTitleCase (filepath.Join [dir; file])
  = filepath.Join [dir; other]
  <-> strings.Title IsLetter IsDigit toTitleCase file = other.
Proof.
  intros N A O. pose proof (Title_isName file N A) as T.
  rewrite destFilename_dir_name by assumption.
  rewrite Join_dir_name by exact O.
  split.
  - apply sapp_inv_head.
  - intros ->. reflexivity.
Qed.

End LegacyCopy.

(** ** The files of the RouterOS scripts *)

Lemma Clean_dirPrefix (dir : string) :
  filepath.Clean (dirPrefix dir) = filepath.Clean dir.
Proof.
  unfold dirPrefix, filepath.Clean at 2.
  pose proof (Cleaned_start dir) as H.
  destruct (filepath.cleanStart dir) as [out dd]. cbn [fst snd] in *.
  destruct (withSeparator_cases _ _ _ H) as [[W No]|[W [_ [[-> _]|[-> _]]]]].
  - destruct (Cleaned_reread _ _ _ H No) as [R1 R2].
    rewrite W, srev_String. unfold filepath.Clean.
    rewrite cleanStart_snoc; [|apply rev_nonempty; exact No | reflexivity].
    rewrite R1. cbn [cleanElement isEmpty orb fst].
    reflexivity.
  - rewrite W. reflexivity.
  - rewrite W. reflexivity.
Qed.

Lemma Clean_idempotent (path : string) :
  filepath.Clean (filepath.Clean path) = filepath.Clean path.
Proof.
  unfold filepath.Clean at 2 3.
  pose proof (Cleaned_start path) as H.
  destruct (filepath.cleanStart path) as [out dd]. cbn [fst snd] in *.
  destruct out as [|c out]; [reflexivity|].
  destruct (Cleaned_reread _ _ _ H) as [R1 _]; [discriminate|].
  unfold filepath.Clean. rewrite R1. reflexivity.
Qed.

Lemma Join_cleaned (dir e : string) :
  e <> EmptyString -> filepath.Clean (filepath.Join [dir; e]) = filepath.Join [dir; e].
Proof.
  intros Ne. destruct dir as [|c dir].
  - cbn [filepath.Join]. destruct e; [contradiction|]. apply Clean_idempotent.
  - apply Clean_idempotent.
Qed.

Lemma script_isName (listName : string) :
  allBytes (notByte "/") listName = true ->
  isName (listName ++ ".rsc") = true.
Proof.
  intros H. unfold isName. rewrite allBytes_app, H.
  destruct listName as [|c [|c1 [|c2 l]]]; cbn [append String.eqb isEmpty];
    repeat match goal with
           | |- context [Ascii.eqb ?a ?b] => destruct (Ascii.eqb a b)
           end; reflexivity.
Qed.

Lemma script_dir_base (outputDir listName : string) :
  allBytes (notByte "/") listName = true ->
  filepath.Dir (scriptFilename outputDir listName) = filepath.Clean outputDir
  /\ filepath.Base (scriptFilename outputDir listName) = listName ++ ".rsc".
Proof.
  intros H. pose proof (script_isName listName H) as N.
  destruct (isName_facts _ N) as (_ & N2 & _).
  unfold scriptFilename. rewrite Join_dir_name by exact N. split.
  - rewrite Dir_dir_name by (try assumption; apply dirPrefix_end).
    apply Clean_dirPrefix.
  - apply Base_dir_name; [apply dirPrefix_end | exact N].
Qed.

(** X19 For a list name without a separator, the v6 and the v7
    script of the list are created directly in the directories
    [Join(outputDir, "v6")] and [Join(outputDir, "v7")], the ones that
    [createDirs] makes, under the list name with [.rsc]; the two
    directories differ, so no v6 script is the v7 script of any list. *)
Theorem scripts_in_version_directories (outputDir listName : string) :
  allBytes (notByte "/") listName = true ->
  filepath.Dir (scriptFilename (v6Dir outputDir) listName) = v6Dir outputDir
  /\ filepath.Dir (scriptFilename (v7Dir outputDir) listName)
     = v7Dir outputDir
  /\ filepath.Base (scriptFilename (v6Dir outputDir) listName)
     = listName ++ ".rsc"
  /\ filepath.Base (scriptFilename (v7Dir outputDir) listName)
     = listName ++ ".rsc"
  /\ v6Dir outputDir <> v7Dir outputDir.
Proof.
  intros H.
  destruct (script_dir_base (v6Dir outputDir) listName H) as [D6 B6].
  destruct (script_dir_base (v7Dir outputDir) listName H) as [D7 B7].
  unfold v6Dir, v7Dir in *.
  rewrite Join_cleaned in D6 by discriminate.
  rewrite Join_cleaned in D7 by discriminate.
  repeat split; try assumption.
  rewrite !Join_dir_name by reflexivity.
  intros E. apply sapp_inv_head in E. discriminate E.
Qed.

(** ** The text of the RouterOS scripts *)

Lemma countByte_app (b : ascii) (x y : string) :
  countByte b (x ++ y) = countByte b x + countByte b y.
Proof.
  induction x as [|c x IH]; cbn [append countByte]; [reflexivity|].
  rewrite IH. lia.
Qed.

Lemma braceFree_count (s : string) :
  braceFree s = true -> countByte "{" s = 0 /\ countByte "}" s = 0.
Proof.
  unfold braceFree. induction s as [|c s IH]; intros H; [split; reflexivity|].
  apply allBytes_String in H. destruct H as [Hc Hs].
  apply andb_true_iff in Hc. destruct Hc as [H1 H2].
  unfold notByte in H1, H2. apply negb_true_iff in H1, H2.
  destruct (IH Hs) as [I1 I2].
  cbn [countByte]. rewrite H1, H2, I1, I2. split; reflexivity.
Qed.

Lemma plain_braceFree (s : string) :
  allBytes plain s = true -> braceFree s = true.
Proof.
  apply allBytes_impl. intros c. unfold plain, notByte.
  intros H.
  destruct (Ascii.eqb_spec c "{") as [->|_]; [discriminate H|].
  destruct (Ascii.eqb_spec c "}") as [->|_]; [discriminate H|].
  reflexivity.
Qed.

Ltac count_braces :=
  cbn [String.concat]; rewrite ?countByte_app;
  repeat match goal with
         | H : countByte _ ?s = 0 |- context [countByte _ ?s] => rewrite H
         end;
  reflexivity.

Section ScriptText.

Variable string6 : Z -> string -> string.

Lemma addressCommand_braces (path listName comment : string)
      (prefix : netip.Prefix) :
  braceFree path = true -> braceFree listName = true ->
  braceFree comment = true -> validV4 prefix ->
  countByte "{" (addressCommand string6 path listName comment prefix) = 2
  /\ countByte "}" (addressCommand string6 path listName comment prefix)
     = 2.
Proof.
  intros Hp Hl Hc (a & Ea & _ & Rb).
  destruct (Prefix_String_plain string6 prefix a Ea Rb) as [Pl _].
  apply plain_braceFree in Pl.
  destruct (braceFree_count _ Hp) as [P1 P2].
  destruct (braceFree_count _ Hl) as [L1 L2].
  destruct (braceFree_count _ Hc) as [C1 C2].
  destruct (braceFree_count _ Pl) as [X1 X2].
  unfold addressCommand. split; count_braces.
Qed.

Lemma routingScript_braces (manglePath listName routePath gateway : string) :
  braceFree manglePath = true -> braceFree listName = true ->
  braceFree routePath = true -> braceFree gateway = true ->
  countByte "{" (routingScript manglePath listName routePath gateway) = 7
  /\ countByte "}" (routingScript manglePath listName routePath gateway)
     = 5.
Proof.
  intros Hm Hl Hr Hg.
  destruct (braceFree_count _ Hm) as [M1 M2].
  destruct (braceFree_count _ Hl) as [L1 L2].
  destruct (braceFree_count _ Hr) as [R1 R2].
  destruct (braceFree_count _ Hg) as [G1 G2].
  unfold routingScript. split; count_braces.
Qed.

Lemma commands_braces (path listName comment : string)
      (prefixes : list netip.Prefix) :
  braceFree path = true -> braceFree listName = true ->
  braceFree comment = true -> Forall validV4 prefixes ->
  forall file b,
    b = "{"%char \/ b = "}"%char ->
    countByte b
      (fold_left
         (fun file prefix =>
            file ++ addressCommand string6 path listName comment prefix)
         prefixes file)
    = countByte b file + 2 * Z.of_nat (List.length prefixes).
Proof.
  intros Hp Hl Hc Hv.
  induction Hv as [|p ps Vp Vps IH]; intros file b Hb.
  - cbn [fold_left List.length]. lia.
  - cbn [fold_left List.length]. rewrite IH by exact Hb.
    rewrite countByte_app.
    destruct (addressCommand_braces path listName comment p Hp Hl Hc Vp)
      as [A1 A2].
    destruct Hb as [->| ->]; [rewrite A1 | rewrite A2]; lia.
Qed.

(** X20 The script written for a list never closes all the
    blocks it opens: when neither the list name, the comment nor the
    gateway holds a brace, the text has two more opening than closing
    braces, for every version and every list of prefixes; the commands
    of the prefixes are balanced and the routing block at the end is
    not. *)
Theorem script_leaves_blocks_open (listName comment : string)
        (prefixes : list netip.Prefix) (version gateway : string) :
  braceFree listName = true -> braceFree comment = true ->
  braceFree gateway = true -> Forall validV4 prefixes ->
  countByte "{" (generateRouterOSVersionedConfig
                   string6 listName comment prefixes version gateway)
  = countByte "}" (generateRouterOSVersionedConfig
                     string6 listName comment prefixes version gateway)
    + 2.
Proof.
  intros Hl Hc Hg Hv. unfold generateRouterOSVersionedConfig. cbv zeta.
  rewrite !countByte_app.
  assert (Hp : braceFree (if String.eqb version "v6"
                          then "/ip firewall address-list"
                          else "/ip/firewall/address-list") = true)
    by (destruct (String.eqb version "v6"); reflexivity).
  assert (Hm : braceFree (if String.eqb version "v7"
                          then "/ip/firewall/mangle"
                          else "/ip firewall mangle") = true)
    by (destruct (String.eqb version "v7"); reflexivity).
  assert (Hr : braceFree (if String.eqb version "v7"
                          then "/ip/route" else "/ip route") = true)
    by (destruct (String.eqb version "v7"); reflexivity).
  rewrite !(commands_braces _ listName comment prefixes Hp Hl Hc Hv)
    by (auto).
  destruct (routingScript_braces _ listName _ gateway Hm Hl Hr Hg)
    as [-> ->].
  cbn [countByte]. lia.
Qed.

End ScriptText.

(** ** The further theorems at concrete inputs *)

(** Coverage of concrete texts, by evaluating their ranges. *)
Ltac cover_ranges :=
  rewrite ?InInput_Covered;
  repeat match goal with
         | |- context [flat_map ?f ?l] =>
             let v := eval vm_compute in (flat_map f l) in
             replace (flat_map f l) with v by (vm_compute; reflexivity)
         end;
  rewrite ?Covered_cons, ?Covered_nil; unfold InRange;
  cbn [netipx.from netipx.to].

(** Two /24s under one AS, their /23 under another AS, and the same
    addresses as three lines of a ready list. *)
Lemma same_coverage_same_prefixes_witness :
  fst (processSubnets rejectIPv6
         [mkSubnetAS "10.0.0.0/24" "AS1"; mkSubnetAS "10.0.1.0/24" "AS1";
          mkSubnetAS "192.0.2.0/24" "AS2"]%list "AS1")
  = fst (processSubnets rejectIPv6 [mkSubnetAS "10.0.0.0/23" "AS9"]%list "AS9")
  /\ fst (processSubnets rejectIPv6
            [mkSubnetAS "10.0.0.0/24" "AS1"; mkSubnetAS "10.0.1.0/24" "AS1";
             mkSubnetAS "192.0.2.0/24" "AS2"]%list "AS1")
     = fst (downloadReadySubnets rejectIPv6
              (Ok ("10.0.1.0/24" ++ String "010" "10.0.0.0/25"
                   ++ String "010" "10.0.0.128/25"))).
Proof.
  apply (same_coverage_same_prefixes rejectIPv6).
  - intros x. cover_ranges. lia.
  - intros x. cover_ranges. lia.
Defined.

(** A /24 inside a /23 that is already in the table. *)
Lemma covered_entry_absorbed_witness :
  v4PrefixOf rejectIPv6 (subnet (mkSubnetAS "10.0.1.0/24" "AS1"))
  = Some (prefix4 10 0 1 0 24)
  /\ fst (processSubnets rejectIPv6
            ([mkSubnetAS "10.0.0.0/23" "AS1"]
               ++ mkSubnetAS "10.0.1.0/24" "AS1"
               :: [mkSubnetAS "192.0.2.0/24" "AS1"])%list "AS1")
     = fst (processSubnets rejectIPv6
              ([mkSubnetAS "10.0.0.0/23" "AS1"]
                 ++ [mkSubnetAS "192.0.2.0/24" "AS1"])%list "AS1").
Proof.
  split; [vm_compute; reflexivity|].
  apply (covered_entry_absorbed rejectIPv6 _ _ _ "AS1" (prefix4 10 0 1 0 24)).
  - vm_compute. reflexivity.
  - intros x Hx Hc.
    apply (Contains_toRange (prefix4 10 0 1 0 24) (ip4 10 0 1 0) x eq_refl)
      in Hc; [| vm_compute; split; [discriminate | reflexivity]
              | cbn [netip.bits prefix4]; lia | exact Hx].
    replace (toRange (prefix4 10 0 1 0 24))
      with (netipx.mkRange 167772416 167772671) in Hc
      by (vm_compute; reflexivity).
    unfold InRange in Hc. cbn [netipx.from netipx.to] in Hc.
    cover_ranges. lia.
Defined.

(** A ready list with blank lines, padding and carriage returns. *)
Lemma readers_ignore_layout_witness :
  forallb okRow
    [("  ", "10.0.0.0/24", String "013" EmptyString); (EmptyString, EmptyString, String "009" " ");
     (String "009" EmptyString, "not-an-ip", " "); (EmptyString, "10.0.1.0/24", EmptyString)]%list
  = true
  /\ downloadReadySubnets rejectIPv6
       (Ok (joinLines
              (map lineOf
                 [("  ", "10.0.0.0/24", String "013" EmptyString);
                  (EmptyString, EmptyString, String "009" " ");
                  (String "009" EmptyString, "not-an-ip", " ");
                  (EmptyString, "10.0.1.0/24", EmptyString)]%list)))
     = downloadReadySubnets rejectIPv6
         (Ok (joinLines ["10.0.0.0/24"; "not-an-ip"; "10.0.1.0/24"]%list)).
Proof.
  split; [vm_compute; reflexivity|].
  apply (proj1 (readers_ignore_layout rejectIPv6
                  [("  ", "10.0.0.0/24", String "013" EmptyString);
                   (EmptyString, EmptyString, String "009" " ");
                   (String "009" EmptyString, "not-an-ip", " ");
                   (EmptyString, "10.0.1.0/24", EmptyString)]%list
                  ltac:(vm_compute; reflexivity))).
Defined.

(** Two lines, the second one not closed by a newline. *)
Lemma final_newline_optional_witness :
  downloadReadySubnets rejectIPv6
    (Ok (joinLines ["10.0.0.0/24"]%list ++ "10.0.1.0/24"))
  = downloadReadySubnets rejectIPv6
      (Ok (joinLines (["10.0.0.0/24"] ++ ["10.0.1.0/24"])%list))
  /\ downloadBGPTable (Ok (joinLines ["10.0.0.0/24"]%list ++ "10.0.1.0/24"))
     = downloadBGPTable
         (Ok (joinLines (["10.0.0.0/24"] ++ ["10.0.1.0/24"])%list)).
Proof.
  apply (final_newline_optional rejectIPv6 ["10.0.0.0/24"]%list "10.0.1.0/24").
  - vm_compute. reflexivity.
  - vm_compute. reflexivity.
  - discriminate.
Defined.

(** A line of 65536 letters between two valid lines. *)
Lemma overlong_line_truncates_witness :
  bufio.MaxScanTokenSize
  <= gostring.len (fill (Z.to_nat bufio.MaxScanTokenSize) "a")
  /\ downloadReadySubnets rejectIPv6
       (Ok (joinLines ["10.0.0.0/24"]%list
            ++ fill (Z.to_nat bufio.MaxScanTokenSize) "a"
            ++ String "010" ("10.0.1.0/24" ++ String "010" EmptyString)))
     = downloadReadySubnets rejectIPv6 (Ok (joinLines ["10.0.0.0/24"]%list)).
Proof.
  assert (L : bufio.MaxScanTokenSize
              <= gostring.len (fill (Z.to_nat bufio.MaxScanTokenSize) "a"))
    by (vm_compute; discriminate).
  split; [exact L|].
  apply (proj1 (overlong_line_truncates rejectIPv6 ["10.0.0.0/24"]%list
                  (fill (Z.to_nat bufio.MaxScanTokenSize) "a")
                  (String "010" ("10.0.1.0/24" ++ String "010" EmptyString))
                  ltac:(vm_compute; reflexivity)
                  ltac:(vm_compute; reflexivity) L)).
Defined.

(** Three table lines: an entry with a third column and a carriage
    return, a line with one word, and a blank line. *)
Lemma table_rows_parsed_witness :
  forallb okTableRow
    [([(EmptyString, "1.1.1.0/24"); (" ", "13335"); (String "009" " ", "1262")]%list,
      String "013" EmptyString);
     ([("  ", "garbage")]%list, EmptyString);
     ([]%list, "  ")]%list
  = true
  /\ downloadBGPTable
       (Ok (joinLines
              (map tableLine
                 [([(EmptyString, "1.1.1.0/24"); (" ", "13335");
                    (String "009" " ", "1262")]%list, String "013" EmptyString);
                  ([("  ", "garbage")]%list, EmptyString);
                  ([]%list, "  ")]%list)))
     = Ok [mkSubnetAS "1.1.1.0/24" "13335"]%list.
Proof.
  split; [vm_compute; reflexivity|].
  apply (table_rows_parsed
           [([(EmptyString, "1.1.1.0/24"); (" ", "13335");
              (String "009" " ", "1262")]%list, String "013" EmptyString);
            ([("  ", "garbage")]%list, EmptyString);
            ([]%list, "  ")]%list
           ltac:(vm_compute; reflexivity)).
Defined.

(** The list of Discord in [Subnets/IPv4]. *)
Lemma legacy_copy_beside_source_witness :
  isName "discord.lst" = true
  /\ allBytes asciiByte "discord.lst" = true
  /\ destFilename asciiOnly asciiOnly sameRune
       (filepath.Join ["Subnets/IPv4"; "discord.lst"]%list)
     = filepath.Join
         ["Subnets/IPv4";
          strings.Title asciiOnly asciiOnly sameRune "discord.lst"]%list.
Proof.
  split; [reflexivity|]. split; [reflexivity|].
  apply (legacy_copy_beside_source asciiOnly asciiOnly sameRune
           "Subnets/IPv4" "discord.lst"); reflexivity.
Defined.

(** The same list from a directory that is not in cleaned form. *)
Lemma legacy_copy_capitalizes_witness :
  isIdent "discord" = true /\ isIdent "lst" = true
  /\ destFilename asciiOnly asciiOnly sameRune
       (filepath.Join
          ["./Subnets//IPv4/"; ("discord" ++ String "." "lst")%string]%list)
     = filepath.Join
         ["./Subnets//IPv4/";
          (capitalized "discord"
           ++ String "." (capitalized "lst"))%string]%list.
Proof.
  split; [reflexivity|]. split; [reflexivity|].
  apply (legacy_copy_capitalizes asciiOnly asciiOnly sameRune
           "./Subnets//IPv4/" "discord" "lst"); reflexivity.
Defined.

(** A name in title form: the copy is made onto the list itself. *)
Lemma legacy_copy_overwrites_iff_witness :
  isName "Meta.Lst" = true /\ allBytes asciiByte "Meta.Lst" = true
  /\ (destFilename asciiOnly asciiOnly sameRune
        (filepath.Join ["Subnets/IPv4"; "Meta.Lst"]%list)
      = filepath.Join ["Subnets/IPv4"; "Meta.Lst"]%list
      <-> strings.Title asciiOnly asciiOnly sameRune "Meta.Lst" = "Meta.Lst").
Proof.
  split; [reflexivity|]. split; [reflexivity|].
  apply (legacy_copy_overwrites_iff asciiOnly asciiOnly sameRune
           "Subnets/IPv4" "Meta.Lst" "Meta.Lst"); reflexivity.
Defined.

(** The scripts of the list [discord] under [RouterOS]. *)
Lemma scripts_in_version_directories_witness :
  allBytes (notByte "/") "discord" = true
  /\ filepath.Dir (scriptFilename (v6Dir "RouterOS") "discord")
     = v6Dir "RouterOS"
  /\ filepath.Dir (scriptFilename (v7Dir "RouterOS") "discord")
     = v7Dir "RouterOS"
  /\ filepath.Base (scriptFilename (v6Dir "RouterOS") "discord")
     = "discord" ++ ".rsc"
  /\ filepath.Base (scriptFilename (v7Dir "RouterOS") "discord")
     = "discord" ++ ".rsc"
  /\ v6Dir "RouterOS" <> v7Dir "RouterOS".
Proof.
  split; [reflexivity|].
  apply (scripts_in_version_directories "RouterOS" "discord"). reflexivity.
Defined.

(** The v7 script of two prefixes. *)
Lemma script_leaves_blocks_open_witness :
  braceFree "discord" = true /\ braceFree "DISCORD" = true
  /\ braceFree "192.168.88.1" = true
  /\ Forall validV4 [prefix4 10 0 0 0 8; prefix4 192 0 2 0 24]%list
  /\ countByte "{"
       (generateRouterOSVersionedConfig
          printNoIPv6 "discord" "DISCORD"
          [prefix4 10 0 0 0 8; prefix4 192 0 2 0 24]%list "v7" "192.168.88.1")
     = countByte "}"
         (generateRouterOSVersionedConfig
            printNoIPv6 "discord" "DISCORD"
            [prefix4 10 0 0 0 8; prefix4 192 0 2 0 24]%list "v7"
            "192.168.88.1")
       + 2.
Proof.
  assert (V : Forall validV4 [prefix4 10 0 0 0 8; prefix4 192 0 2 0 24]%list).
  { repeat constructor.
    - exists (ip4 10 0 0 0). vm_compute. repeat split; congruence.
    - exists (ip4 192 0 2 0). vm_compute. repeat split; congruence. }
  split; [reflexivity|]. split; [reflexivity|]. split; [reflexivity|].
  split; [exact V|].
  apply (script_leaves_blocks_open printNoIPv6 "discord" "DISCORD" _ "v7"
           "192.168.88.1"); try reflexivity.
  exact V.
Defined.

(** C6 at the text ["10.0.1.77/24"], whose host bits are not zero:
    alone in a table and alone in a ready list. *)
Lemma host_bits_masked_witness :
  netip_text.ParsePrefix rejectIPv6 "10.0.1.77/24" = Ok (prefix4 10 0 1 77 24)
  /\ netip.ip (prefix4 10 0 1 77 24) = netip.Addr4 (ip4 10 0 1 77)
  /\ forallb fitsScanner ["192.0.2.0/24"]%list = true
  /\ forallb fitsScanner ["not-an-ip"]%list = true
  /\ processSubnets rejectIPv6 [mkSubnetAS "10.0.1.77/24" "AS1"]%list "AS1"
     = (Some [prefix4 10 0 1 0 24]%list, None, []%list)
  /\ downloadReadySubnets rejectIPv6 (Ok (joinLines ["10.0.1.77/24"]%list))
     = (Some [prefix4 10 0 1 0 24]%list, None, []%list).
Proof.
  pose proof (host_bits_masked rejectIPv6
                []%list [mkSubnetAS "192.0.2.0/24" "AS1"]%list []%list "AS1"
                EmptyString ["192.0.2.0/24"]%list ["not-an-ip"]%list
                "10.0.1.77/24" (prefix4 10 0 1 77 24) (ip4 10 0 1 77)
                ltac:(vm_compute; reflexivity) eq_refl
                ltac:(vm_compute; reflexivity)
                ltac:(vm_compute; reflexivity)) as (_ & H1 & H2 & _).
  split; [vm_compute; reflexivity|]. split; [reflexivity|].
  split; [vm_compute; reflexivity|]. split; [vm_compute; reflexivity|].
  split; [exact H1 | exact H2].
Defined.

(** C4 at a ready list of four lines, one malformed and one blank. *)
Lemma malformed_lines_logged_witness :
  forallb fitsScanner
    ["10.0.0.0/24"; "not-an-ip"; EmptyString; "10.0.1.0/24"]%list = true
  /\ exists out,
      downloadReadySubnets rejectIPv6
        (Ok (joinLines ["10.0.0.0/24"; "not-an-ip"; EmptyString; "10.0.1.0/24"]%list))
      = (Some out, None, ["Invalid subnet: not-an-ip"]%list)
      /\ downloadReadySplitSubnets rejectIPv6
           (Ok (joinLines
                  ["10.0.0.0/24"; "not-an-ip"; EmptyString; "10.0.1.0/24"]%list))
         = (Some out, None, ["Invalid subnet: not-an-ip"]%list)
      /\ downloadReadySubnets rejectIPv6
           (Ok (joinLines ["10.0.0.0/24"; EmptyString; "10.0.1.0/24"]%list))
         = (Some out, None, []%list).
Proof.
  split; [vm_compute; reflexivity|].
  destruct (proj2 (malformed_lines_logged rejectIPv6 []%list "AS1"
                     ["10.0.0.0/24"; "not-an-ip"; EmptyString; "10.0.1.0/24"]%list
                     ltac:(vm_compute; reflexivity)))
    as (out & E1 & E2 & E3 & _).
  exists out. split; [exact E1|]. split; [exact E2 | exact E3].
Defined.
